(* ===== verification/_CoqProject ===== *)
-Q . S2P
Prelude.v
Domain.v
Schedule.v
Rand.v
Workload.v
Strconv.v
Ftoa.v
Timefmt.v
Checksum.v
Expect.v
Driver.v
FakeDriver.v
Reconcile.v
Runner.v
Metrics.v
Nemesis.v
Coordinator.v
Worker.v
Kafka.v
KafkaDriver.v
Distributed.v
History.v
Config.v
Engine.v
KeyValue.v
Targets.v
Redis.v
Postgres.v
Clickhouse.v
Cassandra.v
Provision.v
Compose.v
K8s.v
Emit.v
Export.v
Rundir.v
Report.v
Sqltext.v
Warehouse.v
Cli.v
Release.v
Results.v
Fleet.v
