(* ===== verification/Prelude.v ===== *)
(** * proofload: a verified model of the load generator's core

    proofload drives a database or a message broker with a generated workload,
    measures it without coordinated omission, injects faults while it runs and
    checks afterwards that the target kept what it acknowledged.  This library
    models the Go code of the program as executable definitions and step
    relations and proves what makes each part correct.  File names on the left
    are of this library, those on the right are under src/.

    ** Parts and how they interact

    A run goes through [Config] (settings), [Workload] (what to send),
    [Schedule] (when to send it), [Runner] (who sends it), [Driver] (the target),
    [Metrics] (what was measured), [Expect]/[Reconcile] or [History] (whether
    the target was right) and [Nemesis] (what was broken meanwhile).
    [Distributed] runs several such processes under the [Coordinator], each a
    [Worker].  Around it, [Cli] has [Provision] bring a cluster up, [Emit] write
    the artifacts of the run, [Export] push its series, [Report] render it and
    [Warehouse] keep it, and takes everything down again on every way out.

    - [Prelude]: the result type, machine integers ([wrap64], [u64]), list and
      map lemmas, the tactics ([zbool], [unwrap]) and hint databases the other
      files share, and this header.
    - [Domain] (core/domain): the types all layers exchange.
    - [Strconv] (Go's strconv, bufio line splitting, encoding/binary, and
      time.ParseDuration as far as the code uses them).
    - [Schedule] (core/schedule): the open-loop, closed-loop, ramp and Poisson
      schedulers and the pacer.
    - [Rand] (core/nemesis/rand.go and the PCG source core/workload seeds).
    - [Workload] (core/workload): factory, key distributions, generator, values.
    - [Checksum], [Expect], [Reconcile] (core/verify/checksum.go, log.go,
      logwriter.go, reconcile.go): the expectation log and its read-back.
    - [Driver] (core/driver): the ports a target implements, as classes, with
      what closing and opening connections and the clock promise; the registry.
    - [FakeDriver] (core/testutil): the in-memory target.
    - [Runner] (core/runner): connection set-up, the workers, the accumulator.
    - [Metrics] (core/metrics): sharded histograms, merging, intervals, codec.
    - [Nemesis] (core/nemesis, core/cli/faults.go): fault plan and its execution.
    - [Coordinator] (core/cluster): join barrier, submissions, Serve.
    - [Worker] (core/cluster/worker.go, the answers of handlers.go): a worker's calls.
    - [Engine] (core/cli/run.go [drive], testtype.go, verify.go): one unit of load
      execution, the runner's collaborators instantiated with the real parts.
    - [Distributed] (core/cli/distributed.go): splitting and merging a run.
    - [History] (core/verify/history.go, historyio.go, porcupine.go, elle.go).
    - [Config] (core/config): target and workload files, layered settings.
    - [KeyValue]: the interface a key-value target promises, and what a run over
      one is reconciled to.
    - [Targets]: the small functions the target packages repeat.
    - [Redis], [Postgres], [Cassandra], [Clickhouse] (targets/*/*driver):
      statements, options, connections and node reads, each over the class of
      its client's calls, with the instance of [KeyValue] it discharges.
    - [Kafka] (targets/kafka/kafkadriver): configuration, records, transactions
      and the kafka-log verifier; [KafkaDriver] (driver.go, verify.go): the topic,
      the connections and the drain, over the class of franz-go's calls.
    - [Provision] (core/provision): the port, its registry, polling, and what the
      backends share; [Compose] (core/provision/compose) and [K8s]
      (core/provision/k8s): models, rendered files, bring-up, waiting, nodes.
    - [Ftoa], [Timefmt]: the decimal text of a binary64 and calendar text of an
      instant, as the code uses strconv.FormatFloat and time.Format.
    - [Emit] (core/emit): the run directory over a file system whose calls fail and
      that can crash; [Rundir] (path/filepath): its paths taken apart again.
    - [Export] (core/export): the line protocol and the text exposition.
    - [Report] (core/report): the document of a run, byte by byte.
    - [Sqltext]: the SQL the warehouse sends, tokens, parser and meaning;
      [Warehouse] (core/warehouse): the upsert of a run and the query over runs.
    - [Cli] (core/cli): run, worker, schema, list-workloads, report, ingest and runs
      as commands over the process's world, each with its deferred calls.
    - [Release]: a logic of ownership over these commands; [Results]: frames of
      their file operations; [Fleet]: the worker processes of a distributed run.

    ** How code becomes definitions

    A Go function becomes a [Definition] or [Fixpoint] of the same name; an
    error result is [result error T] or [option error]; int and int64 are [Z]
    with [wrap64] where a wrap-around can happen, uint64 with [u64]; time.Time
    and time.Duration are nanosecond counts; float64 is [SpecFloat]; a Go map is
    a [gmap], and a [range] over one takes its order as an argument, so that the
    theorems hold for every order.  Concurrent code is a step relation over the
    shared state ([gstep], [claim_step], [cas_run], [cluster_step]); its
    theorems quantify over every interleaving.  Reads of the clock are arguments.

    A command of [Cli] is a function of the process's world that also returns the
    calls it has deferred; [scope] runs them, last first.  The embedded assets,
    the environment, the flags and the client's description are arguments.

    Code that is not under src/ (HdrHistogram, koanf, franz-go, encoding/json,
    YAML, Parquet, porcupine, elle-cli, the random source, go-redis, pgx, gocql,
    clickhouse-go, net/http, database/sql with DuckDB, math's logarithm, docker and
    kubectl) is a class, a record of functions or a section variable whose laws
    state its documented behaviour: [Histogram], [HLogLines], [Koanf], [Kgo],
    [Formats], codecs, [Http], [PostCall], [ClusterJson], [TempFiles], [Sql],
    [FloatMath], [Shell], [Docker], [Kubectl] and the clients of the targets.  A
    witness instantiates each with a concrete function.  [Services] is the
    interface of [Cli] to the load and to the coordinator's service, which
    [Engine] and [Coordinator] model as relations; [load_drives] in [Fleet] says
    that the one is the other.

    ** What the theorems show

    - Measurement: the accumulator and every sink hold exactly the measured
      calls whatever the interleaving (run_tallies_exact), latency is lateness
      plus service (run_latency_decomposes), sharded and distributed recording
      loses nothing (sharded_recording_exact, distributed_run_exact,
      interval_deltas_telescope, fleet_exact), the client-bound flag means what it says.
    - Generation: every key worker i of n draws is i modulo n within the key space,
      and no draw fails (generator_in_partition).
    - Arrival: intended times are exact and unique under concurrency, the ramp
      refines its recursive specification.
    - Composition: the theorems of [Engine] run the real generator, schedule,
      recorder and observers together against any target: no run panics, report
      and recorder agree, and a run that is recorded, read back and reconciled
      passes exactly when the target kept what it acknowledged
      (run_verified_end_to_end).
    - Correctness checks: reconciliation passes exactly on matching targets and
      convergent replicas, the log reader keeps the last write, the register
      check means what it says and raises no false alarm while reads succeed,
      histories round-trip, the Kafka analysis passes exactly on loss-free,
      duplicate-free logs; one generator's produces pass exactly when no consume
      of a key comes between them (produced_stream_verdict), and a second run on
      a topic is taken for duplication (second_run_reported_duplicated).
    - Faults: the plan is as specified, and a fault that a run leaves behind has its
      error in the timeline, whatever calls fail (Run_accounts_for_faults).
    - Targets: over any key-value target reconciliation raises no false alarm and
      misses no loss (key_value_verified); what each target's calls answer, and
      where a target falls outside the interface: updates that store nothing
      (update_missing_reported_lost), rows of an earlier run
      (stale_row_reported_corrupt), another keyspace
      (convergence_blind_to_keyspace), replicas not reached
      (wait_shortfall_acknowledged).
    - Coordination: the barrier, slot assignment and the completeness of a
      result; rate splitting; what a worker knows when its calls succeed
      (worker_protocol), what it has handed in when it succeeds
      (doWorker_hands_in), and what the merged result then says of the load of
      all workers (fleet_exact).
    - Provisioning: a bring-up resolves the cluster of the topology and a later one
      the same (compose_up_resolves), returns when the containers become ready
      in time (compose_up_live), renders files that mean the model
      (compose_file_faithful), and resolves live pods to the same nodes
      (k8s_nodes_agree).
    - Artifacts: an atomic write survives every failing call and crash
      (writeAtomic_crash_safe), the readers return what the writers wrote
      (artifacts_roundtrip), the exports read back as the snapshots
      (influx_export_faithful, pushgateway_export_summary), the report is well
      formed whatever it shows (report_well_formed), its series has one point
      per instant (aggregate_one_point_per_instant), and the warehouse holds the
      facts of each run once and returns them newest first (Ingest_upserts,
      Runs_newest_first).
    - Commands: when a run of one process succeeds its directory holds the run and
      the report of its verification (doRun_directory);
      however it ends, what it took is given back (doRun_releases).
    - Configuration: precedence of layers; validated workloads and resolved
      broker settings satisfy their constraints.

    ** Fuel

    The ramp's search, the decimal parsers and printers recurse on a bound
    computed from their input (list length, number of digits); the lemmas about
    them have no fuel hypothesis.  The shortest digits of a number are
    searched among at most seventeen, which always identify a binary64.  The waits
    of provisioning take as many polls as their timeout holds intervals
    ([poll_fuel]) and that of reconciliation those of its own ([converge_fuel]):
    every round advances the clock, so the deadline ends the loop first
    (compose_up_live, and the hypotheses of the theorems on reconciliation).  The
    drain of a topic takes its number of polls as an argument, and the theorems
    about it ask for polls that deliver the topic up to its end.  Worker loops are
    step relations, and [run_drains] shows they can always return once the context
    is done.

    ** Not modelled

    The declaration of flags and the choice of a command (cobra), the mains of the
    targets, which only hand a driver to the command line, the description of the
    client machine (clientInfo's calls of the runtime), the blank imports of
    internal/deps, and everything inside third-party code: networking, codecs,
    the SQL engine, docker and kubectl.  The closure [load] and the coordinator's
    listener are not composed into [Cli]'s commands as computations, since both
    are relations over every interleaving; they enter as [Services]. *)

From Stdlib Require Export ZArith Lia.
From Stdlib Require Import Znumtheory.
From Stdlib Require String Ascii.
From stdpp Require Export base numbers list gmap strings sorting.

Local Open Scope Z_scope.

(** ** Errors as values *)

(** A Go function returning [(T, error)]: either the value or the error. *)
Inductive result (E A : Type) : Type :=
| Ok (a : A)
| Err (e : E).
Arguments Ok {E A} a.
Arguments Err {E A} e.

Declare Scope go_scope.
Delimit Scope go_scope with go.

Notation "x <-? c ;; k" :=
  (match c with Ok x => k | Err e => Err e end)
  (at level 60, c at next level, right associativity) : go_scope.

(** ** Machine integers *)

(** Go's [int64] (and [int], [time.Duration] on 64-bit platforms): a [Z] in
    [-2^63, 2^63), arithmetic wraps around. *)
Definition wrap64 (z : Z) : Z := (z + 2^63) mod 2^64 - 2^63.

(** Go's [uint64]: a [Z] in [0, 2^64). *)
Definition u64 (z : Z) : Z := z mod 2^64.

Definition is_i64 (z : Z) : Prop := - 2^63 <= z < 2^63.
Definition is_u64 (z : Z) : Prop := 0 <= z < 2^64.

Definition i64_add (a b : Z) : Z := wrap64 (a + b).
Definition i64_sub (a b : Z) : Z := wrap64 (a - b).
Definition i64_mul (a b : Z) : Z := wrap64 (a * b).

Infix "+!" := i64_add (at level 50, left associativity) : go_scope.
Infix "-!" := i64_sub (at level 50, left associativity) : go_scope.
Infix "*!" := i64_mul (at level 40, left associativity) : go_scope.

#[export] Instance is_i64_dec z : Decision (is_i64 z).
Proof. unfold is_i64. apply _. Defined.
#[export] Instance is_u64_dec z : Decision (is_u64 z).
Proof. unfold is_u64. apply _. Defined.

(** Conversion between the two 64-bit types reinterprets the bits. *)
Definition i64_of_u64 (z : Z) : Z := wrap64 z.
Definition u64_of_i64 (z : Z) : Z := u64 z.

(** Nanoseconds in a second, Go's [time.Second]. *)
Definition second : Z := 1000000000.
Definition millisecond : Z := 1000000.
Definition minute : Z := 60 * second.

(** [t.Sub(u)] on [time.Time] saturates at the extreme [Duration]s. *)
Definition time_sub (t u : Z) : Z := Z.max (- 2^63) (Z.min (2^63 - 1) (t - u)).

Create HintDb golib.
Create Rewrite HintDb golib.

Lemma wrap64_id z : is_i64 z -> wrap64 z = z.
Proof. unfold is_i64, wrap64. intros H. rewrite Z.mod_small; lia. Qed.

Lemma wrap64_range z : is_i64 (wrap64 z).
Proof.
  unfold is_i64, wrap64.
  pose proof (Z.mod_pos_bound (z + 2^63) (2^64)). lia.
Qed.

Lemma wrap64_mod z : wrap64 z mod 2^64 = z mod 2^64.
Proof.
  unfold wrap64. rewrite Zminus_mod_idemp_l. f_equal. lia.
Qed.

Lemma wrap64_add_l a b : wrap64 (wrap64 a + b) = wrap64 (a + b).
Proof.
  unfold wrap64 at 1 3. f_equal.
  rewrite <- (Zplus_mod_idemp_l (a + b)).
  rewrite <- Z.add_assoc, <- (Zplus_mod_idemp_l (wrap64 a)), wrap64_mod.
  rewrite Zplus_mod_idemp_l, Zplus_mod_idemp_l. f_equal. lia.
Qed.

Lemma u64_range z : is_u64 (u64 z).
Proof. unfold is_u64, u64. apply Z.mod_pos_bound. lia. Qed.

Lemma u64_id z : is_u64 z -> u64 z = z.
Proof. unfold is_u64, u64. apply Z.mod_small. Qed.

Lemma i64_u64_i64 z : is_i64 z -> i64_of_u64 (u64_of_i64 z) = z.
Proof.
  intros H. unfold i64_of_u64, u64_of_i64, u64, wrap64.
  rewrite Zplus_mod_idemp_l. unfold is_i64 in H. rewrite Z.mod_small; lia.
Qed.

Lemma u64_i64_u64 z : is_u64 z -> u64_of_i64 (i64_of_u64 z) = z.
Proof.
  intros H. unfold i64_of_u64, u64_of_i64, u64. rewrite wrap64_mod.
  by apply Z.mod_small.
Qed.

Lemma i64_add_id a b : is_i64 (a + b) -> i64_add a b = a + b.
Proof. apply wrap64_id. Qed.
Lemma i64_sub_id a b : is_i64 (a - b) -> i64_sub a b = a - b.
Proof. apply wrap64_id. Qed.
Lemma i64_mul_id a b : is_i64 (a * b) -> i64_mul a b = a * b.
Proof. apply wrap64_id. Qed.

Lemma time_sub_id t u : is_i64 (t - u) -> time_sub t u = t - u.
Proof. unfold is_i64, time_sub. lia. Qed.

Lemma time_sub_range t u : is_i64 (time_sub t u).
Proof. unfold is_i64, time_sub. lia. Qed.

Lemma time_sub_neg t u : time_sub t u < 0 <-> t < u.
Proof. unfold time_sub. lia. Qed.

#[export] Hint Resolve wrap64_range u64_range time_sub_range : golib.
#[export] Hint Rewrite wrap64_id u64_id i64_add_id i64_sub_id i64_mul_id time_sub_id
  using (unfold is_i64, is_u64, second in *; lia) : golib.

(** Discharge the no-overflow side conditions of wrapped arithmetic. *)
Ltac unwrap := autorewrite with golib.

(** Booleans of the code's conditions, as propositions. *)
Ltac zbool :=
  repeat match goal with
  | H : (_ && _)%bool = true |- _ => apply andb_prop in H as [? ?]
  | H : (_ || _)%bool = false |- _ => apply orb_false_elim in H as [? ?]
  | H : negb _ = true |- _ => apply negb_true_iff in H
  | H : negb _ = false |- _ => apply negb_false_iff in H
  | H : (_ <=? _) = true |- _ => apply Z.leb_le in H
  | H : (_ <=? _) = false |- _ => apply Z.leb_gt in H
  | H : (_ <? _) = true |- _ => apply Z.ltb_lt in H
  | H : (_ <? _) = false |- _ => apply Z.ltb_ge in H
  | H : (_ =? _) = true |- _ => apply Z.eqb_eq in H
  | H : (_ =? _) = false |- _ => apply Z.eqb_neq in H
  end.

(** ** Bijective mixing steps on 64-bit words *)

(** Multiplication by an odd constant modulo a power of two is injective. *)
Lemma mul_odd_inj w m a b :
  0 <= w -> Z.odd m = true ->
  0 <= a < 2^w -> 0 <= b < 2^w ->
  (a * m) mod 2^w = (b * m) mod 2^w -> a = b.
Proof.
  intros Hw Hodd Ha Hb Heq.
  assert (Hdiv : (2^w | m * (a - b))).
  { apply Z.mod_divide; [lia|].
    replace (m * (a - b)) with (a * m - b * m) by lia.
    rewrite Zminus_mod, Heq, Z.sub_diag. apply Z.mod_0_l. lia. }
  apply Z.gauss in Hdiv.
  - destruct Hdiv as [q Hq]. assert (q = 0) by nia. subst q. lia.
  - apply Z.coprime_pow_l; [done|]. apply Z.coprime_mod_r_iff.
    rewrite Zmod_odd, Hodd. reflexivity.
Qed.

(** [z ^ (z >> k)] is injective for a positive shift. *)
Definition xorshift (k z : Z) : Z := Z.lxor z (Z.shiftr z k).

Lemma xorshift_inj k a b :
  0 < k -> 0 <= a -> 0 <= b -> xorshift k a = xorshift k b -> a = b.
Proof.
  unfold xorshift. intros Hk Ha Hb Heq.
  set (d := Z.lxor a b).
  assert (Hd : 0 <= d) by (apply Z.lxor_nonneg; lia).
  assert (Hfix : d = Z.shiftr d k).
  { apply Z.lxor_eq. unfold d. rewrite Z.shiftr_lxor.
    rewrite Z.lxor_assoc, (Z.lxor_comm b), Z.lxor_assoc.
    rewrite <- Z.lxor_assoc, (Z.lxor_comm (Z.shiftr b k) b).
    apply Z.lxor_eq_0_iff. exact Heq. }
  rewrite Z.shiftr_div_pow2 in Hfix by lia.
  assert (Hp : 2 <= 2^k) by (apply (Z.pow_le_mono_r 2 1 k); lia).
  assert (d = 0).
  { destruct (Z.eq_dec d 0) as [|Hne]; [done|].
    pose proof (Z.div_lt d (2^k)). lia. }
  apply Z.lxor_eq. fold d. done.
Qed.

Lemma lxor_range w a b :
  0 <= w -> 0 <= a < 2^w -> 0 <= b < 2^w -> 0 <= Z.lxor a b < 2^w.
Proof.
  intros Hw [Ha0 Ha] [Hb0 Hb].
  assert (0 <= Z.lxor a b) by (apply Z.lxor_nonneg; lia).
  split; [done|]. apply Z.bounded_iff_bits_nonneg; [done..|]. intros l Hl.
  rewrite Z.lxor_spec.
  rewrite (proj1 (Z.bounded_iff_bits_nonneg w a Hw Ha0) Ha l Hl).
  by rewrite (proj1 (Z.bounded_iff_bits_nonneg w b Hw Hb0) Hb l Hl).
Qed.

Lemma xorshift_range w k z :
  0 <= w -> 0 <= k -> 0 <= z < 2^w -> 0 <= xorshift k z < 2^w.
Proof.
  intros Hw Hk Hz. apply lxor_range; [done..|].
  rewrite Z.shiftr_div_pow2 by lia. split.
  - apply Z.div_pos; lia.
  - eapply Z.le_lt_trans; [apply Z.div_le_upper_bound with (q := z)|]; nia.
Qed.

(** ** Sorting *)

(** Go's sorts, as a stable insertion sort on a boolean [<=]; a strict Go
    [less] is used through [le_of_less]. *)
Definition le_of_less {A} (less : A -> A -> bool) (x y : A) : bool := negb (less y x).

Fixpoint insert_by {A} (le : A -> A -> bool) (x : A) (l : list A) : list A :=
  match l with
  | [] => [x]
  | y :: l' => if le x y then x :: l else y :: insert_by le x l'
  end.

Fixpoint sort_by {A} (le : A -> A -> bool) (l : list A) : list A :=
  match l with
  | [] => []
  | x :: l' => insert_by le x (sort_by le l')
  end.

Section sorting.
Context {A : Type} (le : A -> A -> bool).

Lemma insert_by_perm x l : insert_by le x l ≡ₚ x :: l.
Proof.
  induction l as [|y l IH]; simpl; [done|].
  destruct (le x y); [done|]. rewrite IH. by constructor.
Qed.

Lemma sort_by_perm l : sort_by le l ≡ₚ l.
Proof.
  induction l as [|x l IH]; simpl; [done|]. by rewrite insert_by_perm, IH.
Qed.

Lemma length_sort_by l : length (sort_by le l) = length l.
Proof. by rewrite sort_by_perm. Qed.

Context (Htotal : forall x y, le x y = true \/ le y x = true).
Context (Htrans : forall x y z, le x y = true -> le y z = true -> le x z = true).

Lemma insert_by_sorted x l :
  StronglySorted le l -> StronglySorted le (insert_by le x l).
Proof.
  induction 1 as [|y l Hl IH Hy]; simpl; [by repeat constructor|].
  destruct (le x y) eqn:E.
  - constructor; [by constructor|]. constructor; [by rewrite E|].
    eapply Forall_impl; [exact Hy|]. simpl. intros z Hz.
    apply Is_true_true. eapply Htrans; [exact E|]. by apply Is_true_true.
  - constructor; [done|]. rewrite insert_by_perm. constructor; [|done].
    apply Is_true_true. destruct (Htotal x y); congruence.
Qed.

Lemma sort_by_sorted l : StronglySorted le (sort_by le l).
Proof. induction l; simpl; [constructor|by apply insert_by_sorted]. Qed.

(** Stability: elements that compare equal keep their order. *)
Lemma insert_by_stable (P : A -> bool) x l :
  (forall a b, P a = true -> P b = true -> le a b = true) ->
  List.filter P (insert_by le x l) = List.filter P (x :: l).
Proof.
  intros HP. induction l as [|y l IH]; [done|]. cbn [insert_by].
  destruct (le x y) eqn:E; [done|].
  cbn [List.filter] in *. rewrite IH.
  destruct (P y) eqn:Ey, (P x) eqn:Ex; try done.
  by rewrite (HP x y Ex Ey) in E.
Qed.

Lemma sort_by_stable (P : A -> bool) l :
  (forall a b, P a = true -> P b = true -> le a b = true) ->
  List.filter P (sort_by le l) = List.filter P l.
Proof.
  intros HP. induction l as [|x l IH]; [done|]. cbn [sort_by].
  rewrite insert_by_stable by done. cbn [List.filter]. by rewrite IH.
Qed.
End sorting.

(** Two sorted permutations agree when the order is antisymmetric on them. *)
Lemma sorted_perm_unique {A} (le : A -> A -> bool) (l k : list A) :
  (forall x y, x ∈ l -> y ∈ l -> le x y = true -> le y x = true -> x = y) ->
  StronglySorted le l -> StronglySorted le k -> l ≡ₚ k -> l = k.
Proof.
  intros Hanti Hl. revert k Hanti.
  induction Hl as [|x l Hl IH Hx]; intros k Hanti Hk Hp.
  { by apply Permutation_nil_l in Hp. }
  destruct Hk as [|y k Hk Hy]; [by apply Permutation_nil_r in Hp|].
  assert (x = y) as <-.
  { assert (Hxk : x ∈ y :: k) by (rewrite <- Hp; left).
    assert (Hyl : y ∈ x :: l) by (rewrite Hp; left).
    apply elem_of_cons in Hxk as [|Hxk]; [done|].
    apply elem_of_cons in Hyl as [|Hyl]; [done|].
    rewrite Forall_forall in Hx, Hy.
    apply Hanti; [by left|by right| |].
    - by apply Is_true_true, Hx.
    - by apply Is_true_true, Hy. }
  f_equal. apply IH; [|done|by apply Permutation_cons_inv in Hp].
  intros a b Ha Hb. apply Hanti; by right.
Qed.

Lemma filter_none {A} (P : A -> bool) l :
  (forall x, x ∈ l -> P x = false) -> List.filter P l = [].
Proof.
  induction l as [|x l IH]; intros H; [done|]. simpl.
  rewrite H by left. apply IH. intros. apply H. by right.
Qed.

Lemma filter_all {A} (P : A -> bool) l :
  (forall x, x ∈ l -> P x = true) -> List.filter P l = l.
Proof.
  induction l as [|x l IH]; intros H; [done|]. simpl.
  rewrite H by left. f_equal. apply IH. intros. apply H. by right.
Qed.

Lemma filter_perm {A} (P : A -> bool) l l' : l ≡ₚ l' -> List.filter P l ≡ₚ List.filter P l'.
Proof.
  induction 1 as [|x l l' _ IH|x y l|l1 l2 l3 _ IH1 _ IH2]; cbn; [done| | |by rewrite IH1].
  - destruct (P x); [by constructor|done].
  - destruct (P x), (P y); try done. apply perm_swap.
Qed.

Lemma StronglySorted_weaken {A} (R R' : A -> A -> Prop) l :
  (forall a b, R a b -> R' a b) -> StronglySorted R l -> StronglySorted R' l.
Proof.
  intros Himp. induction 1 as [|x l _ IH Hx]; constructor; [done|].
  eapply Forall_impl; [exact Hx|]. auto.
Qed.

(** Go's [<=] on strings. *)
Lemma string_leb_trans a b c :
  String.leb a b = true -> String.leb b c = true -> String.leb a c = true.
Proof.
  unfold String.leb. revert b c. induction a as [|x a IH]; intros [|y b] [|z c]; simpl; try done.
  unfold Ascii.compare. intros H1 H2.
  destruct (N.compare_spec (Ascii.N_of_ascii x) (Ascii.N_of_ascii y)) as [E1|L1|G1]; [|clear H1|done];
    (destruct (N.compare_spec (Ascii.N_of_ascii y) (Ascii.N_of_ascii z)) as [E2|L2|G2]; [|clear H2|done]);
    (destruct (N.compare_spec (Ascii.N_of_ascii x) (Ascii.N_of_ascii z)) as [E3|L3|G3]; try lia); try done.
  by eapply IH.
Qed.

Lemma sort_strings_sorted l : StronglySorted String.leb (sort_by String.leb l).
Proof. apply sort_by_sorted; [apply String.leb_total|apply string_leb_trans]. Qed.

(** ** Sums *)

Fixpoint zsum (l : list Z) : Z :=
  match l with [] => 0 | x :: l' => x + zsum l' end.

Lemma zsum_app l k : zsum (l ++ k) = zsum l + zsum k.
Proof. induction l as [|x l IH]; simpl; [done|]. rewrite IH. lia. Qed.

Lemma zsum_perm l k : l ≡ₚ k -> zsum l = zsum k.
Proof. induction 1; simpl; lia. Qed.

#[export] Instance zsum_proper : Proper ((≡ₚ) ==> (=)) zsum.
Proof. intros l k. apply zsum_perm. Qed.

Lemma zsum_nonneg l : Forall (fun x => 0 <= x) l -> 0 <= zsum l.
Proof. induction 1; simpl; lia. Qed.

Lemma zsum_le {A} (f g : A -> Z) l :
  (forall x, x ∈ l -> f x <= g x) -> zsum (f <$> l) <= zsum (g <$> l).
Proof.
  induction l as [|x l IH]; intros H; [done|]. rewrite !fmap_cons. simpl.
  apply Z.add_le_mono; [apply H; left|]. apply IH. intros. apply H. by right.
Qed.
