(* ===== verification/Domain.v ===== *)
(** * Domain: the shared vocabulary (core/domain)

    The data types every layer exchanges.  A Go string enum stays a string
    with its named constants, because the code converts arbitrary user input
    into it; [time.Time] and [time.Duration] are nanosecond counts; [float64]
    is the IEEE-754 binary64 value of the Standard Library's [SpecFloat];
    a Go [map] is a [gmap] and an [any] one of the dynamic types the code's
    type switches distinguish. *)

From Stdlib Require Import Strings.Byte SpecFloat.
From S2P Require Import Prelude.

Local Open Scope Z_scope.

(** ** Primitive Go types *)

Abbreviation byte := Init.Byte.byte.
Abbreviation bytes := (list byte).

Definition byte_val (b : byte) : Z := Z.of_N (Byte.to_N b).

Lemma byte_val_range b : 0 <= byte_val b < 256.
Proof. unfold byte_val. destruct b; vm_compute; split; congruence. Qed.

Lemma byte_val_inj b c : byte_val b = byte_val c -> b = c.
Proof.
  unfold byte_val. intros H%N2Z.inj.
  apply (f_equal Byte.of_N) in H. rewrite !Byte.of_to_N in H. by simplify_eq.
Qed.

#[export] Instance byte_eq_dec : EqDecision byte := Byte.byte_eq_dec.

Abbreviation float64 := spec_float.

(** [float64(z)] and the binary64 operations. *)
Definition float_of_int (z : Z) : float64 := binary_normalize 53 1024 z 0 false.
Definition float_div (a b : float64) : float64 := SFdiv 53 1024 a b.
Definition float_mul (a b : float64) : float64 := SFmul 53 1024 a b.
Definition float_add (a b : float64) : float64 := SFadd 53 1024 a b.
Definition float_lt (a b : float64) : bool := SFltb a b.

(** [int(f)]: truncation toward zero; a value outside the range (which the
    language leaves to the implementation) is amd64's [-2^63]. *)
Definition int_of_float (f : float64) : Z :=
  match f with
  | S754_finite s m e =>
      let a := if 0 <=? e then Z.pos m * 2^e else Z.pos m / 2^(- e) in
      let z := if s then - a else a in
      if bool_decide (is_i64 z) then z else - 2^63
  | S754_zero _ => 0
  | S754_infinity _ | S754_nan => - 2^63
  end.

(** A dynamically typed Go value, by the cases the code's type switches name. *)
Inductive any : Type :=
| ANil
| ABool (b : bool)
| AInt (n : Z)
| AInt64 (n : Z)
| AFloat (f : float64)
| AString (s : string)
| ABytes (b : option bytes)
| AInt64s (l : list Z)
| AUint64s (l : list Z)
| AInts (l : list Z)
| AByteSlices (l : list bytes)
| AOther.

Abbreviation params := (gmap string any).

(** Reading a key of a Go map of [any]: an absent key is the nil interface. *)
Definition param_any (p : params) (key : string) : any := default ANil (p !! key).

Definition error := string.

(** Go's named string types: class instances and literals are those of [string]. *)

(** ** cluster.go *)

Definition NodeRole : Type := string.
#[export] Typeclasses Transparent NodeRole.
Bind Scope string_scope with NodeRole.
Definition RolePrimary : NodeRole := "primary".
Definition RoleReplica : NodeRole := "replica".
Definition RoleSeed : NodeRole := "seed".
Definition RoleBroker : NodeRole := "broker".
Definition RoleGeneric : NodeRole := "node".

Definition ControlMethod : Type := string.
#[export] Typeclasses Transparent ControlMethod.
Bind Scope string_scope with ControlMethod.
Definition ControlK8s : ControlMethod := "k8s".
Definition ControlDocker : ControlMethod := "docker".
Definition ControlSSH : ControlMethod := "ssh".
Definition ControlNone : ControlMethod := "none".

Record ControlEndpoint := {
  ce_Method : ControlMethod;
  ce_Ref : string;
  ce_Namespace : string;
  ce_Extra : gmap string string
}.

Record Node := {
  node_ID : string;
  node_Role : NodeRole;
  node_Client : string;
  node_Control : ControlEndpoint
}.

#[export] Instance ControlEndpoint_eq_dec : EqDecision ControlEndpoint.
Proof. solve_decision. Defined.
#[export] Instance Node_eq_dec : EqDecision Node.
Proof. solve_decision. Defined.

Record ClusterSpec := {
  cs_Nodes : list Node;
  cs_ReplicationFactor : Z;
  cs_Consistency : list string
}.

Definition Backend : Type := string.
#[export] Typeclasses Transparent Backend.
Bind Scope string_scope with Backend.
Definition BackendKubernetes : Backend := "kubernetes".
Definition BackendCompose : Backend := "compose".
Definition BackendExternal : Backend := "external".

Record ResourceSpec := { rs_CPU : string; rs_Memory : string }.

Record Topology := {
  topo_Name : string;
  topo_Backend : Backend;
  topo_Target : string;
  topo_Image : string;
  topo_Version : string;
  topo_Nodes : Z;
  topo_ReplicationFactor : Z;
  topo_Resources : ResourceSpec;
  topo_Bundle : string;
  topo_Extra : params
}.

(** ** workload.go *)

Definition OpType : Type := string.
#[export] Typeclasses Transparent OpType.
Bind Scope string_scope with OpType.

Definition KeyDistribution : Type := string.
#[export] Typeclasses Transparent KeyDistribution.
Bind Scope string_scope with KeyDistribution.
Definition DistUniform : KeyDistribution := "uniform".
Definition DistZipfian : KeyDistribution := "zipfian".
Definition DistLatest : KeyDistribution := "latest".
Definition DistSequential : KeyDistribution := "sequential".

Record OpSpec := { os_Type : OpType; os_Weight : Z }.

Definition RunMode : Type := string.
#[export] Typeclasses Transparent RunMode.
Bind Scope string_scope with RunMode.
Definition ModePerformance : RunMode := "performance".
Definition ModeCorrectness : RunMode := "correctness".

Definition VerifyModel : Type := string.
#[export] Typeclasses Transparent VerifyModel.
Bind Scope string_scope with VerifyModel.
Definition VerifyNone : VerifyModel := "".
Definition VerifyReconciliation : VerifyModel := "reconciliation".
Definition VerifyRegister : VerifyModel := "register".
Definition VerifyListAppend : VerifyModel := "list-append".
Definition VerifyKafkaLog : VerifyModel := "kafka-log".

Record Workload := {
  w_Name : string;
  w_Mode : RunMode;
  w_Operations : list OpSpec;
  w_KeySpace : Z;
  w_KeyDist : KeyDistribution;
  w_ValueSize : Z;
  w_VerifyModel : VerifyModel;
  w_Params : params
}.

(** [Args] is never set by the code and is left out. *)
Record Operation := {
  op_Type : OpType;
  op_Key : Z;
  op_Value : bytes;
  op_Seq : Z
}.

Record OpResult := {
  or_Type : OpType;
  or_Rows : Z;
  or_Observed : any;
  or_Err : option error
}.

(** ** run.go *)

Definition TestType : Type := string.
#[export] Typeclasses Transparent TestType.
Bind Scope string_scope with TestType.
Definition TestBenchmark : TestType := "benchmark".
Definition TestLoad : TestType := "load".
Definition TestStress : TestType := "stress".
Definition TestACID : TestType := "acid".
Definition TestCombined : TestType := "combined".

Definition Phase : Type := string.
#[export] Typeclasses Transparent Phase.
Bind Scope string_scope with Phase.
Definition PhaseWarmup : Phase := "warmup".
Definition PhaseMeasure : Phase := "measure".

Definition RunID : Type := string.
#[export] Typeclasses Transparent RunID.
Bind Scope string_scope with RunID.

Definition RateMode : Type := string.
#[export] Typeclasses Transparent RateMode.
Bind Scope string_scope with RateMode.
Definition RateFixed : RateMode := "fixed".
Definition RateMax : RateMode := "max".

Record RateSpec := { rate_Mode : RateMode; rate_OpsPerSec : Z }.

Definition RateSpec_zero : RateSpec := {| rate_Mode := ""; rate_OpsPerSec := 0 |}.

(** ** metrics.go *)

Record Percentiles := {
  pct_Count : Z;
  pct_Mean : float64;
  pct_P50 : float64;
  pct_P90 : float64;
  pct_P95 : float64;
  pct_P99 : float64;
  pct_P999 : float64;
  pct_P9999 : float64;
  pct_Max : float64
}.

Record LatencySnapshot := {
  ls_T : Z;
  ls_OpType : OpType;
  ls_Throughput : float64;
  ls_InFlight : Z;
  ls_Errors : Z;
  ls_Pct : Percentiles
}.

Record RunResult := {
  rr_RunID : RunID;
  rr_Phase : Phase;
  rr_Total : Z;
  rr_Errors : Z;
  rr_Duration : Z;
  rr_Throughput : float64;
  rr_Overall : Percentiles;
  rr_ByOp : gmap OpType Percentiles;
  rr_ClientBound : bool
}.

(** ** verify.go *)

Definition Verdict : Type := string.
#[export] Typeclasses Transparent Verdict.
Bind Scope string_scope with Verdict.
Definition VerdictPass : Verdict := "pass".
Definition VerdictFail : Verdict := "fail".
Definition VerdictUnknown : Verdict := "unknown".

Record Anomaly := {
  an_Kind : string;
  an_Detail : string;
  an_Witness : list string
}.

Record VerifyReport := {
  vr_Model : VerifyModel;
  vr_Verdict : Verdict;
  vr_Anomalies : list Anomaly;
  vr_Checked : Z;
  vr_Lost : Z;
  vr_Duplicated : Z;
  vr_OrderingViol : Z;
  vr_ConvergedIn : Z;
  vr_MaxStaleness : Z;
  vr_Extra : params
}.

Definition FaultType : Type := string.
#[export] Typeclasses Transparent FaultType.
Bind Scope string_scope with FaultType.
Definition FaultKillNode : FaultType := "kill-node".
Definition FaultPauseNode : FaultType := "pause-node".
Definition FaultPartition : FaultType := "network-partition".
Definition FaultClockSkew : FaultType := "clock-skew".
Definition FaultLeaderElect : FaultType := "leader-election".
Definition FaultISRShrink : FaultType := "isr-shrink".

Record Fault := {
  f_Type : FaultType;
  f_Target : string;
  f_Params : params
}.

Record FaultSpec := {
  fs_Fault : Fault;
  fs_At : Z;
  fs_Duration : Z;
  fs_Repeat : Z
}.

(** ** run.go, the manifest *)

(** The zero [time.Time], January 1 of year 1, as nanoseconds since 1970. *)
Definition zero_time : Z := -62135596800 * second.

Record ClientInfo := { ci_Hostname : string; ci_OS : string; ci_Arch : string; ci_CPUs : Z }.

Definition ClientInfo_zero : ClientInfo := {| ci_Hostname := ""; ci_OS := ""; ci_Arch := ""; ci_CPUs := 0 |}.

Record Manifest := {
  mf_RunID : RunID;
  mf_Target : string;
  mf_TargetVersion : string;
  mf_Workload : string;
  mf_TestType : TestType;
  mf_Mode : RunMode;
  mf_Rate : RateSpec;
  mf_Duration : Z;
  mf_Warmup : Z;
  mf_Connections : Z;
  mf_Seed : Z;
  mf_Trials : Z;
  mf_Consistency : string;
  mf_Cluster : ClusterSpec;
  mf_Faults : list FaultSpec;
  mf_EngineVersion : string;
  mf_GitSHA : string;
  mf_Client : ClientInfo;
  mf_Labels : gmap string string;
  mf_CreatedAt : Z
}.
