(* ===== verification/Schedule.v ===== *)
(** * Schedule: arrival schedulers (core/schedule)

    The open-loop, closed-loop, ramp and Poisson schedulers and the pacer.
    [Next] takes the wall-clock reading the code would make ([time.Now]) and
    the scheduler's state and returns the intended start time and the new
    state; the atomic counter is the state component the callers share. *)

From S2P Require Import Prelude Domain.

Local Open Scope Z_scope.
Local Open Scope go_scope.

(** ** Offsets *)

(** scheduler.go, [offsetFor]: n/λ as a [Duration], split to avoid overflow. *)
Definition offsetFor (n ops : Z) : Z :=
  if ops <=? 0 then 0
  else
    let secs := Z.quot n ops in
    let rem := Z.rem n ops in
    (secs *! second) +! Z.quot (rem *! second) ops.

(** ramp.go, [opsInStep]: floor(rate * dur). *)
Definition opsInStep (rate dur : Z) : Z :=
  if (rate <=? 0) || (dur <=? 0) then 0
  else
    let secs := Z.quot dur second in
    let rem := Z.rem dur second in
    (rate *! secs) +! Z.quot (rate *! rem) second.

(** ** Scheduler states *)

Record openLoop := { ol_start : Z; ol_ops : Z; ol_n : Z }.

Record RateStep := { st_OpsPerSec : Z; st_Duration : Z }.

Record rampSeg := { sg_startCount : Z; sg_startOffset : Z; sg_rate : Z }.

Record ramp := { rp_start : Z; rp_segs : list rampSeg; rp_n : Z }.

(** The Poisson scheduler's PRNG is the stream of its [ExpFloat64] draws and
    the number already drawn. *)
Record poisson := {
  ps_start : Z;
  ps_lambda : float64;
  ps_rng : nat -> float64;
  ps_drawn : nat;
  ps_cum : Z
}.

Inductive scheduler : Type :=
| SOpen (o : openLoop)
| SClosed
| SRamp (r : ramp)
| SPoisson (p : poisson).

Definition NewClosedLoop (start : Z) : scheduler := SClosed.

Definition NewOpenLoop (start : Z) (rate : RateSpec) : scheduler :=
  if negb (String.eqb (rate_Mode rate) RateFixed) || (rate_OpsPerSec rate <=? 0)
  then NewClosedLoop start
  else SOpen {| ol_start := start; ol_ops := rate_OpsPerSec rate; ol_n := 0 |}.

(** [rand.New(rand.NewSource(seed))] is the parameter [source]. *)
Definition NewPoisson (source : Z -> nat -> float64) (start : Z) (rate : RateSpec) (seed : Z)
    : scheduler :=
  if negb (String.eqb (rate_Mode rate) RateFixed) || (rate_OpsPerSec rate <=? 0)
  then NewClosedLoop start
  else SPoisson {| ps_start := start; ps_lambda := float_of_int (rate_OpsPerSec rate);
                   ps_rng := source seed; ps_drawn := 0; ps_cum := 0 |}.

(** The loop of [NewRamp] with its two running boundaries. *)
Fixpoint rampSegs (steps : list RateStep) (count offset : Z) : list rampSeg :=
  match steps with
  | [] => []
  | s :: rest =>
      if (st_OpsPerSec s <=? 0) || (st_Duration s <=? 0) then rampSegs rest count offset
      else
        let rate := st_OpsPerSec s in
        {| sg_startCount := count; sg_startOffset := offset; sg_rate := rate |}
        :: rampSegs rest (count +! opsInStep rate (st_Duration s)) (offset +! st_Duration s)
  end.

Definition NewRamp (start : Z) (steps : list RateStep) : scheduler :=
  match rampSegs steps 0 0 with
  | [] => NewClosedLoop start
  | segs => SRamp {| rp_start := start; rp_segs := segs; rp_n := 0 |}
  end.

(** The interpolated rate of step [i] of [nsteps]. *)
Definition linearRate (from to nsteps i : Z) : Z :=
  from +! Z.quot ((to -! from) *! i) (nsteps - 1).

Definition LinearRamp (start from to nsteps each : Z) : scheduler :=
  if nsteps <=? 1 then NewRamp start [{| st_OpsPerSec := to; st_Duration := each |}]
  else
    NewRamp start
      ((fun i => {| st_OpsPerSec := linearRate from to nsteps i; st_Duration := each |})
         <$> seqZ 0 nsteps).

(** ** Binary search ([sort.Search]) *)

Fixpoint search_loop (fuel : nat) (f : Z -> bool) (i j : Z) : Z :=
  match fuel with
  | O => i
  | S fuel' =>
      if i <? j then
        let h := Z.shiftr (i + j) 1 in
        if f h then search_loop fuel' f i h else search_loop fuel' f (h + 1) j
      else i
  end.

Definition Search (n : Z) (f : Z -> bool) : Z := search_loop (Z.to_nat n) f 0 n.

(** ramp.go, [offsetForIndex]; [None] is the out-of-range index panic. *)
Definition offsetForIndex (r : ramp) (n : Z) : option Z :=
  let i := Search (Z.of_nat (length (rp_segs r)))
             (fun k => match rp_segs r !! Z.to_nat k with
                       | Some s => n <? sg_startCount s
                       | None => false
                       end) - 1 in
  if i <? 0 then None
  else
    seg ← rp_segs r !! Z.to_nat i;
    Some (sg_startOffset seg +! offsetFor (n -! sg_startCount seg) (sg_rate seg)).

(** One exponentially distributed gap, as a [Duration]. *)
Definition poissonGap (p : poisson) : Z :=
  int_of_float (float_mul (float_div (ps_rng p (ps_drawn p)) (ps_lambda p)) (float_of_int second)).

(** The four [Next] methods.  An index is claimed with one atomic [Add]. *)
Definition openLoop_Next (o : openLoop) : Z * openLoop :=
  let n' := ol_n o +! 1 in
  let n := n' -! 1 in
  (ol_start o + offsetFor n (ol_ops o),
   {| ol_start := ol_start o; ol_ops := ol_ops o; ol_n := n' |}).

Definition closedLoop_Next (now : Z) : Z := now.

Definition ramp_Next (r : ramp) : option (Z * ramp) :=
  let n' := rp_n r +! 1 in
  let n := n' -! 1 in
  d ← offsetForIndex r n;
  Some (rp_start r + d, {| rp_start := rp_start r; rp_segs := rp_segs r; rp_n := n' |}).

Definition poisson_Next (p : poisson) : Z * poisson :=
  let cum := ps_cum p +! poissonGap p in
  (ps_start p + cum,
   {| ps_start := ps_start p; ps_lambda := ps_lambda p; ps_rng := ps_rng p;
      ps_drawn := S (ps_drawn p); ps_cum := cum |}).

(** The [Scheduler] interface's [Next], by dynamic dispatch. *)
Definition Next (s : scheduler) (now : Z) : option (Z * scheduler) :=
  match s with
  | SOpen o => let '(t, o') := openLoop_Next o in Some (t, SOpen o')
  | SClosed => Some (closedLoop_Next now, SClosed)
  | SRamp r => '(t, r') ← ramp_Next r; Some (t, SRamp r')
  | SPoisson p => let '(t, p') := poisson_Next p in Some (t, SPoisson p')
  end.

(** ** The pacer *)

(** How a blocked wait ends: the timer fires at a clock reading, or the
    context is cancelled first. *)
Inductive wakeup := TimerFired (now : Z) | Cancelled.

(** wait.go, [WaitUntil]: the lateness, or the context's error. *)
Definition WaitUntil (now t : Z) (wake : wakeup) : result unit Z :=
  let d := time_sub t now in
  if d <=? 0 then Ok (wrap64 (- d))
  else match wake with
       | Cancelled => Err tt
       | TimerFired now' =>
           let late := time_sub now' t in
           Ok (if late <? 0 then 0 else late)
       end.

(** ** Properties of the offsets *)

Lemma offsetFor_floor n ops :
  0 <= n -> 0 < ops -> ops * second < 2^63 -> n * second < (2^63 - 2 * second) * ops ->
  offsetFor n ops = n * second / ops.
Proof.
  intros Hn Hops Hops' Hn'. unfold offsetFor.
  destruct (ops <=? 0) eqn:E; zbool; [lia|].
  rewrite Z.quot_div_nonneg, Z.rem_mod_nonneg by lia.
  pose proof (Z.mod_pos_bound n ops Hops). pose proof (Z.div_mod n ops).
  assert (0 <= n / ops) by (apply Z.div_pos; lia).
  assert (0 <= n mod ops * second < 2^63) by (unfold second in *; nia).
  rewrite (i64_mul_id (n mod ops)) by (unfold is_i64; lia).
  rewrite Z.quot_div_nonneg by lia.
  assert (0 <= n mod ops * second / ops < second).
  { split; [apply Z.div_pos; lia|]. apply Z.div_lt_upper_bound; unfold second in *; nia. }
  assert (n / ops * second < 2^63 - 2 * second).
  { apply (Z.mul_lt_mono_pos_r ops); unfold second in *; nia. }
  rewrite i64_mul_id by (unfold is_i64, second in *; lia).
  rewrite i64_add_id by (unfold is_i64, second in *; lia).
  rewrite (Z.div_mod n ops) at 3 by lia.
  replace ((ops * (n / ops) + n mod ops) * second)
    with (n / ops * second * ops + n mod ops * second) by lia.
  by rewrite Z.div_add_l by lia.
Qed.

Lemma floor_mono a b ops : 0 < ops -> a <= b -> a * second / ops <= b * second / ops.
Proof. intros. apply Z.div_le_mono; [lia|]. unfold second. lia. Qed.

Lemma floor_strict a b ops :
  0 < ops <= second -> a < b -> a * second / ops < b * second / ops.
Proof.
  intros. apply Z.lt_le_trans with ((a * second + ops) / ops).
  - replace (a * second + ops) with (a * second + 1 * ops) by lia.
    rewrite Z.div_add by lia. lia.
  - apply Z.div_le_mono; [lia|]. unfold second in *. lia.
Qed.

(** ** Sequences of calls *)

(** Successive calls of [Next], each with the clock reading at its call. *)
Fixpoint Nexts (s : scheduler) (nows : list Z) : option (list Z * scheduler) :=
  match nows with
  | [] => Some ([], s)
  | now :: rest =>
      '(t, s1) ← Next s now;
      '(ts, s2) ← Nexts s1 rest;
      Some (t :: ts, s2)
  end.

Lemma Nexts_open start ops n nows :
  0 <= n -> 0 < ops -> ops * second < 2^63 ->
  n + Z.of_nat (length nows) < 2^63 ->
  (n + Z.of_nat (length nows)) * second < (2^63 - 2 * second) * ops ->
  Nexts (SOpen {| ol_start := start; ol_ops := ops; ol_n := n |}) nows
  = Some ((fun i => start + i * second / ops) <$> seqZ n (Z.of_nat (length nows)),
          SOpen {| ol_start := start; ol_ops := ops; ol_n := n + Z.of_nat (length nows) |}).
Proof.
  revert n. induction nows as [|now nows IH]; intros n Hn Hops Hops' Hlen Hb.
  - simpl. by rewrite Z.add_0_r.
  - change (length (now :: nows)) with (S (length nows)) in *.
    rewrite Nat2Z.inj_succ in *. simpl. unfold i64_add, i64_sub.
    rewrite (wrap64_id (n + 1)) by (unfold is_i64; lia).
    rewrite wrap64_id by (unfold is_i64; lia).
    rewrite IH by (unfold second in *; lia). simpl.
    rewrite (seqZ_cons n (Z.succ _)) by lia. rewrite fmap_cons.
    rewrite offsetFor_floor by (unfold second in *; lia).
    replace (n + 1 - 1) with n by lia. replace (Z.pred (Z.succ (Z.of_nat (length nows))))
      with (Z.of_nat (length nows)) by lia.
    replace (n + 1 + Z.of_nat (length nows)) with (n + Z.succ (Z.of_nat (length nows))) by lia.
    by rewrite Z.add_1_r.
Qed.

Lemma sorted_fmap_seqZ (f : Z -> Z) m n :
  (forall i j, m <= i < j -> f i < f j) -> StronglySorted Z.lt (f <$> seqZ m n).
Proof.
  intros Hf. destruct (decide (0 <= n)) as [Hn|Hn]; [|rewrite seqZ_nil by lia; constructor].
  revert m Hf. pattern n. apply natlike_ind; [constructor| |done].
  intros k Hk IH m Hf. rewrite seqZ_cons by lia. rewrite fmap_cons.
  rewrite Z.pred_succ. constructor.
  - apply IH. intros i j Hij. apply Hf. lia.
  - apply Forall_fmap, Forall_forall. intros i Hi%elem_of_seqZ. apply Hf. lia.
Qed.

(** The open-loop schedule is coordinated-omission correct: whatever the
    clock readings at the calls, [k] calls of [Next] return exactly
    [start + i/λ] (rounded down to a nanosecond) for [i = 0..k-1], in strictly
    increasing order, so intended times never shift with the target. *)
Theorem openLoop_intended_times (start ops : Z) (nows : list Z) :
  0 < ops <= second ->
  Z.of_nat (length nows) <= 9 * 10^9 ->
  exists s',
    Nexts (NewOpenLoop start {| rate_Mode := RateFixed; rate_OpsPerSec := ops |}) nows
    = Some ((fun i => start + i * second / ops) <$> seqZ 0 (Z.of_nat (length nows)), s')
    /\ StronglySorted Z.lt ((fun i => start + i * second / ops) <$> seqZ 0 (Z.of_nat (length nows))).
Proof.
  intros Hops Hlen. unfold NewOpenLoop. simpl.
  destruct (ops <=? 0) eqn:E; zbool; [lia|].
  rewrite Nexts_open by (unfold second in *; nia).
  eexists. split; [done|].
  apply sorted_fmap_seqZ. intros i j Hij.
  pose proof (floor_strict i j ops). lia.
Qed.

Lemma openLoop_intended_times_witness :
  exists s', Nexts (NewOpenLoop 5 {| rate_Mode := RateFixed; rate_OpsPerSec := 3 |}) [0; 700; 2]
  = Some ([5; 333333338; 666666671], s')
  /\ StronglySorted Z.lt [5; 333333338; 666666671].
Proof.
  apply (openLoop_intended_times 5 3 [0; 700; 2]); vm_compute; intuition congruence.
Defined.

(** ** Concurrent callers

    [Next] of the open-loop and ramp schedulers is one atomic [Add] that
    claims an index, then a pure computation on it.  Callers interleave: a
    caller that claimed an index may return its time after later claims. *)

Section concurrent.
Context (start : Z) (offset : Z -> Z).

Record claims := {
  cl_next : Z;
  cl_held : list (nat * Z);
  cl_out : list (nat * Z * Z)
}.

Definition claims_init : claims := {| cl_next := 0; cl_held := []; cl_out := [] |}.

Inductive claim_step : claims -> claims -> Prop :=
| claim_add t c :
    t ∉ (cl_held c).*1 ->
    claim_step c {| cl_next := cl_next c + 1;
                    cl_held := (t, cl_next c) :: cl_held c;
                    cl_out := cl_out c |}
| claim_return t n l1 l2 c :
    cl_held c = l1 ++ (t, n) :: l2 ->
    claim_step c {| cl_next := cl_next c;
                    cl_held := l1 ++ l2;
                    cl_out := (t, n, start + offset n) :: cl_out c |}.

Definition claim_index (o : nat * Z * Z) : Z := o.1.2.

Definition claims_inv (c : claims) : Prop :=
  0 <= cl_next c /\
  (cl_held c).*2 ++ (claim_index <$> cl_out c) ≡ₚ seqZ 0 (cl_next c) /\
  Forall (fun o => o.2 = start + offset (claim_index o)) (cl_out c).

Lemma claim_step_inv c c' : claims_inv c -> claim_step c c' -> claims_inv c'.
Proof.
  intros (Hpos & Hperm & Hout) Hstep.
  destruct Hstep as [t c _|t n l1 l2 c Hheld]; unfold claims_inv; simpl.
  - split; [lia|]. split; [|done].
    rewrite seqZ_app by lia. rewrite Hperm, Z.add_0_l.
    change (seqZ (cl_next c) 1) with [Z.of_nat 0 + cl_next c].
    rewrite Z.add_0_l. by rewrite (Permutation_app_comm _ [_]).
  - split; [done|]. split; [|by constructor].
    rewrite <- Hperm, Hheld. rewrite !fmap_app, fmap_cons, <- !app_assoc. simpl.
    apply Permutation_app_head. by rewrite <- Permutation_middle.
Qed.

Lemma claims_reachable_inv c : rtc claim_step claims_init c -> claims_inv c.
Proof.
  intros H. assert (claims_inv claims_init) as Hinit.
  { split; [done|]. split; [done|constructor]. }
  revert Hinit. induction H as [|c1 c2 c3 H12 _ IH]; [done|].
  intros Hinv. apply IH. by eapply claim_step_inv.
Qed.
End concurrent.

(** Any interleaving of concurrent [Next] calls hands out a contiguous
    set of indices, each exactly once, and the time returned for an index is
    the schedule's time for it, whichever caller got it. *)
Theorem concurrent_Next_unique (start : Z) (offset : Z -> Z) (c : claims) :
  rtc (claim_step start offset) claims_init c ->
  (cl_held c).*2 ++ (claim_index <$> cl_out c) ≡ₚ seqZ 0 (cl_next c) /\
  NoDup (claim_index <$> cl_out c) /\
  Forall (fun o => o.2 = start + offset (claim_index o)) (cl_out c).
Proof.
  intros (_ & Hperm & Hout)%claims_reachable_inv. split; [done|]. split; [|done].
  assert (Hnd : NoDup ((cl_held c).*2 ++ (claim_index <$> cl_out c)))
    by (rewrite Hperm; apply NoDup_seqZ).
  by apply NoDup_app in Hnd as (_ & _ & ?).
Qed.

(** Two callers that claimed 0 and 1 and returned in the opposite order. *)
Definition claims_example : claims :=
  {| cl_next := 2; cl_held := [];
     cl_out := [(7%nat, 0, 100 + offsetFor 0 4); (9%nat, 1, 100 + offsetFor 1 4)] |}.

Lemma concurrent_Next_unique_witness :
  rtc (claim_step 100 (fun n => offsetFor n 4)) claims_init claims_example /\
  NoDup (claim_index <$> cl_out claims_example).
Proof.
  assert (H : rtc (claim_step 100 (fun n => offsetFor n 4)) claims_init claims_example).
  { eapply rtc_l; [apply (claim_add _ _ 7%nat); apply not_elem_of_nil|].
    eapply rtc_l; [apply (claim_add _ _ 9%nat); simpl; rewrite list_elem_of_singleton; lia|].
    eapply rtc_l; [apply (claim_return _ _ 9%nat 1 [] [(7%nat, 0)]); reflexivity|].
    eapply rtc_l; [apply (claim_return _ _ 7%nat 0 [] []); reflexivity|].
    apply rtc_refl. }
  split; [exact H|]. exact (proj1 (proj2 (concurrent_Next_unique _ _ _ H))).
Defined.

(** ** Binary search finds the least index satisfying a monotone predicate *)

Lemma search_loop_spec f fuel i j :
  (Z.to_nat (j - i) <= fuel)%nat -> 0 <= i <= j ->
  (forall a b, i <= a <= b -> b < j -> f a = true -> f b = true) ->
  let k := search_loop fuel f i j in
  i <= k <= j /\
  (forall a, i <= a < k -> f a = false) /\
  (forall a, k <= a < j -> f a = true).
Proof.
  revert i j. induction fuel as [|fuel IH]; intros i j Hf Hij Hmono; simpl.
  { split; [lia|]. split; intros; lia. }
  destruct (i <? j) eqn:E; zbool; [|split; [lia|split; intros; lia]].
  set (h := Z.shiftr (i + j) 1).
  assert (Hh : i <= h < j).
  { unfold h. rewrite Z.shiftr_div_pow2 by lia. change (2^1) with 2.
    split; [apply Z.div_le_lower_bound; lia|apply Z.div_lt_upper_bound; lia]. }
  destruct (f h) eqn:Ef.
  - destruct (IH i h) as (H1 & H2 & H3); [lia|lia| |].
    { intros a b Ha Hb. apply Hmono; lia. }
    split; [lia|]. split; [done|]. intros a Ha.
    destruct (decide (a < h)); [apply H3; lia|]. apply (Hmono h a); [lia..|done].
  - destruct (IH (h + 1) j) as (H1 & H2 & H3); [lia|lia| |].
    { intros a b Ha Hb. apply Hmono; lia. }
    split; [lia|]. split; [|done]. intros a Ha.
    destruct (decide (a < h + 1)); [|apply H2; lia].
    destruct (f a) eqn:Ea; [|done].
    rewrite (Hmono a h) in Ef; [done|lia|lia|done].
Qed.

Lemma Search_spec n f :
  0 <= n -> (forall a b, 0 <= a <= b -> b < n -> f a = true -> f b = true) ->
  0 <= Search n f <= n /\
  (forall a, 0 <= a < Search n f -> f a = false) /\
  (forall a, Search n f <= a < n -> f a = true).
Proof. intros Hn Hm. apply search_loop_spec; [lia|lia|done]. Qed.

Lemma search_unique n f k :
  0 <= k <= n -> (forall a, 0 <= a < k -> f a = false) ->
  (forall a, k <= a < n -> f a = true) -> Search n f = k.
Proof.
  intros Hk Hlo Hhi. destruct (Search_spec n f) as (H1 & H2 & H3); [lia| |].
  { intros a b Ha Hb Hfa. destruct (decide (a < k)).
    - rewrite Hlo in Hfa by lia. done.
    - apply Hhi. lia. }
  destruct (Z.lt_trichotomy (Search n f) k) as [Hlt|[?|Hgt]]; [|done|].
  - pose proof (H3 (Search n f) ltac:(lia)). rewrite Hlo in H by lia. done.
  - pose proof (H2 k ltac:(lia)). rewrite Hhi in H by lia. done.
Qed.

(** ** The ramp against its reference *)

(** Reference lookup: walk the segments in order and stop at the last one
    whose [startCount] does not exceed [n]. *)
Fixpoint segFor (segs : list rampSeg) (n : Z) : option rampSeg :=
  match segs with
  | [] => None
  | s :: rest =>
      if n <? sg_startCount s then None
      else match segFor rest n with Some s' => Some s' | None => Some s end
  end.

Definition segs_sorted (segs : list rampSeg) : Prop :=
  StronglySorted (fun s s' => sg_startCount s <= sg_startCount s') segs.

Lemma segs_sorted_lookup segs i j s s' :
  segs_sorted segs -> (i <= j)%nat -> segs !! i = Some s -> segs !! j = Some s' ->
  sg_startCount s <= sg_startCount s'.
Proof.
  intros Hs. revert i j. induction Hs as [|x l Hl IH Hx]; intros i j Hij Hi Hj; [done|].
  destruct i as [|i], j as [|j]; simplify_eq/=; [done| |lia|].
  - rewrite Forall_forall in Hx. apply Hx. by eapply list_elem_of_lookup_2.
  - eapply IH; [|done..]. lia.
Qed.

(** The binary search stops just after the segment the reference finds. *)
Lemma segFor_index segs n :
  segs_sorted segs ->
  exists k : nat, (k <= length segs)%nat /\
    (forall i s, (i < k)%nat -> segs !! i = Some s -> sg_startCount s <= n) /\
    (forall i s, (k <= i)%nat -> segs !! i = Some s -> n < sg_startCount s) /\
    segFor segs n = match k with O => None | S k' => segs !! k' end.
Proof.
  induction 1 as [|x l Hl IH Hx]; simpl.
  { exists 0%nat. split; [lia|]. split; [intros; lia|]. by split. }
  destruct (n <? sg_startCount x) eqn:E; zbool.
  - exists 0%nat. split; [lia|]. split; [intros; lia|]. split; [|done].
    intros [|i] s _ Hi; simplify_eq/=; [lia|].
    apply list_elem_of_lookup_2 in Hi. rewrite Forall_forall in Hx.
    specialize (Hx s Hi). lia.
  - destruct IH as (k & Hk & Hlo & Hhi & Heq). exists (S k).
    split; [lia|]. split; [|split].
    + intros [|i] s Hi Hs; simplify_eq/=; [lia|]. apply (Hlo i); [lia|done].
    + intros [|i] s Hi Hs; [lia|]. apply (Hhi i); [lia|done].
    + rewrite Heq. destruct k as [|k]; [done|]. simpl.
      destruct (l !! k) eqn:El; [done|]. apply lookup_ge_None in El. lia.
Qed.

Lemma offsetForIndex_ref r n :
  segs_sorted (rp_segs r) ->
  offsetForIndex r n =
    (seg ← segFor (rp_segs r) n;
     Some (sg_startOffset seg +! offsetFor (n -! sg_startCount seg) (sg_rate seg))).
Proof.
  intros Hs. destruct (segFor_index (rp_segs r) n Hs) as (k & Hk & Hlo & Hhi & Heq).
  unfold offsetForIndex. rewrite (search_unique _ _ (Z.of_nat k)).
  - rewrite Heq. destruct k as [|k]; [done|].
    destruct (Z.of_nat (S k) - 1 <? 0) eqn:E; zbool; [lia|].
    by replace (Z.to_nat (Z.of_nat (S k) - 1)) with k by lia.
  - lia.
  - intros a Ha. destruct (rp_segs r !! Z.to_nat a) eqn:El; [|done].
    apply Z.ltb_ge. apply (Hlo (Z.to_nat a)); [lia|done].
  - intros a Ha. destruct (rp_segs r !! Z.to_nat a) eqn:El.
    + apply Z.ltb_lt. apply (Hhi (Z.to_nat a)); [lia|done].
    + apply lookup_ge_None in El. lia.
Qed.

Definition usable (s : RateStep) : bool := (0 <? st_OpsPerSec s) && (0 <? st_Duration s).

(** The ramp's contract: step [i] issues [rate_i] ops per second for its
    duration of intended time, the last step's rate goes on for ever. *)
Fixpoint rampSpec (steps : list RateStep) (n : Z) : option Z :=
  match steps with
  | [] => None
  | s :: rest =>
      let ops := st_OpsPerSec s * st_Duration s / second in
      match rest with
      | [] => Some (n * second / st_OpsPerSec s)
      | _ => if n <? ops then Some (n * second / st_OpsPerSec s)
             else (Z.add (st_Duration s)) <$> rampSpec rest (n - ops)
      end
  end.

(** Rates up to 10^9 ops/s and a schedule of at most 10^9 seconds. *)
Definition ramp_bounds (steps : list RateStep) : Prop :=
  Forall (fun s => st_OpsPerSec s <= second) steps /\
  zsum (st_Duration <$> List.filter usable steps) <= second * second.

Lemma opsInStep_floor rate dur :
  0 < rate <= second -> 0 < dur <= second * second ->
  opsInStep rate dur = rate * dur / second /\ 0 <= rate * dur / second <= dur.
Proof.
  intros Hr Hd.
  assert (0 <= rate * dur / second <= dur).
  { split; [apply Z.div_pos; unfold second in *; lia|].
    apply Z.div_le_upper_bound; unfold second in *; nia. }
  split; [|done]. unfold opsInStep.
  destruct ((rate <=? 0) || (dur <=? 0)) eqn:E; [apply orb_prop in E as [?|?]; zbool; lia|].
  rewrite Z.quot_div_nonneg, Z.rem_mod_nonneg by (unfold second; lia).
  pose proof (Z.mod_pos_bound dur second ltac:(unfold second; lia)).
  pose proof (Z.div_mod dur second ltac:(unfold second; lia)).
  assert (0 <= dur / second <= second).
  { split; [apply Z.div_pos; unfold second in *; lia|].
    apply Z.div_le_upper_bound; unfold second in *; lia. }
  rewrite (i64_mul_id rate (dur mod second)) by (unfold is_i64, second in *; nia).
  rewrite i64_mul_id by (unfold is_i64, second in *; nia).
  rewrite Z.quot_div_nonneg by (unfold second in *; nia).
  assert (Heq : rate * dur / second
                = rate * (dur / second) + rate * (dur mod second) / second).
  { rewrite (Z.div_mod dur second) at 1 by (unfold second; lia).
    replace (rate * (second * (dur / second) + dur mod second))
      with (rate * (dur / second) * second + rate * (dur mod second)) by lia.
    rewrite Z.div_add_l by (unfold second; lia). done. }
  rewrite i64_add_id; [done|]. unfold is_i64. rewrite <- Heq. unfold second in *. lia.
Qed.

Lemma rampSegs_usable steps c o :
  rampSegs steps c o = rampSegs (List.filter usable steps) c o.
Proof.
  revert c o. induction steps as [|s steps IH]; intros c o; [done|]. simpl.
  unfold usable at 1. destruct (st_OpsPerSec s <=? 0) eqn:E1; zbool.
  - destruct (0 <? st_OpsPerSec s) eqn:E; zbool; [lia|]. apply IH.
  - destruct (0 <? st_OpsPerSec s) eqn:E; zbool; [|lia].
    destruct (st_Duration s <=? 0) eqn:E2; zbool.
    + destruct (0 <? st_Duration s) eqn:E'; zbool; [lia|]. apply IH.
    + destruct (0 <? st_Duration s) eqn:E'; zbool; [|lia]. simpl.
      destruct (st_OpsPerSec s <=? 0) eqn:?; zbool; [lia|].
      destruct (st_Duration s <=? 0) eqn:?; zbool; [lia|]. simpl. by rewrite IH.
Qed.

Lemma rampSegs_cons s steps c o :
  0 < st_OpsPerSec s -> 0 < st_Duration s ->
  rampSegs (s :: steps) c o =
    {| sg_startCount := c; sg_startOffset := o; sg_rate := st_OpsPerSec s |}
    :: rampSegs steps (c +! opsInStep (st_OpsPerSec s) (st_Duration s)) (o +! st_Duration s).
Proof.
  intros H1 H2. simpl.
  destruct (st_OpsPerSec s <=? 0) eqn:?; zbool; [lia|].
  by destruct (st_Duration s <=? 0) eqn:?; zbool; [lia|].
Qed.

(** Usable steps within the bounds, from count [c] and offset [o] on. *)
Definition steps_ok (us : list RateStep) (c o : Z) : Prop :=
  Forall (fun s => 0 < st_OpsPerSec s <= second /\ 0 < st_Duration s) us /\
  0 <= c /\ 0 <= o /\
  c + zsum (st_Duration <$> us) <= second * second /\
  o + zsum (st_Duration <$> us) <= second * second.

Lemma steps_ok_nonneg us c o : steps_ok us c o -> 0 <= zsum (st_Duration <$> us).
Proof.
  intros [H _]. apply zsum_nonneg. apply Forall_fmap.
  eapply Forall_impl; [exact H|]. simpl. lia.
Qed.

Lemma steps_ok_cons s us c o :
  steps_ok (s :: us) c o ->
  let c' := c +! opsInStep (st_OpsPerSec s) (st_Duration s) in
  let o' := o +! st_Duration s in
  steps_ok us c' o' /\ c' = c + st_OpsPerSec s * st_Duration s / second /\
  o' = o + st_Duration s /\ 0 < st_OpsPerSec s <= second /\
  0 < st_Duration s <= second * second /\
  0 <= st_OpsPerSec s * st_Duration s / second.
Proof.
  intros (Hall & Hc & Ho & Hcs & Hos). inversion Hall as [|? ? [Hr Hd] Hall']; subst.
  rewrite fmap_cons in Hcs, Hos. simpl in Hcs, Hos.
  assert (0 <= zsum (st_Duration <$> us)).
  { apply zsum_nonneg, Forall_fmap. eapply Forall_impl; [exact Hall'|]. simpl. lia. }
  assert (Hd' : 0 < st_Duration s <= second * second) by lia.
  destruct (opsInStep_floor _ _ Hr Hd') as [Heq Hle]. simpl. rewrite Heq.
  rewrite !i64_add_id by (unfold is_i64, second in *; lia).
  unfold steps_ok. repeat split; try done; try lia.
Qed.

Lemma rampSegs_sorted us c o :
  steps_ok us c o -> segs_sorted (rampSegs us c o) /\
  Forall (fun s => c <= sg_startCount s) (rampSegs us c o).
Proof.
  revert c o. induction us as [|s us IH]; intros c o Hok; [by split; constructor|].
  destruct (steps_ok_cons _ _ _ _ Hok) as (Hok' & Hc' & Ho' & Hr & Hd & Hops).
  rewrite rampSegs_cons by lia. destruct (IH _ _ Hok') as [Hs Hf]. split.
  - constructor; [done|]. eapply Forall_impl; [exact Hf|]. simpl. lia.
  - constructor; [simpl; lia|]. eapply Forall_impl; [exact Hf|]. simpl. lia.
Qed.

Lemma segFor_below segs n : Forall (fun s => n < sg_startCount s) segs -> segFor segs n = None.
Proof.
  destruct 1 as [|s segs Hs]; [done|]. simpl.
  destruct (n <? sg_startCount s) eqn:E; zbool; [done|lia].
Qed.

Definition segOffset (n : Z) (seg : rampSeg) : Z :=
  sg_startOffset seg + (n - sg_startCount seg) * second / sg_rate seg.

Lemma rampSpec_total us n : us <> [] -> is_Some (rampSpec us n).
Proof.
  revert n. induction us as [|s us IH]; intros n Hne; [done|]. cbn [rampSpec].
  destruct us as [|s' us]; [done|]. destruct (n <? _); [done|].
  by apply fmap_is_Some, IH.
Qed.

Lemma segFor_rampSpec us c o n :
  steps_ok us c o -> c <= n ->
  segOffset n <$> segFor (rampSegs us c o) n = Z.add o <$> rampSpec us (n - c).
Proof.
  revert c o. induction us as [|s us IH]; intros c o Hok Hn; [done|].
  destruct (steps_ok_cons _ _ _ _ Hok) as (Hok' & Hc' & Ho' & Hr & Hd & Hops).
  rewrite rampSegs_cons by lia. cbn [segFor]. cbn [sg_startCount].
  destruct (n <? c) eqn:E; zbool; [lia|].
  destruct us as [|s' us]; [done|]. cbn [rampSpec].
  destruct (n - c <? _) eqn:E2; zbool.
  - rewrite segFor_below; [done|].
    destruct (rampSegs_sorted _ _ _ Hok') as [_ Hf].
    eapply Forall_impl; [exact Hf|]. cbv beta. intros x Hx. lia.
  - specialize (IH _ _ Hok' ltac:(lia)). rewrite Hc', Ho' in *.
    replace (n - (c + st_OpsPerSec s * st_Duration s / second))
      with (n - c - st_OpsPerSec s * st_Duration s / second) in IH by lia.
    destruct (segFor _ n) as [seg|] eqn:Eseg; rewrite ?fmap_None in IH.
    + rewrite IH. rewrite <- option_fmap_compose. apply option_fmap_ext.
      intros x. simpl. lia.
    + destruct (rampSpec_total (s' :: us)
        (n - c - st_OpsPerSec s * st_Duration s / second)) as [x Hx]; [done|].
      rewrite Hx in IH. discriminate.
Qed.

Lemma usable_spec s : usable s = true <-> 0 < st_OpsPerSec s /\ 0 < st_Duration s.
Proof. unfold usable. rewrite andb_true_iff, !Z.ltb_lt. done. Qed.

Lemma ramp_bounds_ok steps : ramp_bounds steps -> steps_ok (List.filter usable steps) 0 0.
Proof.
  intros [Hr Hd]. unfold steps_ok. split; [|lia].
  apply Forall_forall. intros s Hs.
  apply list_elem_of_In, filter_In in Hs as [Hin Hu].
  apply usable_spec in Hu. rewrite Forall_forall in Hr.
  specialize (Hr s). rewrite list_elem_of_In in Hr. specialize (Hr Hin). lia.
Qed.

Lemma segFor_elem segs n seg :
  segFor segs n = Some seg -> seg ∈ segs /\ sg_startCount seg <= n.
Proof.
  induction segs as [|s segs IH]; simpl; [done|].
  destruct (n <? sg_startCount s) eqn:E; zbool; [done|].
  destruct (segFor segs n) as [s'|] eqn:Es; intros [= <-].
  - destruct IH as [? ?]; [done|]. split; [by right|done].
  - split; [by left|done].
Qed.

Lemma rampSegs_elem us c o seg :
  steps_ok us c o -> seg ∈ rampSegs us c o ->
  0 <= sg_startCount seg /\ 0 <= sg_startOffset seg <= second * second /\
  0 < sg_rate seg <= second.
Proof.
  revert c o. induction us as [|s us IH]; intros c o Hok Hin.
  { by apply elem_of_nil in Hin. }
  destruct (steps_ok_cons _ _ _ _ Hok) as (Hok' & Hc' & Ho' & Hr & Hd & Hops).
  rewrite rampSegs_cons in Hin by lia.
  apply elem_of_cons in Hin as [->|Hin]; [|by eapply IH].
  pose proof (steps_ok_nonneg _ _ _ Hok). destruct Hok as (_ & ? & ? & ? & ?).
  simpl. lia.
Qed.

Lemma ramp_refines_aux start steps n :
  ramp_bounds steps -> 0 <= n <= 8 * 10^9 ->
  offsetForIndex {| rp_start := start; rp_segs := rampSegs steps 0 0; rp_n := 0 |} n
  = rampSpec (List.filter usable steps) n.
Proof.
  intros Hb Hn. apply ramp_bounds_ok in Hb as Hok.
  rewrite offsetForIndex_ref; simpl; rewrite rampSegs_usable; [|by apply rampSegs_sorted].
  pose proof (segFor_rampSpec _ 0 0 n Hok ltac:(lia)) as Heq.
  rewrite Z.sub_0_r in Heq.
  replace (Z.add 0 <$> rampSpec (List.filter usable steps) n)
    with (rampSpec (List.filter usable steps) n) in Heq
    by (by destruct (rampSpec _ _)).
  rewrite <- Heq.
  destruct (segFor _ n) as [seg|] eqn:Es; [|done]. simpl. f_equal.
  apply segFor_elem in Es as [Hin Hle].
  destruct (rampSegs_elem _ _ _ _ Hok Hin) as (H1 & H2 & H3).
  rewrite i64_sub_id by (unfold is_i64; lia).
  rewrite offsetFor_floor by (unfold second in *; nia).
  unfold segOffset. apply i64_add_id.
  assert (0 <= (n - sg_startCount seg) * second / sg_rate seg <= 8 * 10^9 * second).
  { split; [apply Z.div_pos; unfold second; lia|].
    apply Z.div_le_upper_bound; unfold second; nia. }
  unfold is_i64, second in *. lia.
Qed.

Lemma rampSpec_strict us n m x y :
  Forall (fun s => 0 < st_OpsPerSec s <= second /\ 0 < st_Duration s) us ->
  0 <= n < m -> rampSpec us n = Some x -> rampSpec us m = Some y -> 0 <= x < y.
Proof.
  intros Hall. revert n m x y. induction Hall as [|s us [Hr Hd] Hall IH];
    intros n m x y Hnm Hx Hy; [done|].
  assert (Hlow : forall k, 0 <= k -> 0 <= k * second / st_OpsPerSec s)
    by (intros; apply Z.div_pos; unfold second; lia).
  cbn [rampSpec] in Hx, Hy. destruct us as [|s' us].
  { simplify_eq. split; [apply Hlow; lia|]. apply floor_strict; lia. }
  set (ops := st_OpsPerSec s * st_Duration s / second) in *.
  destruct (n <? ops) eqn:En, (m <? ops) eqn:Em; zbool; simplify_eq.
  - split; [apply Hlow; lia|]. apply floor_strict; lia.
  - split; [apply Hlow; lia|]. apply fmap_Some in Hy as (y' & Hy' & ->).
    assert (n * second / st_OpsPerSec s < st_Duration s).
    { apply Z.div_lt_upper_bound; [lia|].
      assert (ops * second <= st_OpsPerSec s * st_Duration s).
      { unfold ops. rewrite Z.mul_comm. apply Z.mul_div_le. unfold second; lia. }
      unfold second in *. nia. }
    assert (0 <= y').
    { destruct (rampSpec_total (s' :: us) (m - ops + 1)) as [z Hz]; [done|].
      destruct (IH (m - ops) (m - ops + 1) y' z); [lia|done|done|lia]. }
    lia.
  - lia.
  - apply fmap_Some in Hx as (x' & Hx' & ->). apply fmap_Some in Hy as (y' & Hy' & ->).
    destruct (IH (n - ops) (m - ops) x' y'); [lia|done|done|lia].
Qed.

(** C30: The ramp refines its contract: whenever some step is usable, the
    binary-searched [offsetForIndex] of [NewRamp] equals the declarative
    schedule in which each usable step issues at its rate for its duration and
    the last rate continues, and later operations get strictly later times. *)
Theorem ramp_refines_spec (start : Z) (steps : list RateStep) (n m : Z) :
  ramp_bounds steps -> List.filter usable steps <> [] ->
  0 <= n < m -> m <= 8 * 10^9 ->
  exists r x y,
    NewRamp start steps = SRamp r /\
    offsetForIndex r n = Some x /\ rampSpec (List.filter usable steps) n = Some x /\
    offsetForIndex r m = Some y /\ x < y.
Proof.
  intros Hb Hne Hnm Hm. pose proof (ramp_bounds_ok _ Hb) as Hok.
  destruct (rampSpec_total _ n Hne) as [x Hx]. destruct (rampSpec_total _ m Hne) as [y Hy].
  exists {| rp_start := start; rp_segs := rampSegs steps 0 0; rp_n := 0 |}, x, y.
  rewrite !ramp_refines_aux by (done || lia).
  destruct (rampSpec_strict _ n m x y (proj1 Hok)) as [_ Hlt]; [lia|done|done|].
  split; [|done]. unfold NewRamp.
  destruct (rampSegs steps 0 0) as [|sg segs] eqn:E; [|done].
  rewrite rampSegs_usable in E. destruct (List.filter usable steps) as [|s us]; [done|].
  destruct (steps_ok_cons _ _ _ _ Hok) as (_ & _ & _ & Hr & Hd & _).
  by rewrite rampSegs_cons in E by lia.
Qed.

Lemma ramp_refines_spec_witness :
  let steps := [{| st_OpsPerSec := 2; st_Duration := 1500000000 |};
                {| st_OpsPerSec := 0; st_Duration := 7 |};
                {| st_OpsPerSec := 10; st_Duration := second |}] in
  exists r x y,
    NewRamp 0 steps = SRamp r /\
    offsetForIndex r 2 = Some x /\ rampSpec (List.filter usable steps) 2 = Some x /\
    offsetForIndex r 4 = Some y /\ x < y.
Proof.
  apply ramp_refines_spec.
  - split; [repeat constructor; vm_compute; congruence|vm_compute; congruence].
  - done.
  - lia.
  - lia.
Defined.

Lemma linearRate_spec (from to nsteps i : Z) :
  1 < nsteps <= 2^31 -> 0 <= from <= to -> to <= 2^31 -> 0 <= i < nsteps ->
  linearRate from to nsteps 0 = from /\
  linearRate from to nsteps (nsteps - 1) = to /\
  from <= linearRate from to nsteps i <= to.
Proof.
  intros Hs Hf Ht Hi. unfold linearRate.
  assert (Hsub : to -! from = to - from) by (apply i64_sub_id; unfold is_i64; lia).
  rewrite Hsub, !(i64_mul_id (to - from)) by (unfold is_i64; nia).
  rewrite Z.mul_0_r, Z.quot_0_l, Z.quot_mul by lia.
  rewrite Z.quot_div_nonneg by nia.
  assert (0 <= (to - from) * i / (nsteps - 1) <= to - from).
  { split; [apply Z.div_pos; nia|]. apply Z.div_le_upper_bound; nia. }
  rewrite !i64_add_id by (unfold is_i64; lia). lia.
Qed.

(** [LinearRamp] starts exactly at [from], ends exactly at [to], and with
    [from <= to] every step's rate stays between the two. *)
Theorem linearRate_interpolates (from to nsteps i : Z) :
  1 < nsteps <= 2^31 -> 0 <= from <= to -> to <= 2^31 -> 0 <= i < nsteps ->
  linearRate from to nsteps 0 = from /\
  linearRate from to nsteps (nsteps - 1) = to /\
  from <= linearRate from to nsteps i <= to.
Proof. apply linearRate_spec. Qed.

Lemma linearRate_interpolates_witness :
  linearRate 100 500 5 0 = 100 /\ linearRate 100 500 5 4 = 500 /\
  100 <= linearRate 100 500 5 2 <= 500.
Proof. apply linearRate_interpolates; lia. Defined.
