(* ===== verification/Rand.v ===== *)
(** * Rand: deterministic pseudo-random generators

    [prng] is the SplitMix64 generator of core/nemesis/rand.go.  [PCG] is the
    PCG-DXSM source of Go's math/rand/v2, which core/workload seeds for its
    payloads and its generators.  [Rng] is what core/workload relies on of a
    [rand.Rand] built on such a source. *)

From S2P Require Import Prelude Domain.

Local Open Scope Z_scope.

(** ** SplitMix64 (core/nemesis/rand.go) *)

Definition gamma : Z := 0x9E3779B97F4A7C15.

Record prng := { prng_state : Z }.

Definition newPRNG (seed : Z) : prng := {| prng_state := u64_of_i64 seed |}.

(** The output function applied to the advanced state. *)
Definition splitmix (s : Z) : Z :=
  let z := u64 (xorshift 30 s * 0xBF58476D1CE4E5B9) in
  let z := u64 (xorshift 27 z * 0x94D049BB133111EB) in
  xorshift 31 z.

Definition prng_next (p : prng) : Z * prng :=
  let s := u64 (prng_state p + gamma) in
  (splitmix s, {| prng_state := s |}).

Definition prng_intn (p : prng) (n : Z) : Z * prng :=
  if n <=? 0 then (0, p)
  else let '(x, p') := prng_next p in (i64_of_u64 (x mod u64_of_i64 n), p').

(** ** PCG-DXSM (math/rand/v2) *)

Record PCG := { pcg_hi : Z; pcg_lo : Z }.

Definition NewPCG (seed1 seed2 : Z) : PCG := {| pcg_hi := seed1; pcg_lo := seed2 |}.

Definition pcg_mulHi : Z := 2549297995355413924.
Definition pcg_mulLo : Z := 4865540595714422341.
Definition pcg_incHi : Z := 6364136223846793005.
Definition pcg_incLo : Z := 1442695040888963407.
Definition pcg_cheapMul : Z := 0xda942042e4dd58b5.

(** The 128-bit state update [state * mul + inc] on two 64-bit halves. *)
Definition pcg_step (p : PCG) : PCG :=
  let prod := pcg_lo p * pcg_mulLo in
  let lo0 := u64 prod in
  let hi0 := u64 (prod / 2^64 + pcg_hi p * pcg_mulLo + pcg_lo p * pcg_mulHi) in
  let carry := (lo0 + pcg_incLo) / 2^64 in
  {| pcg_hi := u64 (hi0 + pcg_incHi + carry); pcg_lo := u64 (lo0 + pcg_incLo) |}.

Definition pcg_output (p : PCG) : Z :=
  let hi := xorshift 32 (pcg_hi p) in
  let hi := u64 (hi * pcg_cheapMul) in
  let hi := xorshift 48 hi in
  u64 (hi * Z.lor (pcg_lo p) 1).

Definition PCG_Uint64 (p : PCG) : Z * PCG :=
  let p' := pcg_step p in (pcg_output p', p').

(** The first outputs Go's own test of the source pins down for [NewPCG(1, 2)]. *)
Example pcg_reference_outputs :
  let '(a, p) := PCG_Uint64 (NewPCG 1 2) in
  let '(b, _) := PCG_Uint64 p in
  (a, b) = (0xc4f5a58656eef510, 0x9dcec3ad077dec6c).
Proof. reflexivity. Qed.

(** ** The draws core/workload makes from a [rand.Rand] *)

(** [rng_New] is [rand.New(rand.NewPCG(s1, s2))]; [rng_IntN] is [IntN] and
    [Int64N] on a positive bound; [rng_Zipf] is a draw of [Uint64] from
    [rand.NewZipf(r, s, 1, imax)] when that is not nil, whose floating-point
    sampling is not modelled. *)
Class Rng (R : Type) := {
  rng_New : Z -> Z -> R;
  rng_IntN : R -> Z -> Z * R;
  rng_Zipf : R -> float64 -> Z -> Z * R
}.

(** [IntN] and [Int64N] panic on a bound that is not positive. *)
Definition IntN {R} `{Rng R} (r : R) (n : Z) : option (Z * R) := if n <=? 0 then None else Some (rng_IntN r n).

(** The exponents of which [NewZipf] makes nil: those up to 1. *)
Definition zipf_nil (s : float64) : bool := SpecFloat.SFleb s (float_of_int 1).

(** A draw from the result of [NewZipf]; from nil it panics. *)
Definition Zipf_Uint64 {R} `{Rng R} (r : R) (s : float64) (imax : Z) : option (Z * R) :=
  if zipf_nil s then None else Some (rng_Zipf r s imax).

(** The documented ranges of those draws. *)
Class RngLaws (R : Type) `{Rng R} := {
  rng_IntN_range : forall r n, 0 < n -> 0 <= (rng_IntN r n).1 < n;
  rng_Zipf_range : forall r s imax, 0 <= imax -> 0 <= (rng_Zipf r s imax).1 <= imax
}.

(** A source for witnesses: PCG reduced modulo the bound. *)
#[export] Instance PCG_Rng : Rng PCG := {
  rng_New := NewPCG;
  rng_IntN r n := let '(x, r') := PCG_Uint64 r in (x mod n, r');
  rng_Zipf r _ imax := let '(x, r') := PCG_Uint64 r in (x mod (imax + 1), r')
}.

#[export] Instance PCG_RngLaws : RngLaws PCG.
Proof.
  split.
  - intros r n Hn. simpl. by apply Z.mod_pos_bound.
  - intros r s imax Himax. simpl.
    pose proof (Z.mod_pos_bound (pcg_output (pcg_step r)) (imax + 1)). lia.
Qed.

(** ** Injectivity of the output functions *)

Lemma mul_u64_inj m a b :
  Z.odd m = true -> is_u64 a -> is_u64 b -> u64 (a * m) = u64 (b * m) -> a = b.
Proof. unfold is_u64, u64. intros. by apply (mul_odd_inj 64 m). Qed.

Lemma xorshift_u64 k z : 0 <= k -> is_u64 z -> is_u64 (xorshift k z).
Proof. unfold is_u64. intros. by apply xorshift_range. Qed.

#[export] Hint Resolve xorshift_u64 u64_range : golib.

Lemma is_u64_nonneg z : is_u64 z -> 0 <= z.
Proof. unfold is_u64. lia. Qed.
#[export] Hint Resolve is_u64_nonneg : golib.


Lemma splitmix_inj a b : is_u64 a -> is_u64 b -> splitmix a = splitmix b -> a = b.
Proof.
  unfold splitmix. intros Ha Hb H.
  apply xorshift_inj in H; [|lia|eauto with golib..].
  apply mul_u64_inj in H; [|done|apply xorshift_u64; auto with golib; lia..].
  apply xorshift_inj in H; [|lia|eauto with golib..].
  apply mul_u64_inj in H; [|done|apply xorshift_u64; auto with golib; lia..].
  apply xorshift_inj in H; [done|lia|eauto with golib..].
Qed.

(** The generator after [n] draws. *)
Fixpoint prng_after (p : prng) (n : nat) : prng :=
  match n with O => p | S n' => prng_after (prng_next p).2 n' end.

Lemma prng_after_state p n :
  is_u64 (prng_state p) ->
  prng_state (prng_after p n) = u64 (prng_state p + Z.of_nat n * gamma).
Proof.
  revert p. induction n as [|n IH]; intros p Hp.
  - change (prng_state p = u64 (prng_state p + 0 * gamma)).
    rewrite Z.mul_0_l, Z.add_0_r. symmetry. by apply u64_id.
  - cbn [prng_after]. rewrite IH by apply u64_range.
    cbn [prng_next prng_state snd]. unfold u64. rewrite Zplus_mod_idemp_l. f_equal. lia.
Qed.

(** The [n]-th output drawn from a seed. *)
Definition prng_output (seed : Z) (n : nat) : Z := (prng_next (prng_after (newPRNG seed) n)).1.

(** The fault-target generator has full period: the first [2^64] outputs
    of any seed are pairwise distinct, so the node selection never enters a
    short cycle. *)
Theorem prng_no_repeat (seed : Z) (i j : nat) :
  Z.of_nat i < Z.of_nat j < 2^64 -> prng_output seed i <> prng_output seed j.
Proof.
  intros Hij Heq. unfold prng_output in Heq. cbn [prng_next fst] in Heq.
  apply splitmix_inj in Heq; [|apply u64_range..].
  rewrite !prng_after_state in Heq by apply u64_range.
  unfold u64 in Heq. rewrite !Zplus_mod_idemp_l in Heq.
  assert (H : (Z.of_nat j - Z.of_nat i) * gamma mod 2^64 = 0 * gamma mod 2^64).
  { replace ((Z.of_nat j - Z.of_nat i) * gamma)
      with ((prng_state (newPRNG seed) + Z.of_nat j * gamma + gamma)
            - (prng_state (newPRNG seed) + Z.of_nat i * gamma + gamma)) by lia.
    rewrite Zminus_mod, Heq, Z.sub_diag. done. }
  apply (mul_odd_inj 64) in H; [lia|lia|done|lia|lia].
Qed.

Lemma prng_no_repeat_witness : prng_output 42 0 <> prng_output 42 3.
Proof. apply prng_no_repeat. vm_compute. done. Defined.

Lemma prng_intn_range p n : 0 < n -> is_i64 n -> 0 <= (prng_intn p n).1 < n.
Proof.
  intros Hn Hi. unfold prng_intn. destruct (n <=? 0) eqn:E; zbool; [lia|].
  cbn [prng_next fst]. unfold u64_of_i64, i64_of_u64.
  rewrite (u64_id n) by (unfold is_i64, is_u64 in *; lia).
  pose proof (Z.mod_pos_bound (splitmix (u64 (prng_state p + gamma))) n Hn).
  rewrite wrap64_id by (unfold is_i64 in *; lia). done.
Qed.

Lemma pcg_output_inj lo a b :
  is_u64 a -> is_u64 b ->
  pcg_output {| pcg_hi := a; pcg_lo := lo |} = pcg_output {| pcg_hi := b; pcg_lo := lo |} ->
  a = b.
Proof.
  unfold pcg_output. cbn [pcg_hi pcg_lo]. intros Ha Hb H.
  assert (Hodd : Z.odd (Z.lor lo 1) = true).
  { rewrite <- Z.bit0_odd, Z.lor_spec. by rewrite orb_true_r. }
  apply mul_u64_inj in H; [|done|apply xorshift_u64; auto with golib; lia..].
  apply xorshift_inj in H; [|lia|eauto with golib..].
  apply mul_u64_inj in H; [|done|apply xorshift_u64; auto with golib; lia..].
  apply xorshift_inj in H; [done|lia|eauto with golib..].
Qed.

(** The first output for a fixed second seed word determines the first word. *)
Lemma pcg_first_output_inj salt a b :
  is_u64 a -> is_u64 b ->
  (PCG_Uint64 (NewPCG a salt)).1 = (PCG_Uint64 (NewPCG b salt)).1 -> a = b.
Proof.
  intros Ha Hb H. unfold PCG_Uint64, pcg_step in H. cbn [fst NewPCG pcg_hi pcg_lo] in H.
  apply pcg_output_inj in H; [|apply u64_range..].
  apply (mul_u64_inj pcg_mulLo); [done..|].
  unfold u64 in *.
  set (c1 := salt * pcg_mulLo / 2^64) in H. set (c2 := salt * pcg_mulHi) in H.
  set (c3 := (salt * pcg_mulLo mod 2^64 + pcg_incLo) / 2^64) in H.
  assert (E : forall x, ((c1 + x + c2) mod 2^64 + pcg_incHi + c3) mod 2^64
                        = (x + (c1 + c2 + pcg_incHi + c3)) mod 2^64).
  { intros x. rewrite <- Z.add_assoc, Zplus_mod_idemp_l. f_equal. lia. }
  rewrite !E in H.
  assert (F : forall x c, x mod 2^64 = ((x + c) mod 2^64 - c) mod 2^64).
  { intros x c. rewrite Zminus_mod_idemp_l. f_equal. lia. }
  rewrite (F (a * pcg_mulLo) (c1 + c2 + pcg_incHi + c3)), H, <- F. done.
Qed.
