(* ===== verification/Workload.v ===== *)
(** * Workload: the operation generator (core/workload)

    [New] validates a workload and computes a worker's key partition,
    [Generator] seeds one goroutine's generator and [generator_Next] produces
    its next operation.  The generator, its key distribution and (for the
    Zipfian ones) the Zipf sampler share one [*rand.Rand], so its state is
    threaded through every draw. *)

From Stdlib Require Import Ascii.
From S2P Require Import Prelude Domain Rand.

Local Open Scope Z_scope.
Local Open Scope go_scope.

(** ** value.go *)

Definition byte_of_Z (z : Z) : byte := default Byte.x00 (Byte.of_N (Z.to_N (z mod 256))).

(** [binary.LittleEndian.PutUint64] into an 8-byte buffer. *)
Fixpoint le_bytes (n : nat) (v : Z) : bytes :=
  match n with
  | O => []
  | S n' => byte_of_Z v :: le_bytes n' (Z.shiftr v 8)
  end.

Definition valueSalt : Z := 0x243F6A8885A308D3.

(** The loop writing the payload's full words. *)
Fixpoint value_words (n : nat) (src : PCG) : bytes * PCG :=
  match n with
  | O => ([], src)
  | S n' =>
      let '(x, src1) := PCG_Uint64 src in
      let '(rest, src2) := value_words n' src1 in
      (le_bytes 8 x ++ rest, src2)
  end.

Definition Value (key size : Z) : bytes :=
  if size <=? 0 then []
  else
    let '(buf, src) := value_words (Z.to_nat (Z.quot size 8)) (NewPCG (u64_of_i64 key) valueSalt) in
    let rem := Z.rem size 8 in
    if 0 <? rem then
      let '(x, _) := PCG_Uint64 src in
      buf ++ take (Z.to_nat rem) (le_bytes 8 x)
    else buf.

(** ** keydist.go *)

Inductive keyGen : Type :=
| constKeys
| uniformKeys (span : Z)
| sequentialKeys (span cur : Z)
| zipfKeys (zipfS : float64) (imax : Z)
| latestKeys (zipfS : float64) (imax span head : Z).

Definition newKeyGen (dist : string) (span : Z) (zipfS : float64) : keyGen :=
  if span <=? 1 then constKeys
  else if String.eqb dist "zipfian" then zipfKeys zipfS (span - 1)
  else if String.eqb dist "latest" then latestKeys zipfS (span - 1) span 1
  else if String.eqb dist "sequential" then sequentialKeys span 0
  else uniformKeys span.

(** The draws of [next]; [None] is a panic: of the source on a bound that is not
    positive, of a nil [*rand.Zipf], or a remainder by zero. *)
Definition latestKeys_next {R} `{Rng R} (r : R) (zipfS : float64) (imax span head : Z)
    : option (Z * R * keyGen) :=
  let head := if head <? span then head + 1 else head in
  '(off, r') ← Zipf_Uint64 r zipfS imax;
  let off := i64_of_u64 off in
  let off := if head <=? off then head - 1 else off in
  Some (head - 1 - off, r', latestKeys zipfS imax span head).

Definition keyGen_next {R} `{Rng R} (r : R) (k : keyGen) : option (Z * R * keyGen) :=
  match k with
  | constKeys => Some (0, r, constKeys)
  | uniformKeys span => '(x, r') ← IntN r span; Some (x, r', uniformKeys span)
  | sequentialKeys span cur => if span =? 0 then None else Some (Z.rem cur span, r, sequentialKeys span (cur +! 1))
  | zipfKeys s imax => '(x, r') ← Zipf_Uint64 r s imax; Some (i64_of_u64 x, r', zipfKeys s imax)
  | latestKeys s imax span head => latestKeys_next r s imax span head
  end.

(** ** generator.go *)

(** [strings.ToLower] on the ASCII letters; the read labels hold only letters
    that no other code point lowers to. *)
Definition lower_ascii (c : ascii) : ascii :=
  let n := nat_of_ascii c in
  if (65 <=? n)%nat && (n <=? 90)%nat then ascii_of_nat (n + 32) else c.

Fixpoint ToLower (s : string) : string :=
  match s with
  | EmptyString => EmptyString
  | String c s' => String (lower_ascii c) (ToLower s')
  end.

Definition readOps : list string := ["read"; "get"; "scan"; "count"; "query"]%string.

Definition isWrite (t : OpType) : bool := negb (existsb (String.eqb (ToLower t)) readOps).

Definition paramBool (p : params) (key : string) : bool :=
  match param_any p key with ABool b => b | _ => false end.

(** 1.1 in binary64. *)
Definition defaultZipfS : float64 := SpecFloat.S754_finite false 4953959590107546 (-52).

Definition float_one : float64 := float_of_int 1.

Definition zipfExponent (p : params) : float64 :=
  match param_any p "zipf_s" with
  | AFloat f => if float_lt float_one f then f else defaultZipfS
  | _ => defaultZipfS
  end.

Record Factory := {
  fa_w : Workload;
  fa_seed : Z;
  fa_workerID : Z;
  fa_strideN : Z;
  fa_base : Z;
  fa_localSpace : Z;
  fa_zipfS : float64;
  fa_cum : list Z;
  fa_total : Z
}.

(** The errors [New] returns. *)
Inductive new_error :=
| ErrNoOperations
| ErrWorkerCount (count : Z)
| ErrWorkerID (id count : Z)
| ErrKeySpace (space : Z)
| ErrWeight (op : OpType) (weight : Z)
| ErrNoKeys (id count space : Z).

Definition partition (w : Workload) (workerID workerCount : Z) : Z * Z * Z :=
  if paramBool (w_Params w) "shared_keys" then (1, 0, w_KeySpace w)
  else
    let stride := workerCount in
    let base := workerID in
    if w_KeySpace w <=? base then (stride, base, 0)
    else (stride, base, Z.quot (((w_KeySpace w -! base) +! stride) -! 1) stride).

(** The validation loop of [New]: the cumulative weights and their total. *)
Fixpoint cumWeights (ops : list OpSpec) (total : Z) : result new_error (list Z * Z) :=
  match ops with
  | [] => Ok ([], total)
  | op :: rest =>
      if os_Weight op <=? 0 then Err (ErrWeight (os_Type op) (os_Weight op))
      else
        let total' := total +! os_Weight op in
        r <-? cumWeights rest total' ;; Ok (total' :: r.1, r.2)
  end.

Definition New (w : Workload) (seed workerID workerCount : Z) : result new_error Factory :=
  match w_Operations w with
  | [] => Err ErrNoOperations
  | _ =>
    if workerCount <? 1 then Err (ErrWorkerCount workerCount)
    else if (workerID <? 0) || (workerCount <=? workerID) then Err (ErrWorkerID workerID workerCount)
    else if w_KeySpace w <? 1 then Err (ErrKeySpace (w_KeySpace w))
    else
      c <-? cumWeights (w_Operations w) 0 ;;
      let '(strideN, base, local) := partition w workerID workerCount in
      if local <? 1 then Err (ErrNoKeys workerID workerCount (w_KeySpace w))
      else Ok {| fa_w := w; fa_seed := seed; fa_workerID := workerID;
                 fa_strideN := strideN; fa_base := base; fa_localSpace := local;
                 fa_zipfS := zipfExponent (w_Params w); fa_cum := c.1; fa_total := c.2 |}
  end.

(** The two PCG words a shard's stream is seeded with. *)
Definition generatorSeeds (seed workerID shard : Z) : Z * Z :=
  (u64 (u64_of_i64 ((seed +! workerID) +! shard) * 0x9E3779B97F4A7C15),
   Z.lxor (Z.lxor (u64_of_i64 seed) (u64 (Z.shiftl (u64_of_i64 workerID) 32)))
          (u64 (u64_of_i64 shard * 0xD1B54A32D192ED03))).

Record generator (R : Type) := {
  g_f : Factory;
  g_r : R;
  g_keys : keyGen;
  g_seqOf : gmap Z Z;
  g_vsize : Z
}.
Arguments g_f {R}. Arguments g_r {R}. Arguments g_keys {R}.
Arguments g_seqOf {R}. Arguments g_vsize {R}.

Definition Generator {R} `{Rng R} (f : Factory) (shard : Z) : generator R :=
  let '(s1, s2) := generatorSeeds (fa_seed f) (fa_workerID f) shard in
  {| g_f := f; g_r := rng_New s1 s2;
     g_keys := newKeyGen (w_KeyDist (fa_w f)) (fa_localSpace f) (fa_zipfS f);
     g_seqOf := ∅; g_vsize := w_ValueSize (fa_w f) |}.

(** The loop of [pickOp] over the cumulative weights: the chosen index. *)
Fixpoint pickIndex (cum : list Z) (x : Z) (i : nat) : option nat :=
  match cum with
  | [] => None
  | c :: rest => if x <? c then Some i else pickIndex rest x (S i)
  end.

(** [None] is a panic: of [IntN], or an index out of range. *)
Definition pickOp {R} `{Rng R} (f : Factory) (r : R) : option (OpType * R) :=
  '(x, r') ← IntN r (fa_total f);
  let i := match pickIndex (fa_cum f) x 0 with
           | Some i => i
           | None => (length (fa_cum f) - 1)%nat
           end in
  op ← w_Operations (fa_w f) !! i;
  Some (os_Type op, r').

(** One operation; [None] is a panic. *)
Definition generator_Next {R} `{Rng R} (g : generator R) : option (Operation * generator R) :=
  let f := g_f g in
  '(ty, r1) ← pickOp f (g_r g);
  '(local, r2, keys) ← keyGen_next r1 (g_keys g);
  let key := (local *! fa_strideN f) +! fa_base f in
  let seq := default 0 (g_seqOf g !! key) +! 1 in
  let val := if isWrite ty then Value key (g_vsize g) else [] in
  Some ({| op_Type := ty; op_Key := key; op_Value := val; op_Seq := seq |},
        {| g_f := f; g_r := r2; g_keys := keys;
           g_seqOf := <[key := seq]> (g_seqOf g); g_vsize := g_vsize g |}).

(** The next [n] operations of a generator. *)
Fixpoint generator_run {R} `{Rng R} (g : generator R) (n : nat) : option (list Operation * generator R) :=
  match n with
  | O => Some ([], g)
  | S n' =>
      '(op, g1) ← generator_Next g;
      '(ops, g2) ← generator_run g1 n';
      Some (op :: ops, g2)
  end.

(** ** Payloads *)

Lemma length_le_bytes n v : length (le_bytes n v) = n.
Proof. revert v. induction n as [|n IH]; intros v; simpl; [done|]. by rewrite IH. Qed.

Lemma byte_of_Z_val z : byte_val (byte_of_Z z) = z mod 256.
Proof.
  unfold byte_val, byte_of_Z.
  assert (H : 0 <= z mod 256 < 256) by (apply Z.mod_pos_bound; lia).
  destruct (Byte.of_N (Z.to_N (z mod 256))) as [b|] eqn:E; simpl.
  - apply Byte.to_of_N in E. rewrite E. lia.
  - apply Byte.of_N_None_iff in E. lia.
Qed.

Lemma le_bytes_inj n a b :
  0 <= a < 2^(8 * Z.of_nat n) -> 0 <= b < 2^(8 * Z.of_nat n) ->
  le_bytes n a = le_bytes n b -> a = b.
Proof.
  revert a b. induction n as [|n IH]; intros a b Ha Hb H.
  { simpl in *. lia. }
  cbn [le_bytes] in H. injection H as Hb0 Hrest.
  apply (f_equal byte_val) in Hb0. rewrite !byte_of_Z_val in Hb0.
  assert (E : 8 * Z.of_nat (S n) = 8 * Z.of_nat n + 8) by lia.
  rewrite E, Z.pow_add_r in Ha, Hb by lia. change (2^8) with 256 in *.
  apply IH in Hrest.
  - rewrite !Z.shiftr_div_pow2 in Hrest by lia. change (2^8) with 256 in Hrest.
    rewrite (Z.div_mod a 256), (Z.div_mod b 256) by lia. congruence.
  - rewrite Z.shiftr_div_pow2 by lia. change (2^8) with 256.
    split; [apply Z.div_pos; lia|apply Z.div_lt_upper_bound; lia].
  - rewrite Z.shiftr_div_pow2 by lia. change (2^8) with 256.
    split; [apply Z.div_pos; lia|apply Z.div_lt_upper_bound; lia].
Qed.

Lemma length_value_words n src : length (value_words n src).1 = (8 * n)%nat.
Proof.
  revert src. induction n as [|n IH]; intros src; [done|].
  cbn [value_words]. destruct (PCG_Uint64 src) as [x src1].
  specialize (IH src1). destruct (value_words n src1) as [rest src2]. cbn [fst] in *.
  rewrite length_app, length_le_bytes, IH. lia.
Qed.

Lemma length_Value key size : Z.of_nat (length (Value key size)) = Z.max 0 size.
Proof.
  unfold Value. destruct (size <=? 0) eqn:E; zbool; [simpl; lia|].
  rewrite Z.quot_div_nonneg, Z.rem_mod_nonneg by lia.
  pose proof (length_value_words (Z.to_nat (size / 8)) (NewPCG (u64_of_i64 key) valueSalt)) as Hl.
  destruct (value_words _ _) as [buf src]. cbn [fst] in Hl.
  pose proof (Z.div_mod size 8). pose proof (Z.mod_pos_bound size 8).
  assert (0 <= size / 8) by (apply Z.div_pos; lia).
  destruct (0 <? size mod 8) eqn:E2; zbool.
  - destruct (PCG_Uint64 src) as [x src1].
    rewrite length_app, length_take, length_le_bytes, Hl. lia.
  - rewrite Hl. lia.
Qed.

(** The first word of a payload of at least eight bytes. *)
Lemma Value_first_word key size :
  8 <= size ->
  take 8 (Value key size) = le_bytes 8 (PCG_Uint64 (NewPCG (u64_of_i64 key) valueSalt)).1.
Proof.
  intros Hs. unfold Value. destruct (size <=? 0) eqn:E; zbool; [lia|].
  rewrite Z.quot_div_nonneg, Z.rem_mod_nonneg by lia.
  assert (1 <= size / 8) by (apply Z.div_le_lower_bound; lia).
  replace (Z.to_nat (size / 8)) with (S (Z.to_nat (size / 8 - 1))) by lia.
  cbn [value_words]. destruct (PCG_Uint64 (NewPCG _ _)) as [x src1]. cbn [fst].
  destruct (value_words _ src1) as [rest src2].
  assert (Hgo : forall tl, take 8 (le_bytes 8 x ++ tl) = le_bytes 8 x).
  { intros tl. apply take_app_length'. by rewrite length_le_bytes. }
  destruct (0 <? size mod 8); [|apply Hgo].
  destruct (PCG_Uint64 src2) as [y src3]. rewrite <- app_assoc. apply Hgo.
Qed.

(** A payload has exactly the requested length, and payloads of at least
    eight bytes identify their key: two distinct keys never get the same
    bytes, so a value read back under the wrong key is always different. *)
Theorem Value_identifies_key (k1 k2 size : Z) :
  8 <= size -> is_i64 k1 -> is_i64 k2 ->
  Z.of_nat (length (Value k1 size)) = size /\
  (Value k1 size = Value k2 size -> k1 = k2).
Proof.
  intros Hs Hk1 Hk2. split; [rewrite length_Value; lia|]. intros H.
  apply (f_equal (take 8)) in H. rewrite !Value_first_word in H by done.
  apply le_bytes_inj in H; [|apply u64_range..].
  apply pcg_first_output_inj in H; [|apply u64_range..].
  rewrite <- (i64_u64_i64 k1 Hk1), <- (i64_u64_i64 k2 Hk2). by rewrite H.
Qed.

Lemma Value_identifies_key_witness :
  Z.of_nat (length (Value (-3) 13)) = 13 /\ (Value (-3) 13 = Value 7 13 -> -3 = 7).
Proof. apply Value_identifies_key; vm_compute; intuition congruence. Defined.

(** ** Key partition *)

Lemma partition_unshared w id n :
  paramBool (w_Params w) "shared_keys" = false ->
  0 <= id < n -> 0 <= w_KeySpace w -> w_KeySpace w + n < 2^63 ->
  partition w id n =
    (n, id, if w_KeySpace w <=? id then 0 else (w_KeySpace w - id + n - 1) / n).
Proof.
  intros Hs Hid Hks Hb. unfold partition. rewrite Hs.
  destruct (w_KeySpace w <=? id) eqn:E; zbool; [done|].
  rewrite (i64_sub_id (w_KeySpace w)) by (unfold is_i64; lia). rewrite i64_add_id by (unfold is_i64; lia).
  rewrite i64_sub_id by (unfold is_i64; lia). rewrite Z.quot_div_nonneg by lia. done.
Qed.

(** [local] counts exactly the keys [i * stride + base] below the key space. *)
Lemma partition_local w id n i :
  paramBool (w_Params w) "shared_keys" = false ->
  0 <= id < n -> 0 <= w_KeySpace w -> w_KeySpace w + n < 2^63 -> 0 <= i ->
  i < (partition w id n).2 <-> i * n + id < w_KeySpace w.
Proof.
  intros Hs Hid Hks Hb Hi. rewrite partition_unshared by done. cbn [snd].
  destruct (w_KeySpace w <=? id) eqn:E; zbool; [split; intros; nia|].
  pose proof (Z.div_mod (w_KeySpace w - id + n - 1) n ltac:(lia)).
  pose proof (Z.mod_pos_bound (w_KeySpace w - id + n - 1) n ltac:(lia)).
  split; intros; nia.
Qed.

(** The workers' partitions are disjoint and cover the key space: without
    [shared_keys], every key below [KeySpace] is [i*stride + base] for exactly
    one worker and exactly one local index below that worker's local space. *)
Theorem partition_bijection (w : Workload) (n k : Z) :
  paramBool (w_Params w) "shared_keys" = false ->
  1 <= n -> 1 <= w_KeySpace w -> w_KeySpace w + n < 2^63 ->
  0 <= k < w_KeySpace w ->
  exists! p : Z * Z,
    0 <= p.1 < n /\
    let '(stride, base, local) := partition w p.1 n in
    0 <= p.2 < local /\ k = p.2 * stride + base.
Proof.
  intros Hs Hn Hks Hb Hk. exists (k mod n, k / n). split.
  - pose proof (Z.mod_pos_bound k n ltac:(lia)). pose proof (Z.div_mod k n ltac:(lia)).
    assert (0 <= k / n) by (apply Z.div_pos; lia). cbn [fst snd]. split; [done|].
    pose proof (partition_local w (k mod n) n (k / n) Hs) as Hl.
    rewrite partition_unshared in * by (done || lia). cbn [snd] in Hl.
    split; [split; [done|]; apply Hl; lia|lia].
  - intros [id i]. cbn [fst snd]. intros [Hid Hp].
    pose proof (partition_local w id n i Hs Hid) as Hl.
    rewrite partition_unshared in * by (done || lia). destruct Hp as [Hi ->].
    rewrite Z.add_comm, Z.mod_add, Z.div_add by lia.
    rewrite Z.mod_small, Z.div_small by lia. done.
Qed.

Definition sample_workload : Workload :=
  {| w_Name := "mix"; w_Mode := ModePerformance;
     w_Operations := [{| os_Type := "read"; os_Weight := 3 |};
                      {| os_Type := "insert"; os_Weight := 2 |}];
     w_KeySpace := 10; w_KeyDist := DistUniform; w_ValueSize := 16;
     w_VerifyModel := ""; w_Params := ∅ |}.

Lemma partition_bijection_witness :
  exists! p : Z * Z,
    0 <= p.1 < 4 /\
    let '(stride, base, local) := partition sample_workload p.1 4 in
    0 <= p.2 < local /\ 9 = p.2 * stride + base.
Proof. apply partition_bijection; vm_compute; intuition congruence. Defined.

(** ** Generator seeds *)

Lemma lxor_mod_pow2 a b n : 0 <= n -> Z.lxor a b mod 2^n = Z.lxor (a mod 2^n) (b mod 2^n).
Proof.
  intros Hn. apply Z.bits_inj'. intros i Hi. rewrite Z.lxor_spec.
  destruct (decide (i < n)).
  - rewrite !Z.mod_pow2_bits_low by lia. apply Z.lxor_spec.
  - rewrite !Z.mod_pow2_bits_high by lia. done.
Qed.

Lemma u64_mod_pow2 z n : 0 <= n <= 64 -> u64 z mod 2^n = z mod 2^n.
Proof.
  intros Hn. unfold u64. apply Z.mod_mod_divide.
  exists (2^(64 - n)). rewrite <- Z.pow_add_r by lia. f_equal. lia.
Qed.

Lemma lxor_cancel_l a b c : Z.lxor a b = Z.lxor a c -> b = c.
Proof.
  intros H. apply (f_equal (Z.lxor a)) in H.
  by rewrite <- !Z.lxor_assoc, !Z.lxor_nilpotent, !Z.lxor_0_l in H.
Qed.

(** Distinct goroutines draw from distinct streams: for one seed, the
    pair of PCG words determines both the worker and the shard, unlike a bare
    sum of the three. *)
Theorem generatorSeeds_inj (seed w1 s1 w2 s2 : Z) :
  is_i64 seed ->
  0 <= w1 < 2^31 -> 0 <= w2 < 2^31 -> 0 <= s1 < 2^31 -> 0 <= s2 < 2^31 ->
  generatorSeeds seed w1 s1 = generatorSeeds seed w2 s2 -> w1 = w2 /\ s1 = s2.
Proof.
  intros Hseed Hw1 Hw2 Hs1 Hs2 H. unfold generatorSeeds in H.
  injection H as H1 H2. unfold u64_of_i64 in *.
  assert (Hs : s1 = s2).
  { apply (f_equal (fun z => z mod 2^32)) in H2.
    rewrite !lxor_mod_pow2, !(u64_mod_pow2 _ 32) in H2 by lia.
    rewrite !Z.shiftl_mul_pow2, !Z.mod_mul, !Z.lxor_0_r in H2 by lia.
    apply lxor_cancel_l in H2. rewrite !(u64_id s1), !(u64_id s2) in H2 by (unfold is_u64; lia).
    apply (mul_odd_inj 32) in H2; [done|lia|done|lia|lia]. }
  split; [|done]. subst s2.
  apply mul_u64_inj in H1; [|done|apply u64_range..].
  unfold u64, i64_add in H1. rewrite !wrap64_mod in H1.
  rewrite (Zplus_mod (wrap64 (seed + w1))), (Zplus_mod (wrap64 (seed + w2))) in H1.
  rewrite !wrap64_mod, <- !Zplus_mod in H1.
  assert (E : (w1 - w2) mod 2^64 = 0).
  { replace (w1 - w2) with ((seed + w1 + s1) - (seed + w2 + s1)) by lia.
    rewrite Zminus_mod, H1, Z.sub_diag. done. }
  apply Z.mod_divide in E; [|lia]. destruct E as [q Hq]. lia.
Qed.

Lemma generatorSeeds_inj_witness :
  generatorSeeds 42 0 1 = generatorSeeds 42 1 0 -> 0 = 1 /\ 1 = 0.
Proof. apply generatorSeeds_inj; vm_compute; intuition congruence. Defined.

(** ** The operation mix *)

Definition weights (ops : list OpSpec) : list Z := os_Weight <$> ops.

Definition ops_ok (ops : list OpSpec) : Prop := Forall (fun o => 0 < os_Weight o) ops.

Lemma weights_nonneg ops : ops_ok ops -> 0 <= zsum (weights ops).
Proof.
  intros H. apply zsum_nonneg, Forall_fmap. eapply Forall_impl; [exact H|]. simpl. lia.
Qed.

Lemma zsum_weights_cons o ops : zsum (weights (o :: ops)) = os_Weight o + zsum (weights ops).
Proof. done. Qed.

Lemma cumWeights_ok ops t cum total :
  cumWeights ops t = Ok (cum, total) -> ops_ok ops /\ length cum = length ops.
Proof.
  revert t cum total. induction ops as [|o ops IH]; intros t cum total H; simpl in H.
  { simplify_eq. split; [constructor|done]. }
  destruct (os_Weight o <=? 0) eqn:E; zbool; [done|].
  destruct (cumWeights ops _) as [[cum' total']|] eqn:Ec; simplify_eq/=.
  apply IH in Ec as [Hok Hlen]. split; [by constructor|simpl; lia].
Qed.

Lemma cumWeights_cons o ops t cum total :
  0 <= t -> t + zsum (weights (o :: ops)) < 2^63 ->
  cumWeights (o :: ops) t = Ok (cum, total) ->
  exists cum', cum = t + os_Weight o :: cum' /\
    cumWeights ops (t + os_Weight o) = Ok (cum', total) /\ 0 < os_Weight o /\
    0 <= zsum (weights ops).
Proof.
  intros Ht Hb H. pose proof (cumWeights_ok _ _ _ _ H) as [Hok _].
  inversion Hok as [|? ? Ho Hok']; subst.
  pose proof (weights_nonneg ops Hok'). rewrite zsum_weights_cons in Hb.
  simpl in H. destruct (os_Weight o <=? 0) eqn:E; zbool; [lia|].
  rewrite i64_add_id in H by (unfold is_i64; lia).
  destruct (cumWeights ops _) as [[cum' total']|] eqn:Ec; simplify_eq/=. eauto.
Qed.

Lemma cumWeights_total ops t cum total :
  0 <= t -> t + zsum (weights ops) < 2^63 ->
  cumWeights ops t = Ok (cum, total) -> total = t + zsum (weights ops).
Proof.
  revert t cum total. induction ops as [|o ops IH]; intros t cum total Ht Hb H.
  { simpl in *. simplify_eq. lia. }
  apply cumWeights_cons in H as (cum' & -> & H & Ho & Hs); [|done..].
  rewrite zsum_weights_cons in *. apply IH in H; lia.
Qed.

Lemma pickIndex_ge cum x i j : pickIndex cum x i = Some j -> (i <= j)%nat.
Proof.
  revert i. induction cum as [|c cum IH]; intros i H; [done|]. simpl in H.
  destruct (x <? c); simplify_eq; [lia|]. apply IH in H. lia.
Qed.

(** Every draw below the total picks some operation. *)
Lemma pickIndex_total ops t cum total x i :
  0 <= t -> t + zsum (weights ops) < 2^63 ->
  cumWeights ops t = Ok (cum, total) -> t <= x < total ->
  exists j, pickIndex cum x i = Some (i + j)%nat /\ (j < length ops)%nat.
Proof.
  revert t cum total i. induction ops as [|o ops IH]; intros t cum total i Ht Hb H Hx.
  { simpl in H. simplify_eq. lia. }
  apply cumWeights_cons in H as (cum' & -> & H & Ho & Hs); [|done..]. simpl.
  destruct (x <? t + os_Weight o) eqn:E; zbool.
  - exists 0%nat. split; [f_equal; lia|lia].
  - rewrite zsum_weights_cons in Hb.
    destruct (IH (t + os_Weight o) cum' total (S i)) as (j & Hj & Hlt); [lia|lia|done|lia|].
    exists (S j). split; [rewrite Hj; f_equal; lia|lia].
Qed.

Definition picks (cum : list Z) (i j : nat) (x : Z) : bool :=
  bool_decide (pickIndex cum x i = Some j).

Lemma filter_ext_in {A} (P Q : A -> bool) l :
  (forall x, x ∈ l -> P x = Q x) -> List.filter P l = List.filter Q l.
Proof.
  induction l as [|x l IH]; intros H; [done|]. simpl.
  rewrite H by left. rewrite IH; [done|]. intros. apply H. by right.
Qed.

Lemma pick_count ops t cum total i j o :
  0 <= t -> t + zsum (weights ops) < 2^63 ->
  cumWeights ops t = Ok (cum, total) -> ops !! j = Some o ->
  Z.of_nat (length (List.filter (picks cum i (i + j)) (seqZ t (zsum (weights ops))))) = os_Weight o.
Proof.
  revert t cum total i j. induction ops as [|o' ops IH]; intros t cum total i j Ht Hb H Hj; [done|].
  apply cumWeights_cons in H as (cum' & -> & H & Ho & Hs); [|done..].
  rewrite zsum_weights_cons in *. rewrite seqZ_app, List.filter_app, length_app, Nat2Z.inj_add by lia.
  destruct j as [|j]; simplify_eq/=.
  - rewrite filter_all, length_seqZ.
    2:{ intros x Hx%elem_of_seqZ. unfold picks. apply bool_decide_eq_true. simpl.
        destruct (x <? t + os_Weight o) eqn:E; zbool; [f_equal; lia|lia]. }
    rewrite filter_none; [simpl; lia|].
    intros x Hx%elem_of_seqZ. unfold picks. apply bool_decide_eq_false. simpl.
    destruct (x <? t + os_Weight o) eqn:E; zbool; [lia|].
    intros Hp%pickIndex_ge. lia.
  - rewrite filter_none.
    2:{ intros x Hx%elem_of_seqZ. unfold picks. apply bool_decide_eq_false. simpl.
        destruct (x <? t + os_Weight o') eqn:E; zbool; [|lia]. intros [= ?]. lia. }
    rewrite (filter_ext_in _ (picks cum' (S i) (S i + j))).
    2:{ intros x Hx%elem_of_seqZ. unfold picks. simpl.
        destruct (x <? t + os_Weight o') eqn:E; zbool; [lia|].
        by replace (i + S j)%nat with (S (i + j))%nat by lia. }
    rewrite Z.add_0_l. apply (IH (t + os_Weight o') cum' total (S i) j); [lia|lia|done|done].
Qed.

Lemma New_inv w seed id n f :
  New w seed id n = Ok f ->
  exists cum total stride base local,
    w_Operations w <> [] /\ 0 <= id < n /\ 1 <= w_KeySpace w /\
    cumWeights (w_Operations w) 0 = Ok (cum, total) /\
    partition w id n = (stride, base, local) /\ 1 <= local /\
    f = {| fa_w := w; fa_seed := seed; fa_workerID := id; fa_strideN := stride;
           fa_base := base; fa_localSpace := local; fa_zipfS := zipfExponent (w_Params w);
           fa_cum := cum; fa_total := total |}.
Proof.
  unfold New. destruct (w_Operations w) as [|o ops] eqn:Eo; [done|].
  destruct (n <? 1) eqn:E1; zbool; [done|].
  destruct ((id <? 0) || (n <=? id)) eqn:E2; [done|]. zbool.
  destruct (w_KeySpace w <? 1) eqn:E3; zbool; [done|].
  destruct (cumWeights _ 0) as [[cum total]|] eqn:Ec; [|done].
  destruct (partition w id n) as [[stride base] local] eqn:Ep.
  destruct (local <? 1) eqn:E4; zbool; [done|]. intros [= <-].
  exists cum, total, stride, base, local. repeat split; done || lia.
Qed.

(** The operation mix is exact: of the [total] values the uniform draw
    can take, precisely [weight] select each operation. *)
Theorem pickOp_weight_exact (w : Workload) (seed id n : Z) (f : Factory) (j : nat) (o : OpSpec) :
  New w seed id n = Ok f -> zsum (weights (w_Operations w)) < 2^63 ->
  w_Operations w !! j = Some o ->
  fa_total f = zsum (weights (w_Operations w)) /\
  Z.of_nat (length (List.filter (fun x => bool_decide (pickIndex (fa_cum f) x 0 = Some j))
                                (seqZ 0 (fa_total f)))) = os_Weight o.
Proof.
  intros (cum & total & stride & base & local & _ & _ & _ & Hc & _ & _ & ->)%New_inv Hb Hj.
  cbn [fa_total fa_cum]. pose proof (cumWeights_total (w_Operations w) 0 cum total
    ltac:(lia) ltac:(lia) Hc) as Ht. rewrite Z.add_0_l in Ht. split; [done|]. rewrite Ht.
  exact (pick_count (w_Operations w) 0 cum total 0 j o ltac:(lia) ltac:(lia) Hc Hj).
Qed.

Definition sample_factory : Factory :=
  match New sample_workload 42 1 4 with
  | Ok f => f
  | Err _ => {| fa_w := sample_workload; fa_seed := 0; fa_workerID := 0; fa_strideN := 0;
                fa_base := 0; fa_localSpace := 0; fa_zipfS := defaultZipfS;
                fa_cum := []; fa_total := 0 |}
  end.

Lemma pickOp_weight_exact_witness :
  fa_total sample_factory = 5 /\
  Z.of_nat (length (List.filter (fun x => bool_decide (pickIndex (fa_cum sample_factory) x 0 = Some 1%nat))
                                (seqZ 0 5))) = 2.
Proof.
  exact (pickOp_weight_exact sample_workload 42 1 4 sample_factory 1
           {| os_Type := "insert"; os_Weight := 2 |} eq_refl eq_refl eq_refl).
Defined.

(** ** The generator's invariant *)

(** A key generator over a local space of [span] keys that has been drawn from
    at most [t] times. *)
Definition keyGen_ok (span t : Z) (k : keyGen) : Prop :=
  match k with
  | constKeys => 1 <= span
  | uniformKeys s => s = span /\ 0 < span
  | sequentialKeys s cur => s = span /\ 0 < span /\ 0 <= cur <= t
  | zipfKeys z imax => imax = span - 1 /\ 0 < span < 2^63 /\ zipf_nil z = false
  | latestKeys z imax s head => imax = span - 1 /\ s = span /\ 1 <= head <= span /\ span < 2^63 /\ zipf_nil z = false
  end.

(** A float above a positive one is not at most it. *)
Lemma above_not_below m1 e1 f :
  SpecFloat.SFltb (SpecFloat.S754_finite false m1 e1) f = true -> SpecFloat.SFleb f (SpecFloat.S754_finite false m1 e1) = false.
Proof.
  unfold SpecFloat.SFltb, SpecFloat.SFleb, SpecFloat.SFcompare. destruct f as [[]|[]| |[] m e]; try done.
  rewrite (Z.compare_antisym e1 e). destruct (Z.compare e1 e); cbn [CompOpp]; try done.
  fold (Pos.compare m1 m) (Pos.compare m m1). rewrite (Pos.compare_antisym m1 m). by destruct (Pos.compare m1 m).
Qed.

Lemma above_one f : float_lt float_one f = true -> zipf_nil f = false.
Proof.
  unfold zipf_nil, float_lt. change (float_of_int 1) with float_one.
  assert (E : float_one = SpecFloat.S754_finite false 4503599627370496 (-52)) by (vm_compute; reflexivity).
  rewrite E. apply above_not_below.
Qed.

Lemma zipfExponent_ok p : zipf_nil (zipfExponent p) = false.
Proof.
  unfold zipfExponent. destruct (param_any p "zipf_s"); try done.
  destruct (float_lt float_one f) eqn:E; [by apply above_one|done].
Qed.

Lemma newKeyGen_ok dist span z : 1 <= span < 2^63 -> zipf_nil z = false -> keyGen_ok span 0 (newKeyGen dist span z).
Proof.
  intros Hs Hz. unfold newKeyGen. destruct (span <=? 1) eqn:E; zbool; [simpl; lia|].
  repeat destruct (String.eqb dist _); cbn -[zipf_nil]; split_and?; (done || lia).
Qed.

Section generator.
Context {R : Type} `{HR : Rng R} {HL : RngLaws R}.

Lemma IntN_ok (r : R) n : 0 < n -> exists x r', IntN r n = Some (x, r') /\ 0 <= x < n.
Proof.
  intros Hn. unfold IntN. destruct (Z.leb_spec n 0); [lia|]. pose proof (rng_IntN_range r n Hn).
  destruct (rng_IntN r n) as [x r']. by exists x, r'.
Qed.

Lemma Zipf_ok (r : R) z imax : zipf_nil z = false -> 0 <= imax -> exists x r', Zipf_Uint64 r z imax = Some (x, r') /\ 0 <= x <= imax.
Proof.
  intros Hz Hi. unfold Zipf_Uint64. rewrite Hz. pose proof (rng_Zipf_range r z imax Hi).
  destruct (rng_Zipf r z imax) as [x r']. by exists x, r'.
Qed.

Lemma keyGen_next_ok span t (r : R) k :
  keyGen_ok span t k -> 0 <= t < 2^62 ->
  exists x r' k', keyGen_next r k = Some (x, r', k') /\ 0 <= x < span /\ keyGen_ok span (t + 1) k'.
Proof.
  intros Hk Ht. destruct k as [|s|s cur|z imax|z imax s head]; cbn [keyGen_next].
  - exists 0, r, constKeys. simpl in *. split_and!; (done || lia).
  - destruct Hk as [-> Hs]. destruct (IntN_ok r span Hs) as (x & r' & -> & Hx). by exists x, r', (uniformKeys span).
  - destruct Hk as (-> & Hs & Hc). destruct (Z.eqb_spec span 0); [lia|].
    exists (Z.rem cur span), r, (sequentialKeys span (cur +! 1)). split; [done|].
    rewrite Z.rem_mod_nonneg by lia. split; [by apply Z.mod_pos_bound|].
    rewrite i64_add_id by (unfold is_i64; lia). simpl. lia.
  - destruct Hk as (-> & Hs & Hz). destruct (Zipf_ok r z (span - 1) Hz ltac:(lia)) as (x & r' & -> & Hx).
    exists (i64_of_u64 x), r', (zipfKeys z (span - 1)). cbn. unfold i64_of_u64. rewrite wrap64_id by (unfold is_i64; lia).
    split_and!; [done|lia..|done].
  - destruct Hk as (-> & -> & Hh & Hs & Hz). unfold latestKeys_next.
    destruct (Zipf_ok r z (span - 1) Hz ltac:(lia)) as (y & r' & -> & Hy). cbn [mbind option_bind].
    eexists _, _, _. split; [reflexivity|].
    unfold i64_of_u64. rewrite (wrap64_id y) by (unfold is_i64; lia).
    destruct (head <? span) eqn:Eh; zbool.
    + destruct (head + 1 <=? y) eqn:Ey; zbool; simpl; split_and!; (done || lia).
    + destruct (head <=? y) eqn:Ey; zbool; simpl; split_and!; (done || lia).
Qed.

(** What [New] establishes of a factory. *)
Definition Factory_ok (f : Factory) : Prop :=
  (forall i, 0 <= i < fa_localSpace f ->
     0 <= i * fa_strideN f + fa_base f < w_KeySpace (fa_w f)) /\
  1 <= fa_localSpace f < 2^63 /\ w_KeySpace (fa_w f) < 2^63 /\
  0 < fa_strideN f /\ 0 <= fa_base f /\
  zipf_nil (fa_zipfS f) = false /\
  0 < fa_total f /\ zsum (weights (w_Operations (fa_w f))) < 2^63 /\
  cumWeights (w_Operations (fa_w f)) 0 = Ok (fa_cum f, fa_total f).

Lemma New_ok w seed id n f :
  New w seed id n = Ok f -> w_KeySpace w + n < 2^63 ->
  zsum (weights (w_Operations w)) < 2^63 -> Factory_ok f.
Proof.
  intros (cum & total & stride & base & local & Hops & Hid & Hks & Hc & Hp & Hl & ->)%New_inv Hb Hw.
  pose proof (cumWeights_total _ 0 cum total ltac:(lia) Hw Hc) as Htot.
  assert (Ht0 : 0 < total).
  { destruct (w_Operations w) as [|o ops]; [done|].
    pose proof (cumWeights_ok _ _ _ _ Hc) as [Hok _]. inversion Hok; subst.
    pose proof (weights_nonneg ops ltac:(done)). rewrite zsum_weights_cons in *. lia. }
  pose proof (zipfExponent_ok (w_Params w)) as Hz.
  unfold Factory_ok. cbn -[zipf_nil zipfExponent]. destruct (paramBool (w_Params w) "shared_keys") eqn:Es.
  - unfold partition in Hp. rewrite Es in Hp. simplify_eq.
    repeat split; try done; try lia.
  - assert (Hloc : forall i, 0 <= i -> i < local <-> i * n + id < w_KeySpace w).
    { intros i Hi. rewrite <- (partition_local w id n i) by (done || lia). by rewrite Hp. }
    rewrite partition_unshared in Hp by (done || lia). injection Hp as <- <- Hp3. clear Hp3.
    assert (local < 2^63).
    { destruct (decide (local < 2^63)); [done|].
      pose proof (proj1 (Hloc (2^63 - 1) ltac:(lia)) ltac:(lia)). nia. }
    repeat split; try done; try lia; try nia.
    apply Hloc; lia.
Qed.

(** What every emitted operation satisfies. *)
Definition op_ok (f : Factory) (vsize : Z) (op : Operation) : Prop :=
  (exists i, 0 <= i < fa_localSpace f /\ op_Key op = i * fa_strideN f + fa_base f) /\
  0 <= op_Key op < w_KeySpace (fa_w f) /\
  op_Type op ∈ os_Type <$> w_Operations (fa_w f) /\
  op_Value op = (if isWrite (op_Type op) then Value (op_Key op) vsize else []).

Lemma generator_Next_ok (g : generator R) t :
  Factory_ok (g_f g) -> keyGen_ok (fa_localSpace (g_f g)) t (g_keys g) -> 0 <= t < 2^62 ->
  exists op g', generator_Next g = Some (op, g') /\
    op_ok (g_f g) (g_vsize g) op /\
    op_Seq op = default 0 (g_seqOf g !! op_Key op) +! 1 /\
    g_seqOf g' = <[op_Key op := op_Seq op]> (g_seqOf g) /\
    g_f g' = g_f g /\ g_vsize g' = g_vsize g /\
    keyGen_ok (fa_localSpace (g_f g)) (t + 1) (g_keys g').
Proof.
  intros (Hkey & Hl & Hks & Hst & Hba & Hz & Htot & Hw & Hc) Hk Ht. unfold generator_Next, pickOp.
  destruct (IntN_ok (g_r g) _ Htot) as (x & r1 & -> & Hx). cbn [mbind option_bind].
  destruct (pickIndex_total _ 0 _ _ x 0 ltac:(lia) Hw Hc ltac:(lia)) as (j & Hj & Hjl).
  rewrite Hj. destruct (lookup_lt_is_Some_2 (w_Operations (fa_w (g_f g))) (0 + j)) as [o Ho]; [lia|].
  rewrite Ho. cbn [mbind option_bind].
  destruct (keyGen_next_ok _ _ r1 _ Hk Ht) as (loc & r2 & keys & -> & Hloc & Hk'). cbn [mbind option_bind].
  specialize (Hkey loc Hloc).
  rewrite (i64_mul_id loc) by (unfold is_i64; nia).
  rewrite i64_add_id by (unfold is_i64; lia).
  do 2 eexists. split; [done|]. unfold op_ok.
  cbn [op_Key op_Type op_Value op_Seq g_seqOf g_f g_vsize g_keys].
  split_and!; try done; try lia; [by exists loc|].
  apply list_elem_of_fmap. exists o. split; [done|]. by eapply list_elem_of_lookup_2.
Qed.

(** How often a key occurs in a stretch of operations. *)
Definition keyCount (k : Z) (ops : list Operation) : Z :=
  Z.of_nat (length (List.filter (fun o => op_Key o =? k) ops)).

Lemma keyCount_cons k o ops :
  keyCount k (o :: ops) = (if op_Key o =? k then 1 else 0) + keyCount k ops.
Proof. unfold keyCount. simpl. destruct (op_Key o =? k); simpl length; lia. Qed.

Lemma generator_run_ok n (g : generator R) t :
  Factory_ok (g_f g) -> keyGen_ok (fa_localSpace (g_f g)) t (g_keys g) ->
  (forall k, 0 <= default 0 (g_seqOf g !! k) <= t) -> 0 <= t -> t + Z.of_nat n <= 2^62 ->
  exists ops g', generator_run g n = Some (ops, g') /\
    length ops = n /\ Forall (op_ok (g_f g) (g_vsize g)) ops /\
    forall pre op post, ops = pre ++ op :: post ->
      op_Seq op = default 0 (g_seqOf g !! op_Key op) + keyCount (op_Key op) pre + 1.
Proof.
  revert g t. induction n as [|n IH]; intros g t Hf Hk Hs Ht Hb.
  { exists [], g. repeat split; [constructor|]. intros [|] ? ?; done. }
  destruct (generator_Next_ok g t Hf Hk ltac:(lia))
    as (op & g1 & Hn & Hop & Hseq & Hmap & Hfe & Hve & Hk1).
  pose proof (Hs (op_Key op)) as Hsk.
  rewrite i64_add_id in Hseq by (unfold is_i64; lia).
  destruct (IH g1 (t + 1)) as (ops & g2 & Hrun & Hlen & Hall & Hsq).
  { by rewrite Hfe. }
  { by rewrite Hfe. }
  { intros k. rewrite Hmap, lookup_insert. specialize (Hs k). case_decide; simpl; lia. }
  { lia. }
  { lia. }
  exists (op :: ops), g2. rewrite Hfe, Hve in *. cbn [generator_run].
  rewrite Hn. cbn [mbind option_bind]. rewrite Hrun. cbn [mbind option_bind].
  repeat split; [simpl; lia|by constructor|].
  intros [|o pre] op' post Heq; simplify_eq/=.
  - unfold keyCount. simpl. lia.
  - rewrite (Hsq pre op' post) by done. rewrite keyCount_cons, Hmap, lookup_insert.
    case_decide as Hd.
    + rewrite Hd, Z.eqb_refl. rewrite Hd in Hseq. simpl. lia.
    + destruct (op_Key o =? op_Key op') eqn:E; zbool; [done|]. lia.
Qed.
End generator.

(** An operation that worker [id] of [n] may send: its key is in the key space and,
    unless the keys are shared, one of those congruent to the worker's number; its
    type is one of the mix; and it carries its key's payload exactly when it is a
    write. *)
Definition may_send (w : Workload) (id n : Z) (op : Operation) : Prop :=
  0 <= op_Key op < w_KeySpace w /\
  (paramBool (w_Params w) "shared_keys" = false -> op_Key op mod n = id) /\
  op_Type op ∈ os_Type <$> w_Operations w /\
  op_Value op = (if isWrite (op_Type op) then Value (op_Key op) (w_ValueSize w) else []).

Lemma op_ok_may_send w seed id n f op :
  New w seed id n = Ok f -> w_KeySpace w + n < 2^63 -> op_ok f (w_ValueSize w) op -> may_send w id n op.
Proof.
  intros (cum & total & stride & base & local & _ & Hid & Hks & _ & Hp & Hl & ->)%New_inv Hb ((i & _ & Hk) & Hr & Hty & Hv).
  cbn [fa_w fa_strideN fa_base] in *. split_and!; [lia|lia| |done|done]. intros Hs.
  rewrite partition_unshared in Hp by (done || lia). injection Hp as <- <- _.
  rewrite Hk, Z.add_comm, Z.mod_add by lia. apply Z.mod_small. lia.
Qed.

(** C36: A generator never leaves its worker's part of the key space and never gets
    stuck: from any factory [New] accepts for worker [id] of [n], any number of draws
    yields operations whose keys lie in the key space and, unless the keys are shared,
    are congruent to [id] modulo [n], so that no two workers ever send the same key;
    whose types come from the mix; and which carry the key's payload exactly when they
    are writes. *)
Theorem generator_in_partition {R : Type} `{RngLaws R} (w : Workload) (seed id n shard : Z)
    (f : Factory) (m : nat) :
  New w seed id n = Ok f -> w_KeySpace w + n < 2^63 ->
  zsum (weights (w_Operations w)) < 2^63 -> Z.of_nat m <= 2^62 ->
  exists ops g', generator_run (Generator (R := R) f shard) m = Some (ops, g') /\
    length ops = m /\ Forall (may_send w id n) ops.
Proof.
  intros HN Hb Hw Hm. pose proof (New_ok _ _ _ _ _ HN Hb Hw) as Hf.
  assert (Hsend : forall op, op_ok f (w_ValueSize w) op -> may_send w id n op) by (intros op; by eapply op_ok_may_send).
  apply New_inv in HN as (? & ? & ? & ? & ? & _ & _ & _ & _ & _ & _ & ->).
  destruct (generator_run_ok m (Generator (R := R) _ shard) 0 Hf) as (ops & g' & H1 & H2 & H3 & _).
  - apply newKeyGen_ok; [|apply zipfExponent_ok]. destruct Hf as (_ & ? & _). done.
  - intros k. cbn. rewrite lookup_empty. simpl. lia.
  - lia.
  - lia.
  - exists ops, g'. split_and!; [done|done|]. by eapply Forall_impl.
Qed.

Lemma generator_in_partition_witness :
  exists ops g', generator_run (Generator (R := PCG) sample_factory 2) 5 = Some (ops, g') /\
    length ops = 5%nat /\ Forall (may_send sample_workload 1 4) ops.
Proof.
  exact (generator_in_partition (R := PCG) sample_workload 42 1 4 2 sample_factory 5
           eq_refl eq_refl eq_refl ltac:(lia)).
Defined.

(** Per-key sequence numbers are contiguous: the [Seq] of an operation is
    one more than the number of earlier operations of the same generator on
    the same key, so every key sees 1, 2, 3, ... *)
Theorem generator_seq_contiguous {R : Type} `{RngLaws R} (w : Workload) (seed id n shard : Z)
    (f : Factory) (m : nat) :
  New w seed id n = Ok f -> w_KeySpace w + n < 2^63 ->
  zsum (weights (w_Operations w)) < 2^63 -> Z.of_nat m <= 2^62 ->
  exists ops g', generator_run (Generator (R := R) f shard) m = Some (ops, g') /\
    forall pre op post, ops = pre ++ op :: post ->
      op_Seq op = keyCount (op_Key op) pre + 1.
Proof.
  intros HN Hb Hw Hm. pose proof (New_ok _ _ _ _ _ HN Hb Hw) as Hf.
  apply New_inv in HN as (? & ? & ? & ? & ? & _ & _ & _ & _ & _ & _ & ->).
  destruct (generator_run_ok m (Generator (R := R) _ shard) 0 Hf) as (ops & g' & H1 & _ & _ & H4).
  - apply newKeyGen_ok; [|apply zipfExponent_ok]. destruct Hf as (_ & ? & _). done.
  - intros k. cbn. rewrite lookup_empty. simpl. lia.
  - lia.
  - lia.
  - exists ops, g'. split; [done|]. intros pre op post Heq.
    rewrite (H4 pre op post Heq). cbn. rewrite lookup_empty. simpl. lia.
Qed.

Lemma generator_seq_contiguous_witness :
  exists ops g', generator_run (Generator (R := PCG) sample_factory 0) 6 = Some (ops, g') /\
    forall pre op post, ops = pre ++ op :: post ->
      op_Seq op = keyCount (op_Key op) pre + 1.
Proof.
  exact (generator_seq_contiguous (R := PCG) sample_workload 42 1 4 0 sample_factory 6
           eq_refl eq_refl eq_refl ltac:(lia)).
Defined.
