(* ===== verification/Strconv.v ===== *)
(** * Strconv: decimal text, lines and byte order

    What the code uses of Go's strconv ([FormatInt], [ParseInt]), of
    encoding/binary ([BigEndian]) and of [bufio.Scanner]'s line splitting.
    Text is a list of characters, so that it can be split and joined. *)

From Stdlib Require Import Ascii String.
From S2P Require Import Prelude Domain.

Local Open Scope Z_scope.

Abbreviation text := (list ascii).

Definition txt (s : string) : text := list_ascii_of_string s.
Definition str (t : text) : string := string_of_list_ascii t.

Definition newline : ascii := ascii_of_nat 10.
Definition carriage : ascii := ascii_of_nat 13.

(** ** Decimal numbers *)

Definition digit (d : Z) : ascii := ascii_of_nat (Z.to_nat (48 + d)).

Definition digit_val (c : ascii) : option Z :=
  let n := Z.of_nat (nat_of_ascii c) in
  if (48 <=? n) && (n <=? 57) then Some (n - 48) else None.

Fixpoint digits_acc (fuel : nat) (z : Z) (acc : text) : text :=
  match fuel with
  | O => acc
  | S fuel' =>
      let acc' := digit (z mod 10) :: acc in
      if z / 10 =? 0 then acc' else digits_acc fuel' (z / 10) acc'
  end.

(** [strconv.FormatUint(z, 10)] and [strconv.FormatInt(z, 10)]; sixty-four
    digits are more than any 64-bit value has. *)
Definition FormatUint (z : Z) : text := digits_acc 64 z [].

Definition FormatInt (z : Z) : text :=
  if z <? 0 then "-"%char :: FormatUint (- z) else FormatUint z.

Fixpoint parse_digits (t : text) (acc : Z) : option Z :=
  match t with
  | [] => Some acc
  | c :: t' => d ← digit_val c; parse_digits t' (acc * 10 + d)
  end.

(** A non-empty run of digits. *)
Definition parse_nat (t : text) : option Z :=
  match t with [] => None | _ => parse_digits t 0 end.

(** [strconv.ParseUint(t, 10, 64)] without its error value. *)
Definition ParseUint (t : text) : option Z :=
  n ← parse_nat t; if n <? 2^64 then Some n else None.

(** [strconv.ParseInt(t, 10, 64)] without its error value. *)
Definition ParseInt (t : text) : option Z :=
  match t with
  | [] => None
  | c :: rest =>
      let neg := Ascii.eqb c "-"%char in
      let body := if neg || Ascii.eqb c "+"%char then rest else t in
      n ← ParseUint body;
      if neg then (if n <=? 2^63 then Some (- n) else None)
      else (if n <? 2^63 then Some n else None)
  end.

Lemma digit_val_digit d : 0 <= d < 10 -> digit_val (digit d) = Some d.
Proof.
  intros H. unfold digit_val, digit. rewrite nat_ascii_embedding by lia.
  destruct ((48 <=? _) && (_ <=? 57)) eqn:E.
  - f_equal. lia.
  - apply andb_false_iff in E as [E|E]; zbool; lia.
Qed.

Lemma parse_digits_acc fuel z acc :
  0 <= z < 10^(Z.of_nat fuel) -> (0 < fuel)%nat ->
  parse_digits (digits_acc fuel z acc) 0 = parse_digits acc z.
Proof.
  revert z acc. induction fuel as [|fuel IH]; intros z acc Hz Hf; [lia|].
  cbn [digits_acc].
  pose proof (Z.mod_pos_bound z 10 ltac:(lia)). pose proof (Z.div_mod z 10 ltac:(lia)).
  rewrite Nat2Z.inj_succ, Z.pow_succ_r in Hz by lia.
  destruct (z / 10 =? 0) eqn:E; zbool.
  - cbn [parse_digits]. rewrite digit_val_digit by lia. simpl. f_equal. lia.
  - assert (0 <= z / 10) by (apply Z.div_pos; lia).
    assert (z / 10 < 10^(Z.of_nat fuel)) by (apply Z.div_lt_upper_bound; lia).
    rewrite IH; [|lia|].
    + cbn [parse_digits]. rewrite digit_val_digit by lia. simpl. f_equal. lia.
    + destruct fuel; [simpl in *; lia|lia].
Qed.

Definition is_digit (c : ascii) : bool := match digit_val c with Some _ => true | None => false end.

Lemma digits_acc_all fuel z acc :
  0 <= z -> Forall (fun c => is_digit c = true) acc ->
  Forall (fun c => is_digit c = true) (digits_acc fuel z acc).
Proof.
  revert z acc. induction fuel as [|fuel IH]; intros z acc Hz Hacc; [done|]. cbn [digits_acc].
  assert (Forall (fun c => is_digit c = true) (digit (z mod 10) :: acc)).
  { constructor; [|done]. unfold is_digit. rewrite digit_val_digit; [done|].
    apply Z.mod_pos_bound. lia. }
  destruct (z / 10 =? 0); [done|]. apply IH; [|done]. apply Z.div_pos; lia.
Qed.

Lemma digits_acc_nonnil fuel z acc : (0 < fuel)%nat -> digits_acc fuel z acc <> [].
Proof.
  revert z acc. induction fuel as [|fuel IH]; intros z acc Hf; [lia|]. cbn [digits_acc].
  destruct (z / 10 =? 0); [done|]. destruct fuel; [done|]. apply IH. lia.
Qed.

Lemma FormatUint_digits z : 0 <= z -> Forall (fun c => is_digit c = true) (FormatUint z).
Proof. intros. by apply digits_acc_all. Qed.

Lemma parse_nat_FormatUint z : 0 <= z <= 2^64 -> parse_nat (FormatUint z) = Some z.
Proof.
  intros H. unfold parse_nat. destruct (FormatUint z) as [|c t] eqn:E.
  - by apply digits_acc_nonnil in E; [|lia].
  - rewrite <- E. unfold FormatUint. rewrite parse_digits_acc; [done| |lia].
    split; [lia|]. eapply Z.le_lt_trans; [apply H|]. done.
Qed.

Lemma ParseUint_FormatUint z : is_u64 z -> ParseUint (FormatUint z) = Some z.
Proof.
  unfold is_u64. intros H. unfold ParseUint. rewrite parse_nat_FormatUint by lia. simpl.
  destruct (z <? 2^64) eqn:E; zbool; [done|lia].
Qed.

(** A run of digits does not start with a sign. *)
Lemma FormatUint_head z c t :
  0 <= z -> FormatUint z = c :: t -> Ascii.eqb c "-"%char = false /\ Ascii.eqb c "+"%char = false.
Proof.
  intros Hz E. pose proof (FormatUint_digits z Hz) as Hd. rewrite E in Hd.
  inversion Hd as [|? ? Hc]; subst.
  split; apply Ascii.eqb_neq; intros ->; vm_compute in Hc; done.
Qed.

(** [ParseInt] inverts [FormatInt] on every [int64]. *)
Lemma ParseInt_FormatInt z : is_i64 z -> ParseInt (FormatInt z) = Some z.
Proof.
  unfold is_i64. intros H. unfold FormatInt. destruct (z <? 0) eqn:E; zbool.
  - cbn [ParseInt]. change (Ascii.eqb "-" "-") with true. cbn [orb].
    rewrite ParseUint_FormatUint by (unfold is_u64; lia). simpl.
    destruct (- z <=? 2^63) eqn:E2; zbool; [f_equal; lia|lia].
  - unfold ParseInt. destruct (FormatUint z) as [|c t] eqn:Ef.
    { by apply digits_acc_nonnil in Ef; [|lia]. }
    destruct (FormatUint_head z c t) as [-> ->]; [lia|done|]. cbn [orb].
    rewrite <- Ef, ParseUint_FormatUint by (unfold is_u64; lia). simpl.
    destruct (z <? 2^63) eqn:E2; zbool; [done|lia].
Qed.

(** ** Lines *)

(** [bufio.Scanner] with [ScanLines]: the lines without their newline and a
    trailing carriage return; a last line without a newline counts when it is
    not empty. *)
Fixpoint split_lines (t : text) (cur : text) : list text :=
  match t with
  | [] => match cur with [] => [] | _ => [rev cur] end
  | c :: t' => if Ascii.eqb c newline then rev cur :: split_lines t' [] else split_lines t' (c :: cur)
  end.

Definition drop_cr (l : text) : text :=
  match rev l with
  | c :: rest => if Ascii.eqb c carriage then rev rest else l
  | [] => l
  end.

Lemma split_lines_line l t cur :
  newline ∉ l -> split_lines (l ++ newline :: t) cur = (rev cur ++ l) :: split_lines t [].
Proof.
  revert cur. induction l as [|c l IH]; intros cur Hl.
  - simpl. by rewrite app_nil_r.
  - apply not_elem_of_cons in Hl as [Hc Hl]. simpl.
    destruct (Ascii.eqb c newline) eqn:E; [apply Ascii.eqb_eq in E; congruence|].
    rewrite IH by done. simpl. by rewrite <- app_assoc.
Qed.

(** ** Blanks *)

(** The ASCII blanks of [unicode.IsSpace]. *)
Definition is_space (c : ascii) : bool :=
  existsb (Nat.eqb (nat_of_ascii c)) [9; 10; 11; 12; 13; 32]%nat.

Fixpoint drop_space (t : text) : text :=
  match t with
  | c :: t' => if is_space c then drop_space t' else t
  | [] => []
  end.

(** [strings.TrimSpace] on ASCII text. *)
Definition TrimSpace (s : string) : string := str (rev (drop_space (rev (drop_space (txt s))))).

(** ** Big-endian words *)

(** [binary.BigEndian.PutUint64]: most significant byte first. *)
Fixpoint be_bytes (n : nat) (v : Z) : list Z :=
  match n with
  | O => []
  | S n' => Z.shiftr v (8 * Z.of_nat n') mod 256 :: be_bytes n' v
  end.

Fixpoint be_value (l : list Z) (acc : Z) : Z :=
  match l with [] => acc | b :: l' => be_value l' (acc * 256 + b) end.

Lemma length_be_bytes n v : length (be_bytes n v) = n.
Proof. induction n as [|n IH]; simpl; [done|]. by rewrite IH. Qed.

Lemma be_value_bytes n v acc :
  be_value (be_bytes n v) acc = acc * 256^(Z.of_nat n) + v mod 256^(Z.of_nat n).
Proof.
  revert acc. induction n as [|n IH]; intros acc.
  - simpl. rewrite Z.mod_1_r. lia.
  - cbn [be_bytes be_value]. rewrite IH, Nat2Z.inj_succ, Z.pow_succ_r by lia.
    rewrite Z.shiftr_div_pow2 by lia.
    replace (2^(8 * Z.of_nat n)) with (256^(Z.of_nat n))
      by (rewrite Z.pow_mul_r by lia; done).
    assert (0 < 256^(Z.of_nat n)) by lia.
    rewrite (Z.mul_comm 256), Z.rem_mul_r by lia. lia.
Qed.

(** ** Duration.String *)

(** [time.Duration]'s [%s]: the fraction of [v] in [prec] digits, trailing
    zeros dropped. *)
Fixpoint fmtFrac (prec : nat) (v : Z) (print : bool) (acc : text) : text * Z :=
  match prec with
  | O => ((if print then "."%char :: acc else acc), v)
  | S prec' =>
      let d := v mod 10 in
      let print' := print || negb (d =? 0) in
      fmtFrac prec' (v / 10) print' (if print' then digit d :: acc else acc)
  end.

Definition micro_s : text := [ascii_of_nat 194; ascii_of_nat 181; "s"%char].

Definition duration_text (d : Z) : text :=
  let u := Z.abs d in
  let sign := if d <? 0 then ["-"%char] else [] in
  if u =? 0 then txt "0s"
  else if u <? 1000 then sign ++ FormatUint u ++ txt "ns"
  else if u <? 1000000 then
    let '(frac, i) := fmtFrac 3 u false micro_s in sign ++ FormatUint i ++ frac
  else if u <? second then
    let '(frac, i) := fmtFrac 6 u false (txt "ms") in sign ++ FormatUint i ++ frac
  else
    let '(frac, s) := fmtFrac 9 u false (txt "s") in
    let secs := FormatUint (s mod 60) ++ frac in
    let m := s / 60 in
    if m =? 0 then sign ++ secs
    else let mins := FormatUint (m mod 60) ++ ["m"%char] ++ secs in
         let h := m / 60 in
         if h =? 0 then sign ++ mins else sign ++ FormatUint h ++ ["h"%char] ++ mins.

Example duration_text_examples :
  map (fun d => str (duration_text d))
    [0; 1500000; 5 * second; 90 * second; 3600 * second + 250 * millisecond; -1]
  = ["0s"; "1.5ms"; "5s"; "1m30s"; "1h0m0.25s"; "-1ns"]%string.
Proof. vm_compute. reflexivity. Qed.

(** ** time.ParseDuration *)

(** [leadingInt]: the digits in front, or overflow. *)
Fixpoint leadingInt (t : text) (x : Z) : option (Z * text) :=
  match t with
  | c :: t' =>
      match digit_val c with
      | None => Some (x, t)
      | Some d =>
          if 2^63 / 10 <? x then None
          else let x := x * 10 + d in if 2^63 <? x then None else leadingInt t' x
      end
  | [] => Some (x, [])
  end.

(** [leadingFraction]: digits that would overflow are dropped. *)
Fixpoint leadingFraction (t : text) (x : Z) (scale : float64) (overflow : bool) : Z * float64 * text :=
  match t with
  | c :: t' =>
      match digit_val c with
      | None => (x, scale, t)
      | Some d =>
          if overflow then leadingFraction t' x scale true
          else if (2^63 - 1) / 10 <? x then leadingFraction t' x scale true
          else let y := x * 10 + d in
               if 2^63 <? y then leadingFraction t' x scale true
               else leadingFraction t' y (float_mul scale (float_of_int 10)) false
      end
  | [] => (x, scale, [])
  end.

Fixpoint span_unit (t : text) : text * text :=
  match t with
  | c :: t' => if Ascii.eqb c "."%char || match digit_val c with Some _ => true | None => false end then ([], t)
               else let '(a, b) := span_unit t' in (c :: a, b)
  | [] => ([], [])
  end.

Definition mu_s : text := [ascii_of_nat 206; ascii_of_nat 188; "s"%char].

Definition unitMap (u : text) : option Z :=
  if decide (u = txt "ns") then Some 1
  else if decide (u = txt "us" \/ u = micro_s \/ u = mu_s) then Some 1000
  else if decide (u = txt "ms") then Some 1000000
  else if decide (u = txt "s") then Some second
  else if decide (u = txt "m") then Some (60 * second)
  else if decide (u = txt "h") then Some (3600 * second)
  else None.

(** One number with its unit; each term takes at least one character. *)
Definition duration_term (t : text) : option (Z * text) :=
  match t with
  | [] => None
  | c :: _ =>
      if negb (Ascii.eqb c "."%char || match digit_val c with Some _ => true | None => false end) then None
      else
        '(v, t1) ← leadingInt t 0;
        let pre := negb (Nat.eqb (length t1) (length t)) in
        let '(f, scale, t2, post) :=
          match t1 with
          | c1 :: rest =>
              if Ascii.eqb c1 "."%char then
                let '(f, scale, t2) := leadingFraction rest 0 (float_of_int 1) false in
                (f, scale, t2, negb (Nat.eqb (length t2) (length rest)))
              else (0, float_of_int 1, t1, false)
          | [] => (0, float_of_int 1, t1, false)
          end in
        if negb pre && negb post then None
        else
          let '(u, t3) := span_unit t2 in
          match u with
          | [] => None
          | _ =>
              unit ← unitMap u;
              if 2^63 / unit <? v then None
              else
                let v := v * unit in
                let v := if 0 <? f then
                           u64 (v + int_of_float (float_mul (float_of_int f) (float_div (float_of_int unit) scale)))
                         else v in
                if (0 <? f) && (2^63 <? v) then None else Some (v, t3)
          end
  end.

Fixpoint duration_terms (fuel : nat) (t : text) (d : Z) : option Z :=
  match t with
  | [] => Some d
  | _ =>
      match fuel with
      | O => None
      | S fuel =>
          '(v, t') ← duration_term t;
          let d := u64 (d + v) in
          if 2^63 <? d then None else duration_terms fuel t' d
      end
  end.

(** Without its error values. *)
Definition ParseDuration (s : string) : option Z :=
  let t := txt s in
  let '(neg, t) :=
    match t with
    | c :: rest => if Ascii.eqb c "-"%char then (true, rest)
                   else if Ascii.eqb c "+"%char then (false, rest) else (false, t)
    | [] => (false, t)
    end in
  if decide (t = txt "0") then Some 0
  else match t with
       | [] => None
       | _ =>
           d ← duration_terms (length t) t 0;
           if neg then Some (- d) else if 2^63 - 1 <? d then None else Some d
       end.

Example ParseDuration_examples :
  map ParseDuration ["5s"; "1m30s"; "1.5h"; "-250ms"; "0"; ""; "5"; "3.14us"; "300y"; "9223372036854775808ns"]%string
  = [Some (5 * second); Some (90 * second); Some (5400 * second); Some (- 250 * 1000000); Some 0; None; None;
     Some 3140; None; None].
Proof. vm_compute. reflexivity. Qed.

Example ParseDuration_round_trip :
  forallb (fun d => bool_decide (ParseDuration (str (duration_text d)) = Some d))
    [1; 999; 1500000; 5 * second; 90 * second + 1; 3600 * second + 250000; -1; - 2^63; 2^63 - 1] = true.
Proof. vm_compute. reflexivity. Qed.

Lemma duration_terms_range fuel t d r : 0 <= d <= 2^63 -> duration_terms fuel t d = Some r -> 0 <= r <= 2^63.
Proof.
  revert t d. induction fuel as [|fuel IH]; intros [|c t] d Hd; cbn [duration_terms];
    [by intros [= <-]|done|by intros [= <-]|].
  destruct (duration_term (c :: t)) as [[v t']|]; [|done]. cbn [mbind option_bind].
  destruct (2^63 <? u64 (d + v)) eqn:E; zbool; [done|]. apply IH. pose proof (u64_range (d + v)) as [? _]. lia.
Qed.

(** A parsed duration fits its type. *)
Lemma ParseDuration_range s d : ParseDuration s = Some d -> is_i64 d.
Proof.
  unfold ParseDuration, is_i64. destruct (match txt s with [] => _ | _ => _ end) as [neg t].
  destruct (decide _); [intros [= <-]; lia|]. destruct t as [|c t]; [done|].
  destruct (duration_terms _ (c :: t) 0) as [r|] eqn:E; [|done]. cbn [mbind option_bind].
  apply duration_terms_range in E; [|lia]. destruct neg; [intros [= <-]; lia|].
  destruct (2^63 - 1 <? r) eqn:E2; zbool; [done|]. intros [= <-]. lia.
Qed.

(** ** Plain text *)

Lemma txt_str t : txt (str t) = t.
Proof. apply list_ascii_of_string_of_list_ascii. Qed.

Lemma str_txt s : str (txt s) = s.
Proof. apply string_of_list_ascii_of_string. Qed.

Lemma txt_app a b : txt (a +:+ b) = txt a ++ txt b.
Proof.
  induction a as [|c a IH]; [done|].
  change (txt (String c a +:+ b)) with (c :: txt (a +:+ b)). by rewrite IH.
Qed.

Lemma str_app a b : str (a ++ b) = str a +:+ str b.
Proof.
  induction a as [|c a IH]; [done|].
  change (str ((c :: a) ++ b)) with (String c (str (a ++ b))). by rewrite IH.
Qed.

(** Text of one line. *)
Definition plain (c : ascii) : bool := negb (Ascii.eqb c newline) && negb (Ascii.eqb c carriage).

Lemma digit_plain c : is_digit c = true -> plain c = true.
Proof.
  unfold plain. intros H. apply andb_true_iff. split; apply negb_true_iff, Ascii.eqb_neq;
    intros ->; vm_compute in H; done.
Qed.

Lemma FormatUint_plain z : 0 <= z -> Forall (fun c => plain c = true) (FormatUint z).
Proof.
  intros Hz. eapply Forall_impl; [by apply FormatUint_digits|]. simpl. apply digit_plain.
Qed.

Lemma FormatInt_plain z : Forall (fun c => plain c = true) (FormatInt z).
Proof.
  unfold FormatInt. destruct (z <? 0) eqn:E; zbool.
  - constructor; [done|]. apply FormatUint_plain. lia.
  - by apply FormatUint_plain.
Qed.

Lemma plain_drop_cr l : Forall (fun c => plain c = true) l -> drop_cr l = l.
Proof.
  intros Hl. unfold drop_cr. destruct (rev l) as [|c rest] eqn:E; [done|].
  assert (Hc : plain c = true).
  { rewrite Forall_forall in Hl. apply Hl. apply list_elem_of_In, in_rev. rewrite E. by left. }
  unfold plain in Hc. zbool. by destruct (Ascii.eqb c carriage).
Qed.

Lemma plain_no_newline l : Forall (fun c => plain c = true) l -> newline ∉ l.
Proof.
  intros Hl Hin. rewrite Forall_forall in Hl. specialize (Hl _ Hin). by vm_compute in Hl.
Qed.

Definition plain_text (t : text) : Prop := Forall (fun c => plain c = true) t.

Lemma plain_text_app a b : plain_text a -> plain_text b -> plain_text (a ++ b).
Proof. intros. by apply Forall_app. Qed.

Lemma plain_const t : forallb plain t = true -> plain_text t.
Proof. intros H. apply Forall_forall. intros c Hc. rewrite forallb_forall in H. apply H. by apply list_elem_of_In. Qed.

Lemma FormatInt_plain_text z : plain_text (FormatInt z).
Proof. apply FormatInt_plain. Qed.

Create HintDb plain_db.
#[export] Hint Resolve FormatInt_plain FormatInt_plain_text plain_text_app : plain_db.
#[export] Hint Extern 1 (plain_text _) => (apply plain_const; reflexivity) : plain_db.

(** [strings.CutPrefix]. *)
Fixpoint strip (pre t : text) : option text :=
  match pre, t with
  | [], _ => Some t
  | p :: pre', c :: t' => if Ascii.eqb p c then strip pre' t' else None
  | _ :: _, [] => None
  end.

Lemma strip_app pre t : strip pre (pre ++ t) = Some t.
Proof. induction pre as [|p pre IH]; cbn [app strip]; [done|]. by rewrite Ascii.eqb_refl. Qed.
