(* ===== verification/Ftoa.v ===== *)
(** * Ftoa: decimal text of binary64 numbers

    What the code uses of Go's strconv.FormatFloat: the fixed notation with a
    given number of decimals ('f', rounded half to even on the exact value) and
    the shortest notation that reads back as the same number ('g', -1).  Both
    compute with exact integers. *)

From Stdlib Require Import Ascii String SpecFloat.
From S2P Require Import Prelude Domain Strconv.

Local Open Scope Z_scope.

(** ** Digits *)

(** All the digits of a natural number of any size. *)
Definition decimal (z : Z) : text := digits_acc (S (Z.to_nat (Z.log2 z))) z [].

(** The last [n] digits, with leading zeros. *)
Fixpoint frac_digits (n : nat) (v : Z) (acc : text) : text :=
  match n with
  | O => acc
  | S n => frac_digits n (v / 10) (digit (v mod 10) :: acc)
  end.

Definition round_half_even (num den : Z) : Z :=
  let q := num / den in
  let r := num mod den in
  match 2 * r ?= den with
  | Lt => q
  | Gt => q + 1
  | Eq => if Z.even q then q else q + 1
  end.

Definition sign_text (s : bool) : text := if s then txt "-" else [].

(** The value of a finite number is [float_num] over [float_den]. *)
Definition float_num (m : positive) (e : Z) : Z := Z.pos m * 2 ^ Z.max e 0.
Definition float_den (e : Z) : Z := 2 ^ Z.max (- e) 0.

Definition fixed (prec : nat) (scaled : Z) : text :=
  decimal (scaled / 10 ^ Z.of_nat prec) ++
  match prec with O => [] | _ => txt "." ++ frac_digits prec scaled [] end.

(** [strconv.FormatFloat(v, 'f', prec, 64)]. *)
Definition FormatFloat_f (prec : nat) (v : float64) : text :=
  match v with
  | S754_nan => txt "NaN"
  | S754_infinity s => txt (if s then "-Inf" else "+Inf")%string
  | S754_zero s => sign_text s ++ fixed prec 0
  | S754_finite s m e => sign_text s ++ fixed prec (round_half_even (float_num m e * 10 ^ Z.of_nat prec) (float_den e))
  end.

(** ** The shortest digits *)

(** The power of ten above a positive rational: [10^(dp-1) <= v < 10^dp]. *)
Definition dec_point (num den : Z) : Z :=
  if den <=? num then Z.of_nat (length (decimal (num / den))) else 1 - Z.of_nat (length (decimal ((den - 1) / num))).

(** [num / den] in units of [10^k]. *)
Definition in_units (num den k : Z) : Z * Z := (num * 10 ^ Z.max (- k) 0, den * 10 ^ Z.max k 0).

(** The bounds of the numbers that round to [m * 2^e], in quarters of the unit in
    the last place; they belong to the interval when [m] is even. *)
Definition below (m : positive) (e : Z) : Z := if (Z.pos m =? 2 ^ 52) && (-1074 <? e) then 4 * Z.pos m - 1 else 4 * Z.pos m - 2.
Definition above (m : positive) : Z := 4 * Z.pos m + 2.

(** Whether [d] units of [10^k] lie in the interval. *)
Definition rounds_back (m : positive) (e k d : Z) : bool :=
  let cmp a b := if Z.even (Z.pos m) then a <=? b else a <? b in
  let scale := 2 ^ Z.max (e - 2) 0 * 10 ^ Z.max (- k) 0 in
  let unit := 2 ^ Z.max (2 - e) 0 * 10 ^ Z.max k 0 in
  cmp (below m e * scale) (d * unit) && cmp (d * unit) (above m * scale).

(** The [n]-digit decimal to print, if one reads back. *)
Definition digits_at (m : positive) (e dp : Z) (n : nat) : option Z :=
  let k := dp - Z.of_nat n in
  let '(num, den) := in_units (float_num m e) (float_den e) k in
  let lo := num / den in
  match rounds_back m e k lo, rounds_back m e k (lo + 1) with
  | true, true => Some (round_half_even num den)
  | true, false => Some lo
  | false, true => Some (lo + 1)
  | false, false => None
  end.

Fixpoint shortest_from (m : positive) (e dp : Z) (n fuel : nat) : Z * nat :=
  match fuel with
  | O => (round_half_even (in_units (float_num m e) (float_den e) (dp - Z.of_nat n)).1
            (in_units (float_num m e) (float_den e) (dp - Z.of_nat n)).2, n)
  | S fuel => match digits_at m e dp n with
              | Some d => (d, n)
              | None => shortest_from m e dp (S n) fuel
              end
  end.

Fixpoint drop_zeros (t : text) : text :=
  match t with
  | c :: t' => if Ascii.eqb c "0" then drop_zeros t' else t
  | [] => []
  end.

(** The digits and the position of the decimal point; seventeen digits always read
    back. *)
Definition shortest (m : positive) (e : Z) : text * Z :=
  let dp := dec_point (float_num m e) (float_den e) in
  let '(d, n) := shortest_from m e dp 1 17 in
  let ds := decimal d in
  (rev (drop_zeros (rev ds)), dp + (Z.of_nat (length ds) - Z.of_nat n)).

(** [%e]: one digit before the point, at least two in the exponent. *)
Definition exponent_text (exp : Z) : text :=
  let a := Z.abs exp in
  (if exp <? 0 then txt "-" else txt "+") ++ (if a <? 10 then txt "0" else []) ++ decimal a.

Definition fmtE (ds : text) (exp : Z) : text :=
  take 1 ds ++ (if (1 <? length ds)%nat then txt "." ++ drop 1 ds else []) ++ txt "e" ++ exponent_text exp.

(** [%f] with as many decimals as there are digits. *)
Definition fmtF (ds : text) (dp : Z) : text :=
  let n := Z.to_nat dp in
  let whole := if 0 <? dp then take n ds ++ replicate (n - length ds) "0"%char else txt "0" in
  let rest := replicate (Z.to_nat (- dp)) "0"%char ++ drop n ds in
  whole ++ match drop n ds with [] => [] | _ => txt "." ++ rest end.

(** [strconv.FormatFloat(v, 'g', -1, 64)]. *)
Definition FormatFloat_g (v : float64) : text :=
  match v with
  | S754_nan => txt "NaN"
  | S754_infinity s => txt (if s then "-Inf" else "+Inf")%string
  | S754_zero s => sign_text s ++ txt "0"
  | S754_finite s m e =>
      let '(ds, dp) := shortest m e in
      sign_text s ++ if (dp - 1 <? -4) || (6 <=? dp - 1) then fmtE ds (dp - 1) else fmtF ds dp
  end.

(** ** What is printed *)

(** Rounding is to a nearest integer. *)
Lemma round_half_even_near num den : 0 < den -> 2 * Z.abs (num - round_half_even num den * den) <= den.
Proof.
  intros Hd. unfold round_half_even. pose proof (Z.div_mod num den ltac:(lia)). pose proof (Z.mod_pos_bound num den Hd).
  destruct (Z.compare_spec (2 * (num mod den)) den); [destruct (Z.even _)|..]; lia.
Qed.

Lemma round_half_even_nonneg num den : 0 <= num -> 0 < den -> 0 <= round_half_even num den.
Proof.
  intros Hn Hd. assert (0 <= num / den) by (apply Z.div_pos; lia). unfold round_half_even.
  destruct (_ ?= _); [destruct (Z.even _)|..]; lia.
Qed.

(** Rounding keeps order. *)
Lemma round_half_even_mono a b den : 0 < den -> a <= b -> round_half_even a den <= round_half_even b den.
Proof.
  intros Hd Hab. pose proof (Z.div_le_mono a b den Hd Hab) as Hq.
  destruct (Z.eq_dec (a / den) (b / den)) as [E|E].
  - unfold round_half_even. rewrite E. pose proof (Z.div_mod a den ltac:(lia)). pose proof (Z.div_mod b den ltac:(lia)).
    assert (a mod den <= b mod den) by lia.
    destruct (Z.compare_spec (2 * (a mod den)) den), (Z.compare_spec (2 * (b mod den)) den);
      destruct (Z.even (b / den)); lia.
  - unfold round_half_even. destruct (2 * (a mod den) ?= den), (2 * (b mod den) ?= den);
      destruct (Z.even (a / den)), (Z.even (b / den)); lia.
Qed.

Lemma round_half_even_exact z den : 0 < den -> round_half_even (z * den) den = z.
Proof.
  intros Hd. unfold round_half_even. rewrite Z.div_mul, Z.mod_mul by lia. by destruct den.
Qed.

Definition float_char (c : ascii) : bool :=
  is_digit c || existsb (Ascii.eqb c) (txt ".-+eNaInf").

Definition float_text (t : text) : Prop := Forall (fun c => float_char c = true) t.

Lemma float_text_app a b : float_text a -> float_text b -> float_text (a ++ b).
Proof. intros. by apply Forall_app. Qed.

Lemma float_text_const t : forallb float_char t = true -> float_text t.
Proof. intros H. apply Forall_forall. rewrite forallb_forall in H. intros c Hc. apply H. by apply list_elem_of_In. Qed.

Lemma digits_float t : Forall (fun c => is_digit c = true) t -> float_text t.
Proof. intros H. eapply Forall_impl; [exact H|]. intros c Hc. unfold float_char. by rewrite Hc. Qed.

Lemma decimal_digits z : 0 <= z -> Forall (fun c => is_digit c = true) (decimal z).
Proof. intros. by apply digits_acc_all. Qed.

Lemma frac_digits_all n v acc :
  Forall (fun c => is_digit c = true) acc -> Forall (fun c => is_digit c = true) (frac_digits n v acc).
Proof.
  revert v acc. induction n as [|n IH]; intros v acc H; [done|]. cbn [frac_digits]. apply IH. constructor; [|done].
  unfold is_digit. rewrite digit_val_digit; [done|]. apply Z.mod_pos_bound. lia.
Qed.

Create HintDb float_db.
#[export] Hint Resolve float_text_app digits_float decimal_digits frac_digits_all : float_db.
#[export] Hint Extern 1 (float_text _) => (apply float_text_const; reflexivity) : float_db.

Lemma sign_float s : float_text (sign_text s).
Proof. destruct s; auto with float_db. Qed.

Lemma fixed_float prec z : 0 <= z -> float_text (fixed prec z).
Proof.
  intros Hz. unfold fixed. assert (0 <= z / 10 ^ Z.of_nat prec) by (apply Z.div_pos; lia).
  destruct prec; auto with float_db.
Qed.

Lemma float_num_pos m e : 0 < float_num m e.
Proof. unfold float_num. apply Z.mul_pos_pos; lia. Qed.
Lemma float_den_pos e : 0 < float_den e.
Proof. unfold float_den. lia. Qed.

Lemma FormatFloat_f_float prec v : float_text (FormatFloat_f prec v).
Proof.
  pose proof float_num_pos. pose proof float_den_pos.
  destruct v as [s|s| |s m e]; [|destruct s; auto with float_db|auto with float_db|];
    (apply float_text_app; [apply sign_float|]); apply fixed_float; [lia|].
  apply round_half_even_nonneg; [|done]. apply Z.mul_nonneg_nonneg; [|lia]. specialize (H m e). lia.
Qed.

Lemma in_units_ok num den k : 0 < num -> 0 < den -> 0 < (in_units num den k).1 /\ 0 < (in_units num den k).2.
Proof. intros. unfold in_units. cbn. split; apply Z.mul_pos_pos; lia. Qed.

Lemma shortest_from_nonneg m e dp n fuel : 0 <= (shortest_from m e dp n fuel).1.
Proof.
  revert n. induction fuel as [|fuel IH]; intros n.
  - cbn -[in_units]. destruct (in_units_ok (float_num m e) (float_den e) (dp - Z.of_nat n)) as [H1 H2];
      [apply float_num_pos|apply float_den_pos|]. apply round_half_even_nonneg; lia.
  - cbn -[digits_at]. destruct (digits_at m e dp n) as [d|] eqn:E; [|apply IH]. cbn. unfold digits_at in E.
    destruct (in_units_ok (float_num m e) (float_den e) (dp - Z.of_nat n)) as [H1 H2];
      [apply float_num_pos|apply float_den_pos|].
    destruct (in_units _ _ _) as [num den]. cbn in H1, H2.
    assert (0 <= num / den) by (apply Z.div_pos; lia). pose proof (round_half_even_nonneg num den ltac:(lia) H2).
    destruct (rounds_back _ _ _ (num / den)), (rounds_back _ _ _ (num / den + 1)); simplify_eq; lia.
Qed.

Lemma drop_zeros_Forall (P : ascii -> Prop) t : Forall P t -> Forall P (drop_zeros t).
Proof. induction 1 as [|c t Hc Ht IH]; [constructor|]. cbn. destruct (Ascii.eqb c "0"); [done|by constructor]. Qed.

Lemma shortest_digits m e : Forall (fun c => is_digit c = true) (shortest m e).1.
Proof.
  unfold shortest. set (dp := dec_point _ _). pose proof (shortest_from_nonneg m e dp 1 17) as H.
  destruct (shortest_from m e dp 1 17) as [d n]. cbn in *. apply Forall_rev, drop_zeros_Forall, Forall_rev.
  by apply decimal_digits.
Qed.

Lemma zeros_digits n : Forall (fun c => is_digit c = true) (replicate n "0"%char).
Proof. by apply Forall_replicate. Qed.

Lemma fmtE_float ds exp : Forall (fun c => is_digit c = true) ds -> float_text (fmtE ds exp).
Proof.
  intros H. unfold fmtE, exponent_text. repeat apply float_text_app; try (apply float_text_const; reflexivity).
  - apply digits_float. by apply Forall_take.
  - destruct (1 <? length ds)%nat; [|constructor]. apply float_text_app; [auto with float_db|].
    apply digits_float. by apply Forall_drop.
  - destruct (exp <? 0); auto with float_db.
  - destruct (Z.abs exp <? 10); [auto with float_db|constructor].
  - apply digits_float, decimal_digits. lia.
Qed.

Lemma fmtF_float ds dp : Forall (fun c => is_digit c = true) ds -> float_text (fmtF ds dp).
Proof.
  intros H. pose proof zeros_digits as Hz. unfold fmtF. set (n := Z.to_nat dp).
  assert (Hd : Forall (fun c => is_digit c = true) (drop n ds)) by (by apply Forall_drop).
  apply float_text_app.
  - destruct (0 <? dp); [|auto with float_db]. apply digits_float, Forall_app. split; [by apply Forall_take|done].
  - destruct (drop n ds) eqn:E; [constructor|]. apply float_text_app; [auto with float_db|].
    apply digits_float, Forall_app. by split.
Qed.

Lemma FormatFloat_g_float v : float_text (FormatFloat_g v).
Proof.
  destruct v as [s|s| |s m e]; [|destruct s; auto with float_db|auto with float_db|].
  - cbn. apply float_text_app; [apply sign_float|auto with float_db].
  - unfold FormatFloat_g. pose proof (shortest_digits m e) as H. destruct (shortest m e) as [ds dp]. cbn in H.
    apply float_text_app; [apply sign_float|]. destruct (_ || _); [by apply fmtE_float|by apply fmtF_float].
Qed.

Example FormatFloat_examples :
  (str <$> [FormatFloat_g (float_div (float_of_int 1) (float_of_int 10)); FormatFloat_g (float_of_int 1234567);
            FormatFloat_g (float_div (float_of_int (-5)) (float_of_int 4)); FormatFloat_g (float_div (float_of_int 1) (float_of_int 100000));
            FormatFloat_f 2 (float_div (float_of_int 1) (float_of_int 8)); FormatFloat_f 2 (float_div (float_of_int 3) (float_of_int 8));
            FormatFloat_f 0 (float_div (float_of_int 5) (float_of_int 2))])
  = ["0.1"; "1.234567e+06"; "-1.25"; "1e-05"; "0.12"; "0.38"; "2"]%string.
Proof. vm_compute. reflexivity. Qed.
