(* ===== verification/Timefmt.v ===== *)
(** * Timefmt: calendar text of instants

    What the code uses of Go's time.Format in UTC: the civil date and time of an
    instant and the layouts [20060102-150405] and [2006-01-02 15:04:05 MST]. *)

From Stdlib Require Import Ascii String.
From S2P Require Import Prelude Domain Strconv Ftoa.

Local Open Scope Z_scope.

Record civil := { cv_year : Z; cv_month : Z; cv_day : Z }.

(** The Gregorian date [days] after 1 January 1970, counted in 400-year eras that
    begin on 1 March. *)
Definition civil_of_days (days : Z) : civil :=
  let z := days + 719468 in
  let era := z / 146097 in
  let doe := z mod 146097 in
  let yoe := (doe - doe / 1460 + doe / 36524 - doe / 146096) / 365 in
  let doy := doe - (365 * yoe + yoe / 4 - yoe / 100) in
  let mp := (5 * doy + 2) / 153 in
  let month := if mp <? 10 then mp + 3 else mp - 9 in
  {| cv_year := yoe + era * 400 + (if month <=? 2 then 1 else 0);
     cv_month := month;
     cv_day := doy - (153 * mp + 2) / 5 + 1 |}.

(** The day number of a date. *)
Definition days_of_civil (c : civil) : Z :=
  let y := if cv_month c <=? 2 then cv_year c - 1 else cv_year c in
  let era := y / 400 in
  let yoe := y mod 400 in
  let mp := if 2 <? cv_month c then cv_month c - 3 else cv_month c + 9 in
  let doy := (153 * mp + 2) / 5 + cv_day c - 1 in
  era * 146097 + (yoe * 365 + yoe / 4 - yoe / 100 + doy) - 719468.

Record clock_time := { ct_date : civil; ct_hour : Z; ct_minute : Z; ct_second : Z }.

(** The UTC reading of an instant in nanoseconds since the epoch. *)
Definition utc (t : Z) : clock_time :=
  let secs := t / second in
  let s := secs mod 86400 in
  {| ct_date := civil_of_days (secs / 86400); ct_hour := s / 3600; ct_minute := s / 60 mod 60; ct_second := s mod 60 |}.

(** A field of at least [n] digits. *)
Definition padded (n : nat) (v : Z) : text :=
  let sign := if v <? 0 then txt "-" else [] in
  let ds := decimal (Z.abs v) in
  sign ++ replicate (n - length ds) "0"%char ++ ds.

(** Layout [20060102-150405]. *)
Definition format_stamp (t : Z) : text :=
  let c := utc t in
  padded 4 (cv_year (ct_date c)) ++ padded 2 (cv_month (ct_date c)) ++ padded 2 (cv_day (ct_date c)) ++ txt "-" ++
  padded 2 (ct_hour c) ++ padded 2 (ct_minute c) ++ padded 2 (ct_second c).

(** Layout [2006-01-02 15:04:05 MST] in UTC. *)
Definition format_time (t : Z) : text :=
  let c := utc t in
  padded 4 (cv_year (ct_date c)) ++ txt "-" ++ padded 2 (cv_month (ct_date c)) ++ txt "-" ++ padded 2 (cv_day (ct_date c)) ++ txt " " ++
  padded 2 (ct_hour c) ++ txt ":" ++ padded 2 (ct_minute c) ++ txt ":" ++ padded 2 (ct_second c) ++ txt " UTC".

Example format_examples :
  (str <$> [format_time 0; format_time (951782400 * second - 1); format_stamp (1700000000 * second); format_time zero_time])
  = ["1970-01-01 00:00:00 UTC"; "2000-02-28 23:59:59 UTC"; "20231114-221320"; "0001-01-01 00:00:00 UTC"]%string.
Proof. vm_compute. reflexivity. Qed.

Lemma padded_digits n v : 0 <= v -> Forall (fun c => is_digit c = true) (padded n v).
Proof.
  intros Hv. unfold padded. destruct (v <? 0) eqn:E; zbool; [lia|]. cbn [app]. apply Forall_app. split; [apply zeros_digits|].
  apply decimal_digits. lia.
Qed.
