(* ===== verification/Checksum.v ===== *)
(** * Checksum: the content hash (core/verify/checksum.go)

    FNV-1a, 64 bits, as [hash/fnv] defines it: xor the byte into the state,
    then multiply by the prime modulo [2^64]. *)

From S2P Require Import Prelude Domain Rand.

Local Open Scope Z_scope.

Definition fnv_offset : Z := 14695981039346656037.
Definition fnv_prime : Z := 1099511628211.

Definition fnv_step (h : Z) (b : byte) : Z := u64 (Z.lxor h (byte_val b) * fnv_prime).

Definition fnv_write (h : Z) (b : bytes) : Z := fold_left fnv_step b h.

Definition Checksum (b : bytes) : Z := fnv_write fnv_offset b.

Example Checksum_empty : Checksum [] = 0xcbf29ce484222325.
Proof. reflexivity. Qed.

Example Checksum_a : Checksum [Byte.x61] = 0xaf63dc4c8601ec8c.
Proof. reflexivity. Qed.

Lemma lxor_byte_range h b : is_u64 h -> is_u64 (Z.lxor h (byte_val b)).
Proof.
  intros Hh. pose proof (byte_val_range b). apply lxor_range; [lia|done|lia].
Qed.

Lemma fnv_write_range b h : is_u64 h -> is_u64 (fnv_write h b).
Proof.
  revert h. induction b as [|c b IH]; intros h Hh; [done|]. apply IH, u64_range.
Qed.

Lemma Checksum_range b : is_u64 (Checksum b).
Proof. apply fnv_write_range. vm_compute. intuition congruence. Qed.
#[export] Hint Resolve Checksum_range fnv_write_range : golib.

(** One step is injective in the state for a given byte, and in the byte for a
    given state. *)
Lemma fnv_step_inj h1 h2 b :
  is_u64 h1 -> is_u64 h2 -> fnv_step h1 b = fnv_step h2 b -> h1 = h2.
Proof.
  intros H1 H2 H. apply mul_u64_inj in H; [|done|by apply lxor_byte_range..].
  apply (f_equal (fun z => Z.lxor z (byte_val b))) in H.
  by rewrite !Z.lxor_assoc, !Z.lxor_nilpotent, !Z.lxor_0_r in H.
Qed.

Lemma fnv_step_byte_inj h b c :
  is_u64 h -> fnv_step h b = fnv_step h c -> b = c.
Proof.
  intros Hh H. apply mul_u64_inj in H; [|done|by apply lxor_byte_range..].
  apply (f_equal (Z.lxor h)) in H.
  rewrite <- !Z.lxor_assoc, !Z.lxor_nilpotent, !Z.lxor_0_l in H.
  by apply byte_val_inj.
Qed.

Lemma fnv_write_inj b h1 h2 :
  is_u64 h1 -> is_u64 h2 -> fnv_write h1 b = fnv_write h2 b -> h1 = h2.
Proof.
  revert h1 h2. induction b as [|c b IH]; intros h1 h2 H1 H2 H; [done|].
  simpl in H. apply IH in H; [|apply u64_range..]. by apply fnv_step_inj in H.
Qed.

Lemma fnv_write_app h a b : fnv_write h (a ++ b) = fnv_write (fnv_write h a) b.
Proof. apply fold_left_app. Qed.

(** Two values that differ in exactly one byte, at any position, never hash
    alike. *)
Lemma Checksum_detects_byte_flip (pre post : bytes) (b c : byte) :
  b <> c -> Checksum (pre ++ b :: post) <> Checksum (pre ++ c :: post).
Proof.
  intros Hne H. unfold Checksum in H. rewrite !fnv_write_app in H. simpl in H.
  apply fnv_write_inj in H; [|apply u64_range..].
  apply fnv_step_byte_inj in H; [done|]. apply Checksum_range.
Qed.
