(* ===== verification/Expect.v ===== *)
(** * Expect: the expectation log (core/verify/log.go, logwriter.go)

    Every committed write is recorded as one JSON line; the reader keeps the
    highest-[Seq] record per key.  [json.Unmarshal] is the parameter
    [unmarshal], of which the theorems use that it inverts the encoder. *)

From Stdlib Require Import Ascii.
From S2P Require Import Prelude Domain Strconv Checksum.

Local Open Scope Z_scope.
Local Open Scope go_scope.

Record WriteRecord := { wr_Key : Z; wr_Checksum : Z; wr_Seq : Z }.

#[export] Instance WriteRecord_eq_dec : EqDecision WriteRecord.
Proof. solve_decision. Defined.

(** The value ranges of the Go fields. *)
Definition record_ok (r : WriteRecord) : Prop :=
  is_i64 (wr_Key r) /\ is_u64 (wr_Checksum r) /\ is_i64 (wr_Seq r).

Definition dquote : ascii := ascii_of_nat 34.

(** A field name of a JSON object with its colon. *)
Definition json_field (name : string) : text := dquote :: txt name ++ [dquote; ":"%char].

(** [json.Marshal] of a [WriteRecord]. *)
Definition marshal (r : WriteRecord) : text :=
  ["{"%char] ++ json_field "key" ++ FormatInt (wr_Key r) ++
  [","%char] ++ json_field "checksum" ++ FormatUint (wr_Checksum r) ++
  [","%char] ++ json_field "seq" ++ FormatInt (wr_Seq r) ++ ["}"%char].

Example marshal_example :
  length (marshal {| wr_Key := 7; wr_Checksum := 12345; wr_Seq := 3 |}) = 34%nat.
Proof. reflexivity. Qed.

(** ** LogWriter *)

(** The file's contents and what [bufio.Writer] still holds; a spill of a full
    buffer only moves a prefix of the one to the other. *)
Record LogWriter := { lw_file : text; lw_buf : text }.

(** The text of a list of records, one object and a newline each. *)
Definition log_text (rs : list WriteRecord) : text :=
  mjoin ((fun r => marshal r ++ [newline]) <$> rs).

Definition NewLogWriter (existing : text) : LogWriter :=
  {| lw_file := existing; lw_buf := [] |}.

(** [json.Encoder.Encode] writes the object and a newline. *)
Definition LogWriter_Record (w : LogWriter) (r : WriteRecord) : LogWriter :=
  {| lw_file := lw_file w; lw_buf := lw_buf w ++ marshal r ++ [newline] |}.

Definition LogWriter_Close (w : LogWriter) : text := lw_file w ++ lw_buf w.

(** core/cli/verify.go, [writeLogObserver.Observe]: a committed write carries a
    value and did not fail. *)
Definition writeLogObserver_Observe (w : LogWriter) (op : Operation) (res : OpResult) : LogWriter :=
  match or_Err res, op_Value op with
  | None, _ :: _ =>
      LogWriter_Record w {| wr_Key := op_Key op; wr_Checksum := Checksum (op_Value op);
                            wr_Seq := op_Seq op |}
  | _, _ => w
  end.

Definition Observe_all (w : LogWriter) (evs : list (Operation * OpResult)) : LogWriter :=
  foldl (fun w ev => writeLogObserver_Observe w ev.1 ev.2) w evs.

Lemma log_text_cons r rs : log_text (r :: rs) = marshal r ++ newline :: log_text rs.
Proof. unfold log_text. rewrite fmap_cons. cbn [mjoin list_join]. by rewrite <- app_assoc. Qed.

Lemma log_text_app rs rs' : log_text (rs ++ rs') = log_text rs ++ log_text rs'.
Proof.
  induction rs as [|r rs IH]; [done|]. cbn [app]. rewrite !log_text_cons, IH.
  by rewrite <- app_assoc.
Qed.

(** The record a completed operation leaves, when it leaves one. *)
Definition committed (ev : Operation * OpResult) : option WriteRecord :=
  match or_Err ev.2, op_Value ev.1 with
  | None, _ :: _ =>
      Some {| wr_Key := op_Key ev.1; wr_Checksum := Checksum (op_Value ev.1);
              wr_Seq := op_Seq ev.1 |}
  | _, _ => None
  end.

Lemma LogWriter_Record_text w r :
  LogWriter_Close (LogWriter_Record w r) = LogWriter_Close w ++ log_text [r].
Proof.
  unfold LogWriter_Close, LogWriter_Record. cbn [lw_file lw_buf].
  rewrite log_text_cons. change (log_text []) with (@nil ascii). by rewrite <- !app_assoc.
Qed.

Lemma Observe_all_text w evs :
  LogWriter_Close (Observe_all w evs) = LogWriter_Close w ++ log_text (omap committed evs).
Proof.
  revert w. induction evs as [|[op res] evs IH]; intros w.
  - change (log_text (omap committed [])) with (@nil ascii). by rewrite app_nil_r.
  - unfold Observe_all in *. cbn [foldl fst snd]. rewrite IH.
    cbn [omap list_omap]. unfold committed at 2, writeLogObserver_Observe. cbn [fst snd].
    destruct (or_Err res); [done|]. destruct (op_Value op) as [|b v]; [done|].
    rewrite LogWriter_Record_text, <- app_assoc. by rewrite <- log_text_app.
Qed.

(** ** ReadLog *)

Inductive read_error :=
| ErrLine (line : Z)
| ErrTooLong.

Definition max_token : Z := 4 * 1024 * 1024.

(** Keep the record with the highest [Seq]; the later one on a tie. *)
Definition keepLatest (expected : gmap Z WriteRecord) (rec : WriteRecord) : gmap Z WriteRecord :=
  match expected !! wr_Key rec with
  | Some cur => if wr_Seq cur <=? wr_Seq rec then <[wr_Key rec := rec]> expected else expected
  | None => <[wr_Key rec := rec]> expected
  end.

Section reader.
Context (unmarshal : text -> option WriteRecord).

Fixpoint readLog_loop (lines : list text) (line : Z) (expected : gmap Z WriteRecord)
    : result read_error (gmap Z WriteRecord) :=
  match lines with
  | [] => Ok expected
  | l :: rest =>
      if max_token <=? Z.of_nat (length l) then Err ErrTooLong
      else match drop_cr l with
           | [] => readLog_loop rest (line + 1) expected
           | b => match unmarshal b with
                  | None => Err (ErrLine line)
                  | Some rec => readLog_loop rest (line + 1) (keepLatest expected rec)
                  end
           end
  end.

Definition readLog (t : text) : result read_error (gmap Z WriteRecord) :=
  readLog_loop (split_lines t []) 1 ∅.

(** ** Round trip *)

Context (unmarshal_marshal : forall r, record_ok r -> unmarshal (marshal r) = Some r).

Lemma digits_acc_length fuel z acc : (length (digits_acc fuel z acc) <= fuel + length acc)%nat.
Proof.
  revert z acc. induction fuel as [|fuel IH]; intros z acc; cbn [digits_acc]; [lia|].
  destruct (z / 10 =? 0); cbn [length]; [lia|]. etrans; [apply IH|]. cbn [length]. lia.
Qed.

Lemma FormatUint_length z : (length (FormatUint z) <= 64)%nat.
Proof. exact (digits_acc_length 64 z []). Qed.

Lemma FormatInt_length z : (length (FormatInt z) <= 65)%nat.
Proof.
  unfold FormatInt. destruct (z <? 0); cbn [length].
  - pose proof (FormatUint_length (- z)). lia.
  - pose proof (FormatUint_length z). lia.
Qed.

Lemma marshal_length r : Z.of_nat (length (marshal r)) < max_token.
Proof.
  unfold marshal. rewrite !length_app.
  pose proof (FormatInt_length (wr_Key r)). pose proof (FormatInt_length (wr_Seq r)).
  pose proof (FormatUint_length (wr_Checksum r)).
  change (length (json_field "key")) with 6%nat.
  change (length (json_field "checksum")) with 11%nat.
  change (length (json_field "seq")) with 6%nat.
  cbn [length]. unfold max_token. lia.
Qed.

Lemma marshal_plain r : record_ok r -> Forall (fun c => plain c = true) (marshal r).
Proof.
  intros (_ & [Hc _] & _). unfold marshal.
  rewrite !Forall_app. split_and!;
    try (apply FormatInt_plain || by apply FormatUint_plain);
    try (by repeat constructor).
Qed.

Lemma readLog_loop_marshal rs line expected :
  Forall record_ok rs ->
  readLog_loop (split_lines (log_text rs) []) line expected
  = Ok (foldl keepLatest expected rs).
Proof.
  intros Hrs. revert line expected. induction Hrs as [|r rs Hr Hrs IH]; intros line expected; [done|].
  rewrite log_text_cons.
  pose proof (marshal_plain r Hr) as Hp.
  rewrite split_lines_line by exact (plain_no_newline _ Hp). cbn [rev app readLog_loop].
  pose proof (marshal_length r) as Hlen.
  destruct (max_token <=? Z.of_nat (length (marshal r))) eqn:E; zbool; [lia|].
  rewrite plain_drop_cr by done.
  destruct (marshal r) as [|c b] eqn:Em; [done|]. rewrite <- Em, unmarshal_marshal by done.
  apply IH.
Qed.


Lemma readLog_text rs :
  Forall record_ok rs -> readLog (log_text rs) = Ok (foldl keepLatest ∅ rs).
Proof. apply readLog_loop_marshal. Qed.
End reader.

(** ** Last write wins *)

(** [r] is the record of [k] with the highest [Seq], the last of those. *)
Definition latest (rs : list WriteRecord) (k : Z) (r : WriteRecord) : Prop :=
  exists l1 l2, rs = l1 ++ r :: l2 /\ wr_Key r = k /\
    Forall (fun x => wr_Key x = k -> wr_Seq x <= wr_Seq r) l1 /\
    Forall (fun x => wr_Key x = k -> wr_Seq x < wr_Seq r) l2.

Lemma latest_snoc_other rs k r x : wr_Key x <> k -> latest (rs ++ [x]) k r <-> latest rs k r.
Proof.
  intros Hx. split.
  - intros (l1 & l2 & E & Hk & H1 & H2). destruct l2 as [|y l2 _] using rev_ind.
    + apply app_inj_tail in E as [_ ->]. done.
    + rewrite app_comm_cons, app_assoc in E. apply app_inj_tail in E as [-> _].
      apply Forall_app in H2 as [H2 _]. by exists l1, l2.
  - intros (l1 & l2 & -> & Hk & H1 & H2). exists l1, (l2 ++ [x]).
    rewrite <- app_assoc, <- app_comm_cons. split_and!; [done..|].
    apply Forall_app. split; [done|]. by constructor.
Qed.

(** Two latest records of one key are the same record. *)
Lemma latest_unique rs k r r' : latest rs k r -> latest rs k r' -> r = r'.
Proof.
  intros (l1 & l2 & -> & Hk & H1 & H2) (l1' & l2' & E & Hk' & H1' & H2').
  rewrite Forall_forall in H1, H2, H1', H2'.
  assert (Hin : r' ∈ l1 ++ r :: l2) by (rewrite E; apply elem_of_app; right; left).
  assert (Hin' : r ∈ l1' ++ r' :: l2') by (rewrite <- E; apply elem_of_app; right; left).
  assert (wr_Seq r' <= wr_Seq r /\ wr_Seq r <= wr_Seq r') as [Hle Hge].
  { split.
    - apply elem_of_app in Hin as [Hi|Hi]; [by apply H1|].
      apply elem_of_cons in Hi as [->|Hi]; [lia|]. pose proof (H2 _ Hi Hk'). lia.
    - apply elem_of_app in Hin' as [Hi|Hi]; [by apply H1'|].
      apply elem_of_cons in Hi as [->|Hi]; [lia|]. pose proof (H2' _ Hi Hk). lia. }
  apply app_eq_inv in E as [(l & E1 & E2)|(l & E1 & E2)].
  - destruct l as [|y l]; cbn [app] in E2; injection E2; [done|]. intros -> ->.
    pose proof (H2' r ltac:(apply elem_of_app; right; left) Hk). lia.
  - destruct l as [|y l]; cbn [app] in E2; injection E2; [done|]. intros -> ->.
    pose proof (H2 r' ltac:(apply elem_of_app; right; left) Hk'). lia.
Qed.

Lemma keepLatest_correct rs k :
  match foldl keepLatest ∅ rs !! k with
  | Some r => latest rs k r
  | None => Forall (fun x => wr_Key x <> k) rs
  end.
Proof.
  induction rs as [|x rs IH] using rev_ind.
  { cbn [foldl]. rewrite lookup_empty. constructor. }
  rewrite foldl_app. cbn [foldl]. set (m := foldl keepLatest ∅ rs) in *.
  unfold keepLatest. destruct (decide (wr_Key x = k)) as [<-|Hne].
  - destruct (m !! wr_Key x) as [cur|] eqn:E.
    + destruct (wr_Seq cur <=? wr_Seq x) eqn:Ele; zbool.
      * rewrite lookup_insert_eq. exists rs, []. split_and!; [done..| |constructor].
        destruct IH as (l1 & l2 & -> & _ & H1 & H2).
        apply Forall_app. split; [|constructor; [by intros|]];
          (eapply Forall_impl; [eassumption|]); simpl; intros y Hy Hk; specialize (Hy Hk); lia.
      * rewrite E. destruct IH as (l1 & l2 & -> & Hk & H1 & H2).
        exists l1, (l2 ++ [x]). rewrite <- app_assoc, <- app_comm_cons.
        split_and!; [done..|]. apply Forall_app. split; [done|]. repeat constructor. lia.
    + rewrite lookup_insert_eq. exists rs, []. split_and!; [done..| |constructor].
      eapply Forall_impl; [exact IH|]. simpl. intros y Hy Hk. congruence.
  - assert ((match m !! wr_Key x with
             | Some cur => if wr_Seq cur <=? wr_Seq x then <[wr_Key x:=x]> m else m
             | None => <[wr_Key x:=x]> m end) !! k = m !! k) as ->.
    { destruct (m !! wr_Key x); [destruct (_ <=? _)|]; by rewrite ?lookup_insert_ne by done. }
    destruct (m !! k).
    + by apply latest_snoc_other.
    + apply Forall_app. split; [done|]. by repeat constructor.
Qed.

Lemma keepLatest_latest rs k r : foldl keepLatest ∅ rs !! k = Some r <-> latest rs k r.
Proof.
  pose proof (keepLatest_correct rs k) as H. split.
  - intros E. by rewrite E in H.
  - intros Hl. destruct (foldl keepLatest ∅ rs !! k) as [r'|].
    + f_equal. by eapply latest_unique.
    + destruct Hl as (l1 & l2 & -> & Hk & _). apply Forall_app in H as [_ H].
      inversion H. done.
Qed.

(** With one record per key and sequence number, the order does not matter. *)
Definition seq_unique (rs : list WriteRecord) : Prop :=
  forall x y, x ∈ rs -> y ∈ rs -> wr_Key x = wr_Key y -> wr_Seq x = wr_Seq y -> x = y.

Lemma latest_max rs k r :
  latest rs k r -> r ∈ rs /\ wr_Key r = k /\
    forall x, x ∈ rs -> wr_Key x = k -> wr_Seq x <= wr_Seq r.
Proof.
  intros (l1 & l2 & -> & Hk & H1 & H2). rewrite Forall_forall in H1, H2.
  split_and!; [apply elem_of_app; right; left|done|]. intros x Hx Hxk.
  apply elem_of_app in Hx as [Hi|Hi]; [by apply H1|].
  apply elem_of_cons in Hi as [->|Hi]; [lia|]. pose proof (H2 _ Hi Hxk). lia.
Qed.

Lemma keepLatest_perm rs rs' :
  seq_unique rs -> rs ≡ₚ rs' -> foldl keepLatest ∅ rs = foldl keepLatest ∅ rs'.
Proof.
  intros Hu Hp. apply map_eq. intros k.
  pose proof (keepLatest_correct rs k) as H. pose proof (keepLatest_correct rs' k) as H'.
  destruct (foldl keepLatest ∅ rs !! k) as [r|], (foldl keepLatest ∅ rs' !! k) as [r'|]; [| | |done].
  - apply latest_max in H as (Hin & Hk & Hmax). apply latest_max in H' as (Hin' & Hk' & Hmax').
    rewrite <- Hp in Hin'. f_equal. apply Hu; [done..|congruence|].
    apply Z.le_antisymm; [apply Hmax'; [by rewrite <- Hp|done]|by apply Hmax].
  - apply latest_max in H as (Hin & Hk & _). rewrite Hp in Hin. rewrite Forall_forall in H'.
    by specialize (H' _ Hin).
  - apply latest_max in H' as (Hin & Hk & _). rewrite <- Hp in Hin. rewrite Forall_forall in H.
    by specialize (H _ Hin).
Qed.

(** ** A decoder of the encoder's own output *)

Definition numeric (c : ascii) : bool := is_digit c || Ascii.eqb c "-"%char.

Fixpoint span_num (t : text) : text * text :=
  match t with
  | c :: t' => if numeric c then let '(a, b) := span_num t' in (c :: a, b) else ([], t)
  | [] => ([], [])
  end.

Definition strict_unmarshal (t : text) : option WriteRecord :=
  t ← strip ("{"%char :: json_field "key") t;
  k ← ParseInt (span_num t).1;
  t ← strip (","%char :: json_field "checksum") (span_num t).2;
  c ← ParseUint (span_num t).1;
  t ← strip (","%char :: json_field "seq") (span_num t).2;
  s ← ParseInt (span_num t).1;
  t ← strip ["}"%char] (span_num t).2;
  match t with
  | [] => Some {| wr_Key := k; wr_Checksum := c; wr_Seq := s |}
  | _ => None
  end.

Lemma span_num_app l c t :
  Forall (fun c => numeric c = true) l -> numeric c = false ->
  span_num (l ++ c :: t) = (l, c :: t).
Proof.
  intros Hl Hc. induction Hl as [|d l Hd Hl IH]; cbn [app span_num]; [by rewrite Hc|].
  by rewrite Hd, IH.
Qed.

Lemma FormatUint_numeric z : 0 <= z -> Forall (fun c => numeric c = true) (FormatUint z).
Proof.
  intros Hz. eapply Forall_impl; [by apply FormatUint_digits|]. cbn beta. unfold numeric.
  by intros c ->.
Qed.

Lemma FormatInt_numeric z : Forall (fun c => numeric c = true) (FormatInt z).
Proof.
  unfold FormatInt. destruct (z <? 0) eqn:E; zbool.
  - constructor; [done|]. apply FormatUint_numeric. lia.
  - by apply FormatUint_numeric.
Qed.

Lemma strict_unmarshal_marshal r : record_ok r -> strict_unmarshal (marshal r) = Some r.
Proof.
  intros (Hk & Hc & Hs). destruct r as [k c s]. cbn in Hk, Hc, Hs.
  unfold strict_unmarshal, marshal. cbn [wr_Key wr_Checksum wr_Seq].
  rewrite app_assoc. change (["{"%char] ++ json_field "key") with ("{"%char :: json_field "key").
  rewrite strip_app. cbn [mbind option_bind app].
  rewrite span_num_app by (done || apply FormatInt_numeric). cbn [fst snd].
  rewrite ParseInt_FormatInt by done. cbn [mbind option_bind].
  rewrite app_comm_cons, strip_app. cbn [mbind option_bind].
  rewrite span_num_app by (done || apply FormatUint_numeric, Hc). cbn [fst snd].
  rewrite ParseUint_FormatUint by done. cbn [mbind option_bind].
  rewrite app_comm_cons, strip_app. cbn [mbind option_bind].
  rewrite span_num_app by (done || apply FormatInt_numeric). cbn [fst snd].
  rewrite ParseInt_FormatInt by done. cbn [mbind option_bind]. done.
Qed.

(** ** Properties *)

Definition event_ok (ev : Operation * OpResult) : Prop :=
  is_i64 (op_Key ev.1) /\ is_i64 (op_Seq ev.1).

Lemma committed_ok evs : Forall event_ok evs -> Forall record_ok (omap committed evs).
Proof.
  induction 1 as [|ev evs [Hk Hs] Hevs IH]; [constructor|]. cbn [omap list_omap].
  unfold committed at 1. destruct (or_Err ev.2); [done|]. destruct (op_Value ev.1); [done|].
  constructor; [|done]. split_and!; [done|apply Checksum_range|done].
Qed.

(** C34: Observing a run's operations and reading the log back gives, for every
    key, exactly the committed write with the highest sequence number (the last
    of those on a tie), over what an earlier run left in the file and this
    run's committed writes; a key with no committed write is absent, and
    reading never fails. *)
Theorem expected_log_last_write_wins
    (unmarshal : text -> option WriteRecord)
    (unmarshal_marshal : forall r, record_ok r -> unmarshal (marshal r) = Some r)
    (old : list WriteRecord) (evs : list (Operation * OpResult)) :
  Forall record_ok old -> Forall event_ok evs ->
  exists expected,
    readLog unmarshal (LogWriter_Close (Observe_all (NewLogWriter (log_text old)) evs)) = Ok expected /\
    forall k,
      (forall r, expected !! k = Some r <-> latest (old ++ omap committed evs) k r) /\
      (expected !! k = None <-> Forall (fun r => wr_Key r <> k) (old ++ omap committed evs)).
Proof.
  intros Hold Hevs. exists (foldl keepLatest ∅ (old ++ omap committed evs)). split.
  - rewrite Observe_all_text. unfold LogWriter_Close, NewLogWriter. cbn [lw_file lw_buf].
    rewrite app_nil_r, <- log_text_app. apply (readLog_text unmarshal unmarshal_marshal).
    apply Forall_app. split; [done|]. by apply committed_ok.
  - intros k. split; [intros r; apply keepLatest_latest|].
    pose proof (keepLatest_correct (old ++ omap committed evs) k) as H.
    split; [by intros E; rewrite E in H|]. intros Hnone.
    destruct (foldl keepLatest _ _ !! k) as [r|]; [|done].
    destruct H as (l1 & l2 & E & Hk & _). rewrite E in Hnone.
    apply Forall_app in Hnone as [_ Hn]. inversion Hn. done.
Qed.

Definition sample_write (k s : Z) (v : bytes) : Operation * OpResult :=
  ({| op_Type := "write"; op_Key := k; op_Value := v; op_Seq := s |},
   {| or_Type := "write"; or_Rows := 1; or_Observed := ANil; or_Err := None |}).

Lemma expected_log_last_write_wins_witness :
  exists expected,
    readLog strict_unmarshal
      (LogWriter_Close (Observe_all (NewLogWriter (log_text [{| wr_Key := 7; wr_Checksum := 1; wr_Seq := 1 |}]))
         [sample_write 7 2 [Byte.x41]])) = Ok expected /\
    forall k,
      (forall r, expected !! k = Some r <->
         latest ([{| wr_Key := 7; wr_Checksum := 1; wr_Seq := 1 |}] ++
                 omap committed [sample_write 7 2 [Byte.x41]]) k r) /\
      (expected !! k = None <-> Forall (fun r => wr_Key r <> k)
         ([{| wr_Key := 7; wr_Checksum := 1; wr_Seq := 1 |}] ++
          omap committed [sample_write 7 2 [Byte.x41]])).
Proof.
  apply (expected_log_last_write_wins strict_unmarshal strict_unmarshal_marshal);
    repeat constructor; unfold is_i64, is_u64; simpl; lia.
Defined.

(** Shards written concurrently can be concatenated, or their lines
    interleaved, in any order: as long as no two writes of a key share a
    sequence number, the expectations read are the same. *)
Theorem shard_order_irrelevant
    (unmarshal : text -> option WriteRecord)
    (unmarshal_marshal : forall r, record_ok r -> unmarshal (marshal r) = Some r)
    (rs rs' : list WriteRecord) :
  Forall record_ok rs -> seq_unique rs -> rs ≡ₚ rs' ->
  readLog unmarshal (log_text rs) = readLog unmarshal (log_text rs') /\
  readLog unmarshal (log_text rs) = Ok (foldl keepLatest ∅ rs).
Proof.
  intros Hok Hu Hp. rewrite !(readLog_text unmarshal unmarshal_marshal) by (done || by rewrite <- Hp).
  split; [|done]. f_equal. by apply keepLatest_perm.
Qed.

Definition sample_records : list WriteRecord :=
  [{| wr_Key := 1; wr_Checksum := 5; wr_Seq := 2 |}; {| wr_Key := 1; wr_Checksum := 9; wr_Seq := 1 |}].

Lemma shard_order_irrelevant_witness :
  readLog strict_unmarshal (log_text sample_records)
    = readLog strict_unmarshal (log_text (rev sample_records)) /\
  readLog strict_unmarshal (log_text sample_records) = Ok (foldl keepLatest ∅ sample_records).
Proof.
  apply (shard_order_irrelevant strict_unmarshal strict_unmarshal_marshal).
  - repeat constructor; unfold is_i64, is_u64; simpl; lia.
  - intros x y Hx Hy _ Hs. unfold sample_records in Hx, Hy.
    repeat match goal with
    | H : _ ∈ _ :: _ |- _ => apply elem_of_cons in H as [->|H]
    | H : _ ∈ [] |- _ => by apply elem_of_nil in H
    end; simpl in Hs; try done; lia.
  - apply Permutation_rev.
Defined.
