(* ===== verification/Driver.v ===== *)
(** * Driver: the ports a target implements (core/driver)

    [Driver] and [Conn] are interfaces of the program with one implementation
    per target; the components that use them are written against the classes
    below.  An implementation acts on a world [W] (the target, the network and
    the clock), so every call returns the world it leaves.  [ConnAccounting]
    is what closing and opening promise; [WorldClock] what the monotonic clock
    promises. *)

From S2P Require Import Prelude Domain.

Local Open Scope Z_scope.

Record Config := {
  cfg_Endpoints : list string;
  cfg_Consistency : string;
  cfg_Cluster : ClusterSpec;
  cfg_Params : params
}.

(** driver.go: the Driver and Conn interfaces, [C] the connection handles. *)
Class Driver (W C : Type) := {
  drv_Connect : Config -> W -> W * result error C;
  conn_Prepare : C -> Workload -> W -> W * option error;
  conn_Execute : C -> Operation -> W -> W * OpResult;
  conn_Close : C -> W -> W * option error
}.

(** The clock and the context the code runs under: [now] is [time.Now], [wait]
    blocks for a duration or until the context is done, whose error it then
    returns, and [ctx_Err] is [ctx.Err]. *)
Class Clock (W : Type) := {
  now : W -> W * Z;
  wait : Z -> W -> W * option error;
  ctx_Err : W -> option error
}.

(** capabilities.go: ClusterAware. *)
Class ClusterAware (W : Type) := {
  ca_Nodes : Config -> list Node;
  ca_ReadKeyFrom : Node -> Z -> W -> W * result error OpResult
}.

(** The connections open in a world; each call changes them as its contract
    says. *)
Class ConnAccounting (W C : Type) {Drv : Driver W C} := {
  open_conns : W -> list C;
  connect_opens cfg w :
    match drv_Connect cfg w with
    | (w', Ok c) => open_conns w' ≡ₚ c :: open_conns w
    | (w', Err _) => open_conns w' ≡ₚ open_conns w
    end;
  prepare_keeps c wl w : open_conns (conn_Prepare c wl w).1 ≡ₚ open_conns w;
  execute_keeps c op w : open_conns (conn_Execute c op w).1 ≡ₚ open_conns w;
  close_closes c w l : open_conns w ≡ₚ c :: l -> open_conns (conn_Close c w).1 ≡ₚ l
}.

(** Monotonic time: no call moves it back, reading it returns a moment of the
    call, and an undisturbed wait lasts at least its duration. *)
Class WorldClock (W : Type) {Clk : Clock W} := {
  time_of : W -> Z;
  now_reads w w' t : now w = (w', t) -> time_of w <= t <= time_of w';
  wait_lasts d w w' : wait d w = (w', None) -> time_of w + d <= time_of w'
}.

(** ** registry.go *)

Inductive register_panic := NilDriver | EmptyName | DuplicateName (name : string).

Section registry.
Context {D : Type} (Name : D -> string).

Definition Register (registry : gmap string D) (d : option D)
    : result register_panic (gmap string D) :=
  match d with
  | None => Err NilDriver
  | Some d =>
      if String.eqb (Name d) "" then Err EmptyName
      else match registry !! Name d with
           | Some _ => Err (DuplicateName (Name d))
           | None => Ok (<[Name d := d]> registry)
           end
  end.

(** A failed lookup reports the sorted names it has. *)
Definition Names (registry : gmap string D) : list string :=
  sort_by String.leb (map fst (map_to_list registry)).

Definition Get (registry : gmap string D) (name : string) : result (list string) D :=
  match registry !! name with
  | Some d => Ok d
  | None => Err (Names registry)
  end.
End registry.

(** ** A concrete target *)

(** A store that never changes; the world is the clock and the connections
    open. *)
Definition store_world : Type := Z * list unit.

Definition tick (d : Z) (w : store_world) : store_world := (w.1 + d, w.2).

Definition store_driver (store : gmap Z bytes) : Driver store_world unit := {|
  drv_Connect _ w := ((w.1, tt :: w.2), Ok tt);
  conn_Prepare _ _ w := (w, None);
  conn_Execute _ op w :=
    (tick 1 w, {| or_Type := op_Type op; or_Rows := 1;
               or_Observed := match store !! op_Key op with
                              | Some b => ABytes (Some b)
                              | None => ANil
                              end;
               or_Err := None |});
  conn_Close _ w := ((w.1, tail w.2), None)
|}.

#[export] Instance store_accounting store : ConnAccounting store_world unit (Drv := store_driver store).
Proof.
  refine {| open_conns w := w.2 |}; cbn; try done. intros [] [t l'] l Hp. cbn in *.
  assert (Hall : forall l1 l2 : list unit, length l1 = length l2 -> l1 = l2).
  { induction l1 as [|[] l1 IH]; intros [|[] l2] Hl; try done. f_equal. apply IH. cbn in Hl. lia. }
  apply Permutation_length in Hp. cbn in Hp. rewrite (Hall (tail l') l); [done|].
  destruct l'; cbn in *; lia.
Defined.
