(* ===== verification/FakeDriver.v ===== *)
(** * FakeDriver: the in-memory target (core/testutil)

    The driver the core is exercised against: its calls as an instance of the class of
    drivers, and what they answer in terms of the calls made before. *)

From Stdlib Require Import String.
From S2P Require Import Prelude Domain Strconv Driver.

Local Open Scope Z_scope.
Local Open Scope go_scope.

(** ** fakedriver.go *)

Record FakeDriver := {
  fd_Latency : Z;
  fd_FailEvery : Z;
  fd_store : gmap Z bytes;
  fd_ops : list Operation;
  fd_n : Z
}.

Definition NewFakeDriver : FakeDriver :=
  {| fd_Latency := 0; fd_FailEvery := 0; fd_store := ∅; fd_ops := []; fd_n := 0 |}.

Definition errFakeExecute : error := "fake: injected execute failure".

Definition fake_Name (d : FakeDriver) : string := "fake".

Definition fake_Operations (d : FakeDriver) : list Operation := fd_ops d.

(** What Execute does once the latency is over, under the driver's lock. *)
Definition fake_answer (op : Operation) (d : FakeDriver) : FakeDriver * OpResult :=
  let n := fd_n d +! 1 in
  let counted store :=
    {| fd_Latency := fd_Latency d; fd_FailEvery := fd_FailEvery d; fd_store := store; fd_ops := fd_ops d ++ [op]; fd_n := n |} in
  if (0 <? fd_FailEvery d) && (Z.rem n (fd_FailEvery d) =? 0) then
    (counted (fd_store d), {| or_Type := op_Type op; or_Rows := 0; or_Observed := ANil; or_Err := Some errFakeExecute |})
  else
    match op_Value op with
    | [] => (counted (fd_store d),
             {| or_Type := op_Type op; or_Rows := 1; or_Observed := ABytes (fd_store d !! op_Key op); or_Err := None |})
    | v => (counted (<[op_Key op := v]> (fd_store d)),
            {| or_Type := op_Type op; or_Rows := 1; or_Observed := ANil; or_Err := None |})
    end.

(** The process's clock and context, and the driver its connections share. *)
Record fake_world (X : Type) := { fk_env : X; fk : FakeDriver }.
Arguments fk_env {X}.
Arguments fk {X}.

Section fake.
Context {X : Type} {Clk : Clock X}.
Implicit Types w : fake_world X.

Definition fake_Connect (_ : Driver.Config) w : fake_world X * result error unit := (w, Ok tt).
Definition fake_Schema (_ : Driver.Config) (_ : Workload) w : fake_world X * option error := (w, None).
Definition fake_Prepare (_ : unit) (_ : Workload) w : fake_world X * option error := (w, None).
Definition fake_Close (_ : unit) w : fake_world X * option error := (w, None).

Definition fake_Execute (_ : unit) (op : Operation) w : fake_world X * OpResult :=
  let '(x, err) := if 0 <? fd_Latency (fk w) then wait (fd_Latency (fk w)) (fk_env w) else (fk_env w, None) in
  match err with
  | Some e => ({| fk_env := x; fk := fk w |}, {| or_Type := op_Type op; or_Rows := 0; or_Observed := ANil; or_Err := Some e |})
  | None => let '(d, res) := fake_answer op (fk w) in ({| fk_env := x; fk := d |}, res)
  end.

#[export] Instance fake_Driver : Driver (fake_world X) unit := {|
  drv_Connect := fake_Connect;
  conn_Prepare := fake_Prepare;
  conn_Execute := fake_Execute;
  conn_Close := fake_Close
|}.
End fake.

(** ** What it answers *)

(** The calls that reach the driver, with its answers, by the history of the calls
    alone: every [every]-th fails, a payload is stored, and a call without one answers
    the latest payload that was stored under its key. *)
Definition injected (every n : Z) : bool := (0 <? every) && (n mod every =? 0).

Fixpoint last_stored (every k : Z) (history : list Operation) : option bytes :=
  match history with
  | [] => None
  | op :: earlier =>
      if (op_Key op =? k) && negb (injected every (Z.of_nat (length history))) && negb (bool_decide (op_Value op = []))
      then Some (op_Value op) else last_stored every k earlier
  end.

(** [history] is in reverse. *)
Definition expected_answer (every : Z) (history : list Operation) (op : Operation) : OpResult :=
  if injected every (Z.of_nat (length history) + 1) then
    {| or_Type := op_Type op; or_Rows := 0; or_Observed := ANil; or_Err := Some errFakeExecute |}
  else
    {| or_Type := op_Type op; or_Rows := 1;
       or_Observed := match op_Value op with [] => ABytes (last_stored every (op_Key op) history) | _ => ANil end; or_Err := None |}.

(** The answers to a sequence of calls, [cuts] naming those the context ended during the
    latency; these do not reach the driver. *)
Fixpoint expected_answers (every : Z) (history : list Operation) (ops : list Operation) (cuts : list (option error)) : list OpResult :=
  match ops, cuts with
  | op :: ops, Some e :: cuts =>
      {| or_Type := op_Type op; or_Rows := 0; or_Observed := ANil; or_Err := Some e |} :: expected_answers every history ops cuts
  | op :: ops, None :: cuts => expected_answer every history op :: expected_answers every (op :: history) ops cuts
  | _, _ => []
  end.

Definition reached (ops : list Operation) (cuts : list (option error)) : list Operation :=
  (filter (fun p => p.2 = None) (zip ops cuts)).*1.

(** A driver's state after its calls. *)
Record fake_state (history : list Operation) (d : FakeDriver) : Prop := {
  fs_ops : fd_ops d = rev history;
  fs_n : fd_n d = Z.of_nat (length history);
  fs_store k : fd_store d !! k = last_stored (fd_FailEvery d) k history
}.

Lemma fake_answer_state history d op :
  fake_state history d -> Z.of_nat (length history) < 2^63 - 1 ->
  let '(d', res) := fake_answer op d in
  fake_state (op :: history) d' /\ fd_FailEvery d' = fd_FailEvery d /\ res = expected_answer (fd_FailEvery d) history op.
Proof.
  intros [Ho Hn Hs] Hlen. unfold fake_answer, expected_answer.
  rewrite Hn, i64_add_id by (unfold is_i64; lia).
  assert (Hf : (0 <? fd_FailEvery d) && (Z.rem (Z.of_nat (length history) + 1) (fd_FailEvery d) =? 0)
    = injected (fd_FailEvery d) (Z.of_nat (length history) + 1)).
  { unfold injected. destruct (Z.ltb_spec 0 (fd_FailEvery d)); [|done]. cbn [andb]. rewrite Z.rem_mod_nonneg by lia. done. }
  rewrite Hf. assert (El : Z.of_nat (length (op :: history)) = Z.of_nat (length history) + 1) by (cbn [length]; lia).
  destruct (injected _ _) eqn:Ef; [|destruct (op_Value op) as [|b v] eqn:Ev]; cbn [fd_FailEvery];
    (split; [split; cbn [fd_ops fd_n fd_store fd_FailEvery]; [by rewrite Ho|by rewrite El|]|split; [done|]]).
  - intros k. cbn [last_stored]. rewrite El, Ef, Hs. by rewrite andb_false_r.
  - done.
  - intros k. cbn [last_stored]. rewrite El, Ef, Ev, Hs, bool_decide_true by done. by rewrite andb_false_r.
  - by rewrite Hs.
  - intros k. cbn [last_stored]. rewrite El, Ef, Ev. cbn [negb andb]. rewrite bool_decide_false, !andb_true_r by done.
    destruct (Z.eqb_spec (op_Key op) k) as [->|Hk]; [by rewrite lookup_insert_eq|by rewrite lookup_insert_ne by done].
  - done.
Qed.

Section calls.
Context {X : Type} {Clk : Clock X}.
Implicit Types w : fake_world X.

(** Calls in sequence, through any of the connections. *)
Fixpoint fake_calls (ops : list Operation) w : fake_world X * list OpResult :=
  match ops with
  | [] => (w, [])
  | op :: ops =>
      let '(w1, r) := conn_Execute tt op w in
      let '(w2, rs) := fake_calls ops w1 in
      (w2, r :: rs)
  end.

Lemma fake_Execute_answer op w :
  exists x cut,
    fake_Execute tt op w =
      match cut with
      | Some e => ({| fk_env := x; fk := fk w |}, {| or_Type := op_Type op; or_Rows := 0; or_Observed := ANil; or_Err := Some e |})
      | None => ({| fk_env := x; fk := (fake_answer op (fk w)).1 |}, (fake_answer op (fk w)).2)
      end /\
    (fd_Latency (fk w) <= 0 -> cut = None).
Proof.
  unfold fake_Execute. destruct (Z.ltb_spec 0 (fd_Latency (fk w))).
  - destruct (wait _ _) as [x cut]. exists x, cut. split; [|lia]. by destruct cut, (fake_answer op (fk w)).
  - exists (fk_env w), None. split; [|done]. by destruct (fake_answer op (fk w)).
Qed.

Lemma fake_answer_Latency op d : fd_Latency (fake_answer op d).1 = fd_Latency d.
Proof. unfold fake_answer. by repeat case_match. Qed.

Lemma fake_calls_answers ops history w :
  fake_state history (fk w) -> Z.of_nat (length history + length ops) < 2^63 ->
  exists cuts, length cuts = length ops /\
    (fake_calls ops w).2 = expected_answers (fd_FailEvery (fk w)) history ops cuts /\
    fake_state (rev (reached ops cuts) ++ history) (fk (fake_calls ops w).1) /\
    (fd_Latency (fk w) <= 0 -> Forall (eq None) cuts).
Proof.
  revert history w. induction ops as [|op ops IH]; intros history w Hs Hlen; [by exists []|].
  cbn [fake_calls conn_Execute fake_Driver]. cbn [length] in Hlen.
  destruct (fake_Execute_answer op w) as (x & cut & -> & Hcut). destruct cut as [e|].
  - destruct (IH history {| fk_env := x; fk := fk w |} Hs ltac:(lia)) as (cuts & Hc & Hr & Hst & Hl). destruct (fake_calls ops _) as [w2 rs].
    exists (Some e :: cuts). cbn in *. split_and!; [lia|by rewrite Hr|done|]. intros H0. by specialize (Hcut H0).
  - pose proof (fake_answer_state history (fk w) op Hs ltac:(lia)) as Ha. pose proof (fake_answer_Latency op (fk w)) as El.
    destruct (fake_answer op (fk w)) as [d r]. cbn [fst snd] in *. destruct Ha as (Hs' & Ef & ->).
    destruct (IH (op :: history) {| fk_env := x; fk := d |} Hs' ltac:(cbn [length]; lia)) as (cuts & Hc & Hr & Hst & Hl).
    destruct (fake_calls ops _) as [w2 rs]. exists (None :: cuts). cbn [fst snd fk length expected_answers] in *.
    rewrite Ef in Hr. rewrite El in Hl. split_and!; [lia|by rewrite Hr| |by intros; constructor; auto].
    replace (rev (reached (op :: ops) (None :: cuts)) ++ history) with (rev (reached ops cuts) ++ op :: history); [done|].
    unfold reached. cbn. rewrite decide_True by done. cbn. by rewrite <- app_assoc.
Qed.
End calls.

(** Whatever calls a new driver is given, with a latency and a failure rate set: each
    one the context does not end during the latency answers by the calls before it alone,
    the others by the context's error and without effect; with no latency there are none
    such; and Operations lists the calls that reached the driver, in order. *)
Theorem fake_driver_answers {X : Type} {Clk : Clock X} latency every ops (x : X) :
  Z.of_nat (length ops) < 2^63 ->
  let d := {| fd_Latency := latency; fd_FailEvery := every; fd_store := fd_store NewFakeDriver;
              fd_ops := fd_ops NewFakeDriver; fd_n := fd_n NewFakeDriver |} in
  let '(w, rs) := fake_calls ops {| fk_env := x; fk := d |} in
  exists cuts, length cuts = length ops /\ rs = expected_answers every [] ops cuts /\
    fake_Operations (fk w) = reached ops cuts /\ (latency <= 0 -> Forall (eq None) cuts).
Proof.
  intros Hlen d. assert (Hd : fake_state [] d) by (by split).
  destruct (fake_calls_answers ops [] {| fk_env := x; fk := d |} Hd ltac:(cbn [length]; lia)) as (cuts & Hc & Hr & Hs & Hl).
  destruct (fake_calls ops _) as [w rs]. exists cuts. split_and!; [done|done| |done].
  destruct Hs as [Ho _ _]. unfold fake_Operations. cbn [fst] in Ho. by rewrite Ho, app_nil_r, rev_involutive.
Qed.

Definition sample_calls : list Operation :=
  [ {| op_Type := "write"; op_Key := 1; op_Value := [Byte.x41]; op_Seq := 1 |};
    {| op_Type := "write"; op_Key := 1; op_Value := [Byte.x42]; op_Seq := 2 |};
    {| op_Type := "read"; op_Key := 1; op_Value := []; op_Seq := 3 |} ].

#[local] Instance still_clock : Clock unit := {| now x := (x, 0); wait _ x := (x, None); ctx_Err _ := None |}.

(** Every second call fails; the third reads what the first wrote. *)
Lemma fake_driver_answers_witness :
  let d := {| fd_Latency := 0; fd_FailEvery := 2; fd_store := ∅; fd_ops := []; fd_n := 0 |} in
  let '(w, rs) := fake_calls sample_calls {| fk_env := tt; fk := d |} in
  or_Err <$> rs = [None; Some errFakeExecute; None] /\ or_Observed <$> rs = [ANil; ANil; ABytes (Some [Byte.x41])] /\
  exists cuts, rs = expected_answers 2 [] sample_calls cuts /\ fake_Operations (fk w) = reached sample_calls cuts.
Proof.
  split; [reflexivity|]. split; [reflexivity|].
  destruct (fake_driver_answers 0 2 sample_calls tt) as (cuts & _ & Hr & H & _); [cbn; lia|].
  by exists cuts.
Defined.
