(* ===== verification/Reconcile.v ===== *)
(** * Reconcile: read-back verification (core/verify/reconcile.go)

    The expectation log is compared with what the target returns, then sampled
    keys are compared across replicas.  The target and the clock are the worlds
    of [Driver]; a [range] over a Go map visits it in an order the caller of the
    model picks, and the theorems hold for every order. *)

From Stdlib Require Import Ascii.
From S2P Require Import Prelude Domain Strconv Checksum Expect Driver.

Local Open Scope Z_scope.

Record ReconcileOptions := {
  ro_ReadOp : OpType;
  ro_Workload : Workload;
  ro_ConvergenceSample : Z;
  ro_ConvergenceTimeout : Z
}.

Definition convergePoll : Z := 5 * millisecond.

(** [[]byte(s)]. *)
Definition bytes_of_string (s : string) : bytes := String.list_byte_of_string s.

Definition coerceBytes (v : any) : bytes * bool :=
  match v with
  | ANil => ([], false)
  | ABytes (Some b) => (b, true)
  | ABytes None => ([], false)
  | AString s => (bytes_of_string s, true)
  | _ => ([], false)
  end.

Definition witness (key : Z) : string := str (FormatInt key).

(** ** The report's mutations *)

Definition report_zero (m : VerifyModel) : VerifyReport :=
  {| vr_Model := m; vr_Verdict := ""; vr_Anomalies := []; vr_Checked := 0; vr_Lost := 0;
     vr_Duplicated := 0; vr_OrderingViol := 0; vr_ConvergedIn := 0; vr_MaxStaleness := 0; vr_Extra := ∅ |}.

Definition add_anomaly (a : Anomaly) (lost : Z) (r : VerifyReport) : VerifyReport :=
  {| vr_Model := vr_Model r; vr_Verdict := vr_Verdict r;
     vr_Anomalies := vr_Anomalies r ++ [a]; vr_Checked := vr_Checked r;
     vr_Lost := vr_Lost r + lost; vr_Duplicated := vr_Duplicated r;
     vr_OrderingViol := vr_OrderingViol r; vr_ConvergedIn := vr_ConvergedIn r;
     vr_MaxStaleness := vr_MaxStaleness r; vr_Extra := vr_Extra r |}.

Definition set_checked (n : Z) (r : VerifyReport) : VerifyReport :=
  {| vr_Model := vr_Model r; vr_Verdict := vr_Verdict r;
     vr_Anomalies := vr_Anomalies r; vr_Checked := n;
     vr_Lost := vr_Lost r; vr_Duplicated := vr_Duplicated r;
     vr_OrderingViol := vr_OrderingViol r; vr_ConvergedIn := vr_ConvergedIn r;
     vr_MaxStaleness := vr_MaxStaleness r; vr_Extra := vr_Extra r |}.

Definition set_staleness (stale conv : Z) (r : VerifyReport) : VerifyReport :=
  {| vr_Model := vr_Model r; vr_Verdict := vr_Verdict r;
     vr_Anomalies := vr_Anomalies r; vr_Checked := vr_Checked r;
     vr_Lost := vr_Lost r; vr_Duplicated := vr_Duplicated r;
     vr_OrderingViol := vr_OrderingViol r; vr_ConvergedIn := conv;
     vr_MaxStaleness := stale; vr_Extra := vr_Extra r |}.

Definition set_verdict (v : Verdict) (r : VerifyReport) : VerifyReport :=
  {| vr_Model := vr_Model r; vr_Verdict := v;
     vr_Anomalies := vr_Anomalies r; vr_Checked := vr_Checked r;
     vr_Lost := vr_Lost r; vr_Duplicated := vr_Duplicated r;
     vr_OrderingViol := vr_OrderingViol r; vr_ConvergedIn := vr_ConvergedIn r;
     vr_MaxStaleness := vr_MaxStaleness r; vr_Extra := vr_Extra r |}.

Definition data_loss (key : Z) : Anomaly :=
  {| an_Kind := "data-loss";
     an_Detail := str (txt "key " ++ FormatInt key ++ txt " absent on read-back");
     an_Witness := [witness key] |}.

Definition corruption (key got want : Z) : Anomaly :=
  {| an_Kind := "corruption";
     an_Detail := str (txt "key " ++ FormatInt key ++ txt " checksum " ++ FormatUint got ++
                       txt ", expected " ++ FormatUint want);
     an_Witness := [witness key] |}.

Definition divergence (key timeout : Z) : Anomaly :=
  {| an_Kind := "divergence";
     an_Detail := str (txt "key " ++ FormatInt key ++ txt " replicas did not converge within " ++
                       duration_text timeout);
     an_Witness := [witness key] |}.

Section reconcile.
Context {W C : Type} {Drv : Driver W C} {Clk : Clock W}.

Definition read_op (o : ReconcileOptions) (key : Z) : Operation :=
  {| op_Type := ro_ReadOp o; op_Key := key; op_Value := []; op_Seq := 0 |}.

(** One iteration of the read-back loop. *)
Definition readBack_one (o : ReconcileOptions) (conn : C) (kv : Z * WriteRecord)
    (wr : W * VerifyReport) : W * VerifyReport :=
  let '(w, report) := wr in
  let '(key, want) := kv in
  let '(w, res) := conn_Execute conn (read_op o key) w in
  let '(b, present) := coerceBytes (or_Observed res) in
  match or_Err res, present with
  | None, true =>
      if Checksum b =? wr_Checksum want then (w, report)
      else (w, add_anomaly (corruption key (Checksum b) (wr_Checksum want)) 0 report)
  | _, _ => (w, add_anomaly (data_loss key) 1 report)
  end.

Definition readBack (o : ReconcileOptions) (conn : C) (expected : list (Z * WriteRecord))
    (wr : W * VerifyReport) : W * VerifyReport :=
  foldl (fun wr kv => readBack_one o conn kv wr) wr expected.

(** [sampleKeys] over the visiting order [expected]. *)
Fixpoint sampleKeys (expected : list (Z * WriteRecord)) (n : Z) : list Z :=
  match expected with
  | [] => []
  | kv :: rest => if n <=? 0 then [] else kv.1 :: sampleKeys rest (n - 1)
  end.

Section cluster.
Context {Cluster : ClusterAware W}.

(** [first] is [None] before the first node is read. *)
Fixpoint nodesAgree_loop (nodes : list Node) (key : Z) (first : option Z) (w : W)
    : W * result error bool :=
  match nodes with
  | [] => (w, Ok true)
  | n :: rest =>
      match ca_ReadKeyFrom n key w with
      | (w, Err e) => (w, Err e)
      | (w, Ok res) =>
          let sum := Checksum (coerceBytes (or_Observed res)).1 in
          match first with
          | None => nodesAgree_loop rest key (Some sum) w
          | Some f => if sum =? f then nodesAgree_loop rest key first w else (w, Ok false)
          end
      end
  end.

Definition nodesAgree (nodes : list Node) (key : Z) (w : W) : W * result error bool :=
  nodesAgree_loop nodes key None w.

Definition since (start : Z) (w : W) : W * Z :=
  let '(w, t) := now w in (w, time_sub t start).

(** [None] is running out of fuel. *)
Fixpoint convergeKey_loop (fuel : nat) (nodes : list Node) (key timeout start deadline : Z) (w : W)
    : option (W * (bool * Z * option error)) :=
  match fuel with
  | O => None
  | S fuel =>
      match nodesAgree nodes key w with
      | (w, Err e) => let '(w, d) := since start w in Some (w, (false, d, Some e))
      | (w, Ok true) => let '(w, d) := since start w in Some (w, (true, d, None))
      | (w, Ok false) =>
          (* [timeout <= 0 ||] short-circuits the clock read *)
          let '(w, late) := if timeout <=? 0 then (w, true)
                            else let '(w, t) := now w in (w, deadline <=? t) in
          if late then let '(w, d) := since start w in Some (w, (false, d, None))
          else match wait convergePoll w with
               | (w, Some e) => let '(w, d) := since start w in Some (w, (false, d, Some e))
               | (w, None) => convergeKey_loop fuel nodes key timeout start deadline w
               end
      end
  end.

Definition convergeKey (fuel : nat) (nodes : list Node) (key timeout : Z) (w : W)
    : option (W * (bool * Z * option error)) :=
  let '(w, start) := now w in
  convergeKey_loop fuel nodes key timeout start (start + timeout) w.

Fixpoint checkConvergence_loop (fuel : nat) (nodes : list Node) (timeout : Z) (keys : list Z)
    (maxStale : Z) (w : W) (report : VerifyReport) : option (W * (Z * VerifyReport)) :=
  match keys with
  | [] => Some (w, (maxStale, report))
  | key :: rest =>
      '(w, (converged, dur, err)) ← convergeKey fuel nodes key timeout w;
      let maxStale := if maxStale <? dur then dur else maxStale in
      let report := match err, converged with
                    | None, true => report
                    | _, _ => add_anomaly (divergence key timeout) 0 report
                    end in
      checkConvergence_loop fuel nodes timeout rest maxStale w report
  end.

Definition checkConvergence (fuel : nat) (cfg : Config) (expected : list (Z * WriteRecord))
    (o : ReconcileOptions) (w : W) (report : VerifyReport) : option (W * VerifyReport) :=
  let nodes := ca_Nodes cfg in
  if (Z.of_nat (length nodes) <=? 1) || (ro_ConvergenceSample o <=? 0) then Some (w, report)
  else
    let '(w, start) := now w in
    '(w, (maxStale, report)) ←
      checkConvergence_loop fuel nodes (ro_ConvergenceTimeout o)
        (sampleKeys expected (ro_ConvergenceSample o)) 0 w report;
    let '(w, conv) := since start w in
    Some (w, set_staleness maxStale conv report).
End cluster.

(** [cluster] is the result of the [driver.ClusterAware] type assertion;
    [order1] and [order2] are the orders of the two ranges over the map. *)
Definition Reconcile (fuel : nat) (cluster : option (ClusterAware W)) (cfg : Config)
    (log : gmap Z WriteRecord) (order1 order2 : list (Z * WriteRecord)) (o : ReconcileOptions) (w : W)
    : option (W * (VerifyReport * option error)) :=
  let report := set_checked (Z.of_nat (size log)) (report_zero VerifyReconciliation) in
  match drv_Connect cfg w with
  | (w, Err e) => Some (w, (report, Some ("verify: connect: " +:+ e)))
  | (w, Ok conn) =>
      match conn_Prepare conn (ro_Workload o) w with
      | (w, Some e) =>
          Some ((conn_Close conn w).1,
                (report, Some ("verify: prepare read-back connection: " +:+ e)))
      | (w, None) =>
          let '(w, report) := readBack o conn order1 (w, report) in
          '(w, report) ← match cluster with
                         | Some ca => @checkConvergence ca fuel cfg order2 o w report
                         | None => Some (w, report)
                         end;
          let verdict := if (0 <? vr_Lost report) || negb (Nat.eqb (length (vr_Anomalies report)) 0)
                         then VerdictFail else VerdictPass in
          Some ((conn_Close conn w).1, (set_verdict verdict report, None))
      end
  end.
End reconcile.

(** ** What one key's read-back contributes *)

Definition extend (l : list Anomaly) (lost : Z) (r : VerifyReport) : VerifyReport :=
  {| vr_Model := vr_Model r; vr_Verdict := vr_Verdict r;
     vr_Anomalies := vr_Anomalies r ++ l; vr_Checked := vr_Checked r;
     vr_Lost := vr_Lost r + lost; vr_Duplicated := vr_Duplicated r;
     vr_OrderingViol := vr_OrderingViol r; vr_ConvergedIn := vr_ConvergedIn r;
     vr_MaxStaleness := vr_MaxStaleness r; vr_Extra := vr_Extra r |}.

Lemma extend_nil r : extend [] 0 r = r.
Proof. destruct r. unfold extend. cbn. f_equal; [by rewrite app_nil_r|lia]. Qed.

Lemma extend_extend l n l' n' r : extend l' n' (extend l n r) = extend (l ++ l') (n + n') r.
Proof. unfold extend. cbn. f_equal; [by rewrite <- app_assoc|lia]. Qed.

Lemma add_anomaly_extend a n r : add_anomaly a n r = extend [a] n r.
Proof. done. Qed.

Definition lost (res : OpResult) : bool :=
  match or_Err res with Some _ => true | None => negb (coerceBytes (or_Observed res)).2 end.

Definition intact (res : OpResult) (want : WriteRecord) : Prop :=
  or_Err res = None /\ (coerceBytes (or_Observed res)).2 = true /\
  Checksum (coerceBytes (or_Observed res)).1 = wr_Checksum want.

Definition key_anomalies (get : Z -> OpResult) (kv : Z * WriteRecord) : list Anomaly :=
  let sum := Checksum (coerceBytes (or_Observed (get kv.1))).1 in
  if lost (get kv.1) then [data_loss kv.1]
  else if sum =? wr_Checksum kv.2 then [] else [corruption kv.1 sum (wr_Checksum kv.2)].

Definition key_lost (get : Z -> OpResult) (kv : Z * WriteRecord) : Z :=
  if lost (get kv.1) then 1 else 0.

Lemma key_anomalies_nil get kv : key_anomalies get kv = [] <-> intact (get kv.1) kv.2.
Proof.
  unfold key_anomalies, intact, lost.
  destruct (or_Err _); [naive_solver|].
  destruct (coerceBytes _) as [b [|]]; cbn; [|naive_solver].
  destruct (_ =? _) eqn:E; zbool; naive_solver.
Qed.

Lemma key_lost_intact get kv : intact (get kv.1) kv.2 -> key_lost get kv = 0.
Proof. intros (E & P & _). unfold key_lost, lost. by rewrite E, P. Qed.

Lemma mjoin_nil_iff {A B} (f : A -> list B) l : mjoin (f <$> l) = [] <-> forall x, x ∈ l -> f x = [].
Proof.
  induction l as [|x l IH]; cbn.
  - split; [|done]. intros _ x Hx. by apply elem_of_nil in Hx.
  - rewrite app_nil. fold (mjoin (f <$> l)). rewrite IH. split.
    + intros [H1 H2] y [->|Hy]%elem_of_cons; auto.
    + intros HH. split; [apply HH; left|]. intros y Hy. apply HH. by right.
Qed.

Section readback.
Context {W C : Type} {Drv : Driver W C}.
Context (o : ReconcileOptions) (rest : W -> Prop) (get : Z -> OpResult).

(** What reconciliation looks at in an answer. *)
Definition reading (res : OpResult) : option (bytes * bool) :=
  match or_Err res with Some _ => None | None => Some (coerceBytes (or_Observed res)) end.

(** A target at rest: as long as it is only read through [c], a key reads as
    [get] says. *)
Definition quiescent (c : C) : Prop :=
  forall k w, rest w ->
    reading (conn_Execute c (read_op o k) w).2 = reading (get k) /\ rest (conn_Execute c (read_op o k) w).1.

Lemma readBack_one_report (conn : C) kv w rep :
  quiescent conn -> rest w ->
  (readBack_one o conn kv (w, rep)).2 = extend (key_anomalies get kv) (key_lost get kv) rep /\
  rest (readBack_one o conn kv (w, rep)).1.
Proof.
  intros Hq Hw. destruct kv as [k want]. unfold readBack_one. specialize (Hq k w Hw).
  destruct (conn_Execute conn (read_op o k) w) as [w' res]. cbn [fst snd] in Hq. destruct Hq as [Hq Hr].
  unfold key_anomalies, key_lost, lost. cbn [fst snd]. unfold reading in Hq.
  destruct (coerceBytes (or_Observed res)) as [b p], (coerceBytes (or_Observed (get k))) as [b' p'].
  destruct (or_Err res), (or_Err (get k)); simplify_eq; [|destruct p'];
    cbn [fst snd negb]; rewrite ?add_anomaly_extend; try done.
  destruct (_ =? _); [by rewrite extend_nil|done].
Qed.

Lemma readBack_report (conn : C) l w rep :
  quiescent conn -> rest w ->
  (readBack o conn l (w, rep)).2
    = extend (mjoin (key_anomalies get <$> l)) (zsum (key_lost get <$> l)) rep /\
  rest (readBack o conn l (w, rep)).1.
Proof.
  intros Hq. unfold readBack. revert w rep.
  induction l as [|kv l IH]; intros w rep Hw; cbn [foldl]; [by rewrite extend_nil|].
  destruct (readBack_one_report conn kv w rep Hq Hw) as [H1 Hw1].
  destruct (readBack_one o conn kv (w, rep)) as [w1 rep1]. cbn in H1, Hw1. subst rep1.
  destruct (IH w1 (extend (key_anomalies get kv) (key_lost get kv) rep) Hw1) as [-> ?].
  by rewrite extend_extend.
Qed.
End readback.

(** ** Replica agreement *)

Section convergence.
Context {W : Type} {Clk : Clock W} {Cluster : ClusterAware W} {WC : WorldClock W}.

(** Replicas at rest: reading a node or the clock changes no answer, and takes
    no negative time. *)
Context (rest : W -> Prop) (reads : Node -> Z -> result error OpResult).
Context (clock_rests : (forall w, rest w -> rest (now w).1) /\ (forall d w, rest w -> rest (wait d w).1)).
Context (replicas_rest : forall n k w, rest w ->
  time_of w <= time_of (ca_ReadKeyFrom n k w).1 /\ (ca_ReadKeyFrom n k w).2 = reads n k /\
  rest (ca_ReadKeyFrom n k w).1).

Lemma nodesAgree_rests nodes key w :
  rest w -> time_of w <= time_of (nodesAgree nodes key w).1 /\ rest (nodesAgree nodes key w).1.
Proof.
  unfold nodesAgree. generalize (@None Z). revert w.
  induction nodes as [|n nodes IH]; intros w f Hw; cbn [nodesAgree_loop]; [done|].
  destruct (replicas_rest n key w Hw) as (Ht & _ & Hr).
  destruct (ca_ReadKeyFrom n key w) as [w' [res|e]]; cbn in *; [|done].
  destruct f as [f|]; [destruct (_ =? f)|]; cbn; try done;
    match goal with |- context [nodesAgree_loop nodes key ?g w'] => destruct (IH w' g Hr) end; (split; [lia|done]).
Qed.

Lemma since_rests start w : rest w -> rest (since start w).1.
Proof. intros Hw. unfold since. pose proof (proj1 clock_rests w Hw). by destruct (now w). Qed.

(** After [n] polls the clock has advanced [n] poll delays. *)
Lemma convergeKey_loop_total fuel nodes key timeout start w :
  rest w -> (timeout - (time_of w - start)) / convergePoll + 2 <= Z.of_nat fuel ->
  start <= time_of w -> (0 < fuel)%nat ->
  is_Some (convergeKey_loop fuel nodes key timeout start (start + timeout) w).
Proof.
  revert w. induction fuel as [|fuel IH]; intros w Hw Hfuel Hstart Hpos; [lia|].
  cbn [convergeKey_loop].
  destruct (nodesAgree_rests nodes key w Hw) as [H1 Hw1].
  destruct (nodesAgree nodes key w) as [w1 [[|]|e]]; cbn in H1, Hw1;
    try (destruct (since start w1); by eexists).
  destruct (timeout <=? 0); [destruct (since start w1); by eexists|].
  pose proof (proj1 clock_rests w1 Hw1) as Hw2.
  destruct (now w1) as [w2 t] eqn:E2. cbn in Hw2. apply now_reads in E2.
  destruct (start + timeout <=? t) eqn:Et; zbool; [destruct (since start w2); by eexists|].
  pose proof (proj2 clock_rests convergePoll w2 Hw2) as Hw3.
  destruct (wait convergePoll w2) as [w3 [e|]] eqn:E3; [destruct (since start w3); by eexists|].
  cbn in Hw3. apply wait_lasts in E3. assert (0 < convergePoll) by done. apply IH; [done| |lia|].
  - assert (Hle : timeout - (time_of w3 - start) <= timeout - (time_of w - start) + (-1) * convergePoll) by lia.
    apply (Z.div_le_mono _ _ convergePoll) in Hle; [|done].
    rewrite Z.div_add in Hle by done. lia.
  - assert (0 <= (timeout - (time_of w - start)) / convergePoll); [|lia].
    apply Z.div_pos; [lia|done].
Qed.

Definition converge_fuel (timeout : Z) : nat := Z.to_nat (timeout / convergePoll) + 2.

Lemma convergeKey_total fuel nodes key timeout w :
  rest w -> (converge_fuel timeout <= fuel)%nat -> is_Some (convergeKey fuel nodes key timeout w).
Proof.
  unfold converge_fuel, convergeKey. intros Hw Hf. pose proof (proj1 clock_rests w Hw) as Hw'.
  destruct (now w) as [w' start] eqn:E. apply now_reads in E.
  apply convergeKey_loop_total; [done| |lia|lia].
  assert (Hle : timeout - (time_of w' - start) <= timeout) by lia.
  apply (Z.div_le_mono _ _ convergePoll) in Hle; [|done]. lia.
Qed.

Definition node_sum (n : Node) (key : Z) : result error Z :=
  match reads n key with
  | Ok res => Ok (Checksum (coerceBytes (or_Observed res)).1)
  | Err e => Err e
  end.

(** Every replica answers, all with one checksum. *)
Definition replicas_agree (nodes : list Node) (key : Z) : Prop :=
  exists s, forall n, n ∈ nodes -> node_sum n key = Ok s.

Lemma nodesAgree_loop_spec nodes key f w :
  rest w ->
  (nodesAgree_loop nodes key (Some f) w).2 = Ok true <-> (forall n, n ∈ nodes -> node_sum n key = Ok f).
Proof.
  revert w. induction nodes as [|n nodes IH]; intros w Hw; cbn [nodesAgree_loop].
  { split; [|done]. intros _ n Hn. by apply elem_of_nil in Hn. }
  destruct (replicas_rest n key w Hw) as (_ & Hr & Hw').
  assert (Hsplit : (forall m, m ∈ n :: nodes -> node_sum m key = Ok f) <->
                   node_sum n key = Ok f /\ forall m, m ∈ nodes -> node_sum m key = Ok f).
  { setoid_rewrite elem_of_cons. naive_solver. }
  rewrite Hsplit. unfold node_sum at 1.
  destruct (ca_ReadKeyFrom n key w) as [w' [res|e]]; cbn in Hr, Hw'; rewrite <- Hr;
    [|split; [done|by intros [??]]].
  destruct (_ =? f) eqn:E; zbool.
  - rewrite IH by done. split; [intros ?; split; [congruence|done]|by intros [_ ?]].
  - split; [done|]. intros [E' _]. congruence.
Qed.

Lemma nodesAgree_spec nodes key w :
  rest w -> (nodesAgree nodes key w).2 = Ok true <-> replicas_agree nodes key.
Proof.
  intros Hw. unfold nodesAgree, replicas_agree. destruct nodes as [|n nodes]; cbn [nodesAgree_loop].
  { split; [|done]. intros _. exists 0. intros n Hn. by apply elem_of_nil in Hn. }
  destruct (replicas_rest n key w Hw) as (_ & Hr & Hw').
  assert (Hn : node_sum n key = match (ca_ReadKeyFrom n key w).2 with
            | Ok res => Ok (Checksum (coerceBytes (or_Observed res)).1) | Err e => Err e end).
  { unfold node_sum. by rewrite Hr. }
  destruct (ca_ReadKeyFrom n key w) as [w' [res|e]]; cbn in Hn, Hw'.
  - rewrite nodesAgree_loop_spec by done. split.
    + intros Hall. eexists. intros m [->|Hm]%elem_of_cons; [exact Hn|by apply Hall].
    + intros [s Hs] m Hm. rewrite (Hs m) by by right.
      rewrite <- Hn. symmetry. apply Hs. left.
  - split; [done|]. intros [s Hs]. specialize (Hs n ltac:(left)). congruence.
Qed.

Lemma convergeKey_loop_spec fuel nodes key timeout start deadline w w' c d e :
  rest w -> convergeKey_loop fuel nodes key timeout start deadline w = Some (w', (c, d, e)) ->
  (c = true /\ e = None <-> replicas_agree nodes key) /\ rest w'.
Proof.
  revert w. induction fuel as [|fuel IH]; intros w Hw; cbn [convergeKey_loop]; [done|].
  pose proof (nodesAgree_spec nodes key w Hw) as Hs. destruct (nodesAgree_rests nodes key w Hw) as [_ Hw1].
  destruct (nodesAgree nodes key w) as [w1 r]. cbn in Hs, Hw1.
  assert (Hend : forall b (oe : option error) u, rest u -> (b = true /\ oe = None <-> replicas_agree nodes key) ->
    (let '(u, d) := since start u in Some (u, (b, d, oe))) = Some (w', (c, d, e)) ->
    (c = true /\ e = None <-> replicas_agree nodes key) /\ rest w').
  { intros b oe u Hu Hb. pose proof (since_rests start u Hu) as Hsu. destruct (since start u). by intros [= <- <- <- <-]. }
  destruct r as [[|]|e1].
  - apply Hend; naive_solver.
  - assert (Hw2 : rest (if timeout <=? 0 then (w1, true) else let '(w, t) := now w1 in (w, deadline <=? t)).1).
    { destruct (timeout <=? 0); [done|]. pose proof (proj1 clock_rests w1 Hw1). by destruct (now w1). }
    destruct (if timeout <=? 0 then _ else _) as [w2 [|]]; cbn in Hw2; [apply Hend; naive_solver|].
    pose proof (proj2 clock_rests convergePoll w2 Hw2) as Hw3.
    destruct (wait convergePoll w2) as [w3 [e3|]]; cbn in Hw3; [apply Hend; naive_solver|by apply IH].
  - apply Hend; naive_solver.
Qed.

Lemma convergeKey_spec fuel nodes key timeout w w' c d e :
  rest w -> convergeKey fuel nodes key timeout w = Some (w', (c, d, e)) ->
  (c = true /\ e = None <-> replicas_agree nodes key) /\ rest w'.
Proof.
  intros Hw. unfold convergeKey. pose proof (proj1 clock_rests w Hw) as Hw'. destruct (now w).
  by apply convergeKey_loop_spec.
Qed.

Lemma checkConvergence_loop_spec fuel nodes timeout keys ms w rep :
  rest w -> (converge_fuel timeout <= fuel)%nat ->
  exists w' ms' l,
    checkConvergence_loop fuel nodes timeout keys ms w rep = Some (w', (ms', extend l 0 rep)) /\
    (l = [] <-> forall k, k ∈ keys -> replicas_agree nodes k).
Proof.
  intros Hw Hf. revert ms w rep Hw. induction keys as [|k keys IH]; intros ms w rep Hw; cbn [checkConvergence_loop].
  { eexists _, _, []. rewrite extend_nil. split; [done|]. split; [|done].
    intros _ k Hk. by apply elem_of_nil in Hk. }
  destruct (convergeKey_total fuel nodes k timeout w Hw Hf) as [[w1 [[c d] e]] E]. rewrite E.
  apply convergeKey_spec in E as [E Hw1]; [|done]. cbn [mbind option_bind].
  set (rep1 := match e with None => _ | Some _ => _ end).
  destruct (IH (if ms <? d then d else ms) w1 rep1 Hw1) as (w' & ms' & l & El & Hl).
  assert (Hrep : exists l1, rep1 = extend l1 0 rep /\ (l1 = [] <-> replicas_agree nodes k)).
  { subst rep1. destruct e as [e|], c; eexists;
      (split; [first [apply add_anomaly_extend|symmetry; apply extend_nil]|]);
      rewrite <- E; naive_solver. }
  destruct Hrep as (l1 & -> & Hl1). rewrite extend_extend in El.
  exists w', ms', (l1 ++ l). split; [exact El|]. rewrite app_nil, Hl1, Hl.
  setoid_rewrite elem_of_cons. naive_solver.
Qed.

Definition sampled (nodes : list Node) (o : ReconcileOptions) : bool :=
  (1 <? Z.of_nat (length nodes)) && (0 <? ro_ConvergenceSample o).

Lemma checkConvergence_spec fuel cfg order o w rep :
  rest w -> (converge_fuel (ro_ConvergenceTimeout o) <= fuel)%nat ->
  exists w' rep' l stale conv,
    checkConvergence fuel cfg order o w rep = Some (w', rep') /\
    rep' = set_staleness stale conv (extend l 0 rep) /\
    (l = [] <-> (sampled (ca_Nodes cfg) o = true ->
                 forall k, k ∈ sampleKeys order (ro_ConvergenceSample o) ->
                           replicas_agree (ca_Nodes cfg) k)).
Proof.
  intros Hw Hf. unfold checkConvergence.
  destruct (_ || _) eqn:Eg.
  - exists w, rep, [], (vr_MaxStaleness rep), (vr_ConvergedIn rep). split; [done|]. split.
    { rewrite extend_nil. by destruct rep. }
    split; [|done]. intros _ Hs. unfold sampled in Hs. zbool.
    apply orb_true_iff in Eg as [?|?]; zbool; lia.
  - pose proof (proj1 clock_rests w Hw) as Hw1. destruct (now w) as [w1 start].
    destruct (checkConvergence_loop_spec fuel (ca_Nodes cfg) (ro_ConvergenceTimeout o)
      (sampleKeys order (ro_ConvergenceSample o)) 0 w1 rep Hw1 Hf) as (w2 & ms & l & -> & Hl).
    cbn [mbind option_bind]. destruct (since start w2) as [w3 conv].
    eexists _, _, l, ms, conv. split; [done|]. split; [done|]. rewrite Hl.
    split; [done|]. intros Hs. apply Hs. unfold sampled. zbool.
    apply andb_true_iff. split; apply Z.ltb_lt; lia.
Qed.
End convergence.

(** ** The verdict *)

Section verdict.
Context {W C : Type} {Drv : Driver W C} {Clk : Clock W} {WC : WorldClock W}.
Context (o : ReconcileOptions) (cluster : option (ClusterAware W)).
Context (rest : W -> Prop) (get : Z -> OpResult) (reads : Node -> Z -> result error OpResult).

(** The replicas stay at rest while nodes and the clock are read; a per-node
    read takes no negative time and returns the node's state. *)
Definition replicas_quiescent : Prop :=
  match cluster with
  | None => True
  | Some ca =>
      ((forall w, rest w -> rest (now w).1) /\ (forall d w, rest w -> rest (wait d w).1)) /\
      (forall n k w, rest w ->
         time_of w <= time_of (ca_ReadKeyFrom (ClusterAware := ca) n k w).1 /\
         (ca_ReadKeyFrom (ClusterAware := ca) n k w).2 = reads n k /\
         rest (ca_ReadKeyFrom (ClusterAware := ca) n k w).1)
  end.

Definition sample_agrees (cfg : Config) (order : list (Z * WriteRecord)) : Prop :=
  match cluster with
  | None => True
  | Some ca =>
      let nodes := ca_Nodes (ClusterAware := ca) cfg in
      sampled nodes o = true ->
      forall k, k ∈ sampleKeys order (ro_ConvergenceSample o) -> replicas_agree reads nodes k
  end.

Lemma cluster_phase_spec fuel cfg order w rep :
  replicas_quiescent -> rest w -> (converge_fuel (ro_ConvergenceTimeout o) <= fuel)%nat ->
  exists w' l stale conv,
    match cluster with
    | Some ca => @checkConvergence W Clk ca fuel cfg order o w rep
    | None => Some (w, rep)
    end = Some (w', set_staleness stale conv (extend l 0 rep)) /\
    (l = [] <-> sample_agrees cfg order).
Proof.
  unfold replicas_quiescent, sample_agrees. intros Hc Hw Hf. destruct cluster as [ca|].
  - destruct Hc as [Ht Hr].
    destruct (checkConvergence_spec rest reads Ht Hr fuel cfg order o w rep Hw Hf)
      as (w' & rep' & l & stale & conv & E & -> & Hl). eauto 6.
  - exists w, [], (vr_MaxStaleness rep), (vr_ConvergedIn rep). split; [|done].
    f_equal. f_equal. rewrite extend_nil. by destruct rep.
Qed.

Lemma Reconcile_report fuel cfg log order1 order2 w w1 conn w2 :
  quiescent o rest get conn -> replicas_quiescent ->
  drv_Connect cfg w = (w1, Ok conn) -> conn_Prepare conn (ro_Workload o) w1 = (w2, None) -> rest w2 ->
  (converge_fuel (ro_ConvergenceTimeout o) <= fuel)%nat ->
  exists w' rep l,
    Reconcile fuel cluster cfg log order1 order2 o w = Some (w', (rep, None)) /\
    vr_Anomalies rep = mjoin (key_anomalies get <$> order1) ++ l /\
    vr_Lost rep = zsum (key_lost get <$> order1) /\ vr_Checked rep = Z.of_nat (size log) /\
    vr_Verdict rep = (if (0 <? vr_Lost rep) || negb (Nat.eqb (length (vr_Anomalies rep)) 0)
                      then VerdictFail else VerdictPass) /\
    (l = [] <-> sample_agrees cfg order2).
Proof.
  intros Hq Hc Hconn Hprep Hw Hf. unfold Reconcile. rewrite Hconn, Hprep.
  set (rep0 := set_checked _ _).
  pose proof (readBack_report o rest get conn order1 w2 rep0 Hq Hw) as Hrb.
  destruct (readBack o conn order1 (w2, rep0)) as [w3 rep3]. cbn [fst snd] in Hrb. destruct Hrb as [-> Hw3].
  destruct (cluster_phase_spec fuel cfg order2 w3 (extend (mjoin (key_anomalies get <$> order1))
    (zsum (key_lost get <$> order1)) rep0) Hc Hw3 Hf) as (w' & l & stale & conv & -> & Hl).
  cbn [mbind option_bind]. eexists _, _, l. split; [done|].
  cbn [set_verdict set_staleness extend rep0 set_checked report_zero vr_Anomalies vr_Lost vr_Checked vr_Verdict].
  split_and!; [done|lia|done|done|done].
Qed.

Lemma lost_zero_of_intact l :
  (forall kv, kv ∈ l -> intact (get kv.1) kv.2) -> zsum (key_lost get <$> l) = 0.
Proof.
  induction l as [|kv l IH]; intros Hi; [done|]. rewrite fmap_cons. cbn [zsum].
  rewrite key_lost_intact by (apply Hi; left). rewrite IH; [done|]. intros. apply Hi. by right.
Qed.

(** The outcome of reconciliation on a target at rest. *)
Lemma Reconcile_outcome fuel cfg log order1 order2 w w1 conn w2 :
  quiescent o rest get conn -> replicas_quiescent ->
  drv_Connect cfg w = (w1, Ok conn) -> conn_Prepare conn (ro_Workload o) w1 = (w2, None) -> rest w2 ->
  (converge_fuel (ro_ConvergenceTimeout o) <= fuel)%nat ->
  order1 ≡ₚ map_to_list log ->
  exists w' rep,
    Reconcile fuel cluster cfg log order1 order2 o w = Some (w', (rep, None)) /\
    (vr_Verdict rep = VerdictPass <->
       (forall k r, log !! k = Some r -> intact (get k) r) /\ sample_agrees cfg order2) /\
    (vr_Verdict rep = VerdictPass \/ vr_Verdict rep = VerdictFail) /\
    vr_Checked rep = Z.of_nat (size log) /\
    vr_Lost rep = zsum (key_lost get <$> map_to_list log).
Proof.
  intros Hq Hc Hconn Hprep Hw Hf Horder.
  destruct (Reconcile_report fuel cfg log order1 order2 w w1 conn w2 Hq Hc Hconn Hprep Hw Hf)
    as (w' & rep & l & E & Han & Hlost & Hch & Hv & Hl).
  exists w', rep. split; [exact E|].
  assert (Hall : (forall kv, kv ∈ order1 -> intact (get kv.1) kv.2) <->
                 (forall k r, log !! k = Some r -> intact (get k) r)).
  { setoid_rewrite Horder. split.
    - intros Hi k r Hk. apply (Hi (k, r)). by apply elem_of_map_to_list.
    - intros Hi [k r] Hk%elem_of_map_to_list. by apply Hi. }
  split_and!; [| |done|by rewrite Hlost, Horder].
  - rewrite <- Hall, <- Hl, Hv.
    assert (Hnil : vr_Anomalies rep = [] <-> (forall kv, kv ∈ order1 -> intact (get kv.1) kv.2) /\ l = []).
    { rewrite Han, app_nil, mjoin_nil_iff. setoid_rewrite key_anomalies_nil. done. }
    rewrite <- Hnil. destruct (vr_Anomalies rep) as [|a an] eqn:Ea.
    + destruct (proj1 Hnil eq_refl) as [Hi _]. rewrite Hlost, lost_zero_of_intact by done. done.
    + rewrite orb_true_r. split; done.
  - rewrite Hv. destruct (_ || _); auto.
Qed.

(** On a target at rest (one whose answers do not change while it is only
    read), reconciliation returns (the polling loop ends
    within the fuel), checks every expected key, counts as lost exactly the
    keys that fail to read or are absent, and passes if and only if every
    expected key reads back with the expected checksum and every sampled key
    has one checksum on all replicas; otherwise the verdict is fail.  The
    orders in which the two loops visit the map do not matter beyond the
    sample they pick. *)
Theorem Reconcile_verdict fuel cfg log order1 order2 w w1 conn w2 :
  quiescent o rest get conn -> replicas_quiescent ->
  drv_Connect cfg w = (w1, Ok conn) -> conn_Prepare conn (ro_Workload o) w1 = (w2, None) -> rest w2 ->
  (converge_fuel (ro_ConvergenceTimeout o) <= fuel)%nat ->
  order1 ≡ₚ map_to_list log ->
  exists w' rep,
    Reconcile fuel cluster cfg log order1 order2 o w = Some (w', (rep, None)) /\
    (vr_Verdict rep = VerdictPass <->
       (forall k r, log !! k = Some r -> intact (get k) r) /\ sample_agrees cfg order2) /\
    (vr_Verdict rep = VerdictPass \/ vr_Verdict rep = VerdictFail) /\
    vr_Checked rep = Z.of_nat (size log) /\
    vr_Lost rep = zsum (key_lost get <$> map_to_list log).
Proof. apply Reconcile_outcome. Qed.

(** A committed value of which the target returns a copy with one byte
    changed, at any position, makes the run fail, with a corruption anomaly
    naming the key. *)
Theorem Reconcile_detects_corruption fuel cfg log order1 order2 w w1 conn w2 k r pre b c post rows :
  quiescent o rest get conn -> replicas_quiescent ->
  drv_Connect cfg w = (w1, Ok conn) -> conn_Prepare conn (ro_Workload o) w1 = (w2, None) -> rest w2 ->
  (converge_fuel (ro_ConvergenceTimeout o) <= fuel)%nat -> order1 ≡ₚ map_to_list log ->
  log !! k = Some r -> wr_Checksum r = Checksum (pre ++ b :: post) -> b <> c ->
  get k = {| or_Type := ro_ReadOp o; or_Rows := rows;
             or_Observed := ABytes (Some (pre ++ c :: post)); or_Err := None |} ->
  exists w' rep,
    Reconcile fuel cluster cfg log order1 order2 o w = Some (w', (rep, None)) /\
    vr_Verdict rep = VerdictFail /\
    corruption k (Checksum (pre ++ c :: post)) (wr_Checksum r) ∈ vr_Anomalies rep.
Proof.
  intros Hq Hc Hconn Hprep Hw Hf Horder Hk Hr Hbc Hget.
  destruct (Reconcile_report fuel cfg log order1 order2 w w1 conn w2 Hq Hc Hconn Hprep Hw Hf)
    as (w' & rep & l & E & Han & _ & _ & Hv & _).
  exists w', rep. split; [exact E|].
  assert (Hin : corruption k (Checksum (pre ++ c :: post)) (wr_Checksum r) ∈ vr_Anomalies rep).
  { rewrite Han. apply elem_of_app. left. apply list_elem_of_join. eexists. split.
    2: { apply list_elem_of_fmap. exists (k, r). split; [reflexivity|].
         rewrite Horder. by apply elem_of_map_to_list. }
    unfold key_anomalies, lost. cbn [fst snd]. rewrite Hget. cbn [or_Err or_Observed coerceBytes fst snd negb].
    destruct (_ =? wr_Checksum r) eqn:Es; zbool; [|left].
    exfalso. rewrite Hr in Es. symmetry in Es. by apply Checksum_detects_byte_flip in Es. }
  split; [|done]. rewrite Hv. destruct (vr_Anomalies rep); [by apply elem_of_nil in Hin|].
  cbn [length Nat.eqb negb]. by rewrite orb_true_r.
Qed.
End verdict.

(** ** Connections *)

Section accounting.
Context {W C : Type} {Drv : Driver W C} {Clk : Clock W} {Acc : ConnAccounting W C}.
Context (o : ReconcileOptions) (cluster : option (ClusterAware W)).

(** The clock, the context and per-node reads open and close nothing that
    outlives the call. *)
Definition side_calls_keep : Prop :=
  (forall w, open_conns (now w).1 ≡ₚ open_conns w) /\
  (forall d w, open_conns (wait d w).1 ≡ₚ open_conns w) /\
  match cluster with
  | None => True
  | Some ca => forall n k w, open_conns (ca_ReadKeyFrom (ClusterAware := ca) n k w).1 ≡ₚ open_conns w
  end.

Lemma readBack_keeps conn l w rep :
  open_conns (readBack o conn l (w, rep)).1 ≡ₚ open_conns w.
Proof.
  unfold readBack. revert w rep. induction l as [|[k r] l IH]; intros w rep; cbn [foldl]; [done|].
  assert (E : open_conns (readBack_one o conn (k, r) (w, rep)).1 ≡ₚ open_conns w).
  { unfold readBack_one. pose proof (execute_keeps conn (read_op o k) w) as He.
    destruct (conn_Execute conn (read_op o k) w) as [w' res]. cbn in He.
    destruct (coerceBytes _) as [b [|]], (or_Err res); try done. by destruct (_ =? _). }
  destruct (readBack_one o conn (k, r) (w, rep)) as [w1 rep1]. cbn in E. by rewrite IH.
Qed.

Lemma nodesAgree_keeps ca nodes key f w :
  (forall n k w, open_conns (ca_ReadKeyFrom (ClusterAware := ca) n k w).1 ≡ₚ open_conns w) ->
  open_conns (nodesAgree_loop (Cluster := ca) nodes key f w).1 ≡ₚ open_conns w.
Proof.
  intros Hr. revert f w. induction nodes as [|n nodes IH]; intros f w; cbn [nodesAgree_loop]; [done|].
  specialize (Hr n key w). destruct (ca_ReadKeyFrom n key w) as [w' [res|e]]; cbn in Hr; [|done].
  destruct f as [f|]; [destruct (_ =? f)|]; cbn; rewrite ?IH; done.
Qed.

Lemma since_keeps start w : side_calls_keep -> open_conns (since start w).1 ≡ₚ open_conns w.
Proof. intros (Hn & _ & _). unfold since. specialize (Hn w). by destruct (now w). Qed.

Lemma convergeKey_loop_keeps ca fuel nodes key timeout start deadline w w' r :
  cluster = Some ca -> side_calls_keep ->
  convergeKey_loop (Cluster := ca) fuel nodes key timeout start deadline w = Some (w', r) ->
  open_conns w' ≡ₚ open_conns w.
Proof.
  intros Hca Hk. pose proof Hk as (Hn & Hw & Hr). rewrite Hca in Hr.
  revert w. induction fuel as [|fuel IH]; intros w; cbn [convergeKey_loop]; [done|].
  assert (Hs : forall w w1 d e, since start w = (w1, d) -> open_conns w ≡ₚ e -> open_conns w1 ≡ₚ e).
  { intros w0 w1 d e E <-. pose proof (since_keeps start w0 Hk) as H'. by rewrite E in H'. }
  pose proof (nodesAgree_keeps ca nodes key None w Hr) as H1. unfold nodesAgree.
  destruct (nodesAgree_loop nodes key None w) as [w1 [[|]|e]]; cbn in H1;
    try (destruct (since start w1) eqn:Es; intros [= <- _]; by eapply Hs).
  assert (H2 : open_conns (if timeout <=? 0 then (w1, true)
                           else let '(w, t) := now w1 in (w, deadline <=? t)).1 ≡ₚ open_conns w).
  { destruct (timeout <=? 0); [done|]. specialize (Hn w1). destruct (now w1). cbn in *. by rewrite Hn. }
  destruct (if timeout <=? 0 then _ else _) as [w2 [|]]; cbn in H2.
  { destruct (since start w2) eqn:Es. intros [= <- _]. by eapply Hs. }
  specialize (Hw convergePoll w2). destruct (wait convergePoll w2) as [w3 [e|]]; cbn in Hw.
  - destruct (since start w3) eqn:Es. intros [= <- _]. eapply Hs; [exact Es|]. by rewrite Hw.
  - intros E. apply IH in E. by rewrite E, Hw.
Qed.

Lemma checkConvergence_loop_keeps ca fuel nodes timeout keys ms w rep w' r :
  cluster = Some ca -> side_calls_keep ->
  checkConvergence_loop (Cluster := ca) fuel nodes timeout keys ms w rep = Some (w', r) ->
  open_conns w' ≡ₚ open_conns w.
Proof.
  intros Hca Hk. revert ms w rep. induction keys as [|k keys IH]; intros ms w rep; cbn [checkConvergence_loop].
  { by intros [= <- _]. }
  unfold convergeKey. pose proof (proj1 Hk w) as Hn. destruct (now w) as [w0 t0]. cbn in Hn.
  destruct (convergeKey_loop _ _ _ _ _ _ _) as [[w1 [[c d] e]]|] eqn:E; cbn [mbind option_bind]; [|done].
  intros E'. apply IH in E'. apply (convergeKey_loop_keeps ca) in E; [|done..].
  by rewrite E', E.
Qed.

Lemma checkConvergence_keeps ca fuel cfg order w rep w' r :
  cluster = Some ca -> side_calls_keep ->
  checkConvergence (Cluster := ca) fuel cfg order o w rep = Some (w', r) ->
  open_conns w' ≡ₚ open_conns w.
Proof.
  intros Hca Hk. unfold checkConvergence. destruct (_ || _); [by intros [= <- _]|].
  pose proof (proj1 Hk w) as Hn. destruct (now w) as [w0 start]. cbn in Hn.
  destruct (checkConvergence_loop _ _ _ _ _ _ _) as [[w1 [ms rep1]]|] eqn:E; cbn [mbind option_bind]; [|done].
  pose proof (since_keeps start w1 Hk) as Hs. destruct (since start w1) as [w2 conv]. cbn in Hs.
  intros [= <- _]. apply (checkConvergence_loop_keeps ca) in E; [|done..]. by rewrite Hs, E.
Qed.

(** Whatever the outcome (connect or prepare failing, a pass or a fail),
    reconciliation closes the connection it opened: the open connections
    after it are those before it. *)
Theorem Reconcile_closes fuel cfg log order1 order2 w w' r :
  side_calls_keep ->
  Reconcile fuel cluster cfg log order1 order2 o w = Some (w', r) ->
  open_conns w' ≡ₚ open_conns w.
Proof.
  intros Hk. unfold Reconcile. pose proof (connect_opens cfg w) as Hc.
  destruct (drv_Connect cfg w) as [w1 [conn|e]]; [|by intros [= <- _]].
  pose proof (prepare_keeps conn (ro_Workload o) w1) as Hp.
  destruct (conn_Prepare conn (ro_Workload o) w1) as [w2 [e|]]; cbn in Hp.
  { intros [= <- _]. apply close_closes. by rewrite Hp. }
  set (rep0 := set_checked _ _).
  pose proof (readBack_keeps conn order1 w2 rep0) as Hrb.
  destruct (readBack o conn order1 (w2, rep0)) as [w3 rep3]. cbn in Hrb.
  destruct (match cluster with Some _ => _ | None => _ end) as [[w4 rep4]|] eqn:E;
    cbn [mbind option_bind]; [|done].
  intros [= <- _]. apply close_closes.
  enough (open_conns w4 ≡ₚ open_conns w3) as -> by by rewrite Hrb, Hp.
  destruct cluster as [ca|] eqn:Eca; [|by simplify_eq].
  by eapply (checkConvergence_keeps ca).
Qed.
End accounting.


(** ** A concrete target *)

Definition store_get (o : ReconcileOptions) (store : gmap Z bytes) (k : Z) : OpResult :=
  (conn_Execute (Driver := store_driver store) tt (read_op o k) (0, [])).2.

#[local] Instance plain_clock : Clock store_world := {|
  now w := (w, w.1);
  wait d w := (tick (Z.max d 0) w, None);
  ctx_Err _ := None
|}.

#[local] Instance plain_world_clock : WorldClock store_world.
Proof. refine {| time_of w := w.1 |}; cbn; intros; simplify_eq/=; lia. Defined.

Definition store_nodes : list Node :=
  let ctl := {| ce_Method := ControlNone; ce_Ref := ""; ce_Namespace := ""; ce_Extra := ∅ |} in
  [{| node_ID := "a"; node_Role := RoleGeneric; node_Client := "a:1"; node_Control := ctl |};
   {| node_ID := "b"; node_Role := RoleGeneric; node_Client := "b:1"; node_Control := ctl |}].

(** Node [b] serves [stale] in place of the store. *)
Definition store_reads (store stale : gmap Z bytes) (n : Node) (k : Z) : result error OpResult :=
  let s := if String.eqb (node_ID n) "b" then stale else store in
  Ok {| or_Type := "read"; or_Rows := 1;
        or_Observed := match s !! k with Some b => ABytes (Some b) | None => ANil end;
        or_Err := None |}.

Definition store_cluster (store stale : gmap Z bytes) : ClusterAware store_world := {|
  ca_Nodes _ := store_nodes;
  ca_ReadKeyFrom n k w := (tick 1 w, store_reads store stale n k)
|}.

Definition sample_options : ReconcileOptions :=
  {| ro_ReadOp := "read";
     ro_Workload := {| w_Name := "kv"; w_Mode := ModeCorrectness; w_Operations := []; w_KeySpace := 10;
                       w_KeyDist := DistUniform; w_ValueSize := 2; w_VerifyModel := VerifyReconciliation;
                       w_Params := ∅ |};
     ro_ConvergenceSample := 10; ro_ConvergenceTimeout := 20 * millisecond |}.

Definition sample_config : Config :=
  {| cfg_Endpoints := ["a:1"]; cfg_Consistency := ""; cfg_Cluster :=
       {| cs_Nodes := store_nodes; cs_ReplicationFactor := 2; cs_Consistency := [] |};
     cfg_Params := ∅ |}.

Definition sample_store : gmap Z bytes := {[ 1 := [Byte.x41; Byte.x42]; 2 := [Byte.x43] ]}.

Definition sample_log : gmap Z WriteRecord :=
  map_imap (fun k b => Some {| wr_Key := k; wr_Checksum := Checksum b; wr_Seq := 1 |}) sample_store.

(** The three outcomes on a concrete cluster: intact, lost, diverged. *)
Example reconcile_runs :
  let run store stale :=
    fmap (fun r => let rep := r.2.1 in (vr_Verdict rep, map an_Kind (vr_Anomalies rep), vr_Lost rep))
      (Reconcile (Drv := store_driver store) 6 (Some (store_cluster store stale)) sample_config
         sample_log (map_to_list sample_log) (map_to_list sample_log) sample_options (0, [])) in
  run sample_store sample_store = Some (VerdictPass, [], 0) /\
  run (delete 2 sample_store) (delete 2 sample_store) = Some (VerdictFail, ["data-loss"], 1)%string /\
  run sample_store (delete 2 sample_store) = Some (VerdictFail, ["divergence"], 0)%string.
Proof. vm_compute. auto. Qed.

Lemma Reconcile_verdict_witness :
  exists w' rep,
    Reconcile (Drv := store_driver sample_store) 6 (Some (store_cluster sample_store sample_store))
      sample_config sample_log (map_to_list sample_log) (map_to_list sample_log) sample_options (0, [])
      = Some (w', (rep, None)) /\
    (vr_Verdict rep = VerdictPass <->
       (forall k r, sample_log !! k = Some r -> intact (store_get sample_options sample_store k) r) /\
       sample_agrees sample_options (Some (store_cluster sample_store sample_store))
         (store_reads sample_store sample_store) sample_config (map_to_list sample_log)) /\
    (vr_Verdict rep = VerdictPass \/ vr_Verdict rep = VerdictFail) /\
    vr_Checked rep = Z.of_nat (size sample_log) /\
    vr_Lost rep = zsum (key_lost (store_get sample_options sample_store) <$> map_to_list sample_log).
Proof.
  apply (Reconcile_verdict (Drv := store_driver sample_store) sample_options
           (Some (store_cluster sample_store sample_store)) (fun _ => True)
           (store_get sample_options sample_store) (store_reads sample_store sample_store)
           6 sample_config sample_log _ _ (0, []) (0, [tt]) tt (0, [tt])); try done.
  split; [done|]. intros n k w _. cbn. split; [lia|done].
Defined.

Definition flipped_store : gmap Z bytes := {[ 1 := [Byte.x41; Byte.x40]; 2 := [Byte.x43] ]}.

Lemma Reconcile_detects_corruption_witness :
  exists w' rep,
    Reconcile (Drv := store_driver flipped_store) 6 None sample_config sample_log
      (map_to_list sample_log) (map_to_list sample_log) sample_options (0, []) = Some (w', (rep, None)) /\
    vr_Verdict rep = VerdictFail /\
    corruption 1 (Checksum [Byte.x41; Byte.x40]) (Checksum [Byte.x41; Byte.x42]) ∈ vr_Anomalies rep.
Proof.
  apply (Reconcile_detects_corruption (Drv := store_driver flipped_store) sample_options None (fun _ => True)
           (store_get sample_options flipped_store) (store_reads flipped_store flipped_store)
           6 sample_config sample_log _ _ (0, []) (0, [tt]) tt (0, [tt]) 1
           {| wr_Key := 1; wr_Checksum := Checksum [Byte.x41; Byte.x42]; wr_Seq := 1 |}
           [Byte.x41] Byte.x42 Byte.x40 [] 1); done.
Defined.

Lemma Reconcile_closes_witness :
  match Reconcile (Drv := store_driver sample_store) 6 (Some (store_cluster sample_store sample_store))
          sample_config sample_log (map_to_list sample_log) (map_to_list sample_log) sample_options
          (0, [tt]) with
  | Some (w', _) => w'.2 ≡ₚ [tt]
  | None => False
  end.
Proof.
  destruct (Reconcile _ _ _ _ _ _ _ _) as [[w' r]|] eqn:E; [|by vm_compute in E].
  exact (Reconcile_closes (Acc := store_accounting sample_store) sample_options
    (Some (store_cluster sample_store sample_store)) 6 sample_config sample_log _ _ (0, [tt]) w' r
    ltac:(by repeat split) E).
Defined.
