(* ===== verification/Runner.v ===== *)
(** * Runner: the load loop (core/runner)

    Connection set-up, the worker loop with its warmup and measure phases, the
    shared accumulator and the report.  A worker is a small machine whose
    transitions are the points where another worker can interleave: the
    scheduler claim, the sleep, the call, and each atomic operation on the
    accumulator.  A run is any interleaving of the workers' transitions with
    the clock and the context's expiry. *)

From Stdlib Require Import String.
From S2P Require Import Prelude Domain Strconv Driver.

Local Open Scope Z_scope.
Local Open Scope go_scope.

(** runner.go: OpGen, Scheduler, Sink, OpObserver. *)
Class Collaborators (G Sc S O : Type) := {
  gen_Next : G -> Operation * G;
  sched_Next : Z -> Sc -> Z * Sc;
  sink_Record : OpType -> Z -> bool -> S -> S;
  obs_Observe : Operation -> OpResult -> Z -> Z -> O -> O
}.

(** A nil interface or function value is [None]. *)
Record Deps (W C G Sc S O : Type) := {
  d_Driver : option (Driver W C);
  d_Cfg : Config;
  d_Workload : Workload;
  d_Sched : option Sc;
  d_Gen : option (Z -> G);
  d_Sink : option (Z -> option S);
  d_Observer : option (Z -> option O)
}.
Arguments d_Driver {_ _ _ _ _ _} _.
Arguments d_Cfg {_ _ _ _ _ _} _.
Arguments d_Workload {_ _ _ _ _ _} _.
Arguments d_Sched {_ _ _ _ _ _} _.
Arguments d_Gen {_ _ _ _ _ _} _.
Arguments d_Sink {_ _ _ _ _ _} _.
Arguments d_Observer {_ _ _ _ _ _} _.

Record RunOptions := {
  o_Connections : Z;
  o_Warmup : Z;
  o_Duration : Z;
  o_LatenessThreshold : Z
}.

Record RunReport := {
  rep_Total : Z;
  rep_Errors : Z;
  rep_Records : Z;
  rep_ClientBound : bool;
  rep_MeanLateness : Z;
  rep_MeanService : Z;
  rep_Duration : Z
}.

Definition RunReport_zero : RunReport :=
  {| rep_Total := 0; rep_Errors := 0; rep_Records := 0; rep_ClientBound := false;
     rep_MeanLateness := 0; rep_MeanService := 0; rep_Duration := 0 |}.

Definition validate {W C G Sc S O} (d : Deps W C G Sc S O) (o : RunOptions) : option error :=
  match d_Driver d, d_Sched d, d_Gen d with
  | None, _, _ => Some "runner: nil Driver"%string
  | _, None, _ => Some "runner: nil Scheduler"%string
  | _, _, None => Some "runner: nil Gen"%string
  | _, _, _ =>
      if o_Connections o <? 1 then
        Some (str (txt "runner: Connections must be >= 1, got " ++ FormatInt (o_Connections o)))
      else if o_Duration o <=? 0 then
        Some (str (txt "runner: Duration must be > 0, got " ++ duration_text (o_Duration o)))
      else if o_Warmup o <? 0 then
        Some (str (txt "runner: Warmup must be >= 0, got " ++ duration_text (o_Warmup o)))
      else None
  end.

(** ** Connections *)

Section connections.
Context {W C : Type} {Drv : Driver W C}.

Definition closeAll (conns : list C) (w : W) : W :=
  foldl (fun w c => (conn_Close c w).1) w conns.

Definition wrapped (what : string) (i : Z) (e : error) : error :=
  str (txt "runner: " ++ txt what ++ txt " " ++ FormatInt i ++ txt ": " ++ txt e).

Fixpoint connectAll_loop (n : nat) (cfg : Config) (wl : Workload) (i : Z) (conns : list C) (w : W)
    : W * result error (list C) :=
  match n with
  | O => (w, Ok conns)
  | Datatypes.S n =>
      match drv_Connect cfg w with
      | (w, Err e) => (closeAll conns w, Err (wrapped "connect" i e))
      | (w, Ok c) =>
          match conn_Prepare c wl w with
          | (w, Some e) => (closeAll conns (conn_Close c w).1, Err (wrapped "prepare" i e))
          | (w, None) => connectAll_loop n cfg wl (i + 1) (conns ++ [c]) w
          end
      end
  end.

Definition connectAll (cfg : Config) (wl : Workload) (n : Z) (w : W) : W * result error (list C) :=
  connectAll_loop (Z.to_nat n) cfg wl 0 [] w.
End connections.

(** ** The accumulator *)

Record accumulator := {
  a_total : Z;
  a_errors : Z;
  a_latenessSum : Z;
  a_serviceSum : Z;
  a_records : Z;
  a_minIntended : Z;
  a_maxIntended : Z
}.

Definition MaxInt64 : Z := 2^63 - 1.
Definition MinInt64 : Z := - 2^63.

Definition accumulator_zero : accumulator :=
  {| a_total := 0; a_errors := 0; a_latenessSum := 0; a_serviceSum := 0; a_records := 0;
     a_minIntended := MaxInt64; a_maxIntended := MinInt64 |}.

(** The atomic operations on it. *)
Inductive atom :=
| AddTotal (n : Z)
| AddErrors (n : Z)
| AddRecords (n : Z)
| AddLateness (n : Z)
| AddService (n : Z)
| MinIntended (n : Z)
| MaxIntended (n : Z).

Definition atomicMin (addr v : Z) : Z := if addr <=? v then addr else v.
Definition atomicMax (addr v : Z) : Z := if v <=? addr then addr else v.

Definition apply_atom (a : accumulator) (x : atom) : accumulator :=
  match x with
  | AddTotal n => {| a_total := a_total a +! n; a_errors := a_errors a; a_latenessSum := a_latenessSum a;
      a_serviceSum := a_serviceSum a; a_records := a_records a; a_minIntended := a_minIntended a;
      a_maxIntended := a_maxIntended a |}
  | AddErrors n => {| a_total := a_total a; a_errors := a_errors a +! n; a_latenessSum := a_latenessSum a;
      a_serviceSum := a_serviceSum a; a_records := a_records a; a_minIntended := a_minIntended a;
      a_maxIntended := a_maxIntended a |}
  | AddRecords n => {| a_total := a_total a; a_errors := a_errors a; a_latenessSum := a_latenessSum a;
      a_serviceSum := a_serviceSum a; a_records := a_records a +! n; a_minIntended := a_minIntended a;
      a_maxIntended := a_maxIntended a |}
  | AddLateness n => {| a_total := a_total a; a_errors := a_errors a; a_latenessSum := a_latenessSum a +! n;
      a_serviceSum := a_serviceSum a; a_records := a_records a; a_minIntended := a_minIntended a;
      a_maxIntended := a_maxIntended a |}
  | AddService n => {| a_total := a_total a; a_errors := a_errors a; a_latenessSum := a_latenessSum a;
      a_serviceSum := a_serviceSum a +! n; a_records := a_records a; a_minIntended := a_minIntended a;
      a_maxIntended := a_maxIntended a |}
  | MinIntended n => {| a_total := a_total a; a_errors := a_errors a; a_latenessSum := a_latenessSum a;
      a_serviceSum := a_serviceSum a; a_records := a_records a; a_minIntended := atomicMin (a_minIntended a) n;
      a_maxIntended := a_maxIntended a |}
  | MaxIntended n => {| a_total := a_total a; a_errors := a_errors a; a_latenessSum := a_latenessSum a;
      a_serviceSum := a_serviceSum a; a_records := a_records a; a_minIntended := a_minIntended a;
      a_maxIntended := atomicMax (a_maxIntended a) n |}
  end.

(** ** observe *)

(** A completed call: the arguments of [observe]. *)
Record completion := {
  c_op : Operation;
  c_res : OpResult;
  c_intended : Z;
  c_dispatch : Z;
  c_done : Z
}.

Definition isErr (c : completion) : bool := match or_Err (c_res c) with Some _ => true | None => false end.

Definition latency (c : completion) : Z := time_sub (c_done c) (c_intended c).

Definition lateness (c : completion) : Z :=
  let l := time_sub (c_dispatch c) (c_intended c) in if l <? 0 then 0 else l.

Definition service (c : completion) : Z := time_sub (c_done c) (c_dispatch c).

Definition rows (c : completion) : Z := if or_Rows (c_res c) <? 1 then 1 else or_Rows (c_res c).

(** The accumulator operations of one measured call, in program order. *)
Definition observe_atoms (c : completion) : list atom :=
  let n := wrap64 (c_intended c) in
  [AddTotal 1] ++
  (if isErr c then [AddErrors 1] else [AddRecords (rows c)]) ++
  [AddLateness (lateness c)] ++
  (if 0 <? service c then [AddService (service c)] else []) ++
  [MinIntended n; MaxIntended n].

(** ** The report *)

Definition meanInterArrival (a : accumulator) (total : Z) : Z :=
  if total <? 2 then 0
  else let span := a_maxIntended a -! a_minIntended a in
       if span <=? 0 then 0 else Z.quot span (total - 1).

(** [now] is the time [time.Since] reads. *)
Definition measureElapsed (now warmupEnd limit : Z) : Z :=
  let d := time_sub now warmupEnd in
  if d <? 0 then 0 else if limit <? d then limit else d.

Definition report (a : accumulator) (now warmupEnd : Z) (o : RunOptions) : RunReport :=
  let total := a_total a in
  let elapsed := measureElapsed now warmupEnd (o_Duration o) in
  if total =? 0 then
    {| rep_Total := total; rep_Errors := a_errors a; rep_Records := a_records a;
       rep_ClientBound := false; rep_MeanLateness := 0; rep_MeanService := 0; rep_Duration := elapsed |}
  else
    let meanLateness := Z.quot (a_latenessSum a) total in
    let meanService := Z.quot (a_serviceSum a) total in
    let threshold := if o_LatenessThreshold o <=? 0 then meanInterArrival a total
                     else o_LatenessThreshold o in
    let lowErrors := a_errors a *! 20 <? total in
    {| rep_Total := total; rep_Errors := a_errors a; rep_Records := a_records a;
       rep_ClientBound := (0 <? threshold) && (threshold <? meanLateness) &&
                          (meanService <? meanLateness) && lowErrors;
       rep_MeanLateness := meanLateness; rep_MeanService := meanService; rep_Duration := elapsed |}.

(** ** The worker loop *)

(** [sleepUntil] on entry: a time not in the future answers at once. *)
Definition sleepUntil_enter (now : Z) (ctxDone : bool) (t : Z) : option bool :=
  if time_sub t now <=? 0 then Some (negb ctxDone) else None.

(** Its select, once the timer runs; with both channels ready [pick] chooses. *)
Definition sleepUntil_select (now : Z) (ctxDone pick : bool) (t : Z) : option bool :=
  match t <=? now, ctxDone with
  | true, true => Some pick
  | true, false => Some true
  | false, true => Some false
  | false, false => None
  end.

Inductive wpc :=
| PTop
| PCall (intended : Z)
| PSleep (intended : Z)
| PExec (intended : Z) (op : Operation) (dispatch : Z)
| PDone (c : completion)
| PAtoms (l : list atom)
| PExit.

(** [ws_ops] records the measured calls of the worker. *)
Record wstate (C G S O : Type) := {
  ws_pc : wpc;
  ws_conn : C;
  ws_gen : G;
  ws_sink : option S;
  ws_obs : option O;
  ws_ops : list completion
}.
Arguments ws_pc {_ _ _ _} _.
Arguments ws_conn {_ _ _ _} _.
Arguments ws_gen {_ _ _ _} _.
Arguments ws_sink {_ _ _ _} _.
Arguments ws_obs {_ _ _ _} _.
Arguments ws_ops {_ _ _ _} _.

Section worker.
Context {W C G Sc S O : Type} {Drv : Driver W C} {Col : Collaborators G Sc S O}.

(** A nil sink discards. *)
Definition measureSink (mk : option (Z -> option S)) (shard : Z) : option S :=
  match mk with None => None | Some f => f shard end.

Definition measureObserver (mk : option (Z -> option O)) (shard : Z) : option O :=
  match mk with None => None | Some f => f shard end.

Definition set_pc (pc : wpc) (ws : wstate C G S O) : wstate C G S O :=
  {| ws_pc := pc; ws_conn := ws_conn ws; ws_gen := ws_gen ws; ws_sink := ws_sink ws;
     ws_obs := ws_obs ws; ws_ops := ws_ops ws |}.

(** [op := gen.Next(); dispatch := time.Now()]. *)
Definition start_op (now t : Z) (ws : wstate C G S O) : wstate C G S O :=
  let '(op, g) := gen_Next (ws_gen ws) in
  {| ws_pc := PExec t op now; ws_conn := ws_conn ws; ws_gen := g; ws_sink := ws_sink ws;
     ws_obs := ws_obs ws; ws_ops := ws_ops ws |}.

(** [observe]: warmup calls are dropped; a measured one goes to the sink and
    the observer, then its atomic operations follow one by one. *)
Definition observe (warmupEnd : Z) (c : completion) (ws : wstate C G S O) : wstate C G S O :=
  if c_dispatch c <? warmupEnd then set_pc PTop ws
  else
    {| ws_pc := PAtoms (observe_atoms c); ws_conn := ws_conn ws; ws_gen := ws_gen ws;
       ws_sink := sink_Record (or_Type (c_res c)) (latency c) (isErr c) <$> ws_sink ws;
       ws_obs := obs_Observe (c_op c) (c_res c) (c_dispatch c) (c_done c) <$> ws_obs ws;
       ws_ops := ws_ops ws ++ [c] |}.

(** One transition of a worker; [None] while it is blocked, and once it has
    returned. *)
Definition worker_step (warmupEnd now : Z) (ctxDone pick : bool) (sc : Sc) (w : W) (a : accumulator)
    (ws : wstate C G S O) : option (Sc * W * accumulator * wstate C G S O) :=
  let woken (t : Z) (ok : bool) := if ok then start_op now t ws else set_pc PExit ws in
  match ws_pc ws with
  | PTop =>
      if ctxDone then Some (sc, w, a, set_pc PExit ws)
      else let '(t, sc') := sched_Next now sc in Some (sc', w, a, set_pc (PCall t) ws)
  | PCall t =>
      match sleepUntil_enter now ctxDone t with
      | Some ok => Some (sc, w, a, woken t ok)
      | None => Some (sc, w, a, set_pc (PSleep t) ws)
      end
  | PSleep t =>
      match sleepUntil_select now ctxDone pick t with
      | Some ok => Some (sc, w, a, woken t ok)
      | None => None
      end
  | PExec t op dispatch =>
      let '(w', res) := conn_Execute (ws_conn ws) op w in
      Some (sc, w', a, set_pc (PDone {| c_op := op; c_res := res; c_intended := t;
                                        c_dispatch := dispatch; c_done := now |}) ws)
  | PDone c =>
      if ctxDone then Some (sc, w, a, set_pc PExit ws)
      else Some (sc, w, a, observe warmupEnd c ws)
  | PAtoms [] => Some (sc, w, a, set_pc PTop ws)
  | PAtoms (x :: l) => Some (sc, w, apply_atom a x, set_pc (PAtoms l) ws)
  | PExit => None
  end.

(** ** A run's worker phase *)

Record gstate := {
  g_now : Z;
  g_ctxDone : bool;
  g_sched : Sc;
  g_world : W;
  g_acc : accumulator;
  g_workers : list (wstate C G S O)
}.

Inductive gstep (warmupEnd : Z) : gstate -> gstate -> Prop :=
| g_run g i pick ws sc w a ws' :
    g_workers g !! i = Some ws ->
    worker_step warmupEnd (g_now g) (g_ctxDone g) pick (g_sched g) (g_world g) (g_acc g) ws
      = Some (sc, w, a, ws') ->
    gstep warmupEnd g
      {| g_now := g_now g; g_ctxDone := g_ctxDone g; g_sched := sc; g_world := w; g_acc := a;
         g_workers := <[i := ws']> (g_workers g) |}
| g_tick g d :
    0 <= d ->
    gstep warmupEnd g
      {| g_now := g_now g + d; g_ctxDone := g_ctxDone g; g_sched := g_sched g; g_world := g_world g;
         g_acc := g_acc g; g_workers := g_workers g |}
| g_expire g :
    gstep warmupEnd g
      {| g_now := g_now g; g_ctxDone := true; g_sched := g_sched g; g_world := g_world g;
         g_acc := g_acc g; g_workers := g_workers g |}.

Definition worker_init (gen : Z -> G) (sink : option (Z -> option S)) (obs : option (Z -> option O))
    (i : nat) (c : C) : wstate C G S O :=
  let shard := Z.of_nat i in
  {| ws_pc := PTop; ws_conn := c; ws_gen := gen shard; ws_sink := measureSink sink shard;
     ws_obs := measureObserver obs shard; ws_ops := [] |}.

Definition run_init (gen : Z -> G) (sink : option (Z -> option S)) (obs : option (Z -> option O))
    (sched : Sc) (conns : list C) (base : Z) (w : W) : gstate :=
  {| g_now := base; g_ctxDone := false; g_sched := sched; g_world := w; g_acc := accumulator_zero;
     g_workers := imap (worker_init gen sink obs) conns |}.

Definition all_exited (g : gstate) : Prop := Forall (fun ws : wstate C G S O => ws_pc ws = PExit) (g_workers g).
End worker.
Arguments gstate : clear implicits.

(** [Run]: its outcomes, [err] the context's error at the end. *)
Inductive Run {W C G Sc S O} {Col : Collaborators G Sc S O} (d : Deps W C G Sc S O) (o : RunOptions)
    (base : Z) (w : W) : W -> RunReport * option error -> Prop :=
| Run_invalid e :
    validate d o = Some e -> Run d o base w w (RunReport_zero, Some e)
| Run_connect_failed drv w' e :
    validate d o = None -> d_Driver d = Some drv ->
    connectAll (d_Cfg d) (d_Workload d) (o_Connections o) w = (w', Err e) ->
    Run d o base w w' (RunReport_zero, Some e)
| Run_finished drv sched gen w1 conns g err :
    validate d o = None -> d_Driver d = Some drv -> d_Sched d = Some sched -> d_Gen d = Some gen ->
    connectAll (d_Cfg d) (d_Workload d) (o_Connections o) w = (w1, Ok conns) ->
    rtc (gstep (base + o_Warmup o)) (run_init gen (d_Sink d) (d_Observer d) sched conns base w1) g ->
    all_exited g ->
    Run d o base w (closeAll conns (g_world g))
      (report (g_acc g) (g_now g) (base + o_Warmup o) o, err).

(** ** The accumulator does not depend on the interleaving *)

Lemma i64_add_swap a b c : (a +! b) +! c = (a +! c) +! b.
Proof. unfold i64_add. rewrite !wrap64_add_l. f_equal. lia. Qed.

Lemma atomicMin_min a v : atomicMin a v = Z.min a v.
Proof. unfold atomicMin. destruct (a <=? v) eqn:E; zbool; lia. Qed.

Lemma atomicMax_max a v : atomicMax a v = Z.max a v.
Proof. unfold atomicMax. destruct (v <=? a) eqn:E; zbool; lia. Qed.

Lemma apply_atom_comm a x y : apply_atom (apply_atom a x) y = apply_atom (apply_atom a y) x.
Proof.
  destruct x, y; cbn; try done; f_equal;
    rewrite ?atomicMin_min, ?atomicMax_max; try lia; apply i64_add_swap.
Qed.

Lemma apply_atoms_perm l l' : l ≡ₚ l' -> forall a, foldl apply_atom a l = foldl apply_atom a l'.
Proof.
  induction 1 as [|x l l' _ IH|x y l|l1 l2 l3 _ IH1 _ IH2]; intros a; cbn [foldl].
  - done.
  - apply IH.
  - by rewrite apply_atom_comm.
  - by rewrite IH1, IH2.
Qed.

#[export] Instance apply_atoms_proper a : Proper ((≡ₚ) ==> (=)) (foldl apply_atom a).
Proof. intros l l' Hp. by apply apply_atoms_perm. Qed.

(** What the accumulator should hold after the measured calls [cs]. *)
Definition tally (cs : list completion) : accumulator :=
  {| a_total := wrap64 (Z.of_nat (length cs));
     a_errors := wrap64 (Z.of_nat (length (List.filter isErr cs)));
     a_latenessSum := wrap64 (zsum (lateness <$> cs));
     a_serviceSum := wrap64 (zsum ((fun c => Z.max 0 (service c)) <$> cs));
     a_records := wrap64 (zsum (rows <$> List.filter (fun c => negb (isErr c)) cs));
     a_minIntended := foldr Z.min MaxInt64 ((fun c => wrap64 (c_intended c)) <$> cs);
     a_maxIntended := foldr Z.max MinInt64 ((fun c => wrap64 (c_intended c)) <$> cs) |}.

Lemma foldr_min_snoc m l x : foldr Z.min m (l ++ [x]) = Z.min (foldr Z.min m l) x.
Proof. induction l as [|y l IH]; cbn; [lia|]. rewrite IH. lia. Qed.

Lemma foldr_max_snoc m l x : foldr Z.max m (l ++ [x]) = Z.max (foldr Z.max m l) x.
Proof. induction l as [|y l IH]; cbn; [lia|]. rewrite IH. lia. Qed.

Lemma tally_snoc cs c : foldl apply_atom (tally cs) (observe_atoms c) = tally (cs ++ [c]).
Proof.
  unfold observe_atoms, tally. rewrite !List.filter_app, !fmap_app, !zsum_app. cbn [List.filter fmap list_fmap].
  rewrite !length_app, foldr_min_snoc, foldr_max_snoc.
  destruct (isErr c), (0 <? service c) eqn:Es; zbool; cbn [negb app foldl apply_atom fmap list_fmap zsum length
    a_total a_errors a_latenessSum a_serviceSum a_records a_minIntended a_maxIntended];
    rewrite ?fmap_app, ?zsum_app, ?app_nil_r; cbn [fmap list_fmap zsum];
    unfold i64_add; rewrite ?wrap64_add_l, ?atomicMin_min, ?atomicMax_max;
    f_equal; f_equal; lia.
Qed.

Lemma tally_atoms cs : foldl apply_atom accumulator_zero (mjoin (observe_atoms <$> cs)) = tally cs.
Proof.
  induction cs as [|c cs IH] using rev_ind; [done|].
  rewrite fmap_app, join_app, foldl_app, IH. cbn [fmap list_fmap mjoin list_join].
  rewrite app_nil_r. apply tally_snoc.
Qed.

(** ** Concurrent compare-and-swap *)

(** [atomicMin] and [atomicMax] as the code has them: load, give up when the
    old value is good enough, else compare-and-swap and retry on failure.
    [le old v] is the code's give-up test. *)
Inductive cas_pc := CLoad (v : Z) | CSwap (v old : Z) | CRet (v : Z).

Definition cas_step (le : Z -> Z -> bool) (addr : Z) (pc : cas_pc) : option (Z * cas_pc) :=
  match pc with
  | CLoad v => if le addr v then Some (addr, CRet v) else Some (addr, CSwap v addr)
  | CSwap v old => if addr =? old then Some (v, CRet v) else Some (addr, CLoad v)
  | CRet _ => None
  end.

Inductive cas_run (le : Z -> Z -> bool) : Z * list cas_pc -> Z * list cas_pc -> Prop :=
| cas_thread addr pcs i pc addr' pc' :
    pcs !! i = Some pc -> cas_step le addr pc = Some (addr', pc') ->
    cas_run le (addr, pcs) (addr', <[i := pc']> pcs).

Definition cas_arg (pc : cas_pc) : Z :=
  match pc with CLoad v | CSwap v _ | CRet v => v end.

Section cas.
Context (le : Z -> Z -> bool).
Context (le_total : forall a b, le a b = true \/ le b a = true).
Context (le_trans : forall a b c, le a b = true -> le b c = true -> le a c = true).

Definition cas_ok (addr : Z) (pc : cas_pc) : Prop :=
  match pc with
  | CLoad _ => True
  | CSwap v old => le old v = false
  | CRet v => le addr v = true
  end.

Definition cas_inv (a0 : Z) (vs : list Z) (s : Z * list cas_pc) : Prop :=
  (s.1 = a0 \/ s.1 ∈ vs) /\ le s.1 a0 = true /\ cas_arg <$> s.2 = vs /\ Forall (cas_ok s.1) s.2.

Lemma le_refl a : le a a = true.
Proof. by destruct (le_total a a). Qed.

Lemma cas_inv_step a0 vs s s' : cas_inv a0 vs s -> cas_run le s s' -> cas_inv a0 vs s'.
Proof.
  intros (Hmem & Hle & Hargs & Hok) Hstep. destruct Hstep as [addr pcs i pc addr' pc' Hi Hs].
  unfold cas_inv in *. cbn [fst snd] in *.
  assert (Harg : cas_arg pc' = cas_arg pc).
  { destruct pc; cbn in Hs; repeat case_match; by simplify_eq. }
  assert (Hin : cas_arg pc ∈ vs) by (rewrite <- Hargs; apply list_elem_of_fmap; eauto using list_elem_of_lookup_2).
  assert (Hargs' : cas_arg <$> <[i:=pc']> pcs = vs).
  { rewrite list_fmap_insert, Harg, <- Hargs. apply list_insert_id.
    by rewrite list_lookup_fmap, Hi. }
  assert (Hdec : le addr' addr = true /\ (addr' = addr \/ addr' = cas_arg pc) /\ cas_ok addr' pc').
  { rewrite Forall_lookup in Hok. specialize (Hok _ _ Hi).
    destruct pc as [v|v old|v]; cbn in Hs, Hok; [destruct (le addr v) eqn:E|destruct (addr =? old) eqn:E|];
      simplify_eq; zbool; cbn; subst; split_and!; auto using le_refl.
    match goal with Hf : le ?x ?y = false |- _ => destruct (le_total x y); congruence end. }
  destruct Hdec as (Hd & Hsrc & Hpc). split_and!; [|by eapply le_trans|done|].
  - destruct Hsrc as [->| ->]; [done|by right].
  - apply Forall_insert; [|done]. eapply Forall_impl; [exact Hok|]. intros [v|v old|v]; cbn; try done.
    intros. by eapply le_trans.
Qed.

Lemma cas_final a0 vs s :
  rtc (cas_run le) (a0, CLoad <$> vs) s -> Forall (fun pc => exists v, pc = CRet v) s.2 ->
  (s.1 = a0 \/ s.1 ∈ vs) /\ le s.1 a0 = true /\ Forall (fun v => le s.1 v = true) vs.
Proof.
  intros Hrun Hret.
  assert (Hinit : cas_inv a0 vs (a0, CLoad <$> vs)).
  { unfold cas_inv. cbn. split_and!; [by left|apply le_refl| |].
    - rewrite <- list_fmap_compose. apply list_fmap_id.
    - apply Forall_fmap, Forall_true. done. }
  assert (Hinv : cas_inv a0 vs s).
  { clear Hret. induction Hrun as [|s1 s2 s3 H12 _ IH]; [done|]. apply IH. by eapply cas_inv_step. }
  destruct Hinv as (Hmem & Hle & Hargs & Hok). split_and!; [done..|].
  rewrite <- Hargs. apply Forall_fmap. rewrite Forall_forall in Hok, Hret |- *.
  intros pc Hpc. destruct (Hret _ Hpc) as [v ->]. by apply (Hok _ Hpc).
Qed.
End cas.

Lemma foldr_min_spec m l : (foldr Z.min m l = m \/ foldr Z.min m l ∈ l) /\
  foldr Z.min m l <= m /\ forall x, x ∈ l -> foldr Z.min m l <= x.
Proof.
  induction l as [|y l (IH1 & IH2 & IH3)]; cbn.
  { split_and!; [by left|lia|]. intros x Hx. by apply elem_of_nil in Hx. }
  setoid_rewrite elem_of_cons. split_and!; [|lia|].
  - destruct (Z.min_spec y (foldr Z.min m l)) as [[_ ->]|[_ ->]]; [by right; left|]. tauto.
  - intros x [->|Hx]; [lia|]. specialize (IH3 _ Hx). lia.
Qed.

Lemma foldr_max_spec m l : (foldr Z.max m l = m \/ foldr Z.max m l ∈ l) /\
  m <= foldr Z.max m l /\ forall x, x ∈ l -> x <= foldr Z.max m l.
Proof.
  induction l as [|y l (IH1 & IH2 & IH3)]; cbn.
  { split_and!; [by left|lia|]. intros x Hx. by apply elem_of_nil in Hx. }
  setoid_rewrite elem_of_cons. split_and!; [|lia|].
  - destruct (Z.max_spec y (foldr Z.max m l)) as [[_ ->]|[_ ->]]; [tauto|by right; left].
  - intros x [->|Hx]; [lia|]. specialize (IH3 _ Hx). lia.
Qed.

(** ** Invariants of a run *)

Lemma lookup_split {A} (l : list A) i x :
  l !! i = Some x -> exists l1 l2, l = l1 ++ x :: l2 /\ forall y, <[i := y]> l = l1 ++ y :: l2.
Proof.
  intros Hi. exists (take i l), (drop (Datatypes.S i) l).
  pose proof (lookup_lt_Some _ _ _ Hi).
  split; [by rewrite take_drop_middle|]. intros y. by rewrite insert_take_drop.
Qed.

Section invariants.
Context {W C G Sc S O : Type} {Drv : Driver W C} {Col : Collaborators G Sc S O}.
Context (warmupEnd : Z).

(** A measured call: dispatched after warmup, never before its intended time. *)
Definition measured (c : completion) : Prop :=
  warmupEnd <= c_dispatch c /\ c_intended c <= c_dispatch c <= c_done c.

Definition pc_ok (now : Z) (pc : wpc) : Prop :=
  match pc with
  | PExec t _ d => t <= d <= now
  | PDone c => c_intended c <= c_dispatch c <= c_done c
  | _ => True
  end.

Definition worker_ok (now : Z) (ws : wstate C G S O) : Prop :=
  pc_ok now (ws_pc ws) /\ Forall measured (ws_ops ws).

Definition pending (ws : wstate C G S O) : list atom :=
  match ws_pc ws with PAtoms l => l | _ => [] end.

Definition record_all (s : option S) (cs : list completion) : option S :=
  foldl (fun s c => sink_Record (or_Type (c_res c)) (latency c) (isErr c) <$> s) s cs.

Definition observe_all (ob : option O) (cs : list completion) : option O :=
  foldl (fun ob c => obs_Observe (c_op c) (c_res c) (c_dispatch c) (c_done c) <$> ob) ob cs.

(** What one transition does: it may measure calls [new], applies or queues
    their atoms, and feeds them to the sink and the observer. *)
Lemma worker_step_effect now done pick sc w a ws sc' w' a' ws' :
  worker_step warmupEnd now done pick sc w a ws = Some (sc', w', a', ws') ->
  worker_ok now ws ->
  worker_ok now ws' /\
  exists new, ws_ops ws' = ws_ops ws ++ new /\
    foldl apply_atom a' (pending ws') = foldl apply_atom a (pending ws ++ mjoin (observe_atoms <$> new)) /\
    ws_sink ws' = record_all (ws_sink ws) new /\ ws_obs ws' = observe_all (ws_obs ws) new.
Proof.
  intros Hs [Hpc Hops]. unfold worker_step in Hs.
  assert (Hwoken : forall t ok, (t <= now \/ ok = false) ->
    worker_ok now (if ok : bool then start_op now t ws else set_pc PExit ws)).
  { intros t ok Ht. destruct ok; [|done]. unfold start_op. destruct (gen_Next _).
    split; [|done]. cbn. destruct Ht; [lia|done]. }
  assert (Hkeep : forall t (ok : bool), pending ws = [] ->
    let ws1 := if ok then start_op now t ws else set_pc PExit ws in
    exists new, ws_ops ws1 = ws_ops ws ++ new /\
      foldl apply_atom a (pending ws1) = foldl apply_atom a (pending ws ++ mjoin (observe_atoms <$> new)) /\
      ws_sink ws1 = record_all (ws_sink ws) new /\ ws_obs ws1 = observe_all (ws_obs ws) new).
  { intros t ok Hp. exists []. rewrite Hp, app_nil_r.
    destruct ok; [|done]. unfold start_op. by destruct (gen_Next _). }
  assert (Hsame : forall pc, pending ws = [] -> match pc with PAtoms _ => False | _ => True end ->
    exists new, ws_ops (set_pc pc ws) = ws_ops ws ++ new /\
      foldl apply_atom a (pending (set_pc pc ws))
        = foldl apply_atom a (pending ws ++ mjoin (observe_atoms <$> new)) /\
      ws_sink (set_pc pc ws) = record_all (ws_sink ws) new /\
      ws_obs (set_pc pc ws) = observe_all (ws_obs ws) new).
  { intros pc Hp Hn. exists []. rewrite Hp, app_nil_r. by destruct pc. }
  destruct (ws_pc ws) as [|t|t|t op d|c|[|x l]|] eqn:Epc; cbn in Hpc;
    try (assert (Hp : pending ws = []) by (unfold pending; by rewrite Epc)).
  - destruct done; [|destruct (sched_Next now sc)]; simplify_eq; (split; [done|by apply Hsame]).
  - unfold sleepUntil_enter in Hs. destruct (time_sub t now <=? 0) eqn:E; zbool; simplify_eq.
    + split; [apply Hwoken; left; unfold time_sub in E; lia|by apply Hkeep].
    + split; [done|by apply Hsame].
  - unfold sleepUntil_select in Hs.
    destruct (t <=? now) eqn:E, done; zbool; simplify_eq.
    + split; [apply (Hwoken t pick); auto|by apply (Hkeep t pick)].
    + split; [apply (Hwoken t true); auto|by apply (Hkeep t true)].
    + split; [apply (Hwoken t false); auto|by apply (Hkeep t false)].
  - destruct (conn_Execute (ws_conn ws) op w) as [w1 res]. simplify_eq.
    split; [|by apply Hsame]. split; [cbn; lia|done].
  - destruct done; simplify_eq; [split; [done|by apply Hsame]|].
    unfold observe. destruct (c_dispatch c <? warmupEnd) eqn:E; zbool.
    { split; [done|by apply Hsame]. }
    split.
    + split; [done|]. cbn. apply Forall_app. split; [done|]. repeat constructor; lia.
    + exists [c]. rewrite Hp. cbn. rewrite app_nil_r. done.
  - simplify_eq. split; [done|by apply Hsame].
  - simplify_eq. split; [done|]. exists []. unfold pending. rewrite Epc. cbn. by rewrite !app_nil_r.
  - done.
Qed.

Context (gen : Z -> G) (sink : option (Z -> option S)) (obs : option (Z -> option O)).

Definition all_ops (g : gstate W C G Sc S O) : list completion := mjoin (ws_ops <$> g_workers g).

Record run_inv (g : gstate W C G Sc S O) : Prop := {
  inv_acc : foldl apply_atom (g_acc g) (mjoin (pending <$> g_workers g))
            = foldl apply_atom accumulator_zero (mjoin (observe_atoms <$> all_ops g));
  inv_workers : Forall (worker_ok (g_now g)) (g_workers g);
  inv_sinks i ws : g_workers g !! i = Some ws ->
    ws_sink ws = record_all (measureSink sink (Z.of_nat i)) (ws_ops ws) /\
    ws_obs ws = observe_all (measureObserver obs (Z.of_nat i)) (ws_ops ws)
}.

Lemma worker_ok_later now now' ws : now <= now' -> worker_ok now ws -> worker_ok now' ws.
Proof. intros Hle [Hpc Hops]. split; [|done]. destruct (ws_pc ws); cbn in *; lia || done. Qed.

Lemma run_inv_init sched conns base w : run_inv (run_init gen sink obs sched conns base w).
Proof.
  assert (Hw : forall i ws, imap (worker_init gen sink obs) conns !! i = Some ws ->
               exists c, ws = worker_init gen sink obs i c).
  { intros i ws Hi. rewrite list_lookup_imap in Hi. destruct (conns !! i); simplify_eq/=. eauto. }
  split; cbn [run_init g_acc g_workers g_now].
  - assert (Hnil : forall B (f : wstate C G S O -> list B),
      (forall i c, f (worker_init gen sink obs i c) = []) ->
      mjoin (f <$> imap (worker_init gen sink obs) conns) = []).
    { intros B f Hf. revert Hf. generalize (worker_init (C := C) gen sink obs). clear Hw. intros k Hf.
      revert k Hf. induction conns as [|c cs IH]; intros k Hf; [done|]. cbn. rewrite Hf. cbn. apply IH. intros. apply Hf. }
    unfold all_ops, run_init. cbn [g_workers].
    by rewrite (Hnil _ pending), (Hnil _ ws_ops).
  - apply Forall_lookup. intros i ws Hi. destruct (Hw _ _ Hi) as [c ->]. by split.
  - intros i ws Hi. destruct (Hw _ _ Hi) as [c ->]. done.
Qed.

Lemma run_inv_step g g' : run_inv g -> gstep warmupEnd g g' -> run_inv g'.
Proof.
  intros [Hacc Hw Hs] Hstep.
  destruct Hstep as [g i pick ws sc w a ws' Hi Hstep|g d Hd|g].
  2: { split; cbn; [done| |done]. eapply Forall_impl; [exact Hw|]. intros ws. apply worker_ok_later. lia. }
  2: { by split. }
  pose proof (proj1 (Forall_lookup _ _) Hw _ _ Hi) as Hok.
  destruct (worker_step_effect _ _ _ _ _ _ _ _ _ _ _ Hstep Hok) as (Hok' & new & Hops & Hatoms & Hsink & Hobs).
  split; cbn [g_acc g_workers g_now].
  - unfold all_ops in *. cbn [g_workers] in *.
    destruct (lookup_split _ _ _ Hi) as (l1 & l2 & El & ->). rewrite El in Hacc.
    rewrite !fmap_app, !join_app in Hacc |- *. rewrite !fmap_cons in Hacc |- *.
    cbn [mjoin list_join] in Hacc |- *. rewrite Hops.
    set (P1 := mjoin (pending <$> l1)) in *. set (P2 := mjoin (pending <$> l2)) in *.
    set (O1 := mjoin (ws_ops <$> l1)) in *. set (O2 := mjoin (ws_ops <$> l2)) in *.
    fold (mjoin (pending <$> l2)) in Hacc |- *. fold P2 in Hacc |- *.
    rewrite !fmap_app, !join_app in Hacc |- *.
    set (N := mjoin (observe_atoms <$> new)) in *.
    assert (E1 : P1 ++ pending ws' ++ P2 ≡ₚ pending ws' ++ (P1 ++ P2)) by apply Permutation_app_swap_app.
    rewrite E1, foldl_app, Hatoms, <- foldl_app.
    assert (E2 : (pending ws ++ N) ++ P1 ++ P2 ≡ₚ (P1 ++ pending ws ++ P2) ++ N)
      by (rewrite <- !app_assoc, (Permutation_app_comm N), <- !app_assoc; apply Permutation_app_swap_app).
    rewrite E2, foldl_app, Hacc, <- foldl_app. apply apply_atoms_perm.
    rewrite (fmap_app observe_atoms (ws_ops ws)), join_app. fold N.
    rewrite <- !app_assoc. do 2 apply Permutation_app_head. apply Permutation_app_comm.
  - by apply Forall_insert.
  - intros j wsj Hj. destruct (decide (i = j)) as [<-|Hne].
    + rewrite list_lookup_insert_eq in Hj by (by eapply lookup_lt_Some). simplify_eq.
      destruct (Hs _ _ Hi) as [E1 E2].
      rewrite Hsink, Hobs, Hops, E1, E2. unfold record_all, observe_all. by rewrite !foldl_app.
    + rewrite list_lookup_insert_ne in Hj by done. by apply Hs.
Qed.

Lemma run_inv_reach sched conns base w g :
  rtc (gstep warmupEnd) (run_init gen sink obs sched conns base w) g -> run_inv g.
Proof.
  intros Hr. pose proof (run_inv_init sched conns base w) as Hinv.
  induction Hr as [|g1 g2 g3 H12 _ IH]; [done|]. apply IH. by eapply run_inv_step.
Qed.

Lemma exited_pending (l : list (wstate C G S O)) :
  Forall (fun ws => ws_pc ws = PExit) l -> mjoin (pending <$> l) = [].
Proof.
  induction 1 as [|ws l Hw _ IH]; [done|]. cbn [fmap list_fmap mjoin list_join].
  unfold pending at 1. rewrite Hw. exact IH.
Qed.

Lemma run_final_acc sched conns base w g :
  rtc (gstep warmupEnd) (run_init gen sink obs sched conns base w) g -> all_exited g ->
  g_acc g = tally (all_ops g) /\ Forall measured (all_ops g).
Proof.
  intros Hr Hex. pose proof (run_inv_reach _ _ _ _ _ Hr) as [Hacc Hw _]. split.
  - rewrite exited_pending in Hacc by done. cbn in Hacc. by rewrite Hacc, tally_atoms.
  - apply Forall_join, Forall_fmap. eapply Forall_impl; [exact Hw|]. by intros ws [_ ?].
Qed.
End invariants.

(** ** Connection accounting *)

Section closing.
Context {W C : Type} {Drv : Driver W C} {Acc : ConnAccounting W C}.

Lemma closeAll_closes conns w l :
  open_conns w ≡ₚ conns ++ l -> open_conns (closeAll conns w) ≡ₚ l.
Proof.
  revert w. induction conns as [|c conns IH]; intros w Hp; [done|]. cbn. apply IH.
  by apply close_closes.
Qed.

Lemma connectAll_loop_accounts n cfg wl i conns w l :
  open_conns w ≡ₚ conns ++ l ->
  match connectAll_loop n cfg wl i conns w with
  | (w', Ok all) => open_conns w' ≡ₚ all ++ l /\ length all = (length conns + n)%nat
  | (w', Err _) => open_conns w' ≡ₚ l
  end.
Proof.
  revert i conns w. induction n as [|n IH]; intros i conns w Hp; cbn [connectAll_loop].
  { split; [done|lia]. }
  pose proof (connect_opens cfg w) as Hc.
  destruct (drv_Connect cfg w) as [w1 [c|e]].
  - pose proof (prepare_keeps c wl w1) as Hprep.
    destruct (conn_Prepare c wl w1) as [w2 [e|]]; cbn in Hprep.
    + apply closeAll_closes, close_closes. by rewrite Hprep, Hc, Hp.
    + specialize (IH (i + 1) (conns ++ [c]) w2). rewrite length_app in IH. cbn [length] in IH.
      replace (length conns + Datatypes.S n)%nat with (length conns + 1 + n)%nat by lia. apply IH.
      rewrite Hprep, Hc, Hp, <- app_assoc. cbn. by rewrite Permutation_middle.
  - apply closeAll_closes. by rewrite Hc.
Qed.
End closing.

Section run_closes.
Context {W C G Sc S O : Type} {Drv : Driver W C} {Col : Collaborators G Sc S O} {Acc : ConnAccounting W C}.

Lemma gstep_keeps_open warmupEnd (g g' : gstate W C G Sc S O) :
  gstep warmupEnd g g' -> open_conns (g_world g') ≡ₚ open_conns (g_world g).
Proof.
  intros []; cbn; [|done..].
  match goal with Hs : worker_step _ _ _ _ _ _ _ _ = Some _ |- _ => unfold worker_step in Hs end.
  pose proof execute_keeps.
  repeat case_match; simplify_eq; try done.
  match goal with Hx : conn_Execute ?c ?op ?w = (?w1, _) |- _ =>
    pose proof (execute_keeps c op w) as Hk; rewrite Hx in Hk; exact Hk end.
Qed.
End run_closes.

(** ** Draining *)

(** How many transitions a worker still makes once the context is done. *)
Definition drain (pc : wpc) : nat :=
  match pc with
  | PExit => 0
  | PTop => 1
  | PDone _ => 1
  | PExec _ _ _ => 2
  | PSleep _ => 3
  | PCall _ => 4
  | PAtoms l => length l + 2
  end.

Section drain.
Context {W C G Sc S O : Type} {Drv : Driver W C} {Col : Collaborators G Sc S O}.

Lemma worker_step_drains warmupEnd now pick sc w a (ws : wstate C G S O) :
  ws_pc ws <> PExit ->
  exists sc' w' a' ws',
    worker_step warmupEnd now true pick sc w a ws = Some (sc', w', a', ws') /\
    (drain (ws_pc ws') < drain (ws_pc ws))%nat.
Proof.
  intros Hne. unfold worker_step, sleepUntil_enter, sleepUntil_select, start_op.
  destruct (ws_pc ws) as [|t|t|t op d|c|[|x l]|] eqn:E; try done; cbn [negb].
  - eexists _, _, _, _. split; [done|cbn; lia].
  - destruct (_ <=? 0); eexists _, _, _, _; (split; [done|cbn; lia]).
  - destruct (t <=? now), pick; [destruct (gen_Next _)|..]; eexists _, _, _, _; (split; [done|cbn; lia]).
  - destruct (conn_Execute _ op w). eexists _, _, _, _. split; [done|cbn; lia].
  - eexists _, _, _, _. split; [done|cbn; lia].
  - eexists _, _, _, _. split; [done|cbn; lia].
  - eexists _, _, _, _. split; [done|cbn; lia].
Qed.

(** Total work left after expiry. *)
Definition drain_all (g : gstate W C G Sc S O) : nat :=
  sum_list ((fun ws => drain (ws_pc ws)) <$> g_workers g).

Lemma drain_all_zero g : drain_all g = 0%nat -> all_exited g.
Proof.
  unfold drain_all, all_exited. induction (g_workers g) as [|ws l IH]; [constructor|].
  rewrite fmap_cons. cbn [sum_list sum_list_with foldr]. intros Hs. constructor.
  - destruct (ws_pc ws); cbn in Hs; (done || lia).
  - apply IH. cbn in *. unfold id in *. lia.
Qed.

Lemma drain_all_step warmupEnd g :
  g_ctxDone g = true -> drain_all g <> 0%nat ->
  exists g', gstep warmupEnd g g' /\ g_ctxDone g' = true /\ (drain_all g' < drain_all g)%nat.
Proof.
  intros Hd Hn.
  assert (Hex : exists i ws, g_workers g !! i = Some ws /\ ws_pc ws <> PExit).
  { unfold drain_all in Hn. induction (g_workers g) as [|ws l IH]; [done|].
    destruct (decide (drain (ws_pc ws) = 0%nat)) as [E|E].
    - destruct IH as (i & ws' & Hi & Hne).
      + intros El. apply Hn. rewrite fmap_cons. cbn in *. unfold id in *. lia.
      + by exists (Datatypes.S i), ws'.
    - exists 0%nat, ws. split; [done|]. intros Ep. by rewrite Ep in E. }
  destruct Hex as (i & ws & Hi & Hne).
  destruct (worker_step_drains warmupEnd (g_now g) false (g_sched g) (g_world g) (g_acc g) ws Hne)
    as (sc' & w' & a' & ws' & Hs & Hlt). rewrite <- Hd in Hs.
  eexists. split; [by eapply g_run|]. split; [done|]. unfold drain_all. cbn [g_workers].
  destruct (lookup_split _ _ _ Hi) as (l1 & l2 & -> & ->).
  rewrite !fmap_app, !fmap_cons, !sum_list_with_app. cbn. unfold id. lia.
Qed.
End drain.

(** ** Bounded sums *)

Lemma zsum_bounds (f : completion -> Z) cs :
  (forall c, c ∈ cs -> 0 <= f c) -> 0 <= zsum (f <$> cs).
Proof.
  intros Hf. apply zsum_nonneg. apply Forall_fmap, Forall_forall. intros c Hc. by apply Hf.
Qed.

Lemma zsum_elem_le (f : completion -> Z) cs c :
  (forall c, c ∈ cs -> 0 <= f c) -> c ∈ cs -> f c <= zsum (f <$> cs).
Proof.
  intros Hf Hc. induction cs as [|d cs IH]; [by apply elem_of_nil in Hc|].
  rewrite fmap_cons. cbn [zsum].
  assert (0 <= f d) by (apply Hf; left).
  assert (0 <= zsum (f <$> cs)) by (apply zsum_bounds; intros; apply Hf; by right).
  apply elem_of_cons in Hc as [->|Hc]; [lia|].
  assert (f c <= zsum (f <$> cs)) by (apply IH; [intros; apply Hf; by right|done]). lia.
Qed.

(** The true time from intended start to completion. *)
Definition elapsed (c : completion) : Z := c_done c - c_intended c.

Lemma measured_decomposes warmupEnd c :
  measured warmupEnd c -> elapsed c < 2^63 ->
  latency c = elapsed c /\ lateness c = c_dispatch c - c_intended c /\
  Z.max 0 (service c) = c_done c - c_dispatch c.
Proof.
  unfold measured, elapsed, latency, lateness, service, time_sub. intros [_ Hm] He.
  destruct (_ <? 0) eqn:E; zbool; lia.
Qed.

Lemma zsum_fmap_ext {A} (f g : A -> Z) l :
  (forall x, x ∈ l -> f x = g x) -> zsum (f <$> l) = zsum (g <$> l).
Proof.
  intros Hfg. f_equal. apply list_fmap_ext. intros i x Hx. apply Hfg.
  by eapply list_elem_of_lookup_2.
Qed.

Lemma zsum_fmap_add {A} (f g : A -> Z) l :
  zsum ((fun x => f x + g x) <$> l) = zsum (f <$> l) + zsum (g <$> l).
Proof. induction l as [|x l IH]; [done|]. rewrite !fmap_cons. cbn [zsum]. lia. Qed.

(** ** Properties *)

Section properties.
Context {W C G Sc S O : Type} {Drv : Driver W C} {Col : Collaborators G Sc S O}.

(** C2: Whatever the interleaving of the workers, of the clock and of the
    context's expiry, when all workers have returned the shared accumulator
    holds exactly the tallies of the measured calls (counts, errors, records,
    lateness, service time and the range of intended times), every measured
    call was dispatched after the warmup and not before its intended time,
    and each connection's sink and observer received exactly its own
    measured calls, in order. *)
Theorem run_tallies_exact warmupEnd gen sink obs sched conns base w (g : gstate W C G Sc S O) :
  rtc (gstep warmupEnd) (run_init gen sink obs sched conns base w) g -> all_exited g ->
  g_acc g = tally (all_ops g) /\ Forall (measured warmupEnd) (all_ops g) /\
  forall i ws, g_workers g !! i = Some ws ->
    ws_sink ws = record_all (measureSink sink (Z.of_nat i)) (ws_ops ws) /\
    ws_obs ws = observe_all (measureObserver obs (Z.of_nat i)) (ws_ops ws).
Proof.
  intros Hr Hex.
  destruct (run_final_acc warmupEnd gen sink obs sched conns base w g Hr Hex) as [Ha Hm].
  split_and!; [done..|]. intros i ws Hi.
  by apply (inv_sinks _ _ _ _ (run_inv_reach warmupEnd gen sink obs sched conns base w g Hr)).
Qed.

(** C28: Latency is measured from the intended start: over a whole run, the
    latencies recorded add up to the accumulated dispatch lateness plus the
    accumulated service time, so a client that falls behind shows as
    latency. *)
Theorem run_latency_decomposes warmupEnd gen sink obs sched conns base w (g : gstate W C G Sc S O) :
  rtc (gstep warmupEnd) (run_init gen sink obs sched conns base w) g -> all_exited g ->
  zsum (elapsed <$> all_ops g) < 2^63 ->
  zsum (latency <$> all_ops g) = a_latenessSum (g_acc g) + a_serviceSum (g_acc g) /\
  0 <= a_latenessSum (g_acc g) /\ 0 <= a_serviceSum (g_acc g).
Proof.
  intros Hr Hex Hsum.
  destruct (run_final_acc warmupEnd gen sink obs sched conns base w g Hr Hex) as [-> Hm].
  rewrite Forall_forall in Hm. cbn [tally a_latenessSum a_serviceSum].
  assert (Hpos : forall c, c ∈ all_ops g -> 0 <= elapsed c).
  { intros c Hc. destruct (Hm c Hc). unfold elapsed. lia. }
  assert (Hd : forall c, c ∈ all_ops g -> latency c = elapsed c /\
            lateness c = c_dispatch c - c_intended c /\ Z.max 0 (service c) = c_done c - c_dispatch c).
  { intros c Hc. eapply measured_decomposes; [by apply Hm|].
    eapply Z.le_lt_trans; [by apply (zsum_elem_le elapsed)|done]. }
  assert (Hadd : zsum (elapsed <$> all_ops g)
    = zsum (lateness <$> all_ops g) + zsum ((fun c => Z.max 0 (service c)) <$> all_ops g)).
  { rewrite <- zsum_fmap_add. apply zsum_fmap_ext. intros c Hc.
    destruct (Hd c Hc) as (_ & -> & ->). unfold elapsed. lia. }
  assert (0 <= zsum (lateness <$> all_ops g))
    by (apply zsum_bounds; intros c Hc; destruct (Hd c Hc) as (_ & -> & _), (Hm c Hc); lia).
  assert (0 <= zsum ((fun c => Z.max 0 (service c)) <$> all_ops g)) by (apply zsum_bounds; lia).
  rewrite (zsum_fmap_ext latency elapsed) by (intros c Hc; by apply Hd).
  rewrite !wrap64_id by (unfold is_i64; lia). lia.
Qed.

(** C40: Once the context is done every run can finish: from any state some
    sequence of worker transitions leads to all workers having returned, and
    every transition a worker makes after expiry brings it closer to
    returning (a worker that has not returned can always move). *)
Theorem run_drains warmupEnd (g : gstate W C G Sc S O) :
  g_ctxDone g = true ->
  (exists g', rtc (gstep warmupEnd) g g' /\ all_exited g') /\
  (forall ws pick, ws ∈ g_workers g -> ws_pc ws <> PExit ->
     exists sc' w' a' ws',
       worker_step warmupEnd (g_now g) true pick (g_sched g) (g_world g) (g_acc g) ws
         = Some (sc', w', a', ws') /\ (drain (ws_pc ws') < drain (ws_pc ws))%nat).
Proof.
  intros Hd. split; [|intros ws pick _; by apply worker_step_drains].
  remember (drain_all g) as n eqn:En. revert g Hd En.
  induction n as [n IH] using lt_wf_ind. intros g Hd ->.
  destruct (decide (drain_all g = 0%nat)) as [E|E].
  { exists g. split; [done|by apply drain_all_zero]. }
  destruct (drain_all_step warmupEnd g Hd E) as (g1 & Hs & Hd1 & Hlt).
  destruct (IH _ Hlt g1 Hd1 eq_refl) as (g' & Hr & Hex).
  exists g'. split; [by eapply rtc_l|done].
Qed.
End properties.

(** C38: Connections never leak: whether validation fails, a connection cannot
    be opened or prepared part-way, or the load loop runs to its end, the
    connections open after [Run] are those open before it. *)
Theorem Run_closes_connections {W C G Sc S O : Type} {Col : Collaborators G Sc S O}
    (d : Deps W C G Sc S O) (o : RunOptions) (base : Z) (w w' : W) (r : RunReport * option error)
    (drv : Driver W C) (Acc : ConnAccounting W C (Drv := drv)) :
  d_Driver d = Some drv -> Run d o base w w' r -> open_conns w' ≡ₚ open_conns w.
Proof.
  intros Hdrv Hrun.
  destruct Hrun as [e _|drv' w' e _ Hd Hc|drv' sched gen w1 conns g err _ Hd _ _ Hc Hr _];
    [done|assert (drv' = drv) as -> by congruence..].
  - pose proof (connectAll_loop_accounts (Z.to_nat (o_Connections o)) (d_Cfg d) (d_Workload d) 0 [] w
      (open_conns w) ltac:(done)) as Ha.
    unfold connectAll in Hc. by rewrite Hc in Ha.
  - pose proof (connectAll_loop_accounts (Z.to_nat (o_Connections o)) (d_Cfg d) (d_Workload d) 0 [] w
      (open_conns w) ltac:(done)) as Ha.
    unfold connectAll in Hc. rewrite Hc in Ha. apply closeAll_closes. destruct Ha as [Ha _]. rewrite <- Ha.
    remember (run_init gen (d_Sink d) (d_Observer d) sched conns base w1) as g0 eqn:E0.
    assert (Hw : g_world g0 = w1) by by subst. rewrite <- Hw. clear E0 Hw.
    induction Hr as [|g1 g2 g3 H12 _ IH]; [done|]. by rewrite IH, (gstep_keeps_open _ _ _ H12).
Qed.

Lemma foldl_atomicMin a l : foldl atomicMin a l = foldr Z.min a l.
Proof.
  revert a. induction l as [|x l IH] using rev_ind; intros a; [done|].
  rewrite foldl_app, foldr_min_snoc, IH. apply atomicMin_min.
Qed.

Lemma foldl_atomicMax a l : foldl atomicMax a l = foldr Z.max a l.
Proof.
  revert a. induction l as [|x l IH] using rev_ind; intros a; [done|].
  rewrite foldl_app, foldr_max_snoc, IH. apply atomicMax_max.
Qed.

(** The lock-free minimum and maximum are linearizable: when any number of
    goroutines run the load / compare-and-swap / retry loop on one address,
    interleaved in any way, and all return, the address holds what applying
    their updates one after the other would leave. *)
Theorem atomicMinMax_concurrent (a0 : Z) (vs : list Z) (smin smax : Z * list cas_pc) :
  rtc (cas_run Z.leb) (a0, CLoad <$> vs) smin ->
  Forall (fun pc => exists v, pc = CRet v) smin.2 ->
  rtc (cas_run (fun old v => Z.leb v old)) (a0, CLoad <$> vs) smax ->
  Forall (fun pc => exists v, pc = CRet v) smax.2 ->
  smin.1 = foldl atomicMin a0 vs /\ smax.1 = foldl atomicMax a0 vs.
Proof.
  intros H1 R1 H2 R2.
  apply cas_final in H1 as (M1 & L1 & F1); [|intros; rewrite !Z.leb_le; lia..|done].
  apply cas_final in H2 as (M2 & L2 & F2); [|intros; rewrite !Z.leb_le; lia..|done].
  rewrite foldl_atomicMin, foldl_atomicMax. rewrite Forall_forall in F1, F2.
  destruct (foldr_min_spec a0 vs) as (A1 & A2 & A3).
  destruct (foldr_max_spec a0 vs) as (B1 & B2 & B3). zbool. split.
  - apply Z.le_antisymm.
    + destruct A1 as [->|A1]; [done|]. by apply Z.leb_le, F1.
    + destruct M1 as [->|M1]; [done|by apply A3].
  - apply Z.le_antisymm.
    + destruct M2 as [->|M2]; [done|by apply B3].
    + destruct B1 as [->|B1]; [done|]. by apply Z.leb_le, F2.
Qed.

(** ** The client-bound flag *)

(** Intended times [t0, t0 + p, ...], claimed by the workers in any order. *)
Definition evenly_spaced (t0 p : Z) (cs : list completion) : Prop :=
  c_intended <$> cs ≡ₚ (fun i => t0 + Z.of_nat i * p) <$> seq 0 (length cs).

Lemma evenly_spaced_mem t0 p cs x :
  evenly_spaced t0 p cs ->
  x ∈ c_intended <$> cs <-> exists i, (i < length cs)%nat /\ x = t0 + Z.of_nat i * p.
Proof.
  intros ->. rewrite list_elem_of_fmap. setoid_rewrite elem_of_seq. split.
  - intros (i & -> & Hi). exists i. split; [lia|done].
  - intros (i & Hi & ->). exists i. split; [done|lia].
Qed.

Lemma meanInterArrival_period t0 p cs :
  evenly_spaced t0 p cs -> 0 < p -> 0 <= t0 -> (2 <= length cs)%nat ->
  t0 + Z.of_nat (length cs) * p < 2^63 ->
  meanInterArrival (tally cs) (Z.of_nat (length cs)) = p.
Proof.
  intros He Hp Ht Hn Hr. unfold meanInterArrival, tally. cbn [a_minIntended a_maxIntended].
  assert (Hid : (fun c => wrap64 (c_intended c)) <$> cs = c_intended <$> cs).
  { apply list_fmap_ext. intros i c Hc. apply wrap64_id.
    assert (Hin : c_intended c ∈ c_intended <$> cs).
    { apply list_elem_of_fmap. exists c. split; [done|]. by eapply list_elem_of_lookup_2. }
    apply (evenly_spaced_mem t0 p) in Hin as (j & Hj & ->); [|done]. unfold is_i64. nia. }
  rewrite Hid.
  assert (Hfirst : t0 ∈ c_intended <$> cs).
  { apply (evenly_spaced_mem t0 p); [done|]. exists 0%nat. split; lia. }
  assert (Hlast : t0 + (Z.of_nat (length cs) - 1) * p ∈ c_intended <$> cs).
  { apply (evenly_spaced_mem t0 p); [done|]. exists (length cs - 1)%nat. split; [lia|]. f_equal. lia. }
  assert (Hmem := fun x => proj1 (evenly_spaced_mem t0 p cs x He)).
  destruct (foldr_min_spec MaxInt64 (c_intended <$> cs)) as (A1 & _ & A3).
  destruct (foldr_max_spec MinInt64 (c_intended <$> cs)) as (B1 & _ & B3).
  specialize (A3 _ Hfirst). specialize (B3 _ Hlast).
  set (lo := foldr Z.min _ _) in *. set (hi := foldr Z.max _ _) in *.
  assert (lo = t0) as ->.
  { destruct A1 as [E|(i & Hi & E)%Hmem]; [unfold MaxInt64 in E; nia|nia]. }
  assert (hi = t0 + (Z.of_nat (length cs) - 1) * p) as ->.
  { destruct B1 as [E|(i & Hi & E)%Hmem]; [unfold MinInt64 in E; nia|nia]. }
  destruct (_ <? 2) eqn:E2; zbool; [lia|].
  rewrite i64_sub_id by (unfold is_i64; nia).
  replace (t0 + (Z.of_nat (length cs) - 1) * p - t0) with (p * (Z.of_nat (length cs) - 1)) by lia.
  destruct (_ <=? 0) eqn:E3; zbool; [nia|]. apply Z.quot_mul. lia.
Qed.

(** C29: On a fixed-rate schedule with period [p] and the default threshold, a
    run is flagged client-bound exactly when the mean dispatch lateness exceeds
    both one period and the mean service time and fewer than 5% of the calls
    failed: a slow or failing target is never blamed on the client. *)
Theorem clientBound_fixed_rate t0 p cs now warmupEnd (o : RunOptions) :
  evenly_spaced t0 p cs -> 0 < p -> 0 <= t0 -> (2 <= length cs)%nat ->
  t0 + Z.of_nat (length cs) * p < 2^63 -> Z.of_nat (length cs) < 2^58 ->
  Forall (measured warmupEnd) cs -> zsum (elapsed <$> cs) < 2^63 ->
  o_LatenessThreshold o <= 0 ->
  let n := Z.of_nat (length cs) in
  let L := zsum (lateness <$> cs) in
  let V := zsum ((fun c => c_done c - c_dispatch c) <$> cs) in
  rep_ClientBound (report (tally cs) now warmupEnd o) = true <->
  p < L / n /\ V / n < L / n /\ 20 * Z.of_nat (length (List.filter isErr cs)) < n.
Proof.
  intros He Hp Ht Hn Hr Hbig Hm Hsum Hthr n L V.
  assert (Hcount : (length (List.filter isErr cs) <= length cs)%nat) by apply filter_length_le.
  rewrite Forall_forall in Hm.
  assert (Hpos : forall c, c ∈ cs -> 0 <= elapsed c).
  { intros c Hc. destruct (Hm c Hc). unfold elapsed. lia. }
  assert (Hd : forall c, c ∈ cs -> lateness c = c_dispatch c - c_intended c /\
            Z.max 0 (service c) = c_done c - c_dispatch c).
  { intros c Hc. eapply measured_decomposes; [by apply Hm|].
    eapply Z.le_lt_trans; [by apply (zsum_elem_le elapsed)|done]. }
  assert (HV : zsum ((fun c => Z.max 0 (service c)) <$> cs) = V).
  { apply zsum_fmap_ext. intros c Hc. by apply Hd. }
  assert (HL : 0 <= L).
  { apply zsum_bounds. intros c Hc. destruct (Hd c Hc) as [-> _], (Hm c Hc). lia. }
  assert (HV0 : 0 <= V) by (rewrite <- HV; apply zsum_bounds; lia).
  assert (Hadd : zsum (elapsed <$> cs) = L + V).
  { unfold L, V. rewrite <- zsum_fmap_add. apply zsum_fmap_ext. intros c Hc.
    destruct (Hd c Hc) as [-> _]. unfold elapsed. lia. }
  unfold report. cbn [a_total a_errors a_latenessSum a_serviceSum tally].
  rewrite HV. fold L n. rewrite !wrap64_id by (unfold is_i64; lia).
  destruct (n =? 0) eqn:E0; zbool; [lia|].
  destruct (o_LatenessThreshold o <=? 0) eqn:E1; zbool; [|lia].
  unfold n. rewrite (meanInterArrival_period t0 p cs) by done. fold n.
  cbn [rep_ClientBound]. rewrite !Z.quot_div_nonneg by lia.
  rewrite i64_mul_id by (unfold is_i64; lia).
  rewrite !andb_true_iff, !Z.ltb_lt. lia.
Qed.

(** ** A concrete run *)

(** A schedule of the interleaving, and its execution. *)
Inductive move := MRun (i : nat) (pick : bool) | MTick (d : Z) | MExpire.

Section exec.
Context {W C G Sc S O : Type} {Drv : Driver W C} {Col : Collaborators G Sc S O}.

Definition exec_move (warmupEnd : Z) (g : gstate W C G Sc S O) (m : move) : option (gstate W C G Sc S O) :=
  match m with
  | MRun i pick =>
      ws ← g_workers g !! i;
      '(sc, w, a, ws') ← worker_step warmupEnd (g_now g) (g_ctxDone g) pick (g_sched g) (g_world g) (g_acc g) ws;
      Some {| g_now := g_now g; g_ctxDone := g_ctxDone g; g_sched := sc; g_world := w; g_acc := a;
              g_workers := <[i := ws']> (g_workers g) |}
  | MTick d =>
      if 0 <=? d then
        Some {| g_now := g_now g + d; g_ctxDone := g_ctxDone g; g_sched := g_sched g; g_world := g_world g;
                g_acc := g_acc g; g_workers := g_workers g |}
      else None
  | MExpire =>
      Some {| g_now := g_now g; g_ctxDone := true; g_sched := g_sched g; g_world := g_world g;
              g_acc := g_acc g; g_workers := g_workers g |}
  end.

Fixpoint exec (warmupEnd : Z) (g : gstate W C G Sc S O) (ms : list move) : option (gstate W C G Sc S O) :=
  match ms with
  | [] => Some g
  | m :: ms => g' ← exec_move warmupEnd g m; exec warmupEnd g' ms
  end.

Lemma exec_steps warmupEnd g ms g' :
  exec warmupEnd g ms = Some g' -> nsteps (gstep warmupEnd) (length ms) g g'.
Proof.
  revert g. induction ms as [|m ms IH]; intros g; cbn [exec length]; [intros [= ->]; constructor|].
  intros (g1 & Hm & Hr)%bind_Some. apply nsteps_l with g1; [|by apply IH].
  destruct m as [i pick|d|]; cbn in Hm.
  - apply bind_Some in Hm as (ws & Hi & Hm). apply bind_Some in Hm as ([[[sc w] a] ws'] & Hs & [= <-]).
    by eapply g_run.
  - destruct (0 <=? d) eqn:E; zbool; simplify_eq. by apply g_tick.
  - simplify_eq. apply g_expire.
Qed.

Lemma exec_sound warmupEnd g ms g' : exec warmupEnd g ms = Some g' -> rtc (gstep warmupEnd) g g'.
Proof. intros E. eapply rtc_nsteps_2. by apply exec_steps. Qed.

Lemma exec_reaches warmupEnd g ms (P : gstate W C G Sc S O -> bool) :
  match exec warmupEnd g ms with Some g' => P g' | None => false end = true ->
  exists g', rtc (gstep warmupEnd) g g' /\ P g' = true.
Proof.
  destruct (exec warmupEnd g ms) as [g'|] eqn:E; [|done]. intros Hp. exists g'.
  split; [by eapply exec_sound|done].
Qed.
End exec.

(** Two connections on a paced schedule of period 10; the generator counts keys
    and the sink and observer keep what they receive. *)
#[local] Instance sample_collaborators :
  Collaborators Z Z (list (OpType * Z * bool)) (list (Z * Z)) := {|
  gen_Next g := ({| op_Type := "read"; op_Key := g; op_Value := []; op_Seq := 0 |}, g + 1);
  sched_Next _ sc := (sc, sc + 10);
  sink_Record t l e s := s ++ [(t, l, e)];
  obs_Observe op _ _ done ob := ob ++ [(op_Key op, done)]
|}.

#[local] Instance sample_drv : Driver store_world unit := store_driver {[ 1 := [Byte.x41] ]}.

Definition sample_start : gstate store_world unit Z Z (list (OpType * Z * bool)) (list (Z * Z)) :=
  run_init (fun shard => shard) (Some (fun _ => Some [])) (Some (fun _ => Some [])) 100 [tt; tt] 100
    (0, [tt; tt]).

(** Worker 0 makes one warmup call; then both workers measure one call each,
    their atomic operations interleaved, and the context expires. *)
Definition sample_moves : list move :=
  let both l := mjoin ((fun _ => [MRun 0 false; MRun 1 false]) <$> seq 0 l) in
  [MRun 0 false; MRun 0 false; MTick 3; MRun 0 false; MRun 0 false; MTick 27] ++
  both 2%nat ++ [MTick 5] ++ both 9%nat ++ [MExpire] ++ both 1%nat.

(** Totals and sinks at the end of the run. *)
Example sample_run :
  fmap (fun g => (a_total (g_acc g), a_latenessSum (g_acc g), a_serviceSum (g_acc g), ws_sink <$> g_workers g))
    (exec 105 sample_start sample_moves)
  = Some (2, 30, 10, [Some [("read"%string, 25, false)]; Some [("read"%string, 15, false)]]).
Proof. vm_compute. reflexivity. Qed.

Definition exited (ws : wstate unit Z (list (OpType * Z * bool)) (list (Z * Z))) : bool :=
  match ws_pc ws with PExit => true | _ => false end.

Lemma exited_all (g : gstate store_world unit Z Z (list (OpType * Z * bool)) (list (Z * Z))) :
  forallb exited (g_workers g) = true -> all_exited g.
Proof.
  unfold all_exited. intros Hf. rewrite forallb_forall in Hf. apply Forall_forall.
  intros ws Hws%list_elem_of_In. specialize (Hf ws Hws). unfold exited in Hf. by destruct (ws_pc ws).
Qed.

Lemma sample_end_some :
  exists g, rtc (gstep 105) sample_start g /\ all_exited g /\ zsum (elapsed <$> all_ops g) < 2^63.
Proof.
  destruct (exec_reaches 105 sample_start sample_moves
    (fun g => forallb exited (g_workers g) && (zsum (elapsed <$> all_ops g) <? 2^63))) as (g & Hr & Hg).
  { vm_compute. reflexivity. }
  apply andb_true_iff in Hg as [Hx Hs]. exists g. split; [exact Hr|].
  split; [by apply exited_all|by apply Z.ltb_lt].
Qed.

Lemma run_tallies_exact_witness :
  exists g, rtc (gstep 105) sample_start g /\
    g_acc g = tally (all_ops g) /\ Forall (measured 105) (all_ops g) /\
    forall i ws, g_workers g !! i = Some ws ->
      ws_sink ws = record_all (measureSink (Some (fun _ => Some [])) (Z.of_nat i)) (ws_ops ws) /\
      ws_obs ws = observe_all (measureObserver (Some (fun _ => Some [])) (Z.of_nat i)) (ws_ops ws).
Proof.
  destruct sample_end_some as (g & Hr & Hex & _). exists g. split; [exact Hr|].
  exact (run_tallies_exact 105 (fun shard => shard) (Some (fun _ => Some [])) (Some (fun _ => Some []))
           100 [tt; tt] 100 (0, [tt; tt]) g Hr Hex).
Defined.

Lemma run_latency_decomposes_witness :
  exists g, rtc (gstep 105) sample_start g /\
    zsum (latency <$> all_ops g) = a_latenessSum (g_acc g) + a_serviceSum (g_acc g) /\
    0 <= a_latenessSum (g_acc g) /\ 0 <= a_serviceSum (g_acc g).
Proof.
  destruct sample_end_some as (g & Hr & Hex & Hs). exists g. split; [exact Hr|].
  exact (run_latency_decomposes 105 (fun shard => shard) (Some (fun _ => Some [])) (Some (fun _ => Some []))
           100 [tt; tt] 100 (0, [tt; tt]) g Hr Hex Hs).
Defined.

Definition sample_expired : gstate store_world unit Z Z (list (OpType * Z * bool)) (list (Z * Z)) :=
  {| g_now := 200; g_ctxDone := true; g_sched := 110; g_world := (0, [tt; tt]);
     g_acc := accumulator_zero; g_workers := g_workers sample_start |}.

Lemma run_drains_witness :
  (exists g', rtc (gstep 105) sample_expired g' /\ all_exited g') /\
  (forall ws pick, ws ∈ g_workers sample_expired -> ws_pc ws <> PExit ->
     exists sc' w' a' ws',
       worker_step 105 (g_now sample_expired) true pick (g_sched sample_expired) (g_world sample_expired)
         (g_acc sample_expired) ws = Some (sc', w', a', ws') /\
       (drain (ws_pc ws') < drain (ws_pc ws))%nat).
Proof. apply (run_drains 105 sample_expired). reflexivity. Defined.

Definition sample_run_deps : Deps store_world unit Z Z (list (OpType * Z * bool)) (list (Z * Z)) :=
  {| d_Driver := Some sample_drv;
     d_Cfg := {| cfg_Endpoints := []; cfg_Consistency := ""; cfg_Cluster :=
        {| cs_Nodes := []; cs_ReplicationFactor := 1; cs_Consistency := [] |}; cfg_Params := ∅ |};
     d_Workload := {| w_Name := "kv"; w_Mode := ModePerformance; w_Operations := []; w_KeySpace := 10;
        w_KeyDist := DistUniform; w_ValueSize := 2; w_VerifyModel := VerifyNone; w_Params := ∅ |};
     d_Sched := Some 100; d_Gen := Some (fun shard => shard);
     d_Sink := Some (fun _ => Some []); d_Observer := Some (fun _ => Some []) |}.

Definition sample_run_options : RunOptions :=
  {| o_Connections := 2; o_Warmup := 5; o_Duration := 50; o_LatenessThreshold := 0 |}.

Lemma Run_closes_connections_witness :
  exists w' r, Run sample_run_deps sample_run_options 100 (0, []) w' r /\
    open_conns (ConnAccounting := store_accounting {[ 1 := [Byte.x41] ]}) w' ≡ₚ [].
Proof.
  destruct sample_end_some as (g & Hr & Hex & _).
  assert (Hrun : Run sample_run_deps sample_run_options 100 (0, []) (closeAll [tt; tt] (g_world g))
                 (report (g_acc g) (g_now g) 105 sample_run_options, None)).
  { eapply (Run_finished sample_run_deps sample_run_options 100 (0, []) sample_drv 100
      (fun shard => shard) (0, [tt; tt]) [tt; tt] g None); try reflexivity.
    - exact Hr.
    - exact Hex. }
  eexists _, _. split; [exact Hrun|].
  exact (Run_closes_connections sample_run_deps sample_run_options 100 (0, []) _ _ sample_drv
    (store_accounting {[ 1 := [Byte.x41] ]}) eq_refl Hrun).
Defined.

Lemma atomicMinMax_concurrent_witness :
  exists smin smax,
    rtc (cas_run Z.leb) (9, CLoad <$> [4; 7]) smin /\
    rtc (cas_run (fun old v => Z.leb v old)) (9, CLoad <$> [4; 7]) smax /\
    smin.1 = foldl atomicMin 9 [4; 7] /\ smax.1 = foldl atomicMax 9 [4; 7].
Proof.
  assert (Hmin : rtc (cas_run Z.leb) (9, [CLoad 4; CLoad 7]) (4, [CRet 4; CRet 7])).
  { (* both load 9; the swap to 4 wins, the other retries and gives up *)
    eapply rtc_l; [by apply (cas_thread _ 9 [CLoad 4; CLoad 7] 0 (CLoad 4) 9 (CSwap 4 9))|].
    eapply rtc_l; [by apply (cas_thread _ 9 [CSwap 4 9; CLoad 7] 1 (CLoad 7) 9 (CSwap 7 9))|].
    eapply rtc_l; [by apply (cas_thread _ 9 [CSwap 4 9; CSwap 7 9] 0 (CSwap 4 9) 4 (CRet 4))|].
    eapply rtc_l; [by apply (cas_thread _ 4 [CRet 4; CSwap 7 9] 1 (CSwap 7 9) 4 (CLoad 7))|].
    eapply rtc_l; [by apply (cas_thread _ 4 [CRet 4; CLoad 7] 1 (CLoad 7) 4 (CRet 7))|]. apply rtc_refl. }
  assert (Hmax : rtc (cas_run (fun old v => Z.leb v old)) (9, [CLoad 4; CLoad 7]) (9, [CRet 4; CRet 7])).
  { eapply rtc_l; [by apply (cas_thread _ 9 [CLoad 4; CLoad 7] 0 (CLoad 4) 9 (CRet 4))|].
    eapply rtc_l; [by apply (cas_thread _ 9 [CRet 4; CLoad 7] 1 (CLoad 7) 9 (CRet 7))|]. apply rtc_refl. }
  eexists _, _. split; [exact Hmin|]. split; [exact Hmax|].
  apply (atomicMinMax_concurrent 9 [4; 7] _ _ Hmin ltac:(repeat constructor; eauto) Hmax
           ltac:(repeat constructor; eauto)).
Defined.

(** Three calls of a 10ns schedule, each 40ns late with 5ns of service. *)
Definition late_calls : list completion :=
  (fun i => {| c_op := {| op_Type := "read"; op_Key := 1; op_Value := []; op_Seq := 0 |};
               c_res := {| or_Type := "read"; or_Rows := 1; or_Observed := ANil; or_Err := None |};
               c_intended := 1000 + Z.of_nat i * 10; c_dispatch := 1040 + Z.of_nat i * 10;
               c_done := 1045 + Z.of_nat i * 10 |}) <$> [2; 0; 1]%nat.

Lemma clientBound_fixed_rate_witness :
  rep_ClientBound (report (tally late_calls) 2000 1000 sample_run_options) = true <->
  10 < zsum (lateness <$> late_calls) / 3 /\
  zsum ((fun c => c_done c - c_dispatch c) <$> late_calls) / 3 < zsum (lateness <$> late_calls) / 3 /\
  20 * Z.of_nat (length (List.filter isErr late_calls)) < 3.
Proof.
  apply (clientBound_fixed_rate 1000 10 late_calls 2000 1000 sample_run_options); try (vm_compute; congruence).
  - unfold evenly_spaced, late_calls. cbn. rewrite Permutation_swap. constructor. apply Permutation_swap.
  - cbn. lia.
  - repeat constructor; cbn; lia.
Defined.
