(* ===== verification/Metrics.v ===== *)
(** * Metrics: the latency recorder (core/metrics)

    A [Recorder] holds one [Local] per load goroutine; aggregation merges the
    locals' histograms.  HdrHistogram is a third-party package: the class
    [Histogram] lists the functions the code calls and [HistogramLaws] their
    documented behaviour in terms of the exported bucket counts. *)

From Stdlib Require Import SpecFloat String Ascii.
From S2P Require Import Prelude Domain Strconv.

Local Open Scope Z_scope.
Local Open Scope go_scope.

(** ** hdrhistogram-go *)

Record HSnapshot := {
  hs_Lowest : Z;
  hs_Highest : Z;
  hs_SigFigs : Z;
  hs_Counts : list Z
}.

Class Histogram (H : Type) := {
  h_New : Z -> Z -> Z -> H;
  h_RecordValue : Z -> H -> H;
  h_Merge : H -> H -> H;
  h_TotalCount : H -> Z;
  h_Mean : H -> float64;
  h_ValueAtQuantile : float64 -> H -> Z;
  h_Max : H -> Z;
  h_Export : H -> HSnapshot;
  h_Import : HSnapshot -> H;
  h_Encode : H -> result error string;
  h_Decode : string -> result error H
}.

Class HistogramLaws (H : Type) {HH : Histogram H} := {
  (** The number of buckets of a geometry and the bucket of a value. *)
  h_len : Z -> Z -> nat;
  h_bucket : Z -> Z -> Z -> nat;
  bucket_lt hi sig v : 0 <= v <= hi -> (h_bucket hi sig v < h_len hi sig)%nat;
  export_New hi sig :
    h_Export (h_New 1 hi sig)
    = {| hs_Lowest := 1; hs_Highest := hi; hs_SigFigs := sig; hs_Counts := replicate (h_len hi sig) 0 |};
  export_Record v h hi sig counts :
    h_Export h = {| hs_Lowest := 1; hs_Highest := hi; hs_SigFigs := sig; hs_Counts := counts |} ->
    0 <= v <= hi ->
    h_Export (h_RecordValue v h)
    = {| hs_Lowest := 1; hs_Highest := hi; hs_SigFigs := sig;
         hs_Counts := alter (Z.add 1) (h_bucket hi sig v) counts |};
  export_Merge h1 h2 hi sig c1 c2 :
    h_Export h1 = {| hs_Lowest := 1; hs_Highest := hi; hs_SigFigs := sig; hs_Counts := c1 |} ->
    h_Export h2 = {| hs_Lowest := 1; hs_Highest := hi; hs_SigFigs := sig; hs_Counts := c2 |} ->
    length c1 = length c2 ->
    h_Export (h_Merge h1 h2)
    = {| hs_Lowest := 1; hs_Highest := hi; hs_SigFigs := sig; hs_Counts := zip_with Z.add c1 c2 |};
  export_Import s : length (hs_Counts s) = h_len (hs_Highest s) (hs_SigFigs s) -> hs_Lowest s = 1 ->
    h_Export (h_Import s) = s;
  total_counts h : h_TotalCount h = zsum (hs_Counts (h_Export h));
  (** The encoding is lossless. *)
  encode_total h : exists b, h_Encode h = Ok b;
  decode_Encode h b : h_Encode h = Ok b -> exists h', h_Decode b = Ok h' /\ h_Export h' = h_Export h;
  (** The statistics depend on the counts alone. *)
  mean_export h1 h2 : h_Export h1 = h_Export h2 -> h_Mean h1 = h_Mean h2;
  quantile_export q h1 h2 : h_Export h1 = h_Export h2 -> h_ValueAtQuantile q h1 = h_ValueAtQuantile q h2;
  max_export h1 h2 : h_Export h1 = h_Export h2 -> h_Max h1 = h_Max h2
}.

(** ** percentiles.go *)

Definition defaultSigFigs : Z := 3.
Definition defaultMaxLatency : Z := 60 * second.
Definition lowestDiscernible : Z := 1.
Definition nsPerMs : float64 := float_of_int 1000000.

(** The literals 99.9 and 99.99. *)
Definition q999 : float64 := S754_finite false 7029837543348634 (-46).
Definition q9999 : float64 := S754_finite false 7036170730324623 (-46).

(** [Duration.Seconds]. *)
Definition seconds (d : Z) : float64 :=
  float_add (float_of_int (Z.quot d second)) (float_div (float_of_int (Z.rem d second)) (float_of_int second)).

Section recorder.
Context {H : Type} {HH : Histogram H}.

Definition newHist (high sig : Z) : H := h_New lowestDiscernible high sig.

Definition msAt (h : H) (p : float64) : float64 :=
  float_div (float_of_int (h_ValueAtQuantile p h)) nsPerMs.

Definition toPercentiles (h : H) : Percentiles :=
  {| pct_Count := h_TotalCount h;
     pct_Mean := float_div (h_Mean h) nsPerMs;
     pct_P50 := msAt h (float_of_int 50);
     pct_P90 := msAt h (float_of_int 90);
     pct_P95 := msAt h (float_of_int 95);
     pct_P99 := msAt h (float_of_int 99);
     pct_P999 := msAt h q999;
     pct_P9999 := msAt h q9999;
     pct_Max := float_div (float_of_int (h_Max h)) nsPerMs |}.

(** ** local.go *)

Record Local := {
  l_high : Z;
  l_sig : Z;
  l_overall : H;
  l_byOp : gmap OpType H;
  l_errByOp : gmap OpType Z;
  l_errTotal : Z
}.

Definition newLocal (high sig : Z) : Local :=
  {| l_high := high; l_sig := sig; l_overall := newHist high sig; l_byOp := ∅; l_errByOp := ∅;
     l_errTotal := 0 |}.

Definition clamp (high latency : Z) : Z :=
  let ns := if latency <? 0 then 0 else latency in
  if high <? ns then high else ns.

Definition Local_Record (op : OpType) (latency : Z) (isErr : bool) (l : Local) : Local :=
  let ns := clamp (l_high l) latency in
  let h := match l_byOp l !! op with Some h => h | None => newHist (l_high l) (l_sig l) end in
  {| l_high := l_high l; l_sig := l_sig l;
     l_overall := h_RecordValue ns (l_overall l);
     l_byOp := <[op := h_RecordValue ns h]> (l_byOp l);
     l_errByOp := if isErr then <[op := default 0 (l_errByOp l !! op) +! 1]> (l_errByOp l) else l_errByOp l;
     l_errTotal := if isErr then l_errTotal l +! 1 else l_errTotal l |}.

(** ** recorder.go *)

Record Recorder := {
  r_high : Z;
  r_sig : Z;
  r_locals : list Local;
  r_prevSnap : gmap OpType HSnapshot;
  r_prevErr : gmap OpType Z
}.

Definition NewRecorder (significantFigures maxLatency : Z) : Recorder :=
  {| r_high := if maxLatency <=? 0 then defaultMaxLatency else maxLatency;
     r_sig := if (significantFigures <? 1) || (5 <? significantFigures) then defaultSigFigs
              else significantFigures;
     r_locals := []; r_prevSnap := ∅; r_prevErr := ∅ |}.

Definition add_local (r : Recorder) (l : Local) : Recorder :=
  {| r_high := r_high r; r_sig := r_sig r; r_locals := r_locals r ++ [l];
     r_prevSnap := r_prevSnap r; r_prevErr := r_prevErr r |}.

(** The new local's index stands for the pointer returned. *)
Definition Recorder_Local (r : Recorder) : Recorder * nat :=
  (add_local r (newLocal (r_high r) (r_sig r)), length (r_locals r)).

Record merged := {
  m_overall : H;
  m_byOp : gmap OpType H;
  m_errByOp : gmap OpType Z;
  m_errTotal : Z
}.

(** One round of [collect]'s loop; the inner loops visit every key once, so
    their order is immaterial. *)
Definition collect_local (high sig : Z) (m : merged) (l : Local) : merged :=
  {| m_overall := h_Merge (m_overall m) (l_overall l);
     m_byOp := merge (fun dst h => match h with
                                   | Some h => Some (h_Merge (default (newHist high sig) dst) h)
                                   | None => dst
                                   end) (m_byOp m) (l_byOp l);
     m_errByOp := union_with (fun x c => Some (x +! c)) (m_errByOp m) (l_errByOp l);
     m_errTotal := m_errTotal m +! l_errTotal l |}.

Definition collect (r : Recorder) : merged :=
  foldl (collect_local (r_high r) (r_sig r))
    {| m_overall := newHist (r_high r) (r_sig r); m_byOp := ∅; m_errByOp := ∅; m_errTotal := 0 |}
    (r_locals r).

Definition Snapshot (r : Recorder) (phase : Phase) (dur : Z) : RunResult :=
  let m := collect r in
  let total := h_TotalCount (m_overall m) in
  {| rr_RunID := ""; rr_Phase := phase; rr_Total := total; rr_Errors := m_errTotal m;
     rr_Duration := dur;
     rr_Throughput := if 0 <? dur then float_div (float_of_int total) (seconds dur) else float_of_int 0;
     rr_Overall := toPercentiles (m_overall m);
     rr_ByOp := toPercentiles <$> m_byOp m;
     rr_ClientBound := false |}.

Definition Merge (r other : Recorder) : Recorder :=
  let om := collect other in
  add_local r {| l_high := r_high r; l_sig := r_sig r; l_overall := m_overall om; l_byOp := m_byOp om;
                 l_errByOp := m_errByOp om; l_errTotal := m_errTotal om |}.

(** ** interval.go *)

Fixpoint delta_counts (cur prev : list Z) : list Z :=
  match cur with
  | [] => []
  | c :: cur' =>
      let '(d, prev') := match prev with [] => (c, []) | p :: prev' => (c - p, prev') end in
      (if d <? 0 then 0 else d) :: delta_counts cur' prev'
  end.

Definition deltaHist (cur : H) (prev : option HSnapshot) : H :=
  let cs := h_Export cur in
  match prev with
  | None => h_Import cs
  | Some p => h_Import {| hs_Lowest := hs_Lowest cs; hs_Highest := hs_Highest cs;
                          hs_SigFigs := hs_SigFigs cs;
                          hs_Counts := delta_counts (hs_Counts cs) (hs_Counts p) |}
  end.

Definition sorted_ops {A} (m : gmap OpType A) : list OpType :=
  sort_by String.leb (map fst (map_to_list m)).

(** One round of [TakeInterval]'s loop: the snapshot and the new interval
    state. *)
Definition interval_op (m : merged) (now dt : Z)
    (st : gmap OpType HSnapshot * gmap OpType Z * list LatencySnapshot) (op : OpType)
    : gmap OpType HSnapshot * gmap OpType Z * list LatencySnapshot :=
  let '(prevSnap, prevErr, out) := st in
  match m_byOp m !! op with
  | None => st
  | Some cur =>
      let delta := deltaHist cur (prevSnap !! op) in
      let err := default 0 (m_errByOp m !! op) in
      let errDelta := err -! default 0 (prevErr !! op) in
      (<[op := h_Export cur]> prevSnap, <[op := err]> prevErr,
       out ++ [{| ls_T := now; ls_OpType := op;
                  ls_Throughput := if 0 <? dt then float_div (float_of_int (h_TotalCount delta)) (seconds dt)
                                   else float_of_int 0;
                  ls_InFlight := 0; ls_Errors := errDelta; ls_Pct := toPercentiles delta |}])
  end.

Definition TakeInterval (r : Recorder) (now dt : Z) : Recorder * list LatencySnapshot :=
  let m := collect r in
  let '(ps, pe, out) := foldl (interval_op m now dt) (r_prevSnap r, r_prevErr r, []) (sorted_ops (m_byOp m)) in
  ({| r_high := r_high r; r_sig := r_sig r; r_locals := r_locals r; r_prevSnap := ps; r_prevErr := pe |}, out).

(** ** codec.go *)

Record wireEnvelope := {
  env_High : Z;
  env_Sig : Z;
  env_Overall : string;
  env_ByOp : gmap OpType string;
  env_ErrByOp : option (gmap OpType Z);
  env_ErrTotal : Z
}.

(** Every histogram of a map, or the first error. *)
Definition map_result {A B} (f : A -> result error B) (m : gmap OpType A) : result error (gmap OpType B) :=
  map_fold (fun op h acc =>
    acc <-? acc ;; b <-? f h ;; Ok (<[op := b]> acc)) (Ok ∅) m.

(** [wire] is JSON and base64 of the envelope. *)
Context (wire : wireEnvelope -> string) (unwire : string -> option wireEnvelope).

Definition Encode (r : Recorder) : result error string :=
  let m := collect r in
  overall <-? h_Encode (m_overall m) ;;
  byOp <-? map_result h_Encode (m_byOp m) ;;
  Ok (wire {| env_High := r_high r; env_Sig := r_sig r; env_Overall := overall; env_ByOp := byOp;
              env_ErrByOp := Some (m_errByOp m); env_ErrTotal := m_errTotal m |}).

Definition Decode (b : string) : result error Recorder :=
  match unwire b with
  | None => Err "unmarshal envelope"%string
  | Some env =>
      overall <-? h_Decode (env_Overall env) ;;
      byOp <-? map_result h_Decode (env_ByOp env) ;;
      let sig := if (env_Sig env <? 1) || (5 <? env_Sig env) then defaultSigFigs else env_Sig env in
      Ok {| r_high := env_High env; r_sig := sig; r_prevSnap := ∅; r_prevErr := ∅;
            r_locals := [{| l_high := env_High env; l_sig := sig; l_overall := overall; l_byOp := byOp;
                            l_errByOp := default ∅ (env_ErrByOp env); l_errTotal := env_ErrTotal env |}] |}
  end.
End recorder.
Arguments Local : clear implicits.
Arguments Recorder : clear implicits.
Arguments merged : clear implicits.

(** ** hlog.go *)

Definition tag_char (c : ascii) : ascii :=
  let n := nat_of_ascii c in
  if existsb (Nat.eqb n) [44; 32; 9; 13; 10]%nat then "_"%char else c.

(** The tag of an operation type: no commas, blanks or line breaks. *)
Definition tagFor (op : OpType) : string :=
  match str (map tag_char (txt op)) with
  | EmptyString => "op"
  | s => s
  end.

(** ** What a histogram and an aggregate hold *)

(** One recorded operation: type, latency, failed. *)
Definition event : Type := OpType * Z * bool.

Definition vals (high : Z) (evs : list event) : list Z := (fun e : event => clamp high e.1.2) <$> evs.
Definition sel (op : OpType) (evs : list event) : list event :=
  List.filter (fun e : event => String.eqb e.1.1 op) evs.
Definition fails (evs : list event) : Z := Z.of_nat (length (List.filter (fun e : event => e.2) evs)).

Lemma clamp_range high l : 0 <= high -> 0 <= clamp high l <= high.
Proof. intros Hh. unfold clamp. destruct (l <? 0) eqn:E; zbool; destruct (high <? _) eqn:E2; zbool; lia. Qed.

Lemma vals_app high a b : vals high (a ++ b) = vals high a ++ vals high b.
Proof. apply fmap_app. Qed.
Lemma sel_app op a b : sel op (a ++ b) = sel op a ++ sel op b.
Proof. apply List.filter_app. Qed.
Lemma fails_app a b : fails (a ++ b) = fails a + fails b.
Proof. unfold fails. rewrite List.filter_app, length_app. lia. Qed.
#[export] Hint Rewrite vals_app sel_app fails_app : golib.

#[export] Instance sel_perm op : Proper ((≡ₚ) ==> (≡ₚ)) (sel op).
Proof. intros l l'. apply filter_perm. Qed.
#[export] Instance vals_perm high : Proper ((≡ₚ) ==> (≡ₚ)) (vals high).
Proof. intros l l' Hp. unfold vals. by rewrite Hp. Qed.
#[export] Instance fails_perm : Proper ((≡ₚ) ==> (=)) fails.
Proof. intros l l' Hp. unfold fails. by rewrite (filter_perm _ _ _ Hp). Qed.

Section holds.
Context {H : Type} {HH : Histogram H} {HL : HistogramLaws H}.
Context (high sig : Z) (high_ok : 0 <= high).

Definition bucket_count (vs : list Z) (i : nat) : Z :=
  Z.of_nat (length (List.filter (fun v => Nat.eqb (h_bucket high sig v) i) vs)).

Definition counts_of (vs : list Z) : list Z := bucket_count vs <$> seq 0 (h_len high sig).

Definition hist_holds (vs : list Z) (h : H) : Prop :=
  h_Export h = {| hs_Lowest := 1; hs_Highest := high; hs_SigFigs := sig; hs_Counts := counts_of vs |}.

Lemma counts_of_lookup vs i : (i < h_len high sig)%nat -> counts_of vs !! i = Some (bucket_count vs i).
Proof. intros Hi. unfold counts_of. by rewrite list_lookup_fmap, lookup_seq_lt. Qed.

Lemma length_counts_of vs : length (counts_of vs) = h_len high sig.
Proof. unfold counts_of. by rewrite length_fmap, length_seq. Qed.

Lemma bucket_count_app vs ws i : bucket_count (vs ++ ws) i = bucket_count vs i + bucket_count ws i.
Proof. unfold bucket_count. rewrite List.filter_app, length_app. lia. Qed.

Lemma counts_of_app vs ws : counts_of (vs ++ ws) = zip_with Z.add (counts_of vs) (counts_of ws).
Proof.
  unfold counts_of. induction (seq 0 (h_len high sig)) as [|i l IH]; [done|].
  rewrite !fmap_cons. cbn [zip_with]. by rewrite bucket_count_app, IH.
Qed.

Lemma counts_of_snoc vs v :
  0 <= v <= high -> counts_of (vs ++ [v]) = alter (Z.add 1) (h_bucket high sig v) (counts_of vs).
Proof.
  intros Hv. pose proof (bucket_lt high sig v Hv) as Hlt. apply list_eq. intros i.
  destruct (decide (i < h_len high sig)%nat) as [Hi|Hi].
  - rewrite counts_of_lookup by done. rewrite bucket_count_app.
    destruct (decide (h_bucket high sig v = i)) as [<-|Hne].
    + rewrite list_lookup_alter_eq, counts_of_lookup by done. cbn. f_equal.
      unfold bucket_count. cbn. rewrite Nat.eqb_refl. cbn. lia.
    + rewrite list_lookup_alter_ne, counts_of_lookup by done. f_equal.
      unfold bucket_count at 2. cbn. apply Nat.eqb_neq in Hne. rewrite Hne. cbn. lia.
  - rewrite !lookup_ge_None_2; [done|rewrite length_alter|]; rewrite length_counts_of; lia.
Qed.

Lemma counts_of_perm vs ws : vs ≡ₚ ws -> counts_of vs = counts_of ws.
Proof.
  intros Hp. unfold counts_of. apply list_fmap_ext. intros _ i _. unfold bucket_count.
  by rewrite (filter_perm _ _ _ Hp).
Qed.

Lemma holds_new : hist_holds [] (newHist high sig).
Proof.
  unfold hist_holds, newHist. rewrite export_New. f_equal. unfold counts_of.
  generalize 0%nat. induction (h_len high sig) as [|n IH]; intros k; [done|].
  cbn [replicate seq]. rewrite fmap_cons. by rewrite <- IH.
Qed.

Lemma holds_record vs h v : hist_holds vs h -> 0 <= v <= high -> hist_holds (vs ++ [v]) (h_RecordValue v h).
Proof. intros Hh Hv. unfold hist_holds. by rewrite (export_Record v h _ _ _ Hh Hv), counts_of_snoc. Qed.

Lemma holds_merge vs ws h k : hist_holds vs h -> hist_holds ws k -> hist_holds (vs ++ ws) (h_Merge h k).
Proof.
  intros Hh Hk. unfold hist_holds. rewrite (export_Merge h k _ _ _ _ Hh Hk), counts_of_app; [done|].
  by rewrite !length_counts_of.
Qed.

Lemma holds_perm vs ws h : vs ≡ₚ ws -> hist_holds vs h -> hist_holds ws h.
Proof. unfold hist_holds. intros Hp ->. by rewrite (counts_of_perm _ _ Hp). Qed.

Lemma holds_percentiles vs h k : hist_holds vs h -> hist_holds vs k -> toPercentiles h = toPercentiles k.
Proof.
  intros Hh Hk. assert (E : h_Export h = h_Export k) by by rewrite Hh, Hk.
  unfold toPercentiles, msAt. rewrite !total_counts, E.
  rewrite (mean_export _ _ E), (max_export _ _ E). f_equal; by rewrite (quantile_export _ _ _ E).
Qed.

Lemma zsum_point n b k :
  (k <= b < k + n)%nat ->
  zsum ((fun i => Z.of_nat (length (if Nat.eqb b i then [0] else []))) <$> seq k n) = 1.
Proof.
  assert (Hz : forall n k, (b < k)%nat ->
    zsum ((fun i => Z.of_nat (length (if Nat.eqb b i then [0] else []))) <$> seq k n) = 0).
  { intros m. induction m as [|m IH]; intros j Hj; [done|]. cbn [seq]. rewrite fmap_cons. cbn [zsum].
    rewrite IH by lia. assert (Nat.eqb b j = false) as -> by (apply Nat.eqb_neq; lia). done. }
  revert k. induction n as [|n IH]; intros k Hk; [lia|]. cbn [seq]. rewrite fmap_cons. cbn [zsum].
  destruct (Nat.eqb b k) eqn:E.
  - apply Nat.eqb_eq in E. subst. rewrite Hz by lia. done.
  - apply Nat.eqb_neq in E. rewrite IH by lia. done.
Qed.

Lemma zsum_counts_of vs : Forall (fun v => 0 <= v <= high) vs -> zsum (counts_of vs) = Z.of_nat (length vs).
Proof.
  induction vs as [|v vs IH] using rev_ind; intros Hv.
  - unfold counts_of. generalize 0%nat. induction (h_len high sig) as [|n IHn]; intros k; [done|].
    cbn [seq]. rewrite fmap_cons. cbn [zsum]. rewrite IHn. done.
  - apply Forall_app in Hv as [Hvs Hv]. inversion Hv as [|? ? Hv1 _]; subst.
    assert (Hadd : zsum (counts_of (vs ++ [v])) = zsum (counts_of vs) + zsum (counts_of [v])).
    { rewrite counts_of_app. unfold counts_of. generalize (seq 0 (h_len high sig)). clear.
      intros l. induction l as [|i l IH]; [done|]. rewrite !fmap_cons. cbn [zip_with zsum]. lia. }
    rewrite Hadd, IH, length_app by done. cbn [length].
    enough (zsum (counts_of [v]) = 1) by lia.
    pose proof (bucket_lt high sig v Hv1) as Hb.
    rewrite <- (zsum_point (h_len high sig) (h_bucket high sig v) 0) by lia.
    unfold counts_of. f_equal. apply list_fmap_ext. intros _ i _. unfold bucket_count. cbn.
    by destruct (Nat.eqb _ i).
Qed.

Lemma holds_total vs h :
  hist_holds vs h -> Forall (fun v => 0 <= v <= high) vs -> h_TotalCount h = Z.of_nat (length vs).
Proof. intros Hh Hv. rewrite total_counts, Hh. cbn. by apply zsum_counts_of. Qed.

Lemma vals_range evs : Forall (fun v => 0 <= v <= high) (vals high evs).
Proof. apply Forall_fmap, Forall_true. intros e. by apply clamp_range. Qed.

(** An aggregate that holds exactly the events [evs]. *)
Record agg_holds (evs : list event) (overall : H) (byOp : gmap OpType H) (errByOp : gmap OpType Z)
    (errTotal : Z) : Prop := {
  agg_overall : hist_holds (vals high evs) overall;
  agg_byOp op : match byOp !! op with
                | Some h => sel op evs <> [] /\ hist_holds (vals high (sel op evs)) h
                | None => sel op evs = []
                end;
  agg_errByOp op : default 0 (errByOp !! op) = wrap64 (fails (sel op evs));
  agg_errTotal : errTotal = wrap64 (fails evs)
}.

Definition local_holds (evs : list event) (l : Local H) : Prop :=
  agg_holds evs (l_overall l) (l_byOp l) (l_errByOp l) (l_errTotal l).

Definition merged_holds (evs : list event) (m : merged H) : Prop :=
  agg_holds evs (m_overall m) (m_byOp m) (m_errByOp m) (m_errTotal m).

Lemma local_holds_new : local_holds [] (newLocal high sig).
Proof.
  split; cbn [newLocal l_overall l_byOp l_errByOp l_errTotal].
  - apply holds_new.
  - intros op. by rewrite lookup_empty.
  - intros op. by rewrite lookup_empty.
  - done.
Qed.

Lemma sel_single op o l e : sel op [(o, l, e)] = if String.eqb o op then [(o, l, e)] else [].
Proof. reflexivity. Qed.

Lemma local_holds_record evs l op lat e :
  l_high l = high -> l_sig l = sig -> local_holds evs l ->
  local_holds (evs ++ [(op, lat, e)]) (Local_Record op lat e l) /\
  l_high (Local_Record op lat e l) = high /\ l_sig (Local_Record op lat e l) = sig.
Proof.
  intros Eh Es [Ho Hb He Ht]. split; [|done].
  pose proof (clamp_range high lat high_ok) as Hc.
  split; unfold Local_Record; rewrite ?Eh, ?Es; cbn [l_overall l_byOp l_errByOp l_errTotal].
  - autorewrite with golib. by apply holds_record.
  - intros o. rewrite sel_app, sel_single. specialize (Hb o). destruct (decide (op = o)) as [<-|Hne].
    + rewrite lookup_insert_eq, String.eqb_refl, vals_app. split; [by destruct (sel op evs)|].
      apply holds_record; [|done].
      destruct (l_byOp l !! op); [by destruct Hb|]. rewrite Hb. apply holds_new.
    + rewrite lookup_insert_ne by done. apply String.eqb_neq in Hne. by rewrite Hne, app_nil_r.
  - intros o. rewrite sel_app, sel_single, fails_app. specialize (He o).
    destruct e.
    + destruct (decide (op = o)) as [<-|Hne].
      * rewrite lookup_insert_eq, String.eqb_refl. cbn [default fails]. unfold i64_add.
        by rewrite He, wrap64_add_l.
      * rewrite lookup_insert_ne by done. apply String.eqb_neq in Hne. rewrite Hne, He. f_equal.
        unfold fails at 3. cbn. lia.
    + rewrite He. f_equal. destruct (String.eqb op o); unfold fails at 3; cbn; lia.
  - rewrite fails_app, Ht. destruct e; unfold i64_add; rewrite ?wrap64_add_l; f_equal; unfold fails at 3; cbn; lia.
Qed.

Lemma collect_local_holds evs evs' m l :
  merged_holds evs m -> local_holds evs' l -> merged_holds (evs ++ evs') (collect_local high sig m l).
Proof.
  intros [Ho Hb He Ht] [Ho' Hb' He' Ht'].
  split; cbn [collect_local m_overall m_byOp m_errByOp m_errTotal].
  - rewrite vals_app. by apply holds_merge.
  - intros op. rewrite lookup_merge, sel_app. specialize (Hb op). specialize (Hb' op).
    destruct (m_byOp m !! op) as [h|], (l_byOp l !! op) as [h'|]; cbn.
    + destruct Hb as [Hn Hh], Hb' as [Hn' Hh']. split; [by destruct (sel op evs)|].
      rewrite vals_app. by apply holds_merge.
    + rewrite Hb', app_nil_r. done.
    + rewrite Hb. cbn. destruct Hb' as [Hn' Hh']. split; [done|].
      exact (holds_merge [] _ _ _ holds_new Hh').
    + by rewrite Hb, Hb'.
  - intros op. rewrite lookup_union_with, sel_app, fails_app. specialize (He op). specialize (He' op).
    assert (Hadd : wrap64 (fails (sel op evs) + fails (sel op evs'))
                   = wrap64 (wrap64 (fails (sel op evs)) + wrap64 (fails (sel op evs')))).
    { rewrite wrap64_add_l, (Z.add_comm _ (wrap64 _)), wrap64_add_l. f_equal. lia. }
    rewrite Hadd, <- He, <- He'.
    pose proof (wrap64_range (fails (sel op evs))) as R1. rewrite <- He in R1.
    pose proof (wrap64_range (fails (sel op evs'))) as R2. rewrite <- He' in R2.
    destruct (m_errByOp m !! op), (l_errByOp l !! op); cbn in R1, R2 |- *; unfold i64_add;
      rewrite ?Z.add_0_r, ?Z.add_0_l, ?wrap64_id by done; done.
  - rewrite Ht, Ht', fails_app. unfold i64_add. rewrite wrap64_add_l.
    rewrite (Z.add_comm _ (wrap64 _)), wrap64_add_l. f_equal. lia.
Qed.

(** Recorders whose locals hold the given events. *)
Definition recorder_holds (evss : list (list event)) (r : Recorder H) : Prop :=
  r_high r = high /\ r_sig r = sig /\ Forall2 local_holds evss (r_locals r).

Lemma collect_holds evss r : recorder_holds evss r -> merged_holds (mjoin evss) (collect r).
Proof.
  intros (Eh & Es & Hl). unfold collect. rewrite Eh, Es.
  assert (Hgen : forall evs0 m, merged_holds evs0 m ->
    merged_holds (evs0 ++ mjoin evss) (foldl (collect_local high sig) m (r_locals r))).
  { induction Hl as [|evs l evss' ls Hev _ IH]; intros evs0 m Hm; cbn [foldl mjoin list_join].
    - by rewrite app_nil_r.
    - rewrite app_assoc. apply IH. by apply collect_local_holds. }
  apply (Hgen []). pose proof local_holds_new as [Ho Hb He Ht]. by split.
Qed.

Lemma merged_holds_snapshot evs evs' (m m' : merged H) :
  evs ≡ₚ evs' -> merged_holds evs m -> merged_holds evs' m' ->
  toPercentiles (m_overall m) = toPercentiles (m_overall m') /\
  toPercentiles <$> m_byOp m = toPercentiles <$> m_byOp m' /\
  m_errTotal m = m_errTotal m' /\
  h_TotalCount (m_overall m) = Z.of_nat (length evs) /\
  h_TotalCount (m_overall m') = Z.of_nat (length evs).
Proof.
  intros Hp [Ho Hb _ Ht] [Ho' Hb' _ Ht']. split_and!.
  - eapply holds_percentiles; [|exact Ho']. eapply holds_perm; [|exact Ho]. by rewrite Hp.
  - apply map_eq. intros op. rewrite !lookup_fmap. specialize (Hb op). specialize (Hb' op).
    assert (Hs : sel op evs ≡ₚ sel op evs') by by rewrite Hp.
    destruct (m_byOp m !! op) as [h|], (m_byOp m' !! op) as [h'|]; cbn; [| | |done].
    + f_equal. eapply holds_percentiles; [|apply Hb'].
      eapply holds_perm; [|apply Hb]. by rewrite Hs.
    + exfalso. destruct Hb as [Hn _]. rewrite Hb' in Hs. by apply Permutation_nil_r in Hs.
    + exfalso. destruct Hb' as [Hn _]. rewrite Hb in Hs. by apply Permutation_nil_l in Hs.
  - by rewrite Ht, Ht', Hp.
  - rewrite (holds_total (vals high evs)); [|done|apply vals_range]. unfold vals. by rewrite length_fmap.
  - rewrite (holds_total (vals high evs')); [|done|apply vals_range]. unfold vals. by rewrite length_fmap, Hp.
Qed.
End holds.

Lemma lookup_split_alter {A} (l : list A) i x (f : A -> A) :
  l !! i = Some x -> exists l1 l2, l = l1 ++ x :: l2 /\ alter f i l = l1 ++ f x :: l2.
Proof.
  intros Hi. exists (take i l), (drop (S i) l). split; [by rewrite take_drop_middle|].
  rewrite <- (take_drop_middle l i x Hi) at 1.
  rewrite alter_app_r_alt by (rewrite length_take; lia).
  rewrite length_take_le by (apply lookup_lt_Some in Hi; lia). by rewrite Nat.sub_diag.
Qed.

(** ** A recording session *)

(** Registering a local, and a goroutine recording into its local. *)
Inductive action := NewL | Rec (i : nat) (e : event).

Section session.
Context {H : Type} {HH : Histogram H} {HL : HistogramLaws H}.

Definition apply_action (r : Recorder H) (a : action) : Recorder H :=
  match a with
  | NewL => (Recorder_Local r).1
  | Rec i e => {| r_high := r_high r; r_sig := r_sig r;
                  r_locals := alter (Local_Record e.1.1 e.1.2 e.2) i (r_locals r);
                  r_prevSnap := r_prevSnap r; r_prevErr := r_prevErr r |}
  end.

Definition run_actions (r : Recorder H) (acts : list action) : Recorder H := foldl apply_action r acts.

(** The events recorded, given the number of locals at the start. *)
Fixpoint events_of (n : nat) (acts : list action) : list event :=
  match acts with
  | [] => []
  | NewL :: acts => events_of (S n) acts
  | Rec i e :: acts => if (i <? n)%nat then e :: events_of n acts else events_of n acts
  end.

Context (high sig : Z) (high_ok : 0 <= high).

(** The locals' own geometry is the recorder's. *)
Definition session_holds (evs : list event) (r : Recorder H) : Prop :=
  exists evss, recorder_holds high sig evss r /\ mjoin evss ≡ₚ evs /\
    Forall (fun l => l_high l = high /\ l_sig l = sig) (r_locals r).

Lemma session_holds_action evs r a n :
  session_holds evs r -> length (r_locals r) = n ->
  session_holds (evs ++ events_of n [a]) (apply_action r a) /\
  length (r_locals (apply_action r a)) = (match a with NewL => S n | Rec _ _ => n end).
Proof.
  intros (evss & (Eh & Es & Hl) & Hp & Hg) Hn. destruct a as [|i e].
  - split; [|cbn; rewrite length_app; cbn; lia]. exists (evss ++ [[]]).
    unfold recorder_holds; split_and!; [done|done| | |].
    + cbn. apply Forall2_app; [done|]. constructor; [|done]. rewrite Eh, Es. by apply local_holds_new.
    + rewrite join_app. cbn. by rewrite !app_nil_r.
    + cbn. apply Forall_app. split; [done|]. by repeat constructor.
  - split; [|cbn; by rewrite length_alter]. cbn [events_of].
    destruct (i <? n)%nat eqn:E.
    + apply Nat.ltb_lt in E. rewrite <- Hn in E. apply lookup_lt_is_Some in E as [l Hi].
      destruct (Forall2_lookup_r _ _ _ _ _ Hl Hi) as (evs1 & Hi1 & Hl1).
      destruct (proj1 (Forall_lookup _ _) Hg _ _ Hi) as [Gh Gs].
      destruct e as [[op lat] er].
      destruct (local_holds_record high sig high_ok evs1 l op lat er Gh Gs Hl1) as (Hl2 & Gh2 & Gs2).
      exists (alter (fun evs : list event => evs ++ [(op, lat, er)]) i evss). unfold recorder_holds. split_and!; [done|done| | |].
      * cbn. apply Forall2_alter; [exact Hl|]. intros x y Hx Hy Hxy.
        rewrite Hi1 in Hx. rewrite Hi in Hy. by simplify_eq.
      * rewrite <- Hp. destruct (lookup_split_alter _ _ _ (fun evs : list event => evs ++ [(op, lat, er)]) Hi1) as (l1 & l2 & El & Ea).
        rewrite Ea, El, !join_app. cbn [mjoin list_join]. rewrite <- !app_assoc. do 2 f_equiv.
        apply Permutation_app_comm.
      * cbn. apply Forall_alter; [done|]. intros x Hx _. rewrite Hi in Hx. by simplify_eq.
    + apply Nat.ltb_ge in E. exists evss. rewrite app_nil_r. cbn.
      assert (alter (Local_Record e.1.1 e.1.2 e.2) i (r_locals r) = r_locals r) as El.
      { apply list_eq. intros j. destruct (decide (j = i)) as [->|Hne].
        - rewrite list_lookup_alter_eq, lookup_ge_None_2 by lia. done.
        - by rewrite list_lookup_alter_ne. }
      unfold recorder_holds. cbn. by rewrite El.
Qed.

Lemma session_holds_actions acts evs r n :
  session_holds evs r -> length (r_locals r) = n ->
  session_holds (evs ++ events_of n acts) (run_actions r acts).
Proof.
  revert evs r n. induction acts as [|a acts IH]; intros evs r n Hs Hn; cbn [run_actions foldl].
  { by rewrite app_nil_r. }
  destruct (session_holds_action evs r a n Hs Hn) as [Hs' Hn'].
  specialize (IH _ _ _ Hs' Hn').
  assert (evs ++ events_of n (a :: acts)
          = (evs ++ events_of n [a]) ++ events_of (match a with NewL => S n | Rec _ _ => n end) acts) as ->;
    [|exact IH].
  rewrite <- app_assoc. f_equal. destruct a as [|i e]; [done|]. cbn [events_of]. by destruct (i <? n)%nat.
Qed.

Lemma session_collect evs r : session_holds evs r -> exists evs', evs' ≡ₚ evs /\ merged_holds high sig evs' (collect r).
Proof. intros (evss & Hr & Hp & _). exists (mjoin evss). split; [done|]. by apply collect_holds. Qed.

Lemma session_snapshot evs r r' phase dur :
  session_holds evs r -> session_holds evs r' ->
  Snapshot r phase dur = Snapshot r' phase dur /\
  rr_Total (Snapshot r phase dur) = Z.of_nat (length evs) /\
  rr_Errors (Snapshot r phase dur) = wrap64 (fails evs).
Proof.
  intros Hr Hr'. destruct (session_collect _ _ Hr) as (e1 & P1 & M1).
  destruct (session_collect _ _ Hr') as (e2 & P2 & M2).
  assert (Hp : e1 ≡ₚ e2) by by rewrite P1, P2.
  destruct (merged_holds_snapshot high sig high_ok _ _ _ _ Hp M1 M2) as (E1 & E2 & E3 & E4 & E5).
  unfold Snapshot. rewrite E1, E2, E3, E4, E5. cbn. split_and!; [done|by rewrite P1|].
  rewrite <- E3, (agg_errTotal _ _ _ _ _ _ _ M1), P1. done.
Qed.
End session.

Lemma NewRecorder_holds {H} {HH : Histogram H} {HL : HistogramLaws H} sf ml :
  session_holds (r_high (NewRecorder (H := H) sf ml)) (r_sig (NewRecorder (H := H) sf ml)) [] (NewRecorder sf ml).
Proof. exists []. by repeat split. Qed.

Lemma NewRecorder_high {H} {HH : Histogram H} sf ml : 0 <= r_high (NewRecorder (H := H) sf ml).
Proof. cbn. destruct (ml <=? 0) eqn:E; zbool; [done|lia]. Qed.

(** One local that records the events [evs]. *)
Lemma recorded_session {H} {HH : Histogram H} {HL : HistogramLaws H} sf ml evs :
  session_holds (r_high (NewRecorder (H := H) sf ml)) (r_sig (NewRecorder (H := H) sf ml)) evs
    (run_actions (NewRecorder (H := H) sf ml) (NewL :: map (Rec 0) evs)).
Proof.
  pose proof (session_holds_actions _ _ (NewRecorder_high (H := H) sf ml) (NewL :: map (Rec 0) evs) [] _ 0
    (NewRecorder_holds sf ml) eq_refl) as Hs.
  cbn [app] in Hs.
  assert (Hev : events_of 0 (NewL :: map (Rec 0) evs) = evs).
  { cbn [events_of]. clear. induction evs as [|e evs IH]; [done|]. cbn. by rewrite IH. }
  by rewrite Hev in Hs.
Qed.

(** The recorder is exact for any sharding and interleaving: whatever
    number of goroutines registered locals and in whatever order they recorded,
    the snapshot (counts, errors, throughput and every percentile, overall and
    per operation type) is the one a single local recording all the events
    would give; its total is the number of events recorded and its errors the
    number that failed. *)
Theorem sharded_recording_exact {H} {HH : Histogram H} {HL : HistogramLaws H}
    (sf ml : Z) (acts : list action) (phase : Phase) (dur : Z) :
  let r := run_actions (NewRecorder (H := H) sf ml) acts in
  let evs := events_of 0 acts in
  Snapshot r phase dur
    = Snapshot (run_actions (NewRecorder (H := H) sf ml) (NewL :: map (Rec 0) evs)) phase dur /\
  rr_Total (Snapshot r phase dur) = Z.of_nat (length evs) /\
  rr_Errors (Snapshot r phase dur) = wrap64 (fails evs).
Proof.
  intros r evs.
  pose proof (session_holds_actions _ _ (NewRecorder_high (H := H) sf ml) acts [] _ 0 (NewRecorder_holds sf ml) eq_refl) as H1.
  pose proof (recorded_session (H := H) sf ml evs) as H2.
  cbn [app] in H1.
  eapply session_snapshot; [apply (NewRecorder_high (H := H) sf ml)|exact H1|exact H2].
Qed.

(** ** Shipping and merging *)

Lemma map_result_spec {A B} (f : A -> result error B) (m : gmap OpType A) :
  (forall op h, m !! op = Some h -> exists b, f h = Ok b) ->
  exists m', map_result f m = Ok m' /\
    forall op, match m !! op with
               | Some h => exists b, f h = Ok b /\ m' !! op = Some b
               | None => m' !! op = None
               end.
Proof.
  unfold map_result.
  induction m as [|op h m Hop Hfirst IH] using map_first_key_ind; intros Hf.
  { exists ∅. rewrite map_fold_empty. split; [done|]. intros op. by rewrite lookup_empty. }
  rewrite map_fold_insert_first_key by done.
  destruct IH as (m' & -> & Hm').
  { intros o k Ho. apply (Hf o). by rewrite lookup_insert_ne by congruence. }
  destruct (Hf op h) as [b Hb]; [by rewrite lookup_insert_eq|]. rewrite Hb.
  eexists. split; [done|]. intros o. destruct (decide (op = o)) as [<-|Hne].
  - rewrite !lookup_insert_eq. eauto.
  - rewrite !lookup_insert_ne by done. apply Hm'.
Qed.

Section shipping.
Context {H : Type} {HH : Histogram H} {HL : HistogramLaws H}.
Context (wire : wireEnvelope -> string) (unwire : string -> option wireEnvelope).
Context (unwire_wire : forall env, unwire (wire env) = Some env).
Context (high sig : Z) (high_ok : 0 <= high) (sig_ok : 1 <= sig <= 5).

Lemma agg_holds_perm evs evs' ov (bo : gmap OpType H) eb et :
  evs ≡ₚ evs' -> agg_holds high sig evs ov bo eb et -> agg_holds high sig evs' ov bo eb et.
Proof.
  intros Hp [Ho Hb He Ht]. split.
  - eapply holds_perm; [|exact Ho]. by rewrite Hp.
  - intros op. specialize (Hb op). assert (Hs : sel op evs ≡ₚ sel op evs') by by rewrite Hp.
    destruct (bo !! op) as [h|].
    + destruct Hb as [Hn Hh]. split.
      * intros E. rewrite E in Hs. by apply Permutation_nil_r in Hs.
      * eapply holds_perm; [|exact Hh]. by rewrite Hs.
    + rewrite Hb in Hs. by apply Permutation_nil_l in Hs.
  - intros op. by rewrite He, Hp.
  - by rewrite Ht, Hp.
Qed.

(** Encoding succeeds, and decoding gives a recorder that holds the same. *)
Lemma Encode_Decode evs r :
  session_holds high sig evs r ->
  exists b r', Encode wire r = Ok b /\ Decode unwire b = Ok r' /\ session_holds high sig evs r'.
Proof.
  intros Hs. destruct (session_collect high sig evs r Hs) as (evs' & Hp & Hm).
  apply (agg_holds_perm _ _ _ _ _ _ Hp) in Hm. destruct Hm as [Ho Hb He Ht].
  destruct Hs as (_ & (Eh & Es & _) & _). unfold Encode.
  destruct (encode_total (m_overall (collect r))) as [ob Hob]. rewrite Hob.
  destruct (map_result_spec h_Encode (m_byOp (collect r))) as (bs & -> & Hbs);
    [intros; apply encode_total|].
  match goal with |- exists b r', Ok (wire ?env) = Ok b /\ _ =>
    enough (exists r', Decode unwire (wire env) = Ok r' /\ session_holds high sig evs r')
      as (r' & ? & ?) by eauto 6 end.
  unfold Decode. rewrite unwire_wire. cbn [env_Overall env_ByOp env_Sig env_High env_ErrByOp env_ErrTotal].
  destruct (decode_Encode _ _ Hob) as (h' & -> & Hh').
  assert (Hdec : forall op b, bs !! op = Some b -> exists h, h_Decode b = Ok h).
  { intros op b Hop. specialize (Hbs op). destruct (m_byOp (collect r) !! op); [|congruence].
    destruct Hbs as (b' & Hb' & Hop'). assert (b' = b) as -> by congruence.
    destruct (decode_Encode _ _ Hb') as (k & Hk & _). by exists k. }
  destruct (map_result_spec h_Decode bs Hdec) as (ks & -> & Hks).
  rewrite Eh, Es.
  destruct ((sig <? 1) || (5 <? sig)) eqn:E; [apply orb_true_iff in E as [?|?]; zbool; lia|].
  eexists. split; [done|]. exists [evs]. unfold recorder_holds. cbn. split_and!; [done|done| |by rewrite app_nil_r|].
  2: { by repeat constructor. }
  constructor; [|done]. split; cbn.
  - unfold hist_holds in *. by rewrite Hh'.
  - intros op. specialize (Hb op). specialize (Hbs op). specialize (Hks op).
    destruct (m_byOp (collect r) !! op) as [h|]; [|by rewrite Hbs in Hks; rewrite Hks].
    destruct Hbs as (b & Hb1 & Hb2). rewrite Hb2 in Hks. destruct Hks as (k & Hk & ->).
    destruct (decode_Encode _ _ Hb1) as (k' & Hk' & Hexp).
    assert (k' = k) as -> by congruence.
    split; [apply Hb|]. unfold hist_holds. rewrite Hexp. apply Hb.
  - exact He.
  - exact Ht.
Qed.

Lemma Merge_holds evs evs' r r' :
  session_holds high sig evs r -> session_holds high sig evs' r' ->
  session_holds high sig (evs ++ evs') (Merge r r').
Proof.
  intros (evss & (Eh & Es & Hl) & Hp & Hg) Hs'.
  destruct (session_collect high sig _ _ Hs') as (e2 & P2 & M2).
  apply (agg_holds_perm _ _ _ _ _ _ P2) in M2.
  exists (evss ++ [evs']). unfold recorder_holds. cbn. split_and!; [done|done| | |].
  - apply Forall2_app; [done|]. constructor; [|done]. destruct M2 as [? ? ? ?]. by split.
  - rewrite join_app. cbn. by rewrite app_nil_r, Hp.
  - apply Forall_app. split; [done|]. by repeat constructor.
Qed.
End shipping.

(** ** Interval deltas *)

Definition snap_count (op : OpType) (snaps : list LatencySnapshot) : Z :=
  zsum ((fun s => pct_Count (ls_Pct s)) <$> List.filter (fun s => String.eqb (ls_OpType s) op) snaps).
Definition snap_errors (op : OpType) (snaps : list LatencySnapshot) : Z :=
  zsum (ls_Errors <$> List.filter (fun s => String.eqb (ls_OpType s) op) snaps).

Lemma snap_count_app op a b : snap_count op (a ++ b) = snap_count op a + snap_count op b.
Proof. unfold snap_count. by rewrite List.filter_app, fmap_app, zsum_app. Qed.
Lemma snap_errors_app op a b : snap_errors op (a ++ b) = snap_errors op a + snap_errors op b.
Proof. unfold snap_errors. by rewrite List.filter_app, fmap_app, zsum_app. Qed.

Lemma delta_counts_app c1 c2 :
  length c1 = length c2 -> Forall (fun z => 0 <= z) c2 ->
  delta_counts (zip_with Z.add c1 c2) c1 = c2.
Proof.
  revert c2. induction c1 as [|x c1 IH]; intros [|y c2] Hl Hf; try done.
  inversion Hf as [|? ? Hy Hf']; subst. cbn. rewrite IH by (done || (cbn in Hl; lia)).
  f_equal. destruct (x + y - x <? 0) eqn:E; zbool; lia.
Qed.

Lemma bind_sub_err x y a b :
  x = wrap64 (a + b) -> y = wrap64 a -> x -! y = wrap64 b.
Proof.
  intros -> ->. unfold i64_sub, Z.sub. rewrite wrap64_add_l.
  assert (Hm : (a + b + - wrap64 a + 2^63) mod 2^64 = (b + 2^63) mod 2^64).
  { replace (a + b + - wrap64 a + 2^63) with (a - wrap64 a + (b + 2^63)) by lia.
    rewrite <- Zplus_mod_idemp_l, Zminus_mod, wrap64_mod, <- Zminus_mod, Z.sub_diag. done. }
  unfold wrap64 at 1 3. by rewrite Hm.
Qed.

Section interval.
Context {H : Type} {HH : Histogram H} {HL : HistogramLaws H}.
Context (high sig : Z) (high_ok : 0 <= high).

(** The interval state remembers exactly the events [evs]. *)
Definition prev_holds (evs : list event) (ps : gmap OpType HSnapshot) (pe : gmap OpType Z) : Prop :=
  (forall op, match ps !! op with
              | Some s => s = {| hs_Lowest := 1; hs_Highest := high; hs_SigFigs := sig;
                                 hs_Counts := counts_of high sig (vals high (sel op evs)) |}
              | None => sel op evs = []
              end) /\
  (forall op, default 0 (pe !! op) = wrap64 (fails (sel op evs))).

Lemma counts_of_nonneg vs : Forall (fun z => 0 <= z) (counts_of high sig vs).
Proof. unfold counts_of. apply Forall_fmap, Forall_true. intros i. cbn. unfold bucket_count. lia. Qed.

Lemma deltaHist_total old new cur prev :
  hist_holds high sig (vals high (old ++ new)) cur ->
  match prev with
  | Some s => s = {| hs_Lowest := 1; hs_Highest := high; hs_SigFigs := sig;
                     hs_Counts := counts_of high sig (vals high old) |}
  | None => old = []
  end ->
  h_TotalCount (deltaHist cur prev) = Z.of_nat (length new).
Proof.
  intros Hcur Hprev. unfold deltaHist.
  assert (Hlen : forall vs, length (counts_of high sig vs) = h_len high sig) by apply length_counts_of.
  destruct prev as [s|].
  - subst s. unfold hist_holds in Hcur. rewrite Hcur.
    cbn [hs_Lowest hs_Highest hs_SigFigs hs_Counts].
    rewrite vals_app, counts_of_app, delta_counts_app by (apply counts_of_nonneg || by rewrite !Hlen).
    rewrite total_counts, export_Import by (done || apply Hlen). cbn [hs_Counts].
    rewrite zsum_counts_of by (by apply vals_range). unfold vals. by rewrite length_fmap.
  - subst old. cbn [app] in Hcur. unfold hist_holds in Hcur.
    rewrite total_counts, export_Import; rewrite Hcur; cbn [hs_Counts hs_Highest hs_SigFigs hs_Lowest]; [|apply Hlen|done].
    rewrite zsum_counts_of by (by apply vals_range). unfold vals. by rewrite length_fmap.
Qed.

(** Over distinct operation types the loop adds one snapshot per type. *)
Lemma interval_fold m now dt old new ops ps pe out :
  merged_holds high sig (old ++ new) m -> prev_holds old ps pe ->
  NoDup ops -> (forall op, op ∈ ops -> is_Some (m_byOp m !! op)) ->
  let '(ps', pe', out') := foldl (interval_op m now dt) (ps, pe, out) ops in
  (forall op, op ∉ ops -> ps' !! op = ps !! op /\ pe' !! op = pe !! op) /\
  (forall op, op ∈ ops -> ps' !! op = h_Export <$> m_byOp m !! op /\
                          pe' !! op = Some (default 0 (m_errByOp m !! op))) /\
  exists snaps, out' = out ++ snaps /\ ls_OpType <$> snaps = ops /\
    Forall (fun s => pct_Count (ls_Pct s) = Z.of_nat (length (sel (ls_OpType s) new)) /\
                     ls_Errors s = wrap64 (fails (sel (ls_OpType s) new))) snaps.
Proof.
  intros Hm Hprev. revert ps pe out Hprev.
  assert (Hgen : forall ps pe out,
    (forall op, op ∈ ops -> match ps !! op with
      | Some s => s = {| hs_Lowest := 1; hs_Highest := high; hs_SigFigs := sig;
                         hs_Counts := counts_of high sig (vals high (sel op old)) |}
      | None => sel op old = [] end /\ default 0 (pe !! op) = wrap64 (fails (sel op old))) ->
    NoDup ops -> (forall op, op ∈ ops -> is_Some (m_byOp m !! op)) ->
    let '(ps', pe', out') := foldl (interval_op m now dt) (ps, pe, out) ops in
    (forall op, op ∉ ops -> ps' !! op = ps !! op /\ pe' !! op = pe !! op) /\
    (forall op, op ∈ ops -> ps' !! op = h_Export <$> m_byOp m !! op /\
                            pe' !! op = Some (default 0 (m_errByOp m !! op))) /\
    exists snaps, out' = out ++ snaps /\ ls_OpType <$> snaps = ops /\
      Forall (fun s => pct_Count (ls_Pct s) = Z.of_nat (length (sel (ls_OpType s) new)) /\
                       ls_Errors s = wrap64 (fails (sel (ls_OpType s) new))) snaps).
  2: { intros ps pe out [P1 P2]. apply Hgen. intros op _. split; [apply P1|apply P2]. }
  induction ops as [|op ops IH]; intros ps pe out Hp Hnd Hin.
  { cbn. split_and!; [done|by intros op Hop%elem_of_nil|]. exists []. by rewrite app_nil_r. }
  inversion Hnd as [|? ? Hnot Hnd']; subst. cbn [foldl]. unfold interval_op at 2.
  destruct (Hin op ltac:(left)) as [cur Hcur]. rewrite Hcur.
  destruct (Hp op ltac:(left)) as [Hp1 Hp2].
  destruct Hm as [_ Hb He _]. pose proof (Hb op) as Hbop. rewrite Hcur in Hbop. destruct Hbop as [_ Hh].
  rewrite sel_app in Hh.
  assert (Htot : h_TotalCount (deltaHist cur (ps !! op)) = Z.of_nat (length (sel op new)))
    by (eapply deltaHist_total; [exact Hh|exact Hp1]).
  match goal with |- context [foldl _ (?ps1, ?pe1, ?out1) ops] => specialize (IH ps1 pe1 out1) end.
  destruct (foldl _ _ ops) as [[ps' pe'] out'].
  destruct IH as (I1 & I2 & snaps & -> & I3 & I4).
  { intros o Ho. assert (op <> o) by congruence. rewrite !lookup_insert_ne by done. apply Hp. by right. }
  { done. }
  { intros o Ho. apply Hin. by right. }
  split_and!.
  - intros o Ho. apply not_elem_of_cons in Ho as [Ho1 Ho2].
    destruct (I1 o Ho2) as [-> ->]. by rewrite !lookup_insert_ne by done.
  - intros o [->|Ho]%elem_of_cons; [|by apply I2].
    destruct (I1 op Hnot) as [-> ->]. by rewrite !lookup_insert_eq, Hcur.
  - eexists. split; [by rewrite <- app_assoc|]. split; [cbn; by f_equal|]. constructor; [|done].
    cbn. split; [done|]. pose proof (He op) as Heop. rewrite sel_app, fails_app in Heop.
    by eapply bind_sub_err.
Qed.

Lemma sorted_ops_spec {A} (m : gmap OpType A) :
  NoDup (sorted_ops m) /\ forall op, op ∈ sorted_ops m <-> is_Some (m !! op).
Proof.
  unfold sorted_ops. split.
  - rewrite sort_by_perm. apply NoDup_fst_map_to_list.
  - intros op. rewrite sort_by_perm. rewrite list_elem_of_fmap. split.
    + intros ([o a] & -> & Ha%elem_of_map_to_list). by exists a.
    + intros [a Ha]. exists (op, a). split; [done|]. by apply elem_of_map_to_list.
Qed.

Lemma filter_unique_op op (snaps : list LatencySnapshot) :
  NoDup (ls_OpType <$> snaps) ->
  match List.filter (fun s => String.eqb (ls_OpType s) op) snaps with
  | [] => op ∉ ls_OpType <$> snaps
  | [s] => ls_OpType s = op /\ s ∈ snaps
  | _ => False
  end.
Proof.
  induction snaps as [|s snaps IH]; cbn; [intros _; by apply not_elem_of_nil|].
  intros Hnd. inversion Hnd as [|? ? Hnot Hnd']; subst. specialize (IH Hnd').
  destruct (String.eqb (ls_OpType s) op) eqn:E.
  - apply String.eqb_eq in E. subst op.
    destruct (List.filter _ snaps) as [|s' [|]]; [|destruct IH as [E' Hs']|done].
    + split; [done|left].
    + apply Hnot. rewrite <- E'. by apply list_elem_of_fmap_2.
  - apply String.eqb_neq in E.
    destruct (List.filter _ snaps) as [|s' [|]]; [| |done].
    + apply not_elem_of_cons. split; [congruence|done].
    + destruct IH. split; [done|by right].
Qed.

(** One call: it reports per type exactly the events since the previous one,
    and remembers all events up to now. *)
Lemma TakeInterval_spec old new r now dt :
  session_holds high sig (old ++ new) r -> prev_holds old (r_prevSnap r) (r_prevErr r) ->
  let '(r', snaps) := TakeInterval r now dt in
  session_holds high sig (old ++ new) r' /\ prev_holds (old ++ new) (r_prevSnap r') (r_prevErr r') /\
  length (r_locals r') = length (r_locals r) /\
  forall op, snap_count op snaps = Z.of_nat (length (sel op new)) /\
             snap_errors op snaps = wrap64 (fails (sel op new)).
Proof.
  intros Hs Hprev. destruct (session_collect high sig _ _ Hs) as (evs' & Hp & Hm).
  apply (agg_holds_perm _ _ _ _ _ _ _ _ Hp) in Hm. unfold TakeInterval.
  destruct (sorted_ops_spec (m_byOp (collect r))) as [Hnd Hmem].
  pose proof (interval_fold (collect r) now dt old new (sorted_ops (m_byOp (collect r)))
    (r_prevSnap r) (r_prevErr r) [] Hm Hprev Hnd (fun op => proj1 (Hmem op))) as Hf.
  destruct (foldl _ _ _) as [[ps pe] out]. destruct Hf as (F1 & F2 & snaps & -> & F3 & F4).
  cbn [app]. destruct Hm as [_ Hb He _].
  assert (Hsel : forall op, op ∉ sorted_ops (m_byOp (collect r)) -> sel op (old ++ new) = []).
  { intros op Hop. specialize (Hb op). destruct (m_byOp (collect r) !! op) eqn:E; [|done].
    exfalso. apply Hop, Hmem. by rewrite E. }
  split_and!; [exact Hs| |done|].
  - split; intros op; cbn [r_prevSnap r_prevErr];
      (destruct (decide (op ∈ sorted_ops (m_byOp (collect r)))) as [Hop|Hop];
       [destruct (F2 op Hop) as [E1 E2]|destruct (F1 op Hop) as [E1 E2]]).
    + rewrite E1. specialize (Hb op). apply Hmem in Hop as [h Hh]. rewrite Hh in Hb |- *. apply Hb.
    + rewrite E1, (Hsel op Hop). destruct Hprev as [P1 _]. specialize (P1 op).
      pose proof (Hsel op Hop) as Hn. rewrite sel_app in Hn. apply app_nil in Hn as [Hn _].
      rewrite Hn in P1. done.
    + rewrite E2. cbn. apply He.
    + rewrite E2. destruct Hprev as [_ P2]. rewrite P2.
      pose proof (Hsel op Hop) as Hn. rewrite Hn. rewrite sel_app in Hn. apply app_nil in Hn as [-> _]. done.
  - intros op. unfold snap_count, snap_errors.
    rewrite <- F3 in Hnd. pose proof (filter_unique_op op snaps Hnd) as Hu.
    destruct (List.filter _ snaps) as [|s [|]]; [| |done].
    + assert (Hn : sel op (old ++ new) = []) by (apply Hsel; by rewrite <- F3).
      rewrite sel_app in Hn. apply app_nil in Hn as [_ ->]. done.
    + destruct Hu as [E Hin]. rewrite Forall_forall in F4. destruct (F4 s Hin) as [F5 F6].
      rewrite E in F5, F6. cbn. rewrite F5, F6. lia.
Qed.
End interval.

(** ** A load run sampled at intervals *)

Section sampled_run.
Context {H : Type} {HH : Histogram H}.

(** Recording [acts] and then taking an interval, repeatedly. *)
Fixpoint intervals (r : Recorder H) (batches : list (list action * (Z * Z))) : Recorder H * list LatencySnapshot :=
  match batches with
  | [] => (r, [])
  | (acts, (now, dt)) :: rest =>
      let '(r, snaps) := TakeInterval (run_actions r acts) now dt in
      let '(r, snaps') := intervals r rest in
      (r, snaps ++ snaps')
  end.

Fixpoint locals_after (n : nat) (acts : list action) : nat :=
  match acts with
  | [] => n
  | NewL :: acts => locals_after (S n) acts
  | Rec _ _ :: acts => locals_after n acts
  end.

Lemma length_run_actions (r : Recorder H) acts :
  length (r_locals (run_actions r acts)) = locals_after (length (r_locals r)) acts.
Proof.
  revert r. induction acts as [|a acts IH]; intros r; [done|]. cbn [run_actions foldl].
  unfold run_actions in IH. rewrite IH. destruct a as [|i e]; cbn [apply_action Recorder_Local fst add_local r_locals locals_after].
  - rewrite length_app. cbn. by rewrite Nat.add_1_r.
  - by rewrite length_alter.
Qed.

Lemma events_of_app n a1 a2 : events_of n (a1 ++ a2) = events_of n a1 ++ events_of (locals_after n a1) a2.
Proof.
  revert n. induction a1 as [|[|i e] a1 IH]; intros n; cbn [app events_of locals_after]; [done|apply IH|].
  destruct (i <? n)%nat; cbn [app]; by rewrite IH.
Qed.

Lemma run_actions_prev (r : Recorder H) acts :
  r_prevSnap (run_actions r acts) = r_prevSnap r /\ r_prevErr (run_actions r acts) = r_prevErr r.
Proof.
  revert r. induction acts as [|a acts IH]; intros r; [done|]. cbn [run_actions foldl].
  unfold run_actions in IH. destruct (IH (apply_action r a)) as [-> ->]. by destruct a.
Qed.
End sampled_run.

Lemma fails_bound evs : 0 <= fails evs <= Z.of_nat (length evs).
Proof.
  unfold fails. pose proof (List.filter_length_le (fun e : event => e.2) evs). lia.
Qed.

Lemma sel_length op evs : (length (sel op evs) <= length evs)%nat.
Proof. apply List.filter_length_le. Qed.

Lemma intervals_spec {H} {HH : Histogram H} {HL : HistogramLaws H} high sig batches :
  0 <= high -> forall old r,
  session_holds high sig old r -> prev_holds high sig old (r_prevSnap r) (r_prevErr r) ->
  let evs := events_of (length (r_locals r)) (mjoin (fst <$> batches)) in
  Z.of_nat (length evs) < 2^63 ->
  forall op, snap_count op (intervals r batches).2 = Z.of_nat (length (sel op evs)) /\
             snap_errors op (intervals r batches).2 = fails (sel op evs).
Proof.
  intros Hh. induction batches as [|[acts [now dt]] batches IH]; intros old r Hs Hp evs Hb op; [done|].
  cbn [intervals]. subst evs.
  change (mjoin (fst <$> (acts, (now, dt)) :: batches)) with (acts ++ mjoin (fst <$> batches)) in Hb |- *.
  rewrite events_of_app in Hb |- *. rewrite sel_app, fails_app.
  set (new := events_of (length (r_locals r)) acts) in *.
  pose proof (session_holds_actions high sig Hh acts old r _ Hs eq_refl) as Hs1. fold new in Hs1.
  destruct (run_actions_prev r acts) as [E1 E2]. rewrite <- E1, <- E2 in Hp.
  pose proof (TakeInterval_spec high sig Hh old new (run_actions r acts) now dt Hs1 Hp) as Ht.
  destruct (TakeInterval (run_actions r acts) now dt) as [r1 snaps].
  destruct Ht as (Hs2 & Hp2 & Hl2 & Hc). rewrite length_run_actions in Hl2.
  specialize (IH (old ++ new) r1 Hs2 Hp2). cbn zeta in IH. rewrite Hl2 in IH.
  rewrite length_app in Hb.
  specialize (IH ltac:(lia) op). destruct (intervals r1 batches) as [r2 snaps2]. cbn [snd] in IH |- *.
  destruct (Hc op) as [C1 C2], IH as [I1 I2].
  rewrite snap_count_app, snap_errors_app, C1, C2, I1, I2, length_app.
  pose proof (fails_bound (sel op new)). pose proof (sel_length op new).
  rewrite wrap64_id by (unfold is_i64; lia). lia.
Qed.

(** Interval deltas telescope: whatever is recorded between the calls, the
    counts and the errors [TakeInterval] reports for an operation type add up,
    over all calls, to exactly the events recorded for it up to the last
    call. *)
Theorem interval_deltas_telescope {H} {HH : Histogram H} {HL : HistogramLaws H}
    (sf ml : Z) (batches : list (list action * (Z * Z))) (op : OpType) :
  let evs := events_of 0 (mjoin (fst <$> batches)) in
  let snaps := (intervals (NewRecorder (H := H) sf ml) batches).2 in
  Z.of_nat (length evs) < 2^63 ->
  snap_count op snaps = Z.of_nat (length (sel op evs)) /\ snap_errors op snaps = fails (sel op evs).
Proof.
  intros evs snaps Hb.
  apply (intervals_spec _ _ batches (NewRecorder_high (H := H) sf ml) [] (NewRecorder sf ml)
    (NewRecorder_holds sf ml)); [|exact Hb].
  split; intros o; cbn; by rewrite lookup_empty.
Qed.

(** ** A concrete histogram *)

(** One bucket per value; encoded through the snapshot's number. *)
Fixpoint pos_string (p : positive) : string :=
  match p with
  | xH => EmptyString
  | xO p => String "0" (pos_string p)
  | xI p => String "1" (pos_string p)
  end.

Fixpoint string_pos (s : string) : positive :=
  match s with
  | EmptyString => xH
  | String c s => if Ascii.eqb c "0" then xO (string_pos s) else xI (string_pos s)
  end.

Lemma string_pos_string p : string_pos (pos_string p) = p.
Proof. induction p as [p IH|p IH|]; cbn; by rewrite ?IH. Qed.

#[local] Instance exact_histogram : Histogram HSnapshot := {|
  h_New lo hi sig := {| hs_Lowest := lo; hs_Highest := hi; hs_SigFigs := sig;
                        hs_Counts := replicate (Z.to_nat (hi + 1)) 0 |};
  h_RecordValue v s := {| hs_Lowest := hs_Lowest s; hs_Highest := hs_Highest s; hs_SigFigs := hs_SigFigs s;
                          hs_Counts := alter (Z.add 1) (Z.to_nat v) (hs_Counts s) |};
  h_Merge a b := {| hs_Lowest := hs_Lowest a; hs_Highest := hs_Highest a; hs_SigFigs := hs_SigFigs a;
                    hs_Counts := zip_with Z.add (hs_Counts a) (hs_Counts b) |};
  h_TotalCount s := zsum (hs_Counts s);
  h_Mean s := float_of_int (zsum (hs_Counts s));
  h_ValueAtQuantile _ s := zsum (hs_Counts s);
  h_Max s := zsum (hs_Counts s);
  h_Export s := s;
  h_Import s := s;
  h_Encode s := Ok (pos_string (encode (hs_Lowest s, hs_Highest s, hs_SigFigs s, hs_Counts s)));
  h_Decode b := match decode (A := Z * Z * Z * list Z) (string_pos b) with
                | Some (lo, hi, sig, counts) =>
                    Ok {| hs_Lowest := lo; hs_Highest := hi; hs_SigFigs := sig; hs_Counts := counts |}
                | None => Err "bad encoding"%string
                end
|}.

#[local] Instance exact_histogram_laws : HistogramLaws HSnapshot.
Proof.
  refine {| h_len hi _ := Z.to_nat (hi + 1); h_bucket _ _ v := Z.to_nat v |}; cbn.
  - intros. lia.
  - done.
  - by intros v h hi sig counts -> _.
  - by intros h1 h2 hi sig c1 c2 -> -> _.
  - done.
  - done.
  - eauto.
  - intros h b [= <-]. rewrite string_pos_string, decode_encode. eexists. split; [done|]. by destruct h.
  - by intros h1 h2 ->.
  - by intros q h1 h2 ->.
  - by intros h1 h2 ->.
Defined.

Definition sample_actions : list action :=
  [NewL; NewL; Rec 0 ("read", 3, false); Rec 1 ("write", 7, true); Rec 0 ("read", 99, false)]%string.

Example sample_snapshot :
  let r := Snapshot (run_actions (NewRecorder 3 10) sample_actions) PhaseMeasure second in
  (rr_Total r, rr_Errors r) = (3, 1).
Proof. vm_compute. reflexivity. Qed.

Lemma interval_deltas_telescope_witness :
  let batches := [(sample_actions, (1, 1)); ([Rec 1 ("read", 2, true)], (2, 1))]%string in
  let snaps := (intervals (NewRecorder 3 10) batches).2 in
  snap_count "read" snaps = Z.of_nat 3 /\ snap_errors "read" snaps = 1.
Proof.
  apply (interval_deltas_telescope 3 10
    [(sample_actions, (1, 1)); ([Rec 1 ("read"%string, 2, true)], (2, 1))] "read").
  vm_compute. reflexivity.
Defined.

Lemma sharded_recording_exact_witness :
  let r := run_actions (NewRecorder 3 10) sample_actions in
  let evs := events_of 0 sample_actions in
  Snapshot r PhaseMeasure second
    = Snapshot (run_actions (NewRecorder 3 10) (NewL :: map (Rec 0) evs)) PhaseMeasure second /\
  rr_Total (Snapshot r PhaseMeasure second) = Z.of_nat (length evs) /\
  rr_Errors (Snapshot r PhaseMeasure second) = wrap64 (fails evs).
Proof. exact (sharded_recording_exact 3 10 sample_actions PhaseMeasure second). Defined.
