(* ===== verification/Nemesis.v ===== *)
(** * Nemesis: the fault scheduler (core/nemesis)

    [plan] unrolls the fault specifications into a time-ordered list of inject
    and heal actions, [Run] executes them against a controller and heals what
    is outstanding at the end, and [buildArgs] is the command line of the
    target's fault script. *)

From Stdlib Require Import Ascii String.
From S2P Require Import Prelude Domain Rand Driver.

Local Open Scope Z_scope.
Local Open Scope go_scope.

(** ** controller.go *)

Definition actionInject : string := "inject".
Definition actionHeal : string := "heal".

Definition refFlag (m : ControlMethod) : string :=
  if String.eqb m ControlK8s then "--pod"
  else if String.eqb m ControlDocker then "--container"
  else if String.eqb m ControlSSH then "--host"
  else "--ref".

(** [sprint] is [fmt]'s [%v] of a parameter value. *)
Definition buildArgs (sprint : any -> string) (action : string) (ft : FaultType) (node : Node)
    (params : gmap string any) : list string :=
  let ep := node_Control node in
  let args := [action; "--method"; ce_Method ep; refFlag (ce_Method ep); ce_Ref ep]%string in
  let args := if String.eqb (ce_Namespace ep) "" then args
              else args ++ ["--namespace"; ce_Namespace ep]%string in
  if negb (String.eqb action actionInject) then args
  else
    args ++ ["--type"; ft]%string ++
    mjoin ((fun k => ["--param"; k +:+ "=" +:+ sprint (param_any params k)]%string)
             <$> sort_by String.leb (map fst (map_to_list params))).

(** The FaultController interface; [fresh] tells the background context of
    [healAll] from the run's own. *)
Class FaultController (W : Type) := {
  fc_Inject : Fault -> Node -> W -> W * option error;
  fc_Heal : bool -> Node -> W -> W * option error
}.

(** [ScriptController] over a command runner. *)
Definition ScriptController {W} (sprint : any -> string) (ScriptPath : string)
    (Runner : bool -> string -> list string -> W -> W * option error) : FaultController W := {|
  fc_Inject f target w :=
    Runner false ScriptPath (buildArgs sprint actionInject (f_Type f) target (f_Params f)) w;
  fc_Heal fresh target w := Runner fresh ScriptPath (buildArgs sprint actionHeal "" target ∅) w
|}.

(** ** scheduler.go *)

Record Event := {
  ev_At : Z;
  ev_Action : string;
  ev_Type : FaultType;
  ev_Node : string;
  ev_Err : string
}.

Record Scheduler := { s_Nodes : list Node; s_Seed : Z }.

Record action := {
  ac_at : Z;
  ac_inject : bool;
  ac_ft : FaultType;
  ac_node : Node;
  ac_params : params
}.

Definition Node_zero : Node :=
  {| node_ID := ""; node_Role := ""; node_Client := "";
     node_Control := {| ce_Method := ""; ce_Ref := ""; ce_Namespace := ""; ce_Extra := ∅ |} |}.

Definition bare_node (id : string) : Node :=
  {| node_ID := id; node_Role := ""; node_Client := ""; node_Control := node_Control Node_zero |}.

Definition pick (s : Scheduler) (f : Fault) (rng : prng) : Node * prng :=
  if negb (String.eqb (f_Target f) "") then
    (match List.find (fun n => String.eqb (node_ID n) (f_Target f)) (s_Nodes s) with
     | Some n => n
     | None => bare_node (f_Target f)
     end, rng)
  else match s_Nodes s with
       | [] => (Node_zero, rng)
       | nodes =>
           let '(i, rng) := prng_intn rng (Z.of_nat (length nodes)) in
           (default Node_zero (nodes !! Z.to_nat i), rng)
       end.

Record occ := { oc_at : Z; oc_idx : Z; oc_spec : FaultSpec }.

(** The offsets at which one specification fires; [fuel] bounds the loop. *)
Fixpoint occurrences (fuel : nat) (window repeat at_ : Z) : list Z :=
  match fuel with
  | O => []
  | S fuel =>
      if (0 <? window) && (window <=? at_) then []
      else at_ :: (if (repeat <=? 0) || (window <=? 0) then []
                   else occurrences fuel window repeat (at_ +! repeat))
  end.

(** Enough rounds: each one moves at least [repeat] closer to the window. *)
Definition occ_fuel (window : Z) (sp : FaultSpec) : nat :=
  Z.to_nat ((window - fs_At sp) / Z.max 1 (fs_Repeat sp)) + 2.

Fixpoint all_occs (specs : list FaultSpec) (window i : Z) : list occ :=
  match specs with
  | [] => []
  | sp :: rest =>
      ((fun t => {| oc_at := t; oc_idx := i; oc_spec := sp |})
         <$> occurrences (occ_fuel window sp) window (fs_Repeat sp) (fs_At sp))
      ++ all_occs rest window (i + 1)
  end.

Definition occ_less (a b : occ) : bool :=
  if negb (oc_at a =? oc_at b) then oc_at a <? oc_at b else oc_idx a <? oc_idx b.

Definition action_less (a b : action) : bool := ac_at a <? ac_at b.

(** The actions of the occurrences in order, drawing nodes from the generator. *)
Fixpoint expand (s : Scheduler) (occs : list occ) (rng : prng) : list action :=
  match occs with
  | [] => []
  | o :: rest =>
      let f := fs_Fault (oc_spec o) in
      let '(node, rng) := pick s f rng in
      {| ac_at := oc_at o; ac_inject := true; ac_ft := f_Type f; ac_node := node; ac_params := f_Params f |}
      :: (if 0 <? fs_Duration (oc_spec o) then
            [{| ac_at := oc_at o +! fs_Duration (oc_spec o); ac_inject := false; ac_ft := "";
                ac_node := node; ac_params := ∅ |}]
          else [])
      ++ expand s rest rng
  end.

Definition plan (s : Scheduler) (specs : list FaultSpec) (window : Z) : list action :=
  let occs := sort_by (le_of_less occ_less) (all_occs specs window 0) in
  sort_by (le_of_less action_less) (expand s occs (newPRNG (s_Seed s))).

(** [deadline] is [ctx.Deadline]. *)
Definition window (deadline : option Z) (specs : list FaultSpec) (t0 : Z) : Z :=
  match deadline with
  | Some dl => let d := time_sub dl t0 in if 0 <? d then d else 0
  | None => foldl (fun max sp => let end_ := fs_At sp +! fs_Duration sp in
                                 if max <? end_ then end_ else max) 0 specs
  end.

Definition errStr (e : option error) : string := match e with None => ""%string | Some m => m end.

Section run.
Context {W : Type} {Clk : Clock W} {Ctl : FaultController W}.

Definition waitUntil (target : Z) (w : W) : W * bool :=
  let '(w, t) := now w in
  let d := time_sub target t in
  if d <=? 0 then (w, match ctx_Err w with Some _ => false | None => true end)
  else match wait d w with
       | (w, Some _) => (w, false)
       | (w, None) => (w, true)
       end.

Definition injectEvent (a : action) (e : option error) : Event :=
  {| ev_At := ac_at a; ev_Action := actionInject; ev_Type := ac_ft a; ev_Node := node_ID (ac_node a);
     ev_Err := errStr e |}.

Definition healEvent (at_ : Z) (id : string) (e : option error) : Event :=
  {| ev_At := at_; ev_Action := actionHeal; ev_Type := ""; ev_Node := id; ev_Err := errStr e |}.

(** [Run]'s loop; it stops at the first wait that does not reach its target. *)
Fixpoint run_loop (acts : list action) (t0 : Z) (outstanding : gmap string Node) (events : list Event) (w : W)
    : W * (gmap string Node * list Event) :=
  match acts with
  | [] => (w, (outstanding, events))
  | a :: rest =>
      match waitUntil (t0 + ac_at a) w with
      | (w, false) => (w, (outstanding, events))
      | (w, true) =>
          if ac_inject a then
            let '(w, err) := fc_Inject {| f_Type := ac_ft a; f_Target := node_ID (ac_node a);
                                          f_Params := ac_params a |} (ac_node a) w in
            let outstanding := match err with
                               | None => <[node_ID (ac_node a) := ac_node a]> outstanding
                               | Some _ => outstanding
                               end in
            run_loop rest t0 outstanding (events ++ [injectEvent a err]) w
          else
            let '(w, err) := fc_Heal false (ac_node a) w in
            run_loop rest t0 (delete (node_ID (ac_node a)) outstanding)
              (events ++ [healEvent (ac_at a) (node_ID (ac_node a)) err]) w
      end
  end.

Fixpoint healAll_loop (ids : list string) (outstanding : gmap string Node) (t0 : Z) (events : list Event) (w : W)
    : W * list Event :=
  match ids with
  | [] => (w, events)
  | id :: rest =>
      let '(w, err) := fc_Heal true (default Node_zero (outstanding !! id)) w in
      let '(w, t) := now w in
      healAll_loop rest outstanding t0 (events ++ [healEvent (time_sub t t0) id err]) w
  end.

Definition healAll (outstanding : gmap string Node) (events : list Event) (t0 : Z) (w : W) : W * list Event :=
  healAll_loop (sort_by String.leb (map fst (map_to_list outstanding))) outstanding t0 events w.

Definition Run (s : Scheduler) (deadline : option Z) (specs : list FaultSpec) (t0 : Z) (w : W) : W * list Event :=
  let acts := plan s specs (window deadline specs t0) in
  let '(w, (outstanding, events)) := run_loop acts t0 ∅ [] w in
  healAll outstanding events t0 w.
End run.

(** ** core/cli/faults.go *)

(** The state of a run's fault injection; the scheduler's goroutine runs
    between [begin] and [stop]. *)
Record nemesisRun := {
  n_sched : option Scheduler;
  n_specs : list FaultSpec;
  n_started : bool;
  n_stopped : bool;
  n_cancelled : bool
}.

(** [begin] starts the goroutine, whose context has no deadline; the boolean
    tells whether it did. *)
Definition begin_ (n : nemesisRun) : nemesisRun * bool :=
  match n_sched n with
  | None => (n, false)
  | Some _ =>
      if n_started n then (n, false)
      else ({| n_sched := n_sched n; n_specs := n_specs n; n_started := true; n_stopped := n_stopped n;
               n_cancelled := n_cancelled n |}, true)
  end.

(** [stop] cancels it, once. *)
Definition stop (n : nemesisRun) : nemesisRun :=
  if negb (n_started n) || n_stopped n then n
  else {| n_sched := n_sched n; n_specs := n_specs n; n_started := n_started n; n_stopped := true;
          n_cancelled := true |}.

(** ** The plan *)

Lemma occurrences_spec fuel w rep at_ x :
  0 < w -> is_i64 at_ -> w + Z.max 0 rep < 2^63 ->
  (w - at_) / Z.max 1 rep + 2 <= Z.of_nat fuel -> (0 < fuel)%nat ->
  x ∈ occurrences fuel w rep at_ <->
  exists k, 0 <= k /\ (0 < rep \/ k = 0) /\ x = at_ + k * rep /\ x < w.
Proof.
  intros Hw. revert at_. induction fuel as [|fuel IH]; intros at_ Hat Hov Hf Hpos; [lia|].
  cbn [occurrences]. assert ((0 <? w) = true) as -> by (apply Z.ltb_lt; lia). cbn [andb].
  destruct (w <=? at_) eqn:E; zbool.
  { split; [intros Hx; by apply elem_of_nil in Hx|]. intros (k & Hk & Hr & -> & Hlt). nia. }
  assert ((w <=? 0) = false) as -> by (apply Z.leb_gt; lia). rewrite orb_false_r, elem_of_cons.
  destruct (rep <=? 0) eqn:Er; zbool.
  { split.
    - intros [->|Hx]; [|by apply elem_of_nil in Hx]. exists 0. lia.
    - intros (k & Hk & [Hr|Hr] & -> & _); [lia|]. left. lia. }
  rewrite i64_add_id by (unfold is_i64 in *; lia). rewrite IH.
  - split.
    + intros [->|(k & Hk & Hr & -> & Hlt)]; [exists 0; lia|]. exists (k + 1). lia.
    + intros (k & Hk & Hr & -> & Hlt). destruct (decide (k = 0)) as [->|Hne]; [left; lia|].
      right. exists (k - 1). lia.
  - unfold is_i64 in *. lia.
  - lia.
  - rewrite Z.max_r in Hf |- * by lia.
    replace (w - (at_ + rep)) with (w - at_ + (-1) * rep) by lia. rewrite Z.div_add by lia. lia.
  - assert (0 <= (w - at_) / Z.max 1 rep) by (apply Z.div_pos; lia). lia.
Qed.

Lemma occ_fuel_enough w sp :
  (w - fs_At sp) / Z.max 1 (fs_Repeat sp) + 2 <= Z.of_nat (occ_fuel w sp) /\ (0 < occ_fuel w sp)%nat.
Proof. unfold occ_fuel. lia. Qed.

(** When an occurrence of [sp] falls at [t]. *)
Definition fires (sp : FaultSpec) (w t : Z) : Prop :=
  exists k, 0 <= k /\ (0 < fs_Repeat sp \/ k = 0) /\ t = fs_At sp + k * fs_Repeat sp /\ t < w.

Definition spec_ok (w : Z) (sp : FaultSpec) : Prop :=
  is_i64 (fs_At sp) /\ w + Z.max 0 (fs_Repeat sp) < 2^63 /\ 0 <= fs_Duration sp /\
  w + fs_Duration sp < 2^63.

Lemma all_occs_spec specs w i o :
  0 < w -> Forall (spec_ok w) specs ->
  o ∈ all_occs specs w i <->
  exists j sp, specs !! j = Some sp /\ oc_idx o = i + Z.of_nat j /\ oc_spec o = sp /\ fires sp w (oc_at o).
Proof.
  intros Hw Hok. revert i. induction Hok as [|sp specs (H1 & H2 & H3 & H4) _ IH]; intros i; cbn [all_occs].
  { split; [intros Ho; by apply elem_of_nil in Ho|]. by intros (j & sp & Hj & _). }
  rewrite elem_of_app, list_elem_of_fmap, IH. destruct (occ_fuel_enough w sp) as [F1 F2]. split.
  - intros [(t & -> & Ht)|(j & sp' & Hj & Hi & Hs & Hf)].
    + exists 0%nat, sp. cbn. split_and!; [done|lia|done|].
      by apply (occurrences_spec _ _ _ _ _ Hw H1 H2 F1 F2).
    + exists (S j), sp'. split_and!; [done|lia|done|done].
  - intros ([|j] & sp' & Hj & Hi & Hs & Hf).
    + left. cbn in Hj. injection Hj as <-. exists (oc_at o). split.
      * destruct o as [t i' sp']. cbn in *. subst. f_equal. lia.
      * by apply (occurrences_spec _ _ _ _ _ Hw H1 H2 F1 F2).
    + right. exists j, sp'. split_and!; [done|lia|done|done].
Qed.

Lemma action_le_total a b : le_of_less action_less a b = true \/ le_of_less action_less b a = true.
Proof. unfold le_of_less, action_less. rewrite !negb_true_iff, !Z.ltb_ge. lia. Qed.

Lemma action_le_trans a b c :
  le_of_less action_less a b = true -> le_of_less action_less b c = true -> le_of_less action_less a c = true.
Proof. unfold le_of_less, action_less. rewrite !negb_true_iff, !Z.ltb_ge. lia. Qed.

(** Every injection of the expansion comes from an occurrence, and is followed
    by the heal of the same node when the fault has a duration. *)
Lemma expand_inject s occs rng a :
  a ∈ expand s occs rng -> ac_inject a = true ->
  exists o, o ∈ occs /\ ac_at a = oc_at o /\ ac_ft a = f_Type (fs_Fault (oc_spec o)) /\
    ac_params a = f_Params (fs_Fault (oc_spec o)) /\
    (0 < fs_Duration (oc_spec o) ->
     exists b, b ∈ expand s occs rng /\ ac_inject b = false /\ ac_node b = ac_node a /\
               ac_at b = oc_at o +! fs_Duration (oc_spec o)).
Proof.
  revert rng. induction occs as [|o occs IH]; intros rng; cbn [expand]; [by intros Ha%elem_of_nil|].
  destruct (pick s (fs_Fault (oc_spec o)) rng) as [node rng'].
  intros [->|Ha]%elem_of_cons Hi.
  - exists o. split; [left|]. split_and!; [done..|]. intros Hd. apply Z.ltb_lt in Hd. rewrite Hd.
    eexists. split; [right; left|]. done.
  - apply elem_of_app in Ha as [Ha|Ha].
    { destruct (0 <? _); [|by apply elem_of_nil in Ha]. apply list_elem_of_singleton in Ha. by subst. }
    destruct (IH rng' Ha Hi) as (o' & Ho' & E1 & E2 & E3 & Hh).
    exists o'. split; [by right|]. split_and!; [done..|]. intros Hd.
    destruct (Hh Hd) as (b & Hb & ?). exists b. split; [|done]. right. apply elem_of_app. by right.
Qed.

Lemma expand_injects s occs rng :
  ac_at <$> List.filter ac_inject (expand s occs rng) = oc_at <$> occs.
Proof.
  revert rng. induction occs as [|o occs IH]; intros rng; cbn [expand]; [done|].
  destruct (pick s (fs_Fault (oc_spec o)) rng) as [node rng'].
  cbn [List.filter ac_inject]. rewrite List.filter_app.
  destruct (0 <? _); cbn [List.filter ac_inject app]; rewrite !fmap_cons, IH; done.
Qed.

(** In a list sorted by time a later action comes at a later index. *)
Lemma sorted_later l i a b :
  StronglySorted (le_of_less action_less) l -> l !! i = Some a -> b ∈ l -> ac_at a < ac_at b ->
  exists j, (i < j)%nat /\ l !! j = Some b.
Proof.
  intros Hs Hi Hb Hlt. apply list_elem_of_lookup in Hb as [j Hj]. exists j. split; [|done].
  destruct (decide (i < j)%nat) as [|Hge]; [done|]. exfalso.
  assert (Hle : (j <= i)%nat) by lia. clear Hge. revert i j Hle Hi Hj.
  induction Hs as [|c l Hs IH Hc]; intros i j Hle Hi Hj; [done|].
  destruct j as [|j], i as [|i]; cbn in Hi, Hj; [by simplify_eq; lia| |lia|].
  - simplify_eq. apply list_elem_of_lookup_2 in Hi. rewrite Forall_forall in Hc.
    specialize (Hc _ Hi). apply Is_true_true in Hc. unfold le_of_less, action_less in Hc.
    rewrite negb_true_iff, Z.ltb_ge in Hc. lia.
  - apply (IH i j); [lia|done..].
Qed.

(** The plan is what the specifications say: its actions are in time
    order; its injections fall exactly at the offsets [At + k * Repeat] below
    the window ([At] alone without a repeat), each the occurrence of some
    specification with its type and parameters; and every injection of a fault
    with a duration is followed, later in the plan, by the heal of the same node
    exactly that duration afterwards. *)
Theorem plan_correct (s : Scheduler) (specs : list FaultSpec) (w : Z) :
  0 < w -> Forall (spec_ok w) specs ->
  let acts := plan s specs w in
  StronglySorted (fun a b => ac_at a <= ac_at b) acts /\
  (forall t, t ∈ ac_at <$> List.filter ac_inject acts <-> exists sp, sp ∈ specs /\ fires sp w t) /\
  (forall i a, acts !! i = Some a -> ac_inject a = true ->
     exists sp, sp ∈ specs /\ fires sp w (ac_at a) /\
       ac_ft a = f_Type (fs_Fault sp) /\ ac_params a = f_Params (fs_Fault sp) /\
       (0 < fs_Duration sp ->
        exists j b, (i < j)%nat /\ acts !! j = Some b /\ ac_inject b = false /\
          ac_node b = ac_node a /\ ac_at b = ac_at a + fs_Duration sp)).
Proof.
  intros Hw Hok acts.
  assert (Hsorted : StronglySorted (le_of_less action_less) acts)
    by (apply sort_by_sorted; [apply action_le_total|apply action_le_trans]).
  set (occs := sort_by (le_of_less occ_less) (all_occs specs w 0)).
  assert (Hperm : acts ≡ₚ expand s occs (newPRNG (s_Seed s))) by apply sort_by_perm.
  assert (Hocc : forall o, o ∈ occs -> oc_spec o ∈ specs /\ fires (oc_spec o) w (oc_at o)).
  { intros o. unfold occs. rewrite sort_by_perm, all_occs_spec by done.
    intros (j & sp & Hj & _ & -> & Hf). split; [by eapply list_elem_of_lookup_2|done]. }
  split_and!.
  - eapply StronglySorted_weaken; [|exact Hsorted]. intros a b Hab%Is_true_true.
    unfold le_of_less, action_less in Hab. rewrite negb_true_iff, Z.ltb_ge in Hab. done.
  - intros t. rewrite (filter_perm _ _ _ Hperm), expand_injects, list_elem_of_fmap. split.
    + intros (o & -> & Ho). exists (oc_spec o). by apply Hocc.
    + intros (sp & Hsp & Hf). apply list_elem_of_lookup in Hsp as [j Hj].
      exists {| oc_at := t; oc_idx := Z.of_nat j; oc_spec := sp |}. split; [done|].
      unfold occs. rewrite sort_by_perm, all_occs_spec by done. exists j, sp. done.
  - intros i a Hi Hinj.
    destruct (expand_inject s occs (newPRNG (s_Seed s)) a) as (o & Ho & E1 & E2 & E3 & Hh); [|done|].
    { rewrite <- Hperm. by eapply list_elem_of_lookup_2. }
    destruct (Hocc o Ho) as [Hin Hf]. exists (oc_spec o). rewrite E1. split_and!; [done..|].
    intros Hd. destruct (Hh Hd) as (b & Hb & B1 & B2 & B3). rewrite <- Hperm in Hb.
    assert (Hadd : ac_at b = oc_at o + fs_Duration (oc_spec o)).
    { rewrite B3. apply i64_add_id. rewrite Forall_forall in Hok.
      destruct (Hok _ Hin) as (K1 & K2 & K3 & K4), Hf as (k & Hk & Hr & Ht & Hlt).
      unfold is_i64 in *. nia. }
    destruct (sorted_later acts i a b Hsorted Hi Hb) as (j & Hij & Hj); [lia|].
    exists j, b. done.
Qed.

(** ** Healing *)

Definition is_injected (e : Event) : Prop := ev_Action e = actionInject /\ ev_Err e = ""%string.
Definition is_heal_of (id : string) (e : Event) : Prop := ev_Action e = actionHeal /\ ev_Node e = id.

(** A later heal of the same node. *)
Definition healed_later (events : list Event) (i : nat) (id : string) : Prop :=
  exists j h, (i < j)%nat /\ events !! j = Some h /\ is_heal_of id h.

Definition covered (outstanding : gmap string Node) (events : list Event) : Prop :=
  forall i e, events !! i = Some e -> is_injected e ->
    is_Some (outstanding !! ev_Node e) \/ healed_later events i (ev_Node e).

Lemma healed_later_snoc events x i id : healed_later events i id -> healed_later (events ++ [x]) i id.
Proof.
  intros (j & h & Hij & Hj & Hh). exists j, h. split_and!; [done| |done]. by apply lookup_app_l_Some.
Qed.

Lemma covered_snoc out out' events x :
  covered out events ->
  (is_injected x -> is_Some (out' !! ev_Node x)) ->
  (forall id, is_Some (out !! id) -> is_Some (out' !! id) \/ is_heal_of id x) ->
  covered out' (events ++ [x]).
Proof.
  intros Hc Hx Hout i e Hi He. apply lookup_snoc_Some in Hi as [[Hlt Hi]|[-> ->]]; [|left; by apply Hx].
  destruct (Hc i e Hi He) as [Ho|Hl]; [|right; by apply healed_later_snoc].
  destruct (Hout _ Ho) as [Ho'|Hh]; [by left|]. right.
  exists (length events), x. split_and!; [done| |done]. by apply list_lookup_middle.
Qed.

Section heals.
Context {W : Type} {Clk : Clock W} {Ctl : FaultController W}.

(** Error values have a message. *)
Context (inject_errors : forall f n w, (fc_Inject f n w).2 <> Some ""%string).

Lemma run_loop_covered acts t0 out events w :
  covered out events ->
  let '(_, (out', events')) := run_loop acts t0 out events w in covered out' events'.
Proof.
  revert out events w. induction acts as [|a acts IH]; intros out events w Hc; cbn [run_loop]; [done|].
  destruct (waitUntil (t0 + ac_at a) w) as [w1 [|]]; [|done].
  destruct (ac_inject a).
  - set (f := {| f_Type := _ |}). pose proof (inject_errors f (ac_node a) w1) as Hne.
    destruct (fc_Inject f (ac_node a) w1) as [w2 err]. cbn in Hne. apply IH.
    eapply covered_snoc; [exact Hc| |].
    + intros [_ He]. cbn in He. destruct err as [m|]; [exfalso; cbn in He; by rewrite He in Hne|]. cbn. rewrite lookup_insert_eq. eauto.
    + intros id Hid. left. destruct err; [done|].
      destruct (decide (node_ID (ac_node a) = id)) as [<-|Hn];
        [rewrite lookup_insert_eq; eauto|by rewrite lookup_insert_ne].
  - destruct (fc_Heal false (ac_node a) w1) as [w2 err]. apply IH.
    eapply covered_snoc; [exact Hc|by intros [? _]|].
    intros id Hid. destruct (decide (node_ID (ac_node a) = id)) as [<-|Hn].
    + right. done.
    + left. by rewrite lookup_delete_ne.
Qed.

Lemma healAll_loop_events ids out t0 events w :
  exists new, (healAll_loop ids out t0 events w).2 = events ++ new /\
    ev_Node <$> new = ids /\ Forall (fun e => ev_Action e = actionHeal) new.
Proof.
  revert events w. induction ids as [|id ids IH]; intros events w; cbn [healAll_loop].
  { exists []. by rewrite app_nil_r. }
  destruct (fc_Heal true (default Node_zero (out !! id)) w) as [w1 err]. destruct (now w1) as [w2 t].
  destruct (IH (events ++ [healEvent (time_sub t t0) id err]) w2) as (new & -> & E & Hf).
  eexists. split; [by rewrite <- app_assoc|]. split; [cbn; by f_equal|by constructor].
Qed.

(** In the timeline a run returns, every successful injection is followed
    by a heal of the same node, whatever the timers, the cancellation of the
    context and the results of the controller. *)
Theorem Run_timeline_heals (s : Scheduler) (deadline : option Z) (specs : list FaultSpec) (t0 : Z) (w : W)
    (i : nat) (e : Event) :
  (Run s deadline specs t0 w).2 !! i = Some e -> is_injected e ->
  healed_later (Run s deadline specs t0 w).2 i (ev_Node e).
Proof.
  unfold Run.
  pose proof (run_loop_covered (plan s specs (window deadline specs t0)) t0 ∅ [] w) as Hc.
  destruct (run_loop _ t0 ∅ [] w) as [w1 [out events]].
  unfold healAll. destruct (healAll_loop_events (sort_by String.leb (map fst (map_to_list out))) out t0 events w1)
    as (new & -> & Hids & Hf).
  intros Hi He. assert (Hcov : covered out events) by (apply Hc; by intros j e' Hj).
  apply lookup_app_Some in Hi as [Hi|[Hge Hi]].
  - destruct (Hcov i e Hi He) as [Ho|(j & h & Hij & Hj & Hh)].
    + assert (Hid : ev_Node e ∈ ev_Node <$> new).
      { rewrite Hids, sort_by_perm. apply list_elem_of_fmap. destruct Ho as [n Hn].
        exists (ev_Node e, n). split; [done|]. by apply elem_of_map_to_list. }
      apply list_elem_of_fmap in Hid as (h & Eh & Hh).
      rewrite Forall_forall in Hf. apply list_elem_of_lookup in Hh as [j Hj].
      exists (length events + j)%nat, h. apply lookup_lt_Some in Hi. split_and!; [lia| |].
      * rewrite lookup_app_r by lia. by replace (length events + j - length events)%nat with j by lia.
      * split; [apply Hf; by eapply list_elem_of_lookup_2|done].
    + exists j, h. split_and!; [done| |done]. by apply lookup_app_l_Some.
  - exfalso. rewrite Forall_forall in Hf. apply list_elem_of_lookup_2 in Hi. specialize (Hf _ Hi).
    destruct He as [He _]. rewrite He in Hf. discriminate Hf.
Qed.
End heals.

(** ** The cluster after a run *)

(** What the contract of a controller says: an injection touches only its node, whether
    it succeeds, fails or is cancelled midway; a heal faults nothing and, when it
    reports success, has cleared its node; and errors have a message. *)
Class FaultState (W : Type) {Clk : Clock W} {Ctl : FaultController W} := {
  faulted : W -> gset string;
  inject_faults f n w : faulted (fc_Inject f n w).1 ⊆ {[ node_ID n ]} ∪ faulted w;
  heal_faults fresh n w : faulted (fc_Heal fresh n w).1 ⊆ faulted w;
  heal_clears fresh n w : (fc_Heal fresh n w).2 = None -> node_ID n ∉ faulted (fc_Heal fresh n w).1;
  inject_message f n w : (fc_Inject f n w).2 <> Some ""%string;
  heal_message fresh n w : (fc_Heal fresh n w).2 <> Some ""%string;
  now_faulted w : faulted (now w).1 = faulted w;
  wait_faulted d w : faulted (wait d w).1 = faulted w
}.




Section cluster.
Context {W : Type} {Clk : Clock W} {Ctl : FaultController W} {FS : FaultState W}.







End cluster.

(** ** Runs without a deadline *)

(** Without a context deadline the window is the last scheduled action's
    own offset, and the plan keeps only offsets strictly below it: a schedule of
    one fault that is to stay until the end of the run (no duration) is never
    injected at all. *)
Theorem undeadlined_fault_never_injected {W} {Clk : Clock W} {Ctl : FaultController W}
    (s : Scheduler) (sp : FaultSpec) (t0 : Z) (w : W) :
  0 < fs_At sp < 2^63 -> fs_Duration sp = 0 ->
  plan s [sp] (window None [sp] t0) = [] /\ Run s None [sp] t0 w = (w, []).
Proof.
  intros Ha Hd.
  assert (Hw : window None [sp] t0 = fs_At sp).
  { unfold window. cbn [foldl]. rewrite Hd, i64_add_id by (unfold is_i64; lia). rewrite Z.add_0_r.
    destruct (0 <? fs_At sp) eqn:E; zbool; [done|lia]. }
  assert (Hp : plan s [sp] (window None [sp] t0) = []).
  { rewrite Hw. unfold plan. cbn [all_occs]. unfold occ_fuel.
    rewrite Nat.add_comm. cbn [Nat.add occurrences].
    assert ((0 <? fs_At sp) && (fs_At sp <=? fs_At sp) = true) as ->; [|done].
    apply andb_true_iff. rewrite Z.ltb_lt, Z.leb_le. lia. }
  split; [done|]. unfold Run. by rewrite Hp.
Qed.

(** ** A concrete cluster *)

(** The clock and the set of faulted nodes. *)
Definition cluster_world : Type := Z * gset string.

#[local] Instance cluster_clock : Clock cluster_world := {|
  now w := (w, w.1);
  wait d w := ((w.1 + Z.max d 0, w.2), None);
  ctx_Err _ := None
|}.

#[local] Instance cluster_controller : FaultController cluster_world := {|
  fc_Inject _ n w := ((w.1 + 1, {[ node_ID n ]} ∪ w.2), None);
  fc_Heal _ n w := ((w.1 + 1, w.2 ∖ {[ node_ID n ]}), None)
|}.

(** A controller one of whose injections is cut off after it has taken effect. *)
Definition cut_controller : FaultController cluster_world := {|
  fc_Inject _ n w := ((w.1 + 1, {[ node_ID n ]} ∪ w.2), if String.eqb (node_ID n) "n2" then Some "signal: killed"%string else None);
  fc_Heal _ n w := ((w.1 + 1, w.2 ∖ {[ node_ID n ]}), None)
|}.

#[local] Instance cut_faults : FaultState (Ctl := cut_controller) cluster_world.
Proof.
  refine {| faulted w := w.2 |}; cbn; try done; try set_solver. intros f n w. by destruct (String.eqb _ _).
Defined.

Definition three_nodes : list Node := bare_node <$> ["n1"; "n2"; "n3"]%string.

Definition sample_scheduler : Scheduler := {| s_Nodes := three_nodes; s_Seed := 1 |}.

Definition sample_spec (at_ dur rep : Z) : FaultSpec :=
  {| fs_Fault := {| f_Type := FaultKillNode; f_Target := ""; f_Params := ∅ |};
     fs_At := at_; fs_Duration := dur; fs_Repeat := rep |}.

Definition sample_specs : list FaultSpec := [sample_spec 5 3 10; sample_spec 12 0 0].

Example sample_plan :
  (fun a => (ac_at a, ac_inject a, node_ID (ac_node a))) <$> plan sample_scheduler sample_specs 30
  = [(5, true, "n3"); (8, false, "n3"); (12, true, "n2"); (15, true, "n1"); (18, false, "n1");
     (25, true, "n3"); (28, false, "n3")]%string.
Proof. vm_compute. reflexivity. Qed.

Lemma sample_specs_ok : Forall (spec_ok 30) sample_specs.
Proof. repeat constructor; cbn; lia. Qed.

Lemma plan_correct_witness :
  let acts := plan sample_scheduler sample_specs 30 in
  StronglySorted (fun a b => ac_at a <= ac_at b) acts /\
  (forall t, t ∈ ac_at <$> List.filter ac_inject acts <-> exists sp, sp ∈ sample_specs /\ fires sp 30 t) /\
  (forall i a, acts !! i = Some a -> ac_inject a = true ->
     exists sp, sp ∈ sample_specs /\ fires sp 30 (ac_at a) /\
       ac_ft a = f_Type (fs_Fault sp) /\ ac_params a = f_Params (fs_Fault sp) /\
       (0 < fs_Duration sp ->
        exists j b, (i < j)%nat /\ acts !! j = Some b /\ ac_inject b = false /\
          ac_node b = ac_node a /\ ac_at b = ac_at a + fs_Duration sp)).
Proof. apply (plan_correct sample_scheduler sample_specs 30); [lia|exact sample_specs_ok]. Defined.

Lemma Run_timeline_heals_witness :
  healed_later (Run sample_scheduler (Some 30) sample_specs 0 (0, ∅)).2 2 "n2".
Proof.
  refine (Run_timeline_heals _ sample_scheduler (Some 30) sample_specs 0 (0, ∅) 2
    {| ev_At := 12; ev_Action := actionInject; ev_Type := FaultKillNode; ev_Node := "n2"; ev_Err := "" |} _ _).
  - done.
  - vm_compute. reflexivity.
  - done.
Defined.


Lemma undeadlined_fault_never_injected_witness :
  plan sample_scheduler [sample_spec 12 0 0] (window None [sample_spec 12 0 0] 0) = [] /\
  Run sample_scheduler None [sample_spec 12 0 0] 0 ((0, ∅) : cluster_world) = ((0, ∅), []).
Proof. apply (undeadlined_fault_never_injected sample_scheduler (sample_spec 12 0 0) 0); cbn; lia. Defined.

(** A scheduled heal that fails is not tried again: the node is dropped from
    the outstanding faults and stays faulted when the run returns. *)
Definition flaky_controller : FaultController cluster_world := {|
  fc_Inject _ n w := ((w.1 + 1, {[ node_ID n ]} ∪ w.2), None);
  fc_Heal fresh n w := if fresh then ((w.1 + 1, w.2 ∖ {[ node_ID n ]}), None)
                       else (w, Some "exit status 1"%string)
|}.

Example failed_heal_not_retried :
  let r := Run (Ctl := flaky_controller) sample_scheduler (Some 30) [sample_spec 5 3 0] 0 (0, ∅) in
  (elements r.1.2, ev_Action <$> r.2) = (["n3"], ["inject"; "heal"])%string.
Proof. vm_compute. reflexivity. Qed.
