(* ===== verification/Coordinator.v ===== *)
(** * Coordinator: the distributed control plane (core/cluster)

    A coordinator assigns worker identities, opens the start barrier once every
    slot is taken and collects one report and one histogram per worker.  Each
    HTTP handler's critical section is one transition; [cluster_step]
    interleaves them with disconnecting clients and with [Serve]. *)

From Stdlib Require Import Ascii String.
From S2P Require Import Prelude Domain Strconv.

Local Open Scope Z_scope.
Local Open Scope go_scope.

(** ** protocol.go *)

Record RunSpec := {
  sp_Target : string;
  sp_Workload : string;
  sp_Endpoints : list string;
  sp_Consistency : string;
  sp_Connections : Z;
  sp_Warmup : Z;
  sp_Duration : Z;
  sp_RateOpsPerSec : Z;
  sp_Seed : Z;
  sp_WorkerCount : Z
}.

Record WorkerReport := {
  wr_WorkerID : Z;
  wr_Total : Z;
  wr_Errors : Z;
  wr_ClientBound : bool
}.

Record Result := {
  res_Reports : list WorkerReport;
  res_Histograms : list string
}.

Record joinResponse := {
  jr_WorkerID : Z;
  jr_Spec : RunSpec;
  jr_StartAt : Z
}.

Record submitRequest := {
  sr_Report : WorkerReport;
  sr_Histogram : string
}.

(** ** coordinator.go *)

Definition defaultStartLead : Z := 500 * millisecond.
Definition defaultMaxWait : Z := 5 * minute.

(** A closed channel is [true]; [c_startAt] is set when [joinedAll] closes. *)
Record Coordinator := {
  c_spec : RunSpec;
  c_workerCount : Z;
  c_StartLead : Z;
  c_MaxWait : Z;
  c_joined : gmap Z bool;
  c_startAt : Z;
  c_reports : gmap Z WorkerReport;
  c_histos : gmap Z string;
  c_joinedAll : bool;
  c_submittedAll : bool;
  c_stop : bool
}.

Definition NewCoordinator (spec : RunSpec) (workerCount : Z) : Coordinator :=
  {| c_spec := spec; c_workerCount := workerCount; c_StartLead := defaultStartLead; c_MaxWait := 0;
     c_joined := ∅; c_startAt := 0; c_reports := ∅; c_histos := ∅;
     c_joinedAll := false; c_submittedAll := false; c_stop := false |}.

Definition startLead (c : Coordinator) : Z :=
  if c_StartLead c <=? 0 then defaultStartLead else c_StartLead c.

Definition maxWait (c : Coordinator) : Z :=
  if 0 <? c_MaxWait c then c_MaxWait c
  else let d := sp_Warmup (c_spec c) +! sp_Duration (c_spec c) +! startLead c in
       if 0 <? d then d +! defaultMaxWait else defaultMaxWait.

(** ** handlers.go *)

(** [c.joined[i]], false for an absent key. *)
Definition is_joined (c : Coordinator) (i : Z) : bool := default false (c_joined c !! i).

Fixpoint lowest_free (c : Coordinator) (n : nat) (i : Z) : Z :=
  match n with
  | O => -1
  | S n => if negb (is_joined c i) then i else lowest_free c n (i + 1)
  end.

(** [now] is the time read when the barrier opens. *)
Definition register (c : Coordinator) (now requested : Z) : Coordinator * option Z :=
  let id := if (0 <=? requested) && (requested <? c_workerCount c) && negb (is_joined c requested)
            then requested
            else lowest_free c (Z.to_nat (c_workerCount c)) 0 in
  if id <? 0 then (c, None)
  else
    let joined := <[id := true]> (c_joined c) in
    let opens := (Z.of_nat (size joined) =? c_workerCount c) && negb (c_joinedAll c) in
    ({| c_spec := c_spec c; c_workerCount := c_workerCount c; c_StartLead := c_StartLead c;
        c_MaxWait := c_MaxWait c; c_joined := joined;
        c_startAt := if opens then now + startLead c else c_startAt c;
        c_reports := c_reports c; c_histos := c_histos c;
        c_joinedAll := c_joinedAll c || opens; c_submittedAll := c_submittedAll c; c_stop := c_stop c |},
     Some id).

Definition recordSubmit (c : Coordinator) (req : submitRequest) : Coordinator * bool :=
  let id := wr_WorkerID (sr_Report req) in
  if negb (is_joined c id) then (c, false)
  else
    let reports := <[id := sr_Report req]> (c_reports c) in
    ({| c_spec := c_spec c; c_workerCount := c_workerCount c; c_StartLead := c_StartLead c;
        c_MaxWait := c_MaxWait c; c_joined := c_joined c; c_startAt := c_startAt c;
        c_reports := reports; c_histos := <[id := sr_Histogram req]> (c_histos c);
        c_joinedAll := c_joinedAll c;
        c_submittedAll := c_submittedAll c || (Z.of_nat (size reports) =? c_workerCount c);
        c_stop := c_stop c |}, true).

Fixpoint result_loop (c : Coordinator) (n : nat) (i : Z) : Result :=
  match n with
  | O => {| res_Reports := []; res_Histograms := [] |}
  | S n =>
      let rest := result_loop c n (i + 1) in
      match c_reports c !! i with
      | None => rest
      | Some rep => {| res_Reports := rep :: res_Reports rest;
                       res_Histograms := default ""%string (c_histos c !! i) :: res_Histograms rest |}
      end
  end.

Definition result (c : Coordinator) : Result := result_loop c (Z.to_nat (c_workerCount c)) 0.

(** Responses by status: 200, 204, 400, 405, 409, 503. *)
Inductive response :=
| Joined (r : joinResponse)
| NoContent
| BadRequest
| MethodNotAllowed
| Conflict
| Unavailable.

(** A request as it arrives: its method, and its body when it decodes. *)
Record request (A : Type) := { rq_post : bool; rq_body : option A }.
Arguments rq_post {_} _.
Arguments rq_body {_} _.

(** [handleJoin] up to its select: an immediate response, or the identity the
    request waits with. *)
Definition handleJoin (c : Coordinator) (now : Z) (r : request Z) : Coordinator * (response + Z) :=
  if negb (rq_post r) then (c, inl MethodNotAllowed)
  else match rq_body r with
       | None => (c, inl BadRequest)
       | Some requested =>
           match register c now requested with
           | (c, None) => (c, inl Conflict)
           | (c, Some id) => (c, inr id)
           end
       end.

(** The select's ready branches; with several ready any can be taken. *)
Definition joinReply (c : Coordinator) (id : Z) (resp : option response) : Prop :=
  match resp with
  | Some (Joined r) => c_joinedAll c = true /\
      r = {| jr_WorkerID := id; jr_Spec := c_spec c; jr_StartAt := c_startAt c |}
  | Some Unavailable => c_stop c = true
  | None => True   (* the client went away *)
  | _ => False
  end.

Definition handleSubmit (c : Coordinator) (r : request submitRequest) : Coordinator * response :=
  if negb (rq_post r) then (c, MethodNotAllowed)
  else match rq_body r with
       | None => (c, BadRequest)
       | Some req =>
           match recordSubmit c req with
           | (c, false) => (c, Conflict)
           | (c, true) => (c, NoContent)
           end
       end.

Definition close_stop (c : Coordinator) : Coordinator :=
  {| c_spec := c_spec c; c_workerCount := c_workerCount c; c_StartLead := c_StartLead c;
     c_MaxWait := c_MaxWait c; c_joined := c_joined c; c_startAt := c_startAt c;
     c_reports := c_reports c; c_histos := c_histos c; c_joinedAll := c_joinedAll c;
     c_submittedAll := c_submittedAll c; c_stop := true |}.

(** ** A distributed run *)

(** Where [Serve] is: in its select, shutting down with an error or not, or
    returned. *)
Inductive serve_pc :=
| Serving
| Stopping (err : option error)
| Returned (r : Result) (err : option error).

(** The coordinator, the requests waiting for the barrier, what was answered,
    the accepted submissions in order, and [Serve]. *)
Record cluster := {
  k_coord : Coordinator;
  k_waiting : list Z;
  k_assigned : list Z;
  k_replies : list joinResponse;
  k_submitted : list submitRequest;
  k_serve : serve_pc
}.

Definition cluster_init (spec : RunSpec) (n : Z) : cluster :=
  {| k_coord := NewCoordinator spec n; k_waiting := []; k_assigned := []; k_replies := [];
     k_submitted := []; k_serve := Serving |}.

Definition Result_zero : Result := {| res_Reports := []; res_Histograms := [] |}.

Inductive cluster_step : cluster -> cluster -> Prop :=
| k_join k now r c id :
    handleJoin (k_coord k) now r = (c, inr id) ->
    cluster_step k {| k_coord := c; k_waiting := id :: k_waiting k; k_assigned := id :: k_assigned k;
                      k_replies := k_replies k; k_submitted := k_submitted k; k_serve := k_serve k |}
| k_join_refused k now r c resp :
    handleJoin (k_coord k) now r = (c, inl resp) ->
    cluster_step k {| k_coord := c; k_waiting := k_waiting k; k_assigned := k_assigned k;
                      k_replies := k_replies k; k_submitted := k_submitted k; k_serve := k_serve k |}
| k_reply k id l1 l2 resp :
    k_waiting k = l1 ++ id :: l2 -> joinReply (k_coord k) id resp ->
    cluster_step k {| k_coord := k_coord k; k_waiting := l1 ++ l2; k_assigned := k_assigned k;
                      k_replies := match resp with
                                   | Some (Joined r) => r :: k_replies k
                                   | _ => k_replies k
                                   end;
                      k_submitted := k_submitted k; k_serve := k_serve k |}
| k_submit k r c resp :
    handleSubmit (k_coord k) r = (c, resp) ->
    cluster_step k {| k_coord := c; k_waiting := k_waiting k; k_assigned := k_assigned k;
                      k_replies := k_replies k;
                      k_submitted := match resp, rq_body r with
                                     | NoContent, Some req => req :: k_submitted k
                                     | _, _ => k_submitted k
                                     end;
                      k_serve := k_serve k |}
| k_serve_select k err :
    k_serve k = Serving -> (err = None -> c_submittedAll (k_coord k) = true) ->
    cluster_step k {| k_coord := close_stop (k_coord k); k_waiting := k_waiting k; k_assigned := k_assigned k;
                      k_replies := k_replies k; k_submitted := k_submitted k; k_serve := Stopping err |}
| k_serve_return k err :
    k_serve k = Stopping err ->
    cluster_step k {| k_coord := k_coord k; k_waiting := k_waiting k; k_assigned := k_assigned k;
                      k_replies := k_replies k; k_submitted := k_submitted k;
                      k_serve := Returned (match err with
                                           | Some _ => Result_zero
                                           | None => result (k_coord k)
                                           end) err |}.

(** ** worker.go *)

Fixpoint trim_right_slash (rev_t : text) : text :=
  match rev_t with
  | c :: t => if Ascii.eqb c "/"%char then trim_right_slash t else rev_t
  | [] => []
  end.

Definition normalizeURL (coordAddr : string) : string :=
  let addr := str (rev (trim_right_slash (rev (txt coordAddr)))) in
  if String.prefix "http://" addr || String.prefix "https://" addr then addr
  else "http://" +:+ addr.

Example normalizeURL_examples :
  map normalizeURL ["10.0.0.1:7070"; "http://h:1/"; "https://h//"]%string
  = ["http://10.0.0.1:7070"; "http://h:1"; "https://h"]%string.
Proof. reflexivity. Qed.

(** ** Identities *)

Lemma lowest_free_spec c n i :
  lowest_free c n i = -1 /\ (forall j, i <= j < i + Z.of_nat n -> is_joined c j = true) \/
  i <= lowest_free c n i < i + Z.of_nat n /\ is_joined c (lowest_free c n i) = false.
Proof.
  revert i. induction n as [|n IH]; intros i; cbn [lowest_free]; [left; split; [done|lia]|].
  destruct (is_joined c i) eqn:E; cbn [negb].
  - destruct (IH (i + 1)) as [[E1 H1]|[R1 H1]].
    + left. split; [done|]. intros j Hj. destruct (decide (j = i)) as [->|]; [done|]. apply H1. lia.
    + right. split; [lia|done].
  - right. split; [lia|done].
Qed.

(** A registration takes a free slot in range, and fails only when all are
    taken. *)
Lemma register_spec c now req :
  match register c now req with
  | (c', Some id) => 0 <= id < c_workerCount c /\ is_joined c id = false /\ c_joined c' = <[id := true]> (c_joined c)
  | (c', None) => c' = c /\ forall j, 0 <= j < c_workerCount c -> is_joined c j = true
  end.
Proof.
  unfold register.
  destruct ((0 <=? req) && (req <? c_workerCount c) && negb (is_joined c req)) eqn:E.
  - zbool. destruct (req <? 0) eqn:E0; zbool; [lia|]. done.
  - destruct (lowest_free_spec c (Z.to_nat (c_workerCount c)) 0) as [[E1 H1]|[R1 H1]].
    + rewrite E1. cbn. split; [done|]. intros j Hj. apply H1. lia.
    + destruct (_ <? 0) eqn:E0; zbool; [lia|]. split; [lia|]. done.
Qed.

(** ** The run's invariant *)

(** The latest accepted submission of a worker. *)
Definition last_submission (l : list submitRequest) (i : Z) : option submitRequest :=
  List.find (fun r => wr_WorkerID (sr_Report r) =? i) l.

(** A complete result: one report and one histogram per worker, in order, each
    of an accepted submission of that worker. *)
Definition complete (n : Z) (subs : list submitRequest) (r : Result) : Prop :=
  length (res_Reports r) = Z.to_nat n /\ length (res_Histograms r) = Z.to_nat n /\
  forall i, (i < Z.to_nat n)%nat ->
    exists req, req ∈ subs /\ wr_WorkerID (sr_Report req) = Z.of_nat i /\
      res_Reports r !! i = Some (sr_Report req) /\ res_Histograms r !! i = Some (sr_Histogram req).

Record cinv (spec : RunSpec) (n : Z) (k : cluster) : Prop := {
  ci_const : c_spec (k_coord k) = spec /\ c_workerCount (k_coord k) = n;
  ci_joined i b : c_joined (k_coord k) !! i = Some b -> b = true /\ 0 <= i < n;
  ci_assigned : NoDup (k_assigned k) /\ forall i, i ∈ k_assigned k <-> is_Some (c_joined (k_coord k) !! i);
  ci_barrier : c_joinedAll (k_coord k) = true -> Z.of_nat (size (c_joined (k_coord k))) = n;
  ci_waiting : NoDup (map jr_WorkerID (k_replies k) ++ k_waiting k) /\
               forall i, i ∈ map jr_WorkerID (k_replies k) ++ k_waiting k -> i ∈ k_assigned k;
  ci_replies r : r ∈ k_replies k ->
    c_joinedAll (k_coord k) = true /\ jr_StartAt r = c_startAt (k_coord k) /\ jr_Spec r = spec;
  ci_reports i : c_reports (k_coord k) !! i = sr_Report <$> last_submission (k_submitted k) i /\
                 c_histos (k_coord k) !! i = sr_Histogram <$> last_submission (k_submitted k) i /\
                 (is_Some (c_reports (k_coord k) !! i) -> is_Some (c_joined (k_coord k) !! i));
  ci_submitted : c_submittedAll (k_coord k) = true -> Z.of_nat (size (c_reports (k_coord k))) = n;
  ci_serve : match k_serve k with
             | Serving => True
             | Stopping None => c_submittedAll (k_coord k) = true
             | Stopping (Some _) => True
             | Returned r None => complete n (k_submitted k) r
             | Returned r (Some _) => r = Result_zero
             end
}.

Lemma cinv_init spec n : cinv spec n (cluster_init spec n).
Proof.
  split; cbn -[lookup].
  - done.
  - intros i b. by rewrite lookup_empty.
  - split; [constructor|]. intros i. rewrite lookup_empty. split; [by intros ?%elem_of_nil|by intros [? ?]].
  - done.
  - split; [constructor|]. by intros i ?%elem_of_nil.
  - by intros r ?%elem_of_nil.
  - intros i. rewrite !lookup_empty. split_and!; [done..|by intros [? ?]].
  - done.
  - done.
Qed.

Lemma last_submission_id l i r :
  last_submission l i = Some r -> wr_WorkerID (sr_Report r) = i /\ r ∈ l.
Proof.
  unfold last_submission. intros H. apply find_some in H as [Hin Heq]. zbool.
  split; [done|by apply list_elem_of_In].
Qed.

Lemma last_submission_cons r l i :
  last_submission (r :: l) i = if wr_WorkerID (sr_Report r) =? i then Some r else last_submission l i.
Proof. reflexivity. Qed.

(** A map with [n] keys, all in [0, n), has every key. *)
Lemma full_range {A} (m : gmap Z A) n :
  (forall i, is_Some (m !! i) -> 0 <= i < n) -> Z.of_nat (size m) = n ->
  forall i, 0 <= i < n -> is_Some (m !! i).
Proof.
  intros Hr Hs i Hi. destruct (m !! i) as [a|] eqn:E; [eauto|]. exfalso.
  assert (Hsub : dom m ⊆ list_to_set (seqZ 0 n) ∖ {[ i ]}).
  { intros j [b Hb]%elem_of_dom. apply elem_of_difference. split.
    - apply elem_of_list_to_set, elem_of_seqZ. assert (0 <= j < n) by (apply Hr; eauto). lia.
    - intros Hj%elem_of_singleton. subst. congruence. }
  apply subseteq_size in Hsub. rewrite size_dom, size_difference in Hsub.
  - rewrite size_singleton, size_list_to_set, length_seqZ in Hsub by apply NoDup_seqZ. lia.
  - apply singleton_subseteq_l, elem_of_list_to_set, elem_of_seqZ. lia.
Qed.

Lemma result_loop_spec c n i :
  (forall j, i <= j < i + Z.of_nat n -> is_Some (c_reports c !! j)) ->
  length (res_Reports (result_loop c n i)) = n /\ length (res_Histograms (result_loop c n i)) = n /\
  forall j, (j < n)%nat ->
    res_Reports (result_loop c n i) !! j = c_reports c !! (i + Z.of_nat j) /\
    res_Histograms (result_loop c n i) !! j = Some (default ""%string (c_histos c !! (i + Z.of_nat j))).
Proof.
  revert i. induction n as [|n IH]; intros i Hall; cbn [result_loop]; [split_and!; [done..|lia]|].
  destruct (Hall i ltac:(lia)) as [rep Hrep]. rewrite Hrep. cbn.
  destruct (IH (i + 1)) as (L1 & L2 & Hj); [intros; apply Hall; lia|].
  split_and!; [by rewrite L1|by rewrite L2|].
  intros [|j] Hlt.
  - cbn. by rewrite Z.add_0_r, Hrep.
  - destruct (Hj j ltac:(lia)) as [E1 E2].
    replace (i + 1 + Z.of_nat j) with (i + Z.of_nat (S j)) in E1, E2 by lia. done.
Qed.

Lemma result_complete spec n k :
  cinv spec n k -> c_submittedAll (k_coord k) = true -> complete n (k_submitted k) (result (k_coord k)).
Proof.
  intros [[_ En] Hj _ _ _ _ Hrep Hsub _] Hall. specialize (Hsub Hall).
  assert (Hrange : forall i, is_Some (c_reports (k_coord k) !! i) -> 0 <= i < n).
  { intros i Hi. destruct (Hrep i) as (_ & _ & Hd). destruct (Hd Hi) as [b Hb]. exact (proj2 (Hj _ _ Hb)). }
  assert (Hfull := full_range _ _ Hrange Hsub).
  unfold complete, result. rewrite En.
  destruct (result_loop_spec (k_coord k) (Z.to_nat n) 0) as (L1 & L2 & Hl); [intros; apply Hfull; lia|].
  split_and!; [done..|]. intros i Hi. destruct (Hl i Hi) as [-> ->]. cbn [Z.add].
  rewrite Z.add_0_l. destruct (Hrep (Z.of_nat i)) as (E1 & E2 & _).
  destruct (Hfull (Z.of_nat i) ltac:(lia)) as [rep Hr].
  destruct (last_submission (k_submitted k) (Z.of_nat i)) as [req|] eqn:El; cbn in E1, E2; [|congruence].
  apply last_submission_id in El as [Eid Hin]. exists req. rewrite E1, E2. done.
Qed.

Lemma complete_more n subs r x : complete n subs r -> complete n (x :: subs) r.
Proof.
  intros (L1 & L2 & Hi). split_and!; [done..|]. intros i Hlt.
  destruct (Hi i Hlt) as (req & Hin & ?). exists req. split; [by right|done].
Qed.

Lemma joined_full spec n k i :
  cinv spec n k -> c_joinedAll (k_coord k) = true -> 0 <= i < n -> is_joined (k_coord k) i = true.
Proof.
  intros [_ Hj _ Hb _ _ _ _ _] Hall Hi. specialize (Hb Hall).
  destruct (full_range (c_joined (k_coord k)) n) with (i := i) as [b Hb']; [|done..|].
  - intros j [b Hjb]. exact (proj2 (Hj _ _ Hjb)).
  - unfold is_joined. rewrite Hb'. exact (proj1 (Hj _ _ Hb')).
Qed.

Lemma is_joined_lookup c i : is_joined c i = true -> is_Some (c_joined c !! i).
Proof. unfold is_joined. by destruct (c_joined c !! i). Qed.

Lemma cinv_join spec n k now r c id :
  cinv spec n k -> handleJoin (k_coord k) now r = (c, inr id) ->
  cinv spec n {| k_coord := c; k_waiting := id :: k_waiting k; k_assigned := id :: k_assigned k;
                 k_replies := k_replies k; k_submitted := k_submitted k; k_serve := k_serve k |}.
Proof.
  intros Hinv. pose proof Hinv as [[Es En] Hj [Hnd Has] Hb [Hw1 Hw2] Hr Hrep Hsub Hserve].
  unfold handleJoin. destruct (negb (rq_post r)); [done|]. destruct (rq_body r) as [req|]; [|done].
  pose proof (register_spec (k_coord k) now req) as Hspec.
  destruct (register (k_coord k) now req) as [c' [id'|]] eqn:Ereg; [|done].
  intros [= -> ->]. destruct Hspec as (Hid & Hfree & Hjoined). rewrite En in Hid.
  assert (Hclosed : c_joinedAll (k_coord k) = false).
  { destruct (c_joinedAll (k_coord k)) eqn:E; [|done].
    pose proof (joined_full spec n k id Hinv E Hid). congruence. }
  assert (Hnew : id ∉ k_assigned k).
  { intros Hin. apply Has in Hin as [b Hb']. unfold is_joined in Hfree. rewrite Hb' in Hfree.
    destruct (Hj _ _ Hb') as [-> _]. done. }
  unfold register in Ereg. destruct (_ <? 0); [done|]. injection Ereg as Ec _.
  assert (Hrest : c_spec c = c_spec (k_coord k) /\ c_workerCount c = c_workerCount (k_coord k) /\
                  c_reports c = c_reports (k_coord k) /\ c_histos c = c_histos (k_coord k) /\
                  c_submittedAll c = c_submittedAll (k_coord k) /\
                  (c_joinedAll c = true -> Z.of_nat (size (c_joined c)) = n)).
  { rewrite <- Ec. cbn. split_and!; try done. rewrite Hclosed. cbn. rewrite andb_true_r, En.
    intros E. by zbool. }
  destruct Hrest as (R1 & R2 & R3 & R4 & R5 & R6).
  split; cbn [k_coord k_waiting k_assigned k_replies k_submitted k_serve].
  - by rewrite R1, R2.
  - intros i b. rewrite Hjoined. intros [[<- <-]|[_ Hi]]%lookup_insert_Some; [done|]. by apply Hj.
  - split; [by constructor|]. intros i. rewrite Hjoined, elem_of_cons, Has.
    destruct (decide (id = i)) as [<-|Hne].
    + rewrite lookup_insert_eq. split; [eauto|by left].
    + rewrite lookup_insert_ne by done. split; [by intros [->|]|by right].
  - exact R6.
  - split.
    + rewrite <- Permutation_middle. constructor; [|done]. intros Hin. by apply Hnew, Hw2.
    + intros i. rewrite <- Permutation_middle, elem_of_cons. intros [->|Hi]; [left|right; by apply Hw2].
  - intros r' Hr'. destruct (Hr r' Hr') as [E _]. congruence.
  - intros i. rewrite R3, R4, Hjoined. destruct (Hrep i) as (E1 & E2 & E3). split_and!; [done..|].
    intros Hi. destruct (decide (id = i)) as [<-|Hne]; [rewrite lookup_insert_eq; eauto|].
    rewrite lookup_insert_ne by done. by apply E3.
  - rewrite R3, R5. exact Hsub.
  - destruct (k_serve k) as [|[e|]|res [e|]]; rewrite ?R5; done.
Qed.

Lemma cinv_submit spec n k req :
  cinv spec n k ->
  match recordSubmit (k_coord k) req with
  | (c, true) => cinv spec n {| k_coord := c; k_waiting := k_waiting k; k_assigned := k_assigned k;
                   k_replies := k_replies k; k_submitted := req :: k_submitted k; k_serve := k_serve k |}
  | (c, false) => c = k_coord k
  end.
Proof.
  intros Hinv. pose proof Hinv as [[Es En] Hj Has Hb Hw Hr Hrep Hsub Hserve].
  unfold recordSubmit. set (id := wr_WorkerID (sr_Report req)).
  destruct (is_joined (k_coord k) id) eqn:Ej; cbn [negb]; [|done].
  apply is_joined_lookup in Ej as Hid. destruct Hid as [b Hb'].
  assert (Hrange : forall i, is_Some (c_reports (k_coord k) !! i) -> 0 <= i < n).
  { intros i Hi. destruct (Hrep i) as (_ & _ & Hd). destruct (Hd Hi) as [b' Hbi]. exact (proj2 (Hj _ _ Hbi)). }
  assert (Hkeep : c_submittedAll (k_coord k) = true ->
                  size (<[id := sr_Report req]> (c_reports (k_coord k))) = size (c_reports (k_coord k))).
  { intros Hall. destruct (full_range _ _ Hrange (Hsub Hall) id (proj2 (Hj _ _ Hb'))) as [rep Hrepid].
    by rewrite map_size_insert_Some by done. }
  split; cbn [k_coord k_waiting k_assigned k_replies k_submitted k_serve
              c_spec c_workerCount c_joined c_joinedAll c_startAt c_reports c_histos c_submittedAll]; try done.
  - intros i. rewrite last_submission_cons. fold id. destruct (Hrep i) as (E1 & E2 & E3).
    destruct (id =? i) eqn:Ei; zbool.
    + subst i. rewrite !lookup_insert_eq. split_and!; [done..|]. intros _. rewrite Hb'. eauto.
    + rewrite !lookup_insert_ne by done. done.
  - rewrite orb_true_iff. intros [Hall|Hall]; [rewrite Hkeep by done; by apply Hsub|zbool; lia].
  - destruct (k_serve k) as [|[e|]|res [e|]]; try done.
    + by rewrite Hserve.
    + by apply complete_more.
Qed.

Lemma cinv_step spec n k k' : cinv spec n k -> cluster_step k k' -> cinv spec n k'.
Proof.
  intros Hinv Hstep. destruct Hstep as
    [k now r c id Hh|k now r c resp Hh|k id l1 l2 resp Hw Hreply|k r c resp Hh|k err Hs Hall|k err Hs].
  - by eapply cinv_join.
  - assert (c = k_coord k) as ->; [|by destruct k].
    unfold handleJoin in Hh. destruct (negb (rq_post r)); [by simplify_eq|].
    destruct (rq_body r) as [req|]; [|by simplify_eq].
    pose proof (register_spec (k_coord k) now req) as Hspec.
    destruct (register (k_coord k) now req) as [c' [id'|]]; [done|]. destruct Hspec as [-> _]. by simplify_eq.
  - destruct Hinv as [Hc Hj Has Hb [Hw1 Hw2] Hr Hrep Hsub Hserve]. rewrite Hw in Hw1, Hw2.
    split; cbn [k_coord k_waiting k_assigned k_replies k_submitted k_serve]; try done.
    + assert (Hdrop : NoDup (map jr_WorkerID (k_replies k) ++ l1 ++ l2) /\
        (forall i, i ∈ map jr_WorkerID (k_replies k) ++ l1 ++ l2 -> i ∈ k_assigned k)).
      { rewrite <- Permutation_middle, <- Permutation_middle in Hw1.
        split; [by inversion Hw1|]. intros i Hi. apply Hw2.
        rewrite <- Permutation_middle, <- Permutation_middle. by right. }
      destruct resp as [[r| | | | |]|]; try done. destruct Hreply as [_ ->]. cbn [map jr_WorkerID].
      rewrite <- Permutation_middle, <- Permutation_middle in Hw1. split; [done|].
      intros i Hi. apply Hw2. by rewrite <- Permutation_middle, <- Permutation_middle.
    + intros r' Hr'. destruct resp as [[r| | | | |]|]; try by apply Hr.
      destruct Hreply as [Hopen ->]. apply elem_of_cons in Hr' as [->|Hr']; [|by apply Hr].
      cbn. by destruct Hc.
  - unfold handleSubmit in Hh. destruct (negb (rq_post r)) eqn:Ep; [simplify_eq; by destruct k|].
    destruct (rq_body r) as [req|]; [|simplify_eq; by destruct k].
    pose proof (cinv_submit spec n k req Hinv) as Hsubm.
    destruct (recordSubmit (k_coord k) req) as [c' [|]]; simplify_eq; [done|by destruct k].
  - destruct Hinv as [Hc Hj Has Hb Hw Hr Hrep Hsub Hserve].
    split; cbn [k_coord k_waiting k_assigned k_replies k_submitted k_serve close_stop
      c_spec c_workerCount c_joined c_joinedAll c_startAt c_reports c_histos c_submittedAll]; try done.
    destruct err; [done|]. by apply Hall.
  - pose proof Hinv as [Hc Hj Has Hb Hw Hr Hrep Hsub Hserve]. rewrite Hs in Hserve.
    split; cbn [k_coord k_waiting k_assigned k_replies k_submitted k_serve]; try done.
    destruct err; [done|]. by eapply result_complete.
Qed.

Lemma cinv_reach spec n k : rtc cluster_step (cluster_init spec n) k -> cinv spec n k.
Proof.
  intros Hr. pose proof (cinv_init spec n) as Hinv.
  induction Hr as [|k1 k2 k3 H12 _ IH]; [done|]. apply IH. by eapply cinv_step.
Qed.

(** ** Properties *)

(** C25: However joins, disconnects, submissions and shutdown interleave, the
    identities handed out are distinct and in range; a worker is answered only
    once every slot has been assigned, no two answers carry the same identity,
    and all answered workers get the same run specification and the same start
    time. *)
Theorem join_barrier spec n k :
  rtc cluster_step (cluster_init spec n) k ->
  NoDup (k_assigned k) /\ (forall i, i ∈ k_assigned k -> 0 <= i < n) /\
  NoDup (map jr_WorkerID (k_replies k)) /\
  (forall r, r ∈ k_replies k ->
     jr_WorkerID r ∈ k_assigned k /\ jr_Spec r = spec /\ Z.of_nat (length (k_assigned k)) = n /\
     forall r', r' ∈ k_replies k -> jr_StartAt r = jr_StartAt r').
Proof.
  intros Hr. destruct (cinv_reach _ _ _ Hr) as [_ Hj [Hnd Has] Hb [Hw1 Hw2] Hrep _ _ _].
  assert (Hrange : forall i, i ∈ k_assigned k -> 0 <= i < n).
  { intros i [b Hi]%Has. exact (proj2 (Hj _ _ Hi)). }
  split_and!; [done|done|by apply NoDup_app in Hw1 as [? _]|].
  intros r Hin. destruct (Hrep r Hin) as (Hopen & Hstart & Hspec). split_and!; [|done| |].
  - apply Hw2, elem_of_app. left. by apply list_elem_of_fmap_2.
  - rewrite <- (Hb Hopen). f_equal. rewrite <- size_dom.
    rewrite <- (size_list_to_set (C := gset Z) (k_assigned k)) by done. f_equal.
    apply set_eq. intros i. rewrite elem_of_list_to_set, Has, elem_of_dom. done.
  - intros r' Hr'. destruct (Hrep r' Hr') as (_ & -> & _). done.
Qed.

(** When [Serve] returns without an error, its result is complete: one
    report and one histogram per worker, index-aligned and ordered by worker
    identity, each taken from a submission of that worker that was accepted.
    When it returns an error, the result is empty. *)
Theorem Serve_result_complete spec n k r err :
  rtc cluster_step (cluster_init spec n) k -> k_serve k = Returned r err ->
  match err with
  | None => complete n (k_submitted k) r
  | Some _ => r = Result_zero
  end.
Proof.
  intros Hr Hs. destruct (cinv_reach _ _ _ Hr) as [_ _ _ _ _ _ _ _ Hserve]. rewrite Hs in Hserve.
  by destruct err.
Qed.

(** ** A run of two workers *)

Definition sample_run_spec : RunSpec :=
  {| sp_Target := "redis"; sp_Workload := "kv"; sp_Endpoints := ["h:1"]; sp_Consistency := "";
     sp_Connections := 4; sp_Warmup := 0; sp_Duration := 10 * second; sp_RateOpsPerSec := 1000;
     sp_Seed := 1; sp_WorkerCount := 2 |}.

Definition post {A} (a : A) : request A := {| rq_post := true; rq_body := Some a |}.

Definition sample_submit (i : Z) (blob : string) : submitRequest :=
  {| sr_Report := {| wr_WorkerID := i; wr_Total := 100 + i; wr_Errors := i; wr_ClientBound := false |};
     sr_Histogram := blob |}.

(** Both join (the second asks for the taken slot 0), both are answered, both
    submit, and [Serve] returns. *)
Definition sample_join (k : cluster) (now req : Z) : cluster :=
  match handleJoin (k_coord k) now (post req) with
  | (c, inr id) => {| k_coord := c; k_waiting := id :: k_waiting k; k_assigned := id :: k_assigned k;
                      k_replies := k_replies k; k_submitted := k_submitted k; k_serve := k_serve k |}
  | (_, inl _) => k
  end.

Definition sample_answer (k : cluster) : cluster :=
  match k_waiting k with
  | id :: rest => {| k_coord := k_coord k; k_waiting := rest; k_assigned := k_assigned k;
      k_replies := {| jr_WorkerID := id; jr_Spec := c_spec (k_coord k); jr_StartAt := c_startAt (k_coord k) |}
                   :: k_replies k;
      k_submitted := k_submitted k; k_serve := k_serve k |}
  | [] => k
  end.

Definition sample_post (k : cluster) (req : submitRequest) : cluster :=
  let '(c, resp) := handleSubmit (k_coord k) (post req) in
  {| k_coord := c; k_waiting := k_waiting k; k_assigned := k_assigned k; k_replies := k_replies k;
     k_submitted := match resp with NoContent => req :: k_submitted k | _ => k_submitted k end;
     k_serve := k_serve k |}.

Definition sample_k1 : cluster := sample_join (cluster_init sample_run_spec 2) 100 0.
Definition sample_k2 : cluster := sample_join sample_k1 200 0.
Definition sample_k3 : cluster := sample_answer sample_k2.
Definition sample_k4 : cluster := sample_answer sample_k3.
Definition sample_k5 : cluster := sample_post sample_k4 (sample_submit 1 "B").
Definition sample_k6 : cluster := sample_post sample_k5 (sample_submit 0 "A").
Definition sample_k7 : cluster :=
  {| k_coord := close_stop (k_coord sample_k6); k_waiting := k_waiting sample_k6;
     k_assigned := k_assigned sample_k6; k_replies := k_replies sample_k6;
     k_submitted := k_submitted sample_k6; k_serve := Stopping None |}.
Definition sample_k8 : cluster :=
  {| k_coord := k_coord sample_k7; k_waiting := k_waiting sample_k7; k_assigned := k_assigned sample_k7;
     k_replies := k_replies sample_k7; k_submitted := k_submitted sample_k7;
     k_serve := Returned (result (k_coord sample_k7)) None |}.

Example sample_cluster_run :
  (res_Histograms (result (k_coord sample_k7)), map jr_StartAt (k_replies sample_k8), k_assigned sample_k8)
  = (["A"; "B"]%string, [200 + 500 * millisecond; 200 + 500 * millisecond], [1; 0]).
Proof. vm_compute. reflexivity. Qed.

Lemma sample_join_reach k now req : rtc cluster_step k (sample_join k now req).
Proof.
  unfold sample_join. destruct (handleJoin (k_coord k) now (post req)) as [c [resp|id]] eqn:E; [done|].
  apply rtc_once. by eapply k_join.
Qed.

Lemma sample_answer_reach k :
  c_joinedAll (k_coord k) = true -> rtc cluster_step k (sample_answer k).
Proof.
  intros Hopen. unfold sample_answer. destruct (k_waiting k) as [|id rest] eqn:E; [done|].
  apply rtc_once. exact (k_reply k id [] rest (Some (Joined _)) E (conj Hopen eq_refl)).
Qed.

Lemma sample_post_reach k req : rtc cluster_step k (sample_post k req).
Proof.
  unfold sample_post. destruct (handleSubmit (k_coord k) (post req)) as [c resp] eqn:E.
  apply rtc_once. pose proof (k_submit k (post req) c resp E) as Hs. by destruct resp.
Qed.

Lemma sample_cluster_reach : rtc cluster_step (cluster_init sample_run_spec 2) sample_k8.
Proof.
  transitivity sample_k1; [apply sample_join_reach|].
  transitivity sample_k2; [apply sample_join_reach|].
  transitivity sample_k3; [apply sample_answer_reach; vm_compute; reflexivity|].
  transitivity sample_k4; [apply sample_answer_reach; vm_compute; reflexivity|].
  transitivity sample_k5; [apply sample_post_reach|].
  transitivity sample_k6; [apply sample_post_reach|].
  transitivity sample_k7; [apply rtc_once, (k_serve_select sample_k6 None); vm_compute; reflexivity|].
  apply rtc_once. exact (k_serve_return sample_k7 None eq_refl).
Qed.

Lemma join_barrier_witness :
  NoDup (k_assigned sample_k8) /\ (forall i, i ∈ k_assigned sample_k8 -> 0 <= i < 2) /\
  NoDup (map jr_WorkerID (k_replies sample_k8)) /\
  (forall r, r ∈ k_replies sample_k8 ->
     jr_WorkerID r ∈ k_assigned sample_k8 /\ jr_Spec r = sample_run_spec /\
     Z.of_nat (length (k_assigned sample_k8)) = 2 /\
     forall r', r' ∈ k_replies sample_k8 -> jr_StartAt r = jr_StartAt r').
Proof. exact (join_barrier sample_run_spec 2 sample_k8 sample_cluster_reach). Defined.

Lemma Serve_result_complete_witness :
  complete 2 (k_submitted sample_k8) (result (k_coord sample_k7)).
Proof.
  exact (Serve_result_complete sample_run_spec 2 sample_k8 (result (k_coord sample_k7)) None
    sample_cluster_reach eq_refl).
Defined.

(** A client that goes away while it waits for the barrier keeps its slot:
    with every slot taken, a worker that joins in its place is refused, now and
    at any later attempt from that state. *)
Theorem disconnect_keeps_slot spec n k now r req id l1 l2 :
  rtc cluster_step (cluster_init spec n) k ->
  k_waiting k = l1 ++ id :: l2 -> Z.of_nat (length (k_assigned k)) = n ->
  rq_post r = true -> rq_body r = Some req ->
  let k' := {| k_coord := k_coord k; k_waiting := l1 ++ l2; k_assigned := k_assigned k;
               k_replies := k_replies k; k_submitted := k_submitted k; k_serve := k_serve k |} in
  cluster_step k k' /\ (id ∉ k_waiting k') /\ handleJoin (k_coord k') now r = (k_coord k', inl Conflict).
Proof.
  intros Hr Hw Hfull Hpost Hbody k'. split_and!.
  - exact (k_reply k id l1 l2 None Hw I).
  - destruct (cinv_reach _ _ _ Hr) as [_ _ _ _ [Hw1 _] _ _ _ _]. rewrite Hw in Hw1.
    rewrite <- Permutation_middle, <- Permutation_middle in Hw1. inversion Hw1 as [|? ? Hnot _]; subst.
    cbn. intros Hin. apply Hnot, elem_of_app. by right.
  - unfold handleJoin. rewrite Hpost, Hbody. cbn [negb k_coord k'].
    destruct (cinv_reach _ _ _ Hr) as [[_ En] Hj [Hnd Has] _ _ _ _ _ _].
    pose proof (register_spec (k_coord k) now req) as Hspec.
    destruct (register (k_coord k) now req) as [c [i|]]; [|by destruct Hspec as [-> _]].
    destruct Hspec as (Hi & Hfree & _). rewrite En in Hi. exfalso.
    assert (Hsize : Z.of_nat (size (c_joined (k_coord k))) = n).
    { rewrite <- Hfull. f_equal. rewrite <- size_dom.
      rewrite <- (size_list_to_set (C := gset Z) (k_assigned k)) by done. f_equal.
      apply set_eq. intros j. rewrite elem_of_list_to_set, Has, elem_of_dom. done. }
    destruct (full_range _ n (fun j '(ex_intro _ b Hb) => proj2 (Hj j b Hb)) Hsize i Hi) as [b Hb].
    unfold is_joined in Hfree. rewrite Hb in Hfree. by destruct (Hj _ _ Hb) as [-> _].
Qed.

Lemma disconnect_keeps_slot_witness :
  let k' := {| k_coord := k_coord sample_k2; k_waiting := [0]; k_assigned := k_assigned sample_k2;
               k_replies := k_replies sample_k2; k_submitted := k_submitted sample_k2;
               k_serve := k_serve sample_k2 |} in
  cluster_step sample_k2 k' /\ (1 ∉ k_waiting k') /\ handleJoin (k_coord k') 300 (post (-1)) = (k_coord k', inl Conflict).
Proof.
  apply (disconnect_keeps_slot sample_run_spec 2 sample_k2 300 (post (-1)) (-1) 1 [] [0]); try reflexivity.
  transitivity sample_k1; apply sample_join_reach.
Defined.
