(* ===== verification/Worker.v ===== *)
(** * Worker: the worker's side of the control plane (core/cluster/worker.go)

    The client of Coordinator: its calls, the answers of the handlers as they
    travel over HTTP, and what a worker knows when its calls succeed. *)

From Stdlib Require Import Ascii String.
From S2P Require Import Metrics Coordinator Prelude Domain Strconv.

Local Open Scope Z_scope.

Abbreviation result := Prelude.result (only parsing).

(** ** Interfaces *)

(** [http.NewRequestWithContext] checks the URL; [client.Do] posts a body and answers
    with a status code, its text and the body. *)
Class PostCall (X : Type) := {
  build_request : string -> option error;
  client_Do : string -> text -> X -> X * result error (Z * string * text)
}.

(** encoding/json on the messages of protocol.go. *)
Class ClusterJson := {
  marshal_join : Z -> result error text;
  decode_join : text -> result error Z;
  encode_joined : joinResponse -> text;
  decode_joined : text -> result error joinResponse;
  marshal_submit : submitRequest -> result error text;
  decode_submit : text -> result error submitRequest
}.

(** What is marshalled is read back, the reply for the specification [spec] (JSON
    replaces text that is not UTF-8). *)
Record json_faithful {J : ClusterJson} (spec : RunSpec) : Prop := {
  join_read n b : marshal_join n = Ok b -> decode_join b = Ok n;
  joined_read r : jr_Spec r = spec -> decode_joined (encode_joined r) = Ok r;
  submit_read r b : marshal_submit r = Ok b -> decode_submit b = Ok r
}.

(** ** worker.go *)

Record Worker := { wk_coordURL : string; wk_id : Z }.

Definition NewWorker (coordAddr : string) (id : Z) : Worker := {| wk_coordURL := normalizeURL coordAddr; wk_id := id |}.

Definition ID (w : Worker) : Z := wk_id w.

Section worker.
Context {X : Type} {P : PostCall X} {J : ClusterJson}.
Implicit Types x : X.

(** [out] decodes the reply; for a nil [out] it is [fun _ => Ok tt]. *)
Definition post {A} (w : Worker) (path : string) (in_ : result error text) (out : text -> result error A) (x : X) : X * result error A :=
  match in_ with
  | Err e => (x, Err ("cluster: marshal " +:+ path +:+ ": " +:+ e))
  | Ok body =>
      match build_request (wk_coordURL w +:+ path) with
      | Some e => (x, Err ("cluster: request " +:+ path +:+ ": " +:+ e))
      | None =>
          match client_Do (wk_coordURL w +:+ path) body x with
          | (x, Err e) => (x, Err ("cluster: post " +:+ path +:+ ": " +:+ e))
          | (x, Ok (code, status, msg)) =>
              if 300 <=? code then
                (x, Err ("cluster: " +:+ path +:+ ": " +:+ status +:+ ": " +:+ TrimSpace (str (take 4096 msg))))
              else match out msg with
                   | Err e => (x, Err ("cluster: decode " +:+ path +:+ ": " +:+ e))
                   | Ok a => (x, Ok a)
                   end
          end
      end
  end.

Definition Join (w : Worker) (x : X) : X * Worker * result error (RunSpec * Z) :=
  match post w "/join" (marshal_join (wk_id w)) decode_joined x with
  | (x, Err e) => (x, w, Err e)
  | (x, Ok resp) => (x, {| wk_coordURL := wk_coordURL w; wk_id := jr_WorkerID resp |}, Ok (jr_Spec resp, jr_StartAt resp))
  end.

Definition Submit (w : Worker) (r : WorkerReport) (histogram : string) (x : X) : X * option error :=
  match post w "/submit" (marshal_submit {| sr_Report := r; sr_Histogram := histogram |}) (fun _ => Ok tt) x with
  | (x, Err e) => (x, Some e)
  | (x, Ok _) => (x, None)
  end.
End worker.

(** ** The handlers' answers (handlers.go) *)

Section answers.
Context {J : ClusterJson}.

(** [http.Error] ends the message with a newline. *)
Definition http_error (code : Z) (status msg : string) : Z * string * text := (code, status, txt msg ++ ["010"%char]).

Definition join_answer (r : response) : Z * string * text :=
  match r with
  | Joined r => (200, "200 OK"%string, encode_joined r)
  | NoContent => (204, "204 No Content"%string, [])
  | BadRequest => http_error 400 "400 Bad Request" "bad join body"
  | MethodNotAllowed => http_error 405 "405 Method Not Allowed" "method not allowed"
  | Conflict => http_error 409 "409 Conflict" "cluster full: late join rejected"
  | Unavailable => http_error 503 "503 Service Unavailable" "coordinator shutting down"
  end.

Definition submit_answer (r : response) : Z * string * text :=
  match r with
  | BadRequest => http_error 400 "400 Bad Request" "bad submit body"
  | Conflict => http_error 409 "409 Conflict" "unknown worker id"
  | r => join_answer r
  end.

Definition body_of {A} (r : result error A) : option A := match r with Ok a => Some a | Err _ => None end.

Definition posted {A} (r : result error A) : request A := {| rq_post := true; rq_body := body_of r |}.

(** *** What posting to a coordinator does

    Others' steps come before, between and after; the answer is the handler's. *)

Definition join_served (k : cluster) (body : text) (k' : cluster) (ans : Z * string * text) : Prop :=
  exists k0 now, rtc cluster_step k k0 /\
    match handleJoin (k_coord k0) now (posted (decode_join body)) with
    | (c, inl resp) =>
        rtc cluster_step {| k_coord := c; k_waiting := k_waiting k0; k_assigned := k_assigned k0; k_replies := k_replies k0;
                            k_submitted := k_submitted k0; k_serve := k_serve k0 |} k' /\ ans = join_answer resp
    | (c, inr id) =>
        exists k1 l1 l2 resp,
          rtc cluster_step {| k_coord := c; k_waiting := id :: k_waiting k0; k_assigned := id :: k_assigned k0;
                              k_replies := k_replies k0; k_submitted := k_submitted k0; k_serve := k_serve k0 |} k1 /\
          k_waiting k1 = l1 ++ id :: l2 /\ joinReply (k_coord k1) id (Some resp) /\
          rtc cluster_step {| k_coord := k_coord k1; k_waiting := l1 ++ l2; k_assigned := k_assigned k1;
                              k_replies := match resp with Joined r => r :: k_replies k1 | _ => k_replies k1 end;
                              k_submitted := k_submitted k1; k_serve := k_serve k1 |} k' /\ ans = join_answer resp
    end.

Definition submit_served (k : cluster) (body : text) (k' : cluster) (ans : Z * string * text) : Prop :=
  exists k0, rtc cluster_step k k0 /\
    let '(c, resp) := handleSubmit (k_coord k0) (posted (decode_submit body)) in
    rtc cluster_step {| k_coord := c; k_waiting := k_waiting k0; k_assigned := k_assigned k0; k_replies := k_replies k0;
                        k_submitted := match resp, body_of (decode_submit body) with
                                       | NoContent, Some req => req :: k_submitted k0
                                       | _, _ => k_submitted k0
                                       end;
                        k_serve := k_serve k0 |} k' /\ ans = submit_answer resp.
End answers.

(** The network carries a request to the coordinator at [base] and its answer back, or
    fails, the coordinator running on meanwhile. *)
Record network {X} {P : PostCall X} {J : ClusterJson} (base : string) (coord : X -> cluster) : Prop := {
  join_carried body x x' ans : client_Do (base +:+ "/join") body x = (x', Ok ans) -> join_served (coord x) body (coord x') ans;
  submit_carried body x x' ans : client_Do (base +:+ "/submit") body x = (x', Ok ans) -> submit_served (coord x) body (coord x') ans;
  call_lost url body x x' e : client_Do url body x = (x', Err e) -> rtc cluster_step (coord x) (coord x')
}.

(** ** What stays *)

Lemma cluster_step_mono k k' :
  cluster_step k k' -> k_replies k ⊆ k_replies k' /\ k_submitted k ⊆ k_submitted k'.
Proof.
  intros Hs. destruct Hs; cbn [k_replies k_submitted]; split; try done.
  - destruct resp as [[]|]; set_solver.
  - repeat case_match; set_solver.
Qed.

Lemma cluster_mono k k' : rtc cluster_step k k' -> k_replies k ⊆ k_replies k' /\ k_submitted k ⊆ k_submitted k'.
Proof.
  induction 1 as [|k1 k2 k3 H1 _ [IH1 IH2]]; [done|]. apply cluster_step_mono in H1 as [? ?]. split; set_solver.
Qed.

Definition answered (k : cluster) : list Z := map jr_WorkerID (k_replies k).

Lemma answered_mono k k' : rtc cluster_step k k' -> answered k ⊆ answered k'.
Proof.
  intros [H _]%cluster_mono i Hi. unfold answered in *. apply list_elem_of_fmap in Hi as (r & -> & Hr).
  by apply list_elem_of_fmap_2, H.
Qed.

(** No slot is answered for twice, and none that was answered for waits. *)
Lemma answered_once spec n k :
  rtc cluster_step (cluster_init spec n) k -> NoDup (answered k) /\ forall i, i ∈ k_waiting k -> i ∉ answered k.
Proof.
  intros Hk. destruct (ci_waiting _ _ _ (cinv_reach _ _ _ Hk)) as [Hn _]. apply NoDup_app in Hn as (H1 & H2 & _).
  split; [done|]. intros i Hw Ha. by apply (H2 i).
Qed.

(** What a reply in a reachable state says. *)
Lemma reply_known spec n k r :
  rtc cluster_step (cluster_init spec n) k -> r ∈ k_replies k ->
  jr_Spec r = spec /\ jr_StartAt r = c_startAt (k_coord k) /\ c_joinedAll (k_coord k) = true /\
  0 <= jr_WorkerID r < n /\ is_joined (k_coord k) (jr_WorkerID r) = true.
Proof.
  intros Hk Hr. destruct (cinv_reach _ _ _ Hk) as [_ Hj [_ Has] _ [_ Hw] Hrep _ _ _].
  destruct (Hrep r Hr) as (Hopen & Hstart & Hspec).
  assert (Hin : jr_WorkerID r ∈ k_assigned k) by (apply Hw, elem_of_app; left; by apply list_elem_of_fmap_2).
  apply Has in Hin as [b Hb]. destruct (Hj _ _ Hb) as [-> Hid]. unfold is_joined. by rewrite Hb.
Qed.

Section protocol.
Context {X : Type} {P : PostCall X} {J : ClusterJson}.
Implicit Types x : X.

Lemma join_served_spec k body k' code status msg :
  join_served k body k' (code, status, msg) ->
  rtc cluster_step k k' /\
  (code < 300 -> exists r, msg = encode_joined r /\ r ∈ k_replies k' /\
     forall spec n, rtc cluster_step (cluster_init spec n) k -> jr_WorkerID r ∉ answered k).
Proof.
  intros (k0 & now & H0 & Hj). destruct (handleJoin _ _ _) as [c [resp|id]] eqn:Eh.
  - destruct Hj as [H1 Ha]. split.
    + transitivity k0; [done|]. eapply rtc_l; [by eapply k_join_refused|done].
    + intros Hc. exfalso. unfold handleJoin in Eh. repeat case_match; unfold join_answer, http_error in Ha; simplify_eq/=; lia.
  - destruct Hj as (k1 & l1 & l2 & resp & H1 & Hw & Hr & H2 & Ha).
    pose proof (k_reply k1 id l1 l2 (Some resp) Hw Hr) as Hstep. cbn [joinReply] in Hr. split.
    + transitivity k0; [done|]. eapply rtc_l; [by eapply k_join|]. transitivity k1; [done|]. by eapply rtc_l.
    + intros Hc. destruct resp as [r| | | | |]; try done; injection Ha as -> -> ->; [|lia].
      exists r. split; [done|]. split; [apply cluster_mono in H2 as [H2 _]; apply H2; cbn [k_replies]; apply list_elem_of_here|].
      intros spec n Hk Ha. destruct Hr as [_ ->].
      assert (H01 : rtc cluster_step k k1) by (transitivity k0; [done|]; eapply rtc_l; [by eapply k_join|done]).
      apply (proj2 (answered_once spec n k1 ltac:(by transitivity k)) id); [rewrite Hw; set_solver|].
      by apply (answered_mono k).
Qed.

(** The submission of a worker that holds a slot is accepted. *)
Lemma submit_served_spec k body k' code status msg req :
  submit_served k body k' (code, status, msg) ->
  rtc cluster_step k k' /\
  (decode_submit body = Ok req -> (forall k0, rtc cluster_step k k0 -> is_joined (k_coord k0) (wr_WorkerID (sr_Report req)) = true) ->
   code = 204 /\ req ∈ k_submitted k').
Proof.
  intros (k0 & H0 & Hs). destruct (handleSubmit _ _) as [c resp] eqn:Eh. destruct Hs as [H1 Ha].
  pose proof (k_submit k0 _ c resp Eh) as Hstep. cbn [posted rq_body] in Hstep. split.
  - transitivity k0; [done|]. by eapply rtc_l.
  - intros Hd Hk. specialize (Hk k0 H0). unfold handleSubmit, posted in Eh. cbn [rq_post rq_body negb] in Eh.
    rewrite Hd in Eh, H1. cbn [body_of] in Eh, H1. unfold recordSubmit in Eh. rewrite Hk in Eh. cbn [negb] in Eh. injection Eh as <- <-.
    injection Ha as -> _ _. split; [done|]. apply cluster_mono in H1 as [_ H1]. apply H1. apply list_elem_of_here.
Qed.

Lemma Join_steps base coord w x x' w' r :
  network base coord -> wk_coordURL w = base -> Join w x = (x', w', r) ->
  rtc cluster_step (coord x) (coord x') /\ wk_coordURL w' = base.
Proof.
  intros [Nj _ Nl] Hb. unfold Join, post. rewrite Hb.
  destruct (marshal_join _) as [body|e]; [|by intros [= <- <- <-]].
  destruct (build_request _); [by intros [= <- <- <-]|].
  destruct (client_Do _ body x) as [x1 [[[code status] msg]|e]] eqn:Ec.
  - apply Nj, join_served_spec in Ec as [Hk _]. repeat case_match; intros; simplify_eq; done.
  - apply Nl in Ec. by intros [= <- <- <-].
Qed.

Lemma Join_replied base coord w x x' w' spec t0 :
  network base coord -> wk_coordURL w = base -> Join w x = (x', w', Ok (spec, t0)) ->
  exists r, r ∈ k_replies (coord x') /\
    (forall s n, rtc cluster_step (cluster_init s n) (coord x) -> jr_WorkerID r ∉ answered (coord x)) /\
    exists r', decode_joined (encode_joined r) = Ok r' /\
    jr_Spec r' = spec /\ jr_StartAt r' = t0 /\ jr_WorkerID r' = ID w'.
Proof.
  intros [Nj _ _] Hb. unfold Join, post. rewrite Hb.
  destruct (marshal_join _) as [body|e]; [|done]. destruct (build_request _); [done|].
  destruct (client_Do _ body x) as [x1 [[[code status] msg]|e]] eqn:Ec; [|done].
  apply Nj, join_served_spec in Ec as [_ Hr]. destruct (Z.leb_spec 300 code) as [|Hc]; [done|].
  destruct (Hr Hc) as (r & -> & Hin & Hnew). destruct (decode_joined (encode_joined r)) as [r'|e] eqn:Ed; [|done].
  intros [= <- <- <- <-]. exists r. split; [done|]. split; [done|]. by exists r'.
Qed.

Section known.
Context (coord : X -> cluster) (spec : RunSpec) (n : Z).
Hypothesis json : json_faithful spec.

(** What a worker knows once it has joined. *)
Lemma Join_known base w x x' w' spec' t0 :
  network base coord -> wk_coordURL w = base -> rtc cluster_step (cluster_init spec n) (coord x) ->
  Join w x = (x', w', Ok (spec', t0)) ->
  rtc cluster_step (coord x) (coord x') /\ wk_coordURL w' = base /\ spec' = spec /\
  c_joinedAll (k_coord (coord x')) = true /\ t0 = c_startAt (k_coord (coord x')) /\
  0 <= ID w' < n /\ is_joined (k_coord (coord x')) (ID w') = true /\
  exists r, r ∈ k_replies (coord x') /\ jr_WorkerID r = ID w' /\ ID w' ∉ answered (coord x).
Proof.
  intros Hn Hb Hk Hj. destruct json as [_ Jr _].
  destruct (Join_steps _ coord _ _ _ _ _ Hn Hb Hj) as [Hs Hu].
  assert (Hk1 : rtc cluster_step (cluster_init spec n) (coord x')) by (by transitivity (coord x)).
  destruct (Join_replied _ coord _ _ _ _ _ _ Hn Hb Hj) as (r & Hin & Hnew & r' & Hd & Hspec & Ht & Hid).
  destruct (reply_known _ _ _ _ Hk1 Hin) as (Rs & Rt & Ro & Rr & Rj).
  rewrite (Jr r Rs) in Hd. injection Hd as <-. rewrite <- Hspec, <- Ht, <- Hid. split_and!; [done..|lia|lia|done|].
  exists r. split_and!; [done..|by eapply Hnew].
Qed.

(** A slot that was answered for stays taken. *)
Lemma slot_kept k k' r :
  rtc cluster_step (cluster_init spec n) k -> rtc cluster_step k k' -> r ∈ k_replies k ->
  is_joined (k_coord k') (jr_WorkerID r) = true.
Proof.
  intros Hk H Hr. apply (reply_known spec n k' r); [by transitivity k|]. by apply (cluster_mono _ _ H).
Qed.

(** The submission of a worker that was answered. *)
Lemma Submit_known base w r x x' rep blob err :
  network base coord -> wk_coordURL w = base -> rtc cluster_step (cluster_init spec n) (coord x) ->
  r ∈ k_replies (coord x) -> wr_WorkerID rep = jr_WorkerID r -> Submit w rep blob x = (x', err) ->
  rtc cluster_step (coord x) (coord x') /\
  (err = None -> {| sr_Report := rep; sr_Histogram := blob |} ∈ k_submitted (coord x')) /\
  (forall body x2 ans, marshal_submit {| sr_Report := rep; sr_Histogram := blob |} = Ok body ->
     build_request (base +:+ "/submit") = None ->
     client_Do (base +:+ "/submit") body x = (x2, Ok ans) -> err = None).
Proof.
  intros Hn Hu Hk Hin Hrep. destruct json as [_ _ Js]. unfold Submit, post. rewrite Hu.
  assert (Hslot : forall k0, rtc cluster_step (coord x) k0 -> is_joined (k_coord k0) (wr_WorkerID rep) = true).
  { intros k0 H0. rewrite Hrep. by eapply slot_kept. }
  destruct (marshal_submit _) as [body|e] eqn:Em; [|intros [= <- <-]; split_and!; [done..|intros; congruence]].
  destruct (build_request _) eqn:Eb; [intros [= <- <-]; split_and!; [done..|intros; congruence]|].
  destruct (client_Do _ body x) as [x4 [[[code status] msg]|e]] eqn:Ec.
  - apply (submit_carried _ _ Hn) in Ec. apply submit_served_spec with (req := {| sr_Report := rep; sr_Histogram := blob |}) in Ec as [Hr Ha].
    destruct (Ha (Js _ _ Em) Hslot) as [-> Hin2]. cbn [Z.leb Z.compare Pos.compare Pos.compare_cont].
    intros [= <- <-]. by split_and!.
  - pose proof (call_lost _ _ Hn _ _ _ _ _ Ec) as Hl. intros [= <- <-]. split_and!; [done..|intros; congruence].
Qed.
End known.
End protocol.

(** C24: the calls of a worker against a coordinator, other workers and the coordinator's
    service running in between.  A worker whose join succeeds holds a slot in range of
    its own (no two joins are ever answered with the same slot, and this one had not been
    given to any worker answered before the call), has the coordinator's specification and the one start time of the
    barrier, and the barrier was open.  Its submission, at any later moment, fails only
    where the network or the encoding does (the coordinator never refuses it), and once
    it has succeeded the coordinator has recorded exactly that report and histogram. *)
Theorem worker_protocol {X} {P : PostCall X} {J : ClusterJson} (coord : X -> cluster) spec n addr id (x x1 : X) w spec' t0 :
  network (normalizeURL addr) coord -> json_faithful spec ->
  rtc cluster_step (cluster_init spec n) (coord x) ->
  Join (NewWorker addr id) x = (x1, w, Ok (spec', t0)) ->
  spec' = spec /\ c_joinedAll (k_coord (coord x1)) = true /\ t0 = c_startAt (k_coord (coord x1)) /\
  0 <= ID w < n /\ is_joined (k_coord (coord x1)) (ID w) = true /\
  ID w ∈ answered (coord x1) /\ ID w ∉ answered (coord x) /\ NoDup (answered (coord x1)) /\
  forall x2 x3 rep blob err, rtc cluster_step (coord x1) (coord x2) -> wr_WorkerID rep = ID w ->
    Submit w rep blob x2 = (x3, err) ->
    (err = None -> {| sr_Report := rep; sr_Histogram := blob |} ∈ k_submitted (coord x3)) /\
    (forall body x4 ans, marshal_submit {| sr_Report := rep; sr_Histogram := blob |} = Ok body ->
       build_request (normalizeURL addr +:+ "/submit") = None ->
       client_Do (normalizeURL addr +:+ "/submit") body x2 = (x4, Ok ans) -> err = None).
Proof.
  intros Hn Hjson Hk Hj.
  destruct (Join_known coord spec n Hjson (normalizeURL addr) (NewWorker addr id) _ _ _ _ _ Hn eq_refl Hk Hj) as (Hs & Hu & -> & Ho & -> & Hid & Hjoined & r & Hin & Hr & Hnew).
  split_and!; [done..|lia|lia|done|by rewrite <- Hr; apply list_elem_of_fmap_2|done|
    apply (answered_once spec n); by transitivity (coord x)|]. intros x2 x3 rep blob err H12 Hrep Hsub.
  apply (Submit_known coord spec n Hjson _ w r x2 x3 rep blob err Hn Hu) in Hsub as (_ & Hok & Hfail).
  - by split.
  - transitivity (coord x); [done|]. by transitivity (coord x1).
  - by apply (cluster_mono _ _ H12).
  - congruence.
Qed.

(** ** A worker against a coordinator that waits for it *)

Definition packed {A} `{Countable A} (a : A) : text := txt (pos_string (encode a)).

Definition unpacked {A} `{Countable A} (t : text) : result error A :=
  match decode (string_pos (str t)) with Some a => Ok a | None => Err "invalid character"%string end.

Lemma unpacked_packed {A} `{Countable A} (a : A) : unpacked (packed a) = Ok a.
Proof. unfold unpacked, packed. by rewrite str_txt, string_pos_string, decode_encode. Qed.

#[export] Instance sample_json : ClusterJson := {|
  marshal_join n := Ok (packed n);
  decode_join := unpacked;
  encode_joined r := packed (jr_WorkerID r, jr_StartAt r);
  decode_joined t :=
    match unpacked t with
    | Ok (id, start) => Ok {| jr_WorkerID := id; jr_Spec := sample_run_spec; jr_StartAt := start |}
    | Err e => Err e
    end;
  marshal_submit r := let w := sr_Report r in
    Ok (packed (wr_WorkerID w, wr_Total w, wr_Errors w, wr_ClientBound w, sr_Histogram r));
  decode_submit t :=
    match unpacked t with
    | Ok (id, total, errors, bound, blob) =>
        Ok {| sr_Report := {| wr_WorkerID := id; wr_Total := total; wr_Errors := errors; wr_ClientBound := bound |}; sr_Histogram := blob |}
    | Err e => Err e
    end
|}.

Lemma sample_json_faithful : json_faithful sample_run_spec.
Proof.
  split.
  - intros n b [= <-]. apply unpacked_packed.
  - intros [id spec start] [= ->]. cbn -[unpacked packed]. by rewrite unpacked_packed.
  - intros [[id total errors bound] blob] b [= <-]. cbn -[unpacked packed]. by rewrite unpacked_packed.
Qed.

Definition sample_base : string := "http://10.0.0.1:8677".

(** The request is handled at once; a client that would have to wait goes away. *)
#[export] Instance sample_post_call : PostCall cluster := {|
  build_request _ := None;
  client_Do url body k :=
    if String.eqb url (sample_base +:+ "/join") then
      match handleJoin (k_coord k) 200 (posted (decode_join body)) with
      | (c, inl resp) =>
          ({| k_coord := c; k_waiting := k_waiting k; k_assigned := k_assigned k; k_replies := k_replies k;
              k_submitted := k_submitted k; k_serve := k_serve k |}, Ok (join_answer resp))
      | (c, inr id) =>
          if c_joinedAll c then
            let r := {| jr_WorkerID := id; jr_Spec := c_spec c; jr_StartAt := c_startAt c |} in
            ({| k_coord := c; k_waiting := k_waiting k; k_assigned := id :: k_assigned k; k_replies := r :: k_replies k;
                k_submitted := k_submitted k; k_serve := k_serve k |}, Ok (join_answer (Joined r)))
          else (k, Err "timeout"%string)
      end
    else if String.eqb url (sample_base +:+ "/submit") then
      let '(c, resp) := handleSubmit (k_coord k) (posted (decode_submit body)) in
      ({| k_coord := c; k_waiting := k_waiting k; k_assigned := k_assigned k; k_replies := k_replies k;
          k_submitted := match resp, body_of (decode_submit body) with NoContent, Some req => req :: k_submitted k | _, _ => k_submitted k end;
          k_serve := k_serve k |}, Ok (submit_answer resp))
    else (k, Err "no such host"%string)
|}.

Lemma sample_network : network sample_base id.
Proof.
  split.
  - intros body x x' ans. cbn -[handleJoin join_answer decode_join String.append String.eqb]. rewrite String.eqb_refl. unfold join_served.
    destruct (handleJoin _ 200 _) as [c [resp|i]] eqn:E; [intros [= <- <-]; exists x, 200; by rewrite E|].
    destruct (c_joinedAll c) eqn:Ej; [|done]. intros [= <- <-]. exists x, 200. rewrite E. split; [done|].
    eexists _, [], (k_waiting x), (Joined {| jr_WorkerID := i; jr_Spec := c_spec c; jr_StartAt := c_startAt c |}).
    split; [apply rtc_refl|]. by split_and!.
  - intros body x x' ans. cbn -[handleSubmit join_answer decode_submit String.append String.eqb].
    change (String.eqb (sample_base +:+ "/submit") (sample_base +:+ "/join")) with false. cbv iota. rewrite String.eqb_refl.
    unfold submit_served. destruct (handleSubmit _ _) as [c resp] eqn:E. intros [= <- <-]. exists x. split; [done|]. by rewrite E.
  - intros url body x x' e. cbn -[handleSubmit handleJoin join_answer decode_submit decode_join String.append String.eqb].
    destruct (String.eqb _ _).
    + destruct (handleJoin _ _ _) as [c [resp|i]]; [done|]. destruct (c_joinedAll c); [done|]. by intros [= <- _].
    + destruct (String.eqb _ _); [by destruct (handleSubmit _ _)|]. by intros [= <- _].
Qed.

(** The second of two workers asks for the slot the first one holds. *)
Lemma worker_protocol_witness :
  let '(x1, w, r) := Join (NewWorker "10.0.0.1:8677/" 0) sample_k1 in
  let '(x2, err) := Submit w (sr_Report (sample_submit 1 "B")) "B" x1 in
  r = Ok (sample_run_spec, 200 + 500 * millisecond) /\ ID w = 1 /\ c_joinedAll (k_coord x1) = true /\ err = None /\ sample_submit 1 "B" ∈ k_submitted x2.
Proof.
  destruct (Join (NewWorker "10.0.0.1:8677/" 0) sample_k1) as [[x1 w] r] eqn:Ej.
  destruct (Submit w (sr_Report (sample_submit 1 "B")) "B" x1) as [x2 err] eqn:Es.
  assert (Hr : r = Ok (sample_run_spec, 200 + 500 * millisecond)) by (replace r with (Join (NewWorker "10.0.0.1:8677/" 0) sample_k1).2 by (by rewrite Ej); vm_compute; reflexivity).
  assert (Hw : ID w = 1) by (replace w with (Join (NewWorker "10.0.0.1:8677/" 0) sample_k1).1.2 by (by rewrite Ej); vm_compute; reflexivity).
  subst r.
  destruct (worker_protocol id sample_run_spec 2 "10.0.0.1:8677/" 0 sample_k1 x1 w _ _ sample_network sample_json_faithful
    (sample_join_reach _ _ _) Ej) as (_ & Hopen & _ & _ & _ & _ & _ & _ & Hsub).
  destruct (Hsub x1 x2 (sr_Report (sample_submit 1 "B")) "B"%string err ltac:(apply rtc_refl) ltac:(symmetry; exact Hw) Es) as [Hin _].
  assert (He : err = None).
  { assert (Ew : w = (Join (NewWorker "10.0.0.1:8677/" 0) sample_k1).1.2) by (by rewrite Ej).
    assert (Ex : x1 = (Join (NewWorker "10.0.0.1:8677/" 0) sample_k1).1.1) by (by rewrite Ej).
    replace err with (Submit w (sr_Report (sample_submit 1 "B")) "B" x1).2 by (by rewrite Es). rewrite Ew, Ex. vm_compute. reflexivity. }
  split_and!; [done|done|exact Hopen|exact He|exact (Hin He)].
Defined.
