(* ===== verification/Kafka.v ===== *)
(** * Kafka: the Kafka target (targets/kafka/kafkadriver)

    Configuration (config.go, params.go), the records a produce builds
    (record.go), the connection's operations (conn.go) and the kafka-log
    verifier (verify.go).  The franz-go client is third-party code: the class
    [KafkaClient] lists the calls made on it. *)

From Stdlib Require Import Ascii String.
From S2P Require Import Prelude Domain Strconv Driver Workload.

Local Open Scope Z_scope.
Local Open Scope go_scope.

(** ** params.go *)

Definition paramString (p : params) (key : string) : string :=
  match param_any p key with AString s => s | _ => "" end.

Definition paramInt (p : params) (key : string) (def : Z) : Z :=
  match param_any p key with
  | AInt n => n
  | AInt64 n => n
  | AFloat f => int_of_float f
  | _ => def
  end.

Definition kafka_paramBool (p : params) (key : string) (def : bool) : bool :=
  match param_any p key with ABool b => b | _ => def end.

Definition firstNonEmpty (vals : list string) : string :=
  default ""%string (List.find (fun v => negb (String.eqb v "")) vals).

(** ** config.go *)

Definition defaultTopic : string := "proofload".
Definition defaultPartitions : Z := 3.
Definition defaultReplication : Z := 3.
Definition defaultKafkaPort : string := "9092".
Definition seqHeaderKey : string := "pl-seq".
Definition defaultBatchSize : Z := 1.

Inductive ackMode := ackAll | ackLeader | ackNone.

#[export] Instance ackMode_eq_dec : EqDecision ackMode.
Proof. solve_decision. Defined.

Definition consistencyLevels : list string := ["acks=0"; "acks=1"; "acks=all"]%string.

Definition is_one_of (s : string) (l : list string) : bool := existsb (String.eqb s) l.

Definition parseAcks (consistency : string) : result error ackMode :=
  let s := ToLower (TrimSpace consistency) in
  if is_one_of s [""; "acks=all"; "all"; "-1"]%string then Ok ackAll
  else if is_one_of s ["acks=1"; "1"; "leader"]%string then Ok ackLeader
  else if is_one_of s ["acks=0"; "0"; "none"]%string then Ok ackNone
  else
    let q := String (ascii_of_nat 34) "" in
    Err ("kafkadriver: unsupported consistency " +:+ q +:+ consistency +:+ q +:+
         " (want one of [" +:+ String.concat " " consistencyLevels +:+ "])").

Record topicConfig := { tc_Name : string; tc_Partitions : Z; tc_Replication : Z }.

Record resolvedConfig := {
  rc_brokers : list string;
  rc_topic : topicConfig;
  rc_acks : ackMode;
  rc_idempotent : bool;
  rc_txnID : string;
  rc_group : string;
  rc_batchSize : Z
}.

(** Conversion to a narrower signed integer keeps the low bits. *)
Definition wrap_bits (w z : Z) : Z := (z + 2^(w - 1)) mod 2^w - 2^(w - 1).

Definition brokersFrom (cfg : Config) : list string :=
  match cfg_Endpoints cfg with
  | _ :: _ => cfg_Endpoints cfg
  | [] =>
      match List.filter (fun c => negb (String.eqb c "")) (map node_Client (cs_Nodes (cfg_Cluster cfg))) with
      | [] => ["localhost:" +:+ defaultKafkaPort]
      | out => out
      end
  end.

Definition topicConfigFrom (cfg : Config) : topicConfig :=
  let repl := if 0 <? cs_ReplicationFactor (cfg_Cluster cfg) then cs_ReplicationFactor (cfg_Cluster cfg)
              else defaultReplication in
  {| tc_Name := firstNonEmpty [paramString (cfg_Params cfg) "topic"; defaultTopic];
     tc_Partitions := wrap_bits 32 (paramInt (cfg_Params cfg) "partitions" defaultPartitions);
     tc_Replication := wrap_bits 16 (paramInt (cfg_Params cfg) "replication_factor" repl) |}.

Definition batchSizeFrom (cfg : Config) : Z :=
  let n := paramInt (cfg_Params cfg) "batch_size" defaultBatchSize in
  if n <? 1 then 1 else n.

Definition resolve (cfg : Config) : result error resolvedConfig :=
  acks <-? parseAcks (cfg_Consistency cfg) ;;
  let p := cfg_Params cfg in
  let txnID := firstNonEmpty [paramString p "transactional_id"; paramString p "txn_id"] in
  let eos := negb (String.eqb txnID "") in
  Ok {| rc_brokers := brokersFrom cfg; rc_topic := topicConfigFrom cfg;
        rc_acks := if eos then ackAll else acks;
        rc_idempotent := if eos then true
                         else bool_decide (acks = ackAll) && kafka_paramBool p "idempotent" true;
        rc_txnID := txnID;
        rc_group := firstNonEmpty [paramString p "group"; paramString p "consumer_group"];
        rc_batchSize := batchSizeFrom cfg |}.

(** ** driver.go *)

(** The client options set, by their franz-go constructors. *)
Inductive kgoOpt :=
| SeedBrokers (brokers : list string)
| RequiredAcks (a : ackMode)
| DisableIdempotentWrite
| TransactionalID (id : string)
| ConsumerGroup (group : string)
| ConsumeTopics (topic : string)
| ConsumeFromStart.

Definition clientOpts (rc : resolvedConfig) : list kgoOpt :=
  [SeedBrokers (rc_brokers rc)] ++
  (match rc_acks rc with
   | ackAll => RequiredAcks ackAll :: (if rc_idempotent rc then [] else [DisableIdempotentWrite])
   | ackLeader => [RequiredAcks ackLeader; DisableIdempotentWrite]
   | ackNone => [RequiredAcks ackNone; DisableIdempotentWrite]
   end) ++
  (if String.eqb (rc_txnID rc) "" then [] else [TransactionalID (rc_txnID rc)]) ++
  (if String.eqb (rc_group rc) "" then []
   else [ConsumerGroup (rc_group rc); ConsumeTopics (tc_Name (rc_topic rc))]).

(** cluster.go, [Nodes]. *)
Definition kafka_Nodes (cfg : Config) : list Node :=
  List.filter (fun n => negb (String.eqb (node_Client n) "")) (cs_Nodes (cfg_Cluster cfg)).

(** ** record.go *)

(** A [kgo.Record] as the target builds it; a header value is a byte string. *)
Record kgoRecord := {
  kr_Topic : string;
  kr_Key : text;
  kr_Value : bytes;
  kr_Headers : list (string * list Z)
}.

Definition keyBytes (key : Z) : text := FormatInt key.
Definition keyFromBytes (b : text) : option Z := ParseInt b.

Definition encodeSeq (seq : Z) : list Z := be_bytes 8 (u64_of_i64 seq).

Definition decodeSeq (b : list Z) : option Z :=
  if negb (Nat.eqb (length b) 8) then None else Some (i64_of_u64 (be_value b 0)).

Fixpoint seqFromHeaders (hs : list (string * list Z)) : option Z :=
  match hs with
  | [] => None
  | (k, v) :: rest => if String.eqb k seqHeaderKey then decodeSeq v else seqFromHeaders rest
  end.

Definition recordFrom (topic : string) (op : Operation) : kgoRecord :=
  {| kr_Topic := topic; kr_Key := keyBytes (op_Key op); kr_Value := op_Value op;
     kr_Headers := [(seqHeaderKey, encodeSeq (op_Seq op))] |}.

Definition batchRecordAt (topic : string) (op : Operation) (i batch : Z) : kgoRecord :=
  let key := op_Key op *! batch +! i in
  {| kr_Topic := topic; kr_Key := keyBytes key; kr_Value := op_Value op;
     kr_Headers := [(seqHeaderKey, encodeSeq (op_Seq op))] |}.

Definition isProduce (t : OpType) : bool := is_one_of t ["produce"; "w"]%string.
Definition isConsume (t : OpType) : bool := is_one_of t ["consume"; "r"]%string.
Definition isProduceBatch (t : OpType) : bool := is_one_of t ["produce_batch"; "wb"]%string.

(** ** conn.go *)

Record kafkaConn := {
  kc_topic : string;
  kc_transactional : bool;
  kc_grouped : bool;
  kc_batchSize : Z
}.

(** The client calls of a connection. *)
Class KafkaClient (W : Type) := {
  kc_BeginTransaction : W -> W * option error;
  kc_ProduceSync : list kgoRecord -> W -> W * option error;
  kc_EndTransaction : bool -> W -> W * option error;   (* commit? *)
  kc_PollRecord : W -> W * result error (option bytes);
  kc_AddConsumeTopics : string -> W -> W
}.

(** The records of one produce. *)
Definition produce_records (c : kafkaConn) (op : Operation) : list kgoRecord :=
  let n := if kc_batchSize c <? 1 then 1 else kc_batchSize c in
  if n =? 1 then [recordFrom (kc_topic c) op]
  else (fun i => batchRecordAt (kc_topic c) op (Z.of_nat i) n) <$> seq 0 (Z.to_nat n).

Section conn.
Context {W : Type} {KC : KafkaClient W}.

Definition op_result (op : Operation) (rows : Z) (obs : any) (err : option error) : OpResult :=
  {| or_Type := op_Type op; or_Rows := rows; or_Observed := obs; or_Err := err |}.

Definition workloadConsumes (w : Workload) : bool := existsb (fun o => isConsume (os_Type o)) (w_Operations w).

Definition kafka_Prepare (c : kafkaConn) (wl : Workload) (w : W) : W :=
  if negb (kc_grouped c) && workloadConsumes wl then kc_AddConsumeTopics (kc_topic c) w else w.

Definition produce (c : kafkaConn) (op : Operation) (w : W) : W * OpResult :=
  let n := if kc_batchSize c <? 1 then 1 else kc_batchSize c in
  let recs := produce_records c op in
  let '(w, berr) := if kc_transactional c then kc_BeginTransaction w else (w, None) in
  match berr with
  | Some e => (w, op_result op 0 ANil (Some ("kafkadriver: begin txn: " +:+ e)))
  | None =>
      match kc_ProduceSync recs w with
      | (w, Some e) =>
          let w := if kc_transactional c then (kc_EndTransaction false w).1 else w in
          (w, op_result op 0 ANil (Some e))
      | (w, None) =>
          let '(w, cerr) := if kc_transactional c then kc_EndTransaction true w else (w, None) in
          match cerr with
          | Some e => (w, op_result op 0 ANil (Some ("kafkadriver: commit txn: " +:+ e)))
          | None => (w, op_result op n ANil None)
          end
      end
  end.

Definition consume (op : Operation) (w : W) : W * OpResult :=
  match kc_PollRecord w with
  | (w, Err e) => (w, op_result op 0 ANil (Some e))
  | (w, Ok None) => (w, op_result op 0 ANil None)
  | (w, Ok (Some v)) => (w, op_result op 1 (ABytes (Some v)) None)
  end.

Definition kafka_Execute (c : kafkaConn) (op : Operation) (w : W) : W * OpResult :=
  if isProduce (op_Type op) || isProduceBatch (op_Type op) then produce c op w
  else if isConsume (op_Type op) then consume op w
  else (w, op_result op 0 ANil (Some ("kafkadriver: unsupported op type " +:+ op_Type op))).
End conn.

(** ** verify.go *)

Record logRecord := { lr_Partition : Z; lr_Offset : Z; lr_Key : Z; lr_Seq : Z }.

(** A fetched record. *)
Record fetched := { ft_Partition : Z; ft_Offset : Z; ft_Key : text; ft_Headers : list (string * list Z) }.

(** [drainTopic]'s decoding of one record; others are skipped. *)
Definition decode_record (r : fetched) : option logRecord :=
  match keyFromBytes (ft_Key r), seqFromHeaders (ft_Headers r) with
  | Some key, Some seq =>
      Some {| lr_Partition := ft_Partition r; lr_Offset := ft_Offset r; lr_Key := key; lr_Seq := seq |}
  | _, _ => None
  end.

Definition log_less (a b : logRecord) : bool :=
  if negb (lr_Partition a =? lr_Partition b) then lr_Partition a <? lr_Partition b
  else lr_Offset a <? lr_Offset b.

Definition maxWitness : nat := 10.

(** The scan's state: per-key sequences, last sequence, ordering violations. *)
Record scan := {
  sc_seqs : gmap Z (list Z);
  sc_last : gmap Z Z;
  sc_ordering : Z;
  sc_witness : list string
}.

Definition order_witness (r : logRecord) (prev : Z) : string :=
  str (txt "key=" ++ FormatInt (lr_Key r) ++ txt " p=" ++ FormatInt (lr_Partition r) ++ txt " off=" ++
       FormatInt (lr_Offset r) ++ txt " seq=" ++ FormatInt (lr_Seq r) ++ txt "<prev=" ++ FormatInt prev).

Definition scan_record (s : scan) (r : logRecord) : scan :=
  let '(ordering, wit) :=
    match sc_last s !! lr_Key r with
    | Some prev =>
        if lr_Seq r <? prev then
          (sc_ordering s + 1,
           if (length (sc_witness s) <? maxWitness)%nat then sc_witness s ++ [order_witness r prev]
           else sc_witness s)
        else (sc_ordering s, sc_witness s)
    | None => (sc_ordering s, sc_witness s)
    end in
  {| sc_seqs := <[lr_Key r := default [] (sc_seqs s !! lr_Key r) ++ [lr_Seq r]]> (sc_seqs s);
     sc_last := <[lr_Key r := lr_Seq r]> (sc_last s);
     sc_ordering := ordering; sc_witness := wit |}.

Definition scan_log (sorted : list logRecord) : scan :=
  foldl scan_record {| sc_seqs := ∅; sc_last := ∅; sc_ordering := 0; sc_witness := [] |} sorted.

Fixpoint min_max (l : list Z) (lo hi : Z) : Z * Z :=
  match l with
  | [] => (lo, hi)
  | s :: l => min_max l (if s <? lo then s else lo) (if hi <? s then s else hi)
  end.

(** What one key loses and repeats. *)
Definition key_stats (seqs : list Z) : Z * Z * Z * Z :=
  let uniq := Z.of_nat (size (list_to_set (C := gset Z) seqs)) in
  let first := default 0 (head seqs) in
  let '(lo, hi) := min_max seqs first first in
  (hi -! lo +! 1 -! uniq, Z.of_nat (length seqs) - uniq, lo, hi).

Record tally_state := { ts_lost : Z; ts_dup : Z; ts_lossW : list string; ts_dupW : list string }.

Definition loss_witness (key lost lo hi : Z) : string :=
  str (txt "key=" ++ FormatInt key ++ txt " gaps=" ++ FormatInt lost ++ txt " range=[" ++ FormatInt lo ++
       txt "," ++ FormatInt hi ++ txt "]").

Definition dup_witness (key dup : Z) : string :=
  str (txt "key=" ++ FormatInt key ++ txt " dups=" ++ FormatInt dup).

Definition add_witness (l : list string) (w : string) : list string :=
  if (length l <? maxWitness)%nat then l ++ [w] else l.

Definition tally_key (t : tally_state) (kv : Z * list Z) : tally_state :=
  let '(lost, dup, lo, hi) := key_stats kv.2 in
  {| ts_lost := if 0 <? lost then ts_lost t +! lost else ts_lost t;
     ts_dup := if 0 <? dup then ts_dup t +! dup else ts_dup t;
     ts_lossW := if 0 <? lost then add_witness (ts_lossW t) (loss_witness kv.1 lost lo hi) else ts_lossW t;
     ts_dupW := if 0 <? dup then add_witness (ts_dupW t) (dup_witness kv.1 dup) else ts_dupW t |}.

Definition buildAnomalies (lost dup ordering : Z) (lossW dupW orderW : list string) : list Anomaly :=
  (if 0 <? lost then [{| an_Kind := "message-loss"; an_Detail := str (FormatInt lost ++ txt " lost");
                         an_Witness := lossW |}] else []) ++
  (if 0 <? dup then [{| an_Kind := "duplication"; an_Detail := str (FormatInt dup ++ txt " duplicated");
                        an_Witness := dupW |}] else []) ++
  (if 0 <? ordering then [{| an_Kind := "ordering";
                             an_Detail := str (FormatInt ordering ++ txt " ordering violations");
                             an_Witness := orderW |}] else []).

(** [order] is the order in which the range over the keys visits them. *)
Definition analyzeLog (order : gmap Z (list Z) -> list (Z * list Z)) (recs : list logRecord) : VerifyReport :=
  let checked := Z.of_nat (length recs) in
  let rep v an lost dup ordering :=
    {| vr_Model := VerifyKafkaLog; vr_Verdict := v; vr_Anomalies := an; vr_Checked := checked;
       vr_Lost := lost; vr_Duplicated := dup; vr_OrderingViol := ordering; vr_ConvergedIn := 0;
       vr_MaxStaleness := 0; vr_Extra := ∅ |} in
  match recs with
  | [] => rep VerdictUnknown [] 0 0 0
  | _ =>
      let s := scan_log (sort_by (le_of_less log_less) recs) in
      let t := foldl tally_key {| ts_lost := 0; ts_dup := 0; ts_lossW := []; ts_dupW := [] |}
                 (order (sc_seqs s)) in
      let pass := (ts_lost t =? 0) && (ts_dup t =? 0) && (sc_ordering s =? 0) in
      rep (if pass then VerdictPass else VerdictFail)
        (buildAnomalies (ts_lost t) (ts_dup t) (sc_ordering s) (ts_lossW t) (ts_dupW t) (sc_witness s))
        (ts_lost t) (ts_dup t) (sc_ordering s)
  end.

(** One poll: the context's error after it, the fetches' error, the context's
    error when that is looked at, and the records. *)
Record poll := {
  pl_ctx : option error;
  pl_err : option error;
  pl_ctx_again : option error;
  pl_records : list fetched
}.

(** The loop over the polls the client answers; [None] while it still polls. *)
Fixpoint drainTopic (polls : list poll) (out : list logRecord) : option (list logRecord * option error) :=
  match polls with
  | [] => None
  | p :: rest =>
      match pl_ctx p with
      | Some e => Some (out, Some e)
      | None =>
          match pl_err p with
          | Some e => match pl_ctx_again p with
                      | None => Some (out, None)
                      | Some _ => Some (out, Some e)
                      end
          | None =>
              match pl_records p with
              | [] => Some (out, None)
              | l => drainTopic rest (out ++ omap decode_record l)
              end
          end
      end
  end.

(** [Verify], after the client is made: the drain and its analysis. *)
Definition kafka_Verify (order : gmap Z (list Z) -> list (Z * list Z)) (rc : result error resolvedConfig)
    (polls : list poll) : option (result error VerifyReport) :=
  match rc with
  | Err e => Some (Err e)
  | Ok _ =>
      match drainTopic polls [] with
      | None => None
      | Some (_, Some e) => Some (Err e)
      | Some (recs, None) => Some (Ok (analyzeLog order recs))
      end
  end.

(** ** Records on the wire *)

Lemma decodeSeq_encodeSeq seq : is_i64 seq -> decodeSeq (encodeSeq seq) = Some seq.
Proof.
  intros Hs. unfold decodeSeq, encodeSeq. rewrite length_be_bytes. cbn [Nat.eqb negb].
  rewrite be_value_bytes. rewrite Z.mul_0_l, Z.add_0_l.
  change (256 ^ Z.of_nat 8) with (2^64). rewrite Z.mod_small by apply u64_range.
  by rewrite i64_u64_i64.
Qed.

Definition batch_key (op : Operation) (i batch : Z) : Z := op_Key op * batch + i.

(** The keys a produce of [op] writes stay within 64 bits. *)
Definition batch_fits (op : Operation) (batch : Z) : Prop :=
  0 <= op_Key op /\ 1 <= batch /\ (op_Key op + 1) * batch < 2^63 /\ is_i64 (op_Seq op).

Lemma decode_batchRecord topic op i batch p off :
  batch_fits op batch -> 0 <= i < batch ->
  let r := batchRecordAt topic op i batch in
  decode_record {| ft_Partition := p; ft_Offset := off; ft_Key := kr_Key r; ft_Headers := kr_Headers r |}
  = Some {| lr_Partition := p; lr_Offset := off; lr_Key := batch_key op i batch; lr_Seq := op_Seq op |}.
Proof.
  intros (Hk & Hb & Hlt & Hseq) Hi r. unfold r, batchRecordAt, decode_record, keyFromBytes, keyBytes, batch_key.
  cbn [kr_Key kr_Headers ft_Key ft_Headers ft_Partition ft_Offset seqFromHeaders].
  rewrite i64_mul_id by (unfold is_i64; nia). rewrite i64_add_id by (unfold is_i64; nia).
  rewrite ParseInt_FormatInt by (unfold is_i64; nia).
  rewrite String.eqb_refl, decodeSeq_encodeSeq by done. done.
Qed.

Lemma batch_key_inj op1 op2 i j batch :
  0 <= i < batch -> 0 <= j < batch ->
  batch_key op1 i batch = batch_key op2 j batch -> op_Key op1 = op_Key op2 /\ i = j.
Proof. unfold batch_key. intros Hi Hj E. assert (op_Key op1 = op_Key op2) by nia. split; [done|lia]. Qed.

(** ** The scan *)

Definition key_seqs (k : Z) (l : list logRecord) : list Z :=
  lr_Seq <$> List.filter (fun r => lr_Key r =? k) l.

Lemma key_seqs_snoc k l r :
  key_seqs k (l ++ [r]) = key_seqs k l ++ (if lr_Key r =? k then [lr_Seq r] else []).
Proof.
  unfold key_seqs. rewrite List.filter_app, fmap_app. cbn [List.filter]. by destruct (lr_Key r =? k).
Qed.

(** No element below its predecessor. *)
Definition nondec (l : list Z) : Prop :=
  forall i a b, l !! i = Some a -> l !! S i = Some b -> a <= b.

Lemma nondec_snoc l x :
  nondec (l ++ [x]) <-> nondec l /\ (forall p, last l = Some p -> p <= x).
Proof.
  split.
  - intros Hn. split.
    + intros i a b Ha Hb. apply (Hn i); by apply lookup_app_l_Some.
    + intros p Hp. rewrite last_lookup in Hp. destruct l as [|y l]; [done|]. cbn [length pred] in Hp.
      apply (Hn (length l)); [by apply lookup_app_l_Some|].
      change (S (length l)) with (length (y :: l)). by apply list_lookup_middle.
  - intros [Hn Hl] i a b Ha Hb.
    apply lookup_snoc_Some in Hb as [[Hlt Hb]|[Ei ->]].
    + apply (Hn i); [|done]. apply lookup_app_Some in Ha as [Ha|[Hge _]]; [done|lia].
    + apply Hl. rewrite last_lookup, <- Ei. cbn [pred].
      apply lookup_app_Some in Ha as [Ha|[Hge _]]; [done|lia].
Qed.

Lemma scan_log_snoc l r : scan_log (l ++ [r]) = scan_record (scan_log l) r.
Proof. unfold scan_log. by rewrite foldl_app. Qed.

Lemma scan_record_fields s r :
  sc_seqs (scan_record s r) = <[lr_Key r := default [] (sc_seqs s !! lr_Key r) ++ [lr_Seq r]]> (sc_seqs s) /\
  sc_last (scan_record s r) = <[lr_Key r := lr_Seq r]> (sc_last s) /\
  sc_ordering (scan_record s r)
    = sc_ordering s + match sc_last s !! lr_Key r with
                      | Some prev => if lr_Seq r <? prev then 1 else 0
                      | None => 0
                      end.
Proof.
  unfold scan_record. destruct (sc_last s !! lr_Key r) as [prev|]; [destruct (lr_Seq r <? prev)|];
    cbn; split_and!; try done; lia.
Qed.

Lemma scan_log_spec l :
  (forall k, sc_seqs (scan_log l) !! k = match key_seqs k l with [] => None | s => Some s end) /\
  (forall k, sc_last (scan_log l) !! k = last (key_seqs k l)) /\
  0 <= sc_ordering (scan_log l) /\
  (sc_ordering (scan_log l) = 0 <-> forall k, nondec (key_seqs k l)).
Proof.
  induction l as [|r l (IH1 & IH2 & IH3 & IH4)] using rev_ind.
  { cbn. split_and!; [done..|]. split; [|done]. by intros _ k i a b. }
  rewrite scan_log_snoc. destruct (scan_record_fields (scan_log l) r) as (E1 & E2 & E3).
  rewrite E3, (IH2 (lr_Key r)). split_and!.
  - intros k. rewrite E1, key_seqs_snoc. destruct (lr_Key r =? k) eqn:E; zbool.
    + subst k. rewrite lookup_insert_eq, IH1. by destruct (key_seqs (lr_Key r) l).
    + by rewrite lookup_insert_ne, app_nil_r.
  - intros k. rewrite E2, key_seqs_snoc. destruct (lr_Key r =? k) eqn:E; zbool.
    + subst k. by rewrite lookup_insert_eq, last_snoc.
    + by rewrite lookup_insert_ne, app_nil_r.
  - destruct (last _) as [p|]; [destruct (lr_Seq r <? p)|]; lia.
  - assert (Hiff : (forall k, nondec (key_seqs k (l ++ [r]))) <->
      (forall k, nondec (key_seqs k l)) /\ forall p, last (key_seqs (lr_Key r) l) = Some p -> p <= lr_Seq r).
    { split.
      - intros Hn. split.
        + intros k. specialize (Hn k). rewrite key_seqs_snoc in Hn.
          destruct (lr_Key r =? k); [by apply nondec_snoc in Hn as [? _]|by rewrite app_nil_r in Hn].
        + specialize (Hn (lr_Key r)). rewrite key_seqs_snoc, Z.eqb_refl in Hn. by apply nondec_snoc in Hn as [_ ?].
      - intros [Hn Hl] k. rewrite key_seqs_snoc. destruct (lr_Key r =? k) eqn:E; zbool.
        + subst k. by apply nondec_snoc.
        + by rewrite app_nil_r. }
    rewrite Hiff, <- IH4. destruct (last _) as [p|].
    + destruct (lr_Seq r <? p) eqn:E; zbool; (split; [|intros [H0 Hp]; specialize (Hp p eq_refl); lia]);
        intros H0; (split; [lia|]); intros q [= <-]; lia.
    + split; [intros; split; [lia|done]|intros [? _]; lia].
Qed.

(** ** One key's statistics *)

Lemma min_max_spec l lo hi :
  lo <= hi ->
  let '(a, b) := min_max l lo hi in
  a <= lo /\ hi <= b /\ (forall x, x ∈ l -> a <= x <= b) /\ (a = lo \/ a ∈ l) /\ (b = hi \/ b ∈ l).
Proof.
  revert lo hi. induction l as [|s l IH]; intros lo hi Hle; cbn [min_max].
  { split_and!; try lia; try tauto. by intros x ?%elem_of_nil. }
  specialize (IH (if s <? lo then s else lo) (if hi <? s then s else hi)).
  destruct (s <? lo) eqn:E1, (hi <? s) eqn:E2; zbool;
    (destruct (min_max l _ _) as [a b]; destruct IH as (A1 & A2 & A3 & A4 & A5); [lia|];
     setoid_rewrite elem_of_cons; split_and!; [lia|lia|intros x [->|Hx]; [lia|by apply A3]|..];
     intuition (subst; auto)).
Qed.

Definition seqs_in (M : Z) (l : list Z) : Prop := Forall (fun s => 0 <= s < M) l.

Lemma nondec_le l i j a b : nondec l -> (i <= j)%nat -> l !! i = Some a -> l !! j = Some b -> a <= b.
Proof.
  intros Hn Hij Ha. revert b. induction Hij as [|j Hij IH]; intros b Hb; [simplify_eq; lia|].
  destruct (lookup_lt_is_Some_2 l j) as [c Hc]; [apply lookup_lt_Some in Hb; lia|].
  specialize (IH c Hc). pose proof (Hn _ _ _ Hc Hb). lia.
Qed.

(** A duplicate-free non-decreasing list climbs at least one per step. *)
Lemma nondec_NoDup_climb l i j a b :
  nondec l -> NoDup l -> (i <= j)%nat -> l !! i = Some a -> l !! j = Some b ->
  a + (Z.of_nat j - Z.of_nat i) <= b.
Proof.
  intros Hn Hd Hij Ha. revert b. induction Hij as [|j Hij IH]; intros b Hb; [simplify_eq; lia|].
  destruct (lookup_lt_is_Some_2 l j) as [c Hc]; [apply lookup_lt_Some in Hb; lia|].
  specialize (IH c Hc). pose proof (Hn _ _ _ Hc Hb).
  assert (c <> b). { intros ->. pose proof (NoDup_lookup l _ _ _ Hd Hc Hb). lia. }
  lia.
Qed.

Lemma uniq_size (l : list Z) :
  (size (list_to_set (C := gset Z) l) <= length l)%nat /\
  (size (list_to_set (C := gset Z) l) = length l <-> NoDup l).
Proof.
  induction l as [|x l (IH1 & IH2)]; [split; [done|split; [constructor|done]]|].
  cbn [list_to_set length]. destruct (decide (x ∈ l)) as [Hin|Hin].
  - assert ({[ x ]} ∪ list_to_set (C := gset Z) l = list_to_set l) as ->
      by (apply set_eq; intros y; rewrite elem_of_union, !elem_of_list_to_set; set_solver).
    split; [lia|]. split; [lia|]. intros Hd. inversion Hd; done.
  - rewrite size_union, size_singleton by (apply disjoint_singleton_l; by rewrite elem_of_list_to_set).
    split; [lia|]. rewrite NoDup_cons. split; [intros; split; [done|apply IH2; lia]|].
    intros [_ Hd]. apply IH2 in Hd. lia.
Qed.

(** A set of integers within [lo, hi] has at most that many elements. *)
Lemma range_size (l : list Z) lo hi :
  (forall x, x ∈ l -> lo <= x <= hi) -> lo <= hi + 1 ->
  Z.of_nat (size (list_to_set (C := gset Z) l)) <= hi - lo + 1.
Proof.
  intros Hr Hle. assert (Hsub : list_to_set (C := gset Z) l ⊆ list_to_set (seqZ lo (hi - lo + 1))).
  { intros x. rewrite !elem_of_list_to_set, elem_of_seqZ. intros Hx. specialize (Hr x Hx). lia. }
  apply subseteq_size in Hsub.
  rewrite (size_list_to_set (seqZ _ _)), length_seqZ in Hsub by apply NoDup_seqZ. lia.
Qed.

(** Losses and repeats of a key are counts, within its range and its length. *)
Lemma key_stats_bounds M l lost dup lo hi :
  l <> [] -> seqs_in M l -> M <= 2^62 -> key_stats l = (lost, dup, lo, hi) ->
  0 <= lost < M /\ 0 <= dup < Z.of_nat (length l) /\
  lost = hi - lo + 1 - Z.of_nat (size (list_to_set (C := gset Z) l)) /\
  dup = Z.of_nat (length l) - Z.of_nat (size (list_to_set (C := gset Z) l)) /\
  lo ∈ l /\ hi ∈ l /\ forall x, x ∈ l -> lo <= x <= hi.
Proof.
  intros Hne Hin HM. unfold key_stats. destruct l as [|s l]; [done|]. cbn [head].
  pose proof (min_max_spec (s :: l) s s ltac:(lia)) as Hmm.
  change (default 0 (Some s)) with s.
  destruct (min_max (s :: l) s s) as [a b]. destruct Hmm as (A1 & A2 & A3 & A4 & A5).
  intros [= <- <- <- <-].
  assert (Ha : a ∈ s :: l) by (destruct A4 as [->|?]; [left|done]).
  assert (Hb : b ∈ s :: l) by (destruct A5 as [->|?]; [left|done]).
  unfold seqs_in in Hin. rewrite Forall_forall in Hin. pose proof (Hin a Ha). pose proof (Hin b Hb).
  destruct (uniq_size (s :: l)) as [U _].
  pose proof (range_size (s :: l) a b A3 ltac:(lia)) as R.
  change (size ({[ s ]} ∪ list_to_set (C := gset Z) l)) with (size (list_to_set (C := gset Z) (s :: l))) in *.
  assert (Hpos : (0 < size (list_to_set (C := gset Z) (s :: l)))%nat).
  { destruct (size _) eqn:E; [|lia]. apply size_empty_inv in E.
    exfalso. apply (not_elem_of_empty (C := gset Z) s). apply E, elem_of_list_to_set. left. }
  remember (size (list_to_set (C := gset Z) (s :: l))) as n eqn:En.
  rewrite (i64_sub_id b a) by (unfold is_i64; lia).
  rewrite (i64_add_id (b - a)) by (unfold is_i64; lia).
  rewrite i64_sub_id by (unfold is_i64; lia).
  cbn [length] in *. split_and!; try done; lia.
Qed.

(** A key neither loses nor repeats and is in order exactly when its sequence is
    a run of consecutive numbers. *)
Lemma key_stats_run M l lost dup lo hi :
  l <> [] -> seqs_in M l -> M <= 2^62 -> key_stats l = (lost, dup, lo, hi) ->
  (nondec l /\ lost = 0 /\ dup = 0 <-> exists m, l = seqZ m (Z.of_nat (length l))).
Proof.
  intros Hne Hin HM Hst.
  destruct (key_stats_bounds _ _ _ _ _ _ Hne Hin HM Hst) as (B1 & B2 & El & Ed & Hlo & Hhi & Hr).
  destruct (uniq_size l) as [_ U]. split.
  - intros (Hn & L0 & D0). assert (Hd : NoDup l) by (apply U; lia).
    assert (Hspan : hi = lo + Z.of_nat (length l) - 1) by lia.
    exists lo. apply list_eq. intros i.
    destruct (decide (i < length l)%nat) as [Hi|Hi].
    + destruct (lookup_lt_is_Some_2 l i Hi) as [x Hx]. rewrite Hx.
      rewrite lookup_seqZ_lt by lia. f_equal.
      destruct (lookup_lt_is_Some_2 l 0) as [x0 Hx0]; [lia|].
      destruct (lookup_lt_is_Some_2 l (length l - 1)) as [xn Hxn]; [lia|].
      pose proof (nondec_NoDup_climb l 0 i x0 x Hn Hd ltac:(lia) Hx0 Hx).
      pose proof (nondec_NoDup_climb l i (length l - 1) x xn Hn Hd ltac:(lia) Hx Hxn).
      pose proof (Hr x0 (list_elem_of_lookup_2 _ _ _ Hx0)).
      pose proof (Hr xn (list_elem_of_lookup_2 _ _ _ Hxn)). lia.
    + rewrite !lookup_ge_None_2; [done|rewrite length_seqZ; lia|lia].
  - intros [m El']. assert (Hlen : (0 < length l)%nat) by (destruct l; [done|cbn; lia]).
    assert (Hd : NoDup l) by (rewrite El'; apply NoDup_seqZ). apply U in Hd.
    assert (Hmem : forall x, x ∈ l <-> m <= x < m + Z.of_nat (length l)) by (intros x; rewrite El' at 1; apply elem_of_seqZ).
    apply Hmem in Hlo as Hlo'. apply Hmem in Hhi as Hhi'.
    assert (lo <= m) by (apply Hr, Hmem; lia).
    assert (m + Z.of_nat (length l) - 1 <= hi) by (apply Hr, Hmem; lia).
    split_and!; [|lia|lia].
    clear -El'. intros i a b Ha Hb. rewrite El' in Ha, Hb. apply lookup_seqZ in Ha as [-> _], Hb as [-> _]. lia.
Qed.


(** ** The tally over the keys *)

Definition klost (kv : Z * list Z) : Z := (key_stats kv.2).1.1.1.
Definition kdup (kv : Z * list Z) : Z := (key_stats kv.2).1.1.2.

(** A key's recorded sequences: some, below [M], and at most [n]. *)
Definition entry_ok (M n : Z) (kv : Z * list Z) : Prop :=
  kv.2 <> [] /\ seqs_in M kv.2 /\ Z.of_nat (length kv.2) <= n.

Lemma entry_bounds M n kv :
  entry_ok M n kv -> M <= 2^62 -> 0 <= klost kv < M /\ 0 <= kdup kv < n.
Proof.
  intros (Hne & Hin & Hlen) HM. unfold klost, kdup. destruct (key_stats kv.2) as [[[lost dup] lo] hi] eqn:E.
  destruct (key_stats_bounds M _ _ _ _ _ Hne Hin HM E) as (B1 & B2 & _). cbn. lia.
Qed.

Lemma tally_fold M n kvs t :
  Forall (entry_ok M n) kvs -> M <= 2^62 -> 0 <= ts_lost t -> 0 <= ts_dup t ->
  ts_lost t + M * Z.of_nat (length kvs) < 2^63 -> ts_dup t + n * Z.of_nat (length kvs) < 2^63 ->
  ts_lost (foldl tally_key t kvs) = ts_lost t + zsum (klost <$> kvs) /\
  ts_dup (foldl tally_key t kvs) = ts_dup t + zsum (kdup <$> kvs).
Proof.
  intros Hok HM. revert t. induction Hok as [|kv kvs Hkv Hok IH]; intros t H0 H0' HL HD; [cbn; lia|].
  destruct (entry_bounds M n kv Hkv HM) as [B1 B2].
  rewrite !fmap_cons. cbn [foldl zsum length] in *.
  assert (E : ts_lost (tally_key t kv) = ts_lost t + klost kv /\ ts_dup (tally_key t kv) = ts_dup t + kdup kv).
  { unfold tally_key, klost, kdup in *. destruct (key_stats kv.2) as [[[lost dup] lo] hi]. cbn in *.
    rewrite !i64_add_id by (unfold is_i64; nia).
    destruct (0 <? lost) eqn:E1, (0 <? dup) eqn:E2; zbool; lia. }
  destruct E as [E1 E2]. destruct (IH (tally_key t kv)) as [I1 I2]; [lia|lia|nia|nia|].
  rewrite I1, I2, E1, E2. lia.
Qed.

Lemma zsum_zero {A} (f : A -> Z) l :
  (forall x, x ∈ l -> 0 <= f x) -> (zsum (f <$> l) = 0 <-> forall x, x ∈ l -> f x = 0).
Proof.
  induction l as [|x l IH]; intros H; [split; [by intros _ y ?%elem_of_nil|done]|].
  rewrite fmap_cons. cbn [zsum].
  assert (0 <= zsum (f <$> l)).
  { apply zsum_nonneg, Forall_fmap, Forall_forall. intros y Hy. apply H. by right. }
  pose proof (H x ltac:(left)). destruct IH as [IH1 IH2]; [intros; apply H; by right|].
  setoid_rewrite elem_of_cons. split.
  - intros E y [->|Hy]; [lia|]. apply IH1; [lia|done].
  - intros E. rewrite (E x) by auto. rewrite IH2; [lia|auto].
Qed.

Lemma zsum_pos_in {A} (f : A -> Z) l x :
  (forall y, y ∈ l -> 0 <= f y) -> x ∈ l -> 0 < f x -> 0 < zsum (f <$> l).
Proof.
  intros Hn Hx Hf. pose proof (zsum_nonneg (f <$> l)) as H. rewrite Forall_fmap, Forall_forall in H.
  specialize (H Hn). destruct (decide (zsum (f <$> l) = 0)) as [E|E]; [|lia].
  pose proof (proj1 (zsum_zero f l Hn) E x Hx). lia.
Qed.

(** Entries of the scanned map are the keys' sequences. *)
Lemma scan_entries l kvs k s :
  kvs ≡ₚ map_to_list (sc_seqs (scan_log l)) -> (k, s) ∈ kvs <-> s = key_seqs k l /\ s <> [].
Proof.
  intros ->. rewrite elem_of_map_to_list. destruct (scan_log_spec l) as (-> & _).
  destruct (key_seqs k l) as [|x xs]; split; [done|naive_solver|intros [= <-]; done|intros [-> _]; done].
Qed.

Lemma scan_size l : (size (sc_seqs (scan_log l)) <= length l)%nat.
Proof.
  induction l as [|r l IH] using rev_ind; [done|].
  rewrite scan_log_snoc, length_app. destruct (scan_record_fields (scan_log l) r) as (-> & _). cbn [length].
  destruct (sc_seqs (scan_log l) !! lr_Key r) eqn:E.
  - rewrite map_size_insert_Some by done. lia.
  - rewrite map_size_insert_None by done. lia.
Qed.

Lemma key_seqs_length k l : (length (key_seqs k l) <= length l)%nat.
Proof. unfold key_seqs. rewrite length_fmap. apply List.filter_length_le. Qed.

(** The records' sequence numbers are small enough for the counters. *)
Definition log_fits (M : Z) (l : list logRecord) : Prop :=
  seqs_in M (lr_Seq <$> l) /\ M <= 2^62 /\
  M * Z.of_nat (length l) < 2^63 /\ Z.of_nat (length l) < 2^31.

#[export] Instance log_fits_proper M : Proper ((≡ₚ) ==> iff) (log_fits M).
Proof. intros l k H. unfold log_fits, seqs_in. by rewrite H. Qed.

Lemma key_seqs_fit M k l : log_fits M l -> seqs_in M (key_seqs k l).
Proof.
  intros (H & _). unfold seqs_in, key_seqs in *. rewrite Forall_fmap in *. rewrite !Forall_forall in *.
  intros x Hx. apply H. apply list_elem_of_In in Hx. apply filter_In in Hx as [Hx _]. by apply list_elem_of_In.
Qed.

Lemma scan_entries_ok M l kvs :
  log_fits M l -> kvs ≡ₚ map_to_list (sc_seqs (scan_log l)) ->
  Forall (entry_ok M (Z.of_nat (length l))) kvs.
Proof.
  intros Hfit Hp. apply Forall_forall. intros [k s] Hin. apply (scan_entries l kvs k s Hp) in Hin as [-> Hne].
  split_and!; cbn; [done|by apply key_seqs_fit|]. pose proof (key_seqs_length k l). lia.
Qed.

(** ** The order of the log *)

Definition log_le : logRecord -> logRecord -> bool := le_of_less log_less.

Lemma log_le_spec a b :
  log_le a b = true <->
  lr_Partition a < lr_Partition b \/ lr_Partition a = lr_Partition b /\ lr_Offset a <= lr_Offset b.
Proof.
  unfold log_le, le_of_less, log_less.
  destruct (lr_Partition b =? lr_Partition a) eqn:E1; cbn [negb]; zbool;
    rewrite negb_true_iff, Z.ltb_ge; lia.
Qed.

Lemma log_sort_sorted l : StronglySorted log_le (sort_by log_le l).
Proof.
  apply sort_by_sorted.
  - intros x y. rewrite !log_le_spec. lia.
  - intros x y z. rewrite !log_le_spec. lia.
Qed.

Lemma StronglySorted_filter {A} (R : A -> A -> Prop) (P : A -> bool) l :
  StronglySorted R l -> StronglySorted R (List.filter P l).
Proof.
  induction 1 as [|x l _ IH Hx]; cbn; [constructor|]. destruct (P x); [|done].
  constructor; [done|]. rewrite Forall_forall in *. intros y Hy. apply Hx.
  apply list_elem_of_In in Hy. apply filter_In in Hy as [Hy _]. by apply list_elem_of_In.
Qed.

(** A place in the log: no two records share one. *)
Definition place (r : logRecord) : Z * Z := (lr_Partition r, lr_Offset r).

Lemma log_le_anti l x y :
  NoDup (place <$> l) -> x ∈ l -> y ∈ l -> log_le x y = true -> log_le y x = true -> x = y.
Proof.
  intros Hd Hx Hy. rewrite !log_le_spec. intros H1 H2.
  apply list_elem_of_lookup in Hx as [i Hi], Hy as [j Hj].
  assert (i = j) as ->.
  { apply (NoDup_lookup _ i j (place x) Hd); rewrite list_lookup_fmap; [by rewrite Hi|].
    rewrite Hj. cbn. unfold place. f_equal. f_equal; lia. }
  congruence.
Qed.

Lemma log_sort_unique l k : NoDup (place <$> l) -> l ≡ₚ k -> sort_by log_le l = sort_by log_le k.
Proof.
  intros Hd Hp. apply (sorted_perm_unique log_le).
  - intros x y Hx Hy. rewrite sort_by_perm in Hx, Hy. by apply (log_le_anti l).
  - apply log_sort_sorted.
  - apply log_sort_sorted.
  - by rewrite !sort_by_perm.
Qed.

(** A key's records read back in the order of [d] when [d] lists them in log order. *)
Lemma key_seqs_sort k d l :
  NoDup (place <$> d) -> d ≡ₚ l ->
  StronglySorted log_le (List.filter (fun r => lr_Key r =? k) d) ->
  key_seqs k (sort_by log_le l) = key_seqs k d.
Proof.
  intros Hd Hp Hs. unfold key_seqs. f_equal. symmetry. apply (sorted_perm_unique log_le).
  - intros x y Hx Hy. apply list_elem_of_In, filter_In in Hx as [Hx _], Hy as [Hy _].
    apply (log_le_anti d); by try apply list_elem_of_In.
  - done.
  - apply StronglySorted_filter, log_sort_sorted.
  - apply filter_perm. by rewrite sort_by_perm.
Qed.

Lemma key_seqs_perm k l l' : l ≡ₚ l' -> key_seqs k l ≡ₚ key_seqs k l'.
Proof. intros H. unfold key_seqs. by rewrite (filter_perm _ _ _ H). Qed.

(** ** The verdict *)

Lemma analyzeLog_checked order recs : vr_Checked (analyzeLog order recs) = Z.of_nat (length recs).
Proof. by destruct recs. Qed.

Section verdict.
Context (order : gmap Z (list Z) -> list (Z * list Z)).
Context (Horder : forall m, order m ≡ₚ map_to_list m).

(** The counts of a non-empty log, over its sorted records. *)
Lemma analyzeLog_counts M recs :
  recs <> [] -> log_fits M recs ->
  let l := sort_by log_le recs in
  let kvs := order (sc_seqs (scan_log l)) in
  vr_Lost (analyzeLog order recs) = zsum (klost <$> kvs) /\
  vr_Duplicated (analyzeLog order recs) = zsum (kdup <$> kvs) /\
  vr_OrderingViol (analyzeLog order recs) = sc_ordering (scan_log l) /\
  (vr_Verdict (analyzeLog order recs) = VerdictPass <->
   vr_Lost (analyzeLog order recs) = 0 /\ vr_Duplicated (analyzeLog order recs) = 0 /\
   vr_OrderingViol (analyzeLog order recs) = 0) /\
  (vr_Verdict (analyzeLog order recs) <> VerdictPass -> vr_Verdict (analyzeLog order recs) = VerdictFail).
Proof.
  intros Hne Hfit l kvs.
  assert (Hl : log_fits M l) by (unfold l; by rewrite sort_by_perm).
  pose proof (scan_entries_ok M l kvs Hl (Horder _)) as Hok.
  assert (Hk : (length kvs <= length recs)%nat).
  { unfold kvs. rewrite Horder. fold (size (sc_seqs (scan_log l))). rewrite length_map_to_list.
    pose proof (scan_size l). unfold l in *. by rewrite length_sort_by in *. }
  assert (Hn : length l = length recs) by apply length_sort_by.
  destruct Hl as (Hs & HM & HML & HL).
  assert (0 < M).
  { unfold seqs_in in Hs. destruct l as [|x l']; [destruct recs; done|].
    rewrite fmap_cons in Hs. apply Forall_cons in Hs as [? _]. lia. }
  destruct (tally_fold M (Z.of_nat (length l)) kvs {| ts_lost := 0; ts_dup := 0; ts_lossW := []; ts_dupW := [] |})
    as [T1 T2]; [done|done|cbn; lia|cbn; lia|cbn; nia|cbn; nia|].
  cbn in T1, T2. unfold analyzeLog. destruct recs as [|r recs]; [done|].
  fold log_le l kvs. cbn [vr_Lost vr_Duplicated vr_OrderingViol vr_Verdict].
  rewrite T1, T2. split_and!; try done.
  - split.
    + destruct (_ && _ && _) eqn:E; [|done]. rewrite !andb_true_iff, !Z.eqb_eq in E. tauto.
    + intros (-> & -> & ->). done.
  - by destruct (_ && _ && _).
Qed.

Lemma analyzeLog_runs M recs :
  recs <> [] -> log_fits M recs ->
  vr_Verdict (analyzeLog order recs) = VerdictPass <->
  forall k, exists m, key_seqs k (sort_by log_le recs)
                      = seqZ m (Z.of_nat (length (key_seqs k (sort_by log_le recs)))).
Proof.
  intros Hne Hfit. destruct (analyzeLog_counts M recs Hne Hfit) as (E1 & E2 & E3 & -> & _).
  rewrite E1, E2, E3. set (l := sort_by log_le recs). clear E1 E2 E3.
  assert (Hl : log_fits M l) by (unfold l; by rewrite sort_by_perm).
  pose proof (scan_entries_ok M l _ Hl (Horder _)) as Hok. rewrite Forall_forall in Hok.
  destruct Hl as (Hs & HM & _).
  rewrite !zsum_zero by (intros x Hx; apply Hok in Hx; pose proof (entry_bounds _ _ _ Hx HM); lia).
  destruct (scan_log_spec l) as (_ & _ & _ & ->).
  assert (Hstats : forall k, key_seqs k l <> [] ->
    (nondec (key_seqs k l) /\ klost (k, key_seqs k l) = 0 /\ kdup (k, key_seqs k l) = 0
     <-> exists m, key_seqs k l = seqZ m (Z.of_nat (length (key_seqs k l))))).
  { intros k Hk. destruct (key_stats (key_seqs k l)) as [[[lost dup] lo] hi] eqn:E.
    rewrite <- (key_stats_run M (key_seqs k l) lost dup lo hi) by (try done; apply key_seqs_fit;
      unfold l; rewrite sort_by_perm; done).
    unfold klost, kdup. cbn. by rewrite E. }
  split.
  - intros (H1 & H2 & H3) k. destruct (decide (key_seqs k l = [])) as [->|Hk]; [by exists 0|].
    assert (Hin : (k, key_seqs k l) ∈ order (sc_seqs (scan_log l))) by (by eapply scan_entries).
    apply Hstats; [done|]. split_and!; [done|by apply H1|by apply H2].
  - intros H.
    assert (Hall : forall k, nondec (key_seqs k l) /\
      forall s, (k, s) ∈ order (sc_seqs (scan_log l)) -> klost (k, s) = 0 /\ kdup (k, s) = 0).
    { intros k. destruct (decide (key_seqs k l = [])) as [Hk|Hk].
      - rewrite Hk. split; [by intros i a b|]. intros s Hs'. apply (scan_entries l _ k s (Horder _)) in Hs' as [-> ?].
        done.
      - destruct (proj2 (Hstats k Hk) (H k)) as (A & B & C). split; [done|]. intros s Hs'.
        apply (scan_entries l _ k s (Horder _)) in Hs' as [-> _]. done. }
    split_and!; [intros [k s] Hx; by apply Hall|intros [k s] Hx; by apply Hall|intros k; apply Hall].
Qed.
End verdict.

(** ** A producer's stream *)

(** [ops] as one generator numbers them: the [Seq] of an operation counts the
    operations on its key up to it. *)
Definition numbered (ops : list Operation) : Prop :=
  forall pre op post, ops = pre ++ op :: post -> op_Seq op = keyCount (op_Key op) pre + 1.

Lemma numbered_snoc ops op :
  numbered (ops ++ [op]) <-> numbered ops /\ op_Seq op = keyCount (op_Key op) ops + 1.
Proof.
  split.
  - intros H. split; [|by apply (H ops op [])].
    intros pre o post ->. apply (H pre o (post ++ [op])). by rewrite <- app_assoc.
  - intros [H Hs] pre o post E. destruct post as [|p post _] using rev_ind.
    + apply app_inj_tail in E as [-> ->]. done.
    + rewrite app_comm_cons, app_assoc in E. apply app_inj_tail in E as [-> ->]. by apply (H pre o post).
Qed.

Lemma keyCount_snoc k ops op : keyCount k (ops ++ [op]) = keyCount k ops + (if op_Key op =? k then 1 else 0).
Proof.
  induction ops as [|o ops IH]; cbn [app]; rewrite !keyCount_cons; [cbn; lia|]. rewrite IH. lia.
Qed.

Lemma keyCount_nonneg k ops : 0 <= keyCount k ops <= Z.of_nat (length ops).
Proof.
  induction ops as [|o ops IH]; [by unfold keyCount|]. rewrite keyCount_cons. cbn [length].
  destruct (op_Key o =? k); lia.
Qed.

Definition op_seqs (k : Z) (ops : list Operation) : list Z :=
  op_Seq <$> List.filter (fun o => op_Key o =? k) ops.

Lemma numbered_seqs ops k : numbered ops -> op_seqs k ops = seqZ 1 (keyCount k ops).
Proof.
  induction ops as [|op ops IH] using rev_ind; [done|]. intros [H Hs]%numbered_snoc.
  unfold op_seqs in *. rewrite List.filter_app, fmap_app, (IH H), keyCount_snoc. cbn [List.filter].
  destruct (op_Key op =? k) eqn:E; zbool; [|by rewrite Z.add_0_r, app_nil_r].
  subst k. pose proof (keyCount_nonneg (op_Key op) ops). rewrite seqZ_app by lia.
  f_equal. rewrite (seqZ_cons _ 1), seqZ_nil by lia. cbn. rewrite Hs. f_equal. lia.
Qed.

(** The batch size a connection works with. *)
Definition batch_of (c : kafkaConn) : Z := if kc_batchSize c <? 1 then 1 else kc_batchSize c.

(** What the produces of [ops] should leave in the log: a row of keys each. *)
Definition op_row (n : Z) (op : Operation) : list (Z * Z) := (., op_Seq op) <$> seqZ (op_Key op * n) n.
Definition intended (n : Z) (ops : list Operation) : list (Z * Z) := concat (op_row n <$> ops).

Lemma filter_seqZ k m len :
  List.filter (fun x => x =? k) (seqZ m len) = if bool_decide (m <= k < m + len) then [k] else [].
Proof.
  destruct (decide (len <= 0)) as [Hle|Hlt].
  { rewrite seqZ_nil by lia. rewrite bool_decide_eq_false_2 by lia. done. }
  replace len with (Z.of_nat (Z.to_nat len)) by lia. generalize (Z.to_nat len) as n. clear Hlt. intros n.
  revert m. induction n as [|n IH]; intros m.
  { rewrite bool_decide_eq_false_2 by lia. done. }
  rewrite seqZ_cons by lia. cbn [List.filter]. rewrite Nat2Z.inj_succ, Z.pred_succ, IH.
  destruct (m =? k) eqn:E; zbool.
  - subst. rewrite bool_decide_eq_false_2, bool_decide_eq_true_2 by lia. done.
  - do 2 case_bool_decide; try done; lia.
Qed.

Lemma filter_row k n op :
  1 <= n -> List.filter (fun kv => kv.1 =? k) (op_row n op) = if op_Key op =? k / n then [(k, op_Seq op)] else [].
Proof.
  intros Hn. unfold op_row.
  assert (Hf : forall l, List.filter (fun kv : Z * Z => kv.1 =? k) ((., op_Seq op) <$> l)
                         = (., op_Seq op) <$> List.filter (fun x => x =? k) l).
  { induction l as [|x l IH]; [done|]. cbn. destruct (x =? k); cbn; by rewrite <- IH. }
  rewrite Hf, filter_seqZ. pose proof (Z.div_mod k n ltac:(lia)). pose proof (Z.mod_pos_bound k n ltac:(lia)).
  destruct (op_Key op =? k / n) eqn:E; zbool.
  - rewrite bool_decide_eq_true_2 by nia. done.
  - rewrite bool_decide_eq_false_2; [done|]. intros [H1 H2]. apply E. nia.
Qed.

Lemma intended_seqs k n ops :
  1 <= n -> snd <$> List.filter (fun kv => kv.1 =? k) (intended n ops) = op_seqs (k / n) ops.
Proof.
  intros Hn. unfold intended, op_seqs. induction ops as [|op ops IH]; [done|].
  rewrite fmap_cons. cbn [concat List.filter]. rewrite List.filter_app, fmap_app, IH, filter_row by done.
  by destruct (op_Key op =? k / n).
Qed.

Lemma length_intended n ops : 0 <= n -> Z.of_nat (length (intended n ops)) = n * Z.of_nat (length ops).
Proof.
  intros Hn. unfold intended. induction ops as [|op ops IH]; [cbn; lia|].
  rewrite fmap_cons. cbn [concat length]. rewrite length_app. unfold op_row at 1.
  rewrite length_fmap, length_seqZ. lia.
Qed.

(** The records sent for [ops], and a log holding exactly them, in that order. *)
Definition produced (c : kafkaConn) (ops : list Operation) : list kgoRecord :=
  concat (produce_records c <$> ops).

Definition same_record (r : kgoRecord) (f : fetched) : Prop :=
  ft_Key f = kr_Key r /\ ft_Headers f = kr_Headers r.

Definition decodes_to (f : fetched) (kv : Z * Z) : Prop :=
  decode_record f = Some {| lr_Partition := ft_Partition f; lr_Offset := ft_Offset f;
                            lr_Key := kv.1; lr_Seq := kv.2 |}.

(** A batch of one is the single record. *)
Lemma batchRecordAt_one topic op : is_i64 (op_Key op) -> batchRecordAt topic op 0 1 = recordFrom topic op.
Proof.
  intros Hk. unfold batchRecordAt, recordFrom.
  rewrite i64_mul_id, i64_add_id by (unfold is_i64 in *; lia).
  by rewrite Z.mul_1_r, Z.add_0_r.
Qed.

Lemma produce_records_row c op :
  batch_fits op (batch_of c) ->
  produce_records c op
  = (fun i => batchRecordAt (kc_topic c) op (Z.of_nat i) (batch_of c)) <$> seq 0 (Z.to_nat (batch_of c)).
Proof.
  intros (Hk & Hn & Hb & _). unfold produce_records, batch_of in *.
  destruct (kc_batchSize c <? 1) eqn:E; cbn [Z.eqb Pos.eqb].
  - rewrite <- batchRecordAt_one by (unfold is_i64; lia). done.
  - destruct (kc_batchSize c =? 1) eqn:E1; zbool; [|done]. rewrite E1.
    rewrite <- batchRecordAt_one by (unfold is_i64; nia). done.
Qed.

(** [f] is the record [r] somewhere in the log, read as [kv]. *)
Definition reads_as (r : kgoRecord) (kv : Z * Z) : Prop :=
  forall f, same_record r f -> decodes_to f kv /\ ft_Key f = keyBytes kv.1.

Lemma produce_reads c op :
  batch_fits op (batch_of c) -> Forall2 reads_as (produce_records c op) (op_row (batch_of c) op).
Proof.
  intros Hfit. rewrite produce_records_row by done. unfold op_row, seqZ.
  apply Forall2_fmap_2, Forall2_fmap_r, Forall_Forall2_diag, Forall_forall.
  intros i Hi%elem_of_seq f [Hkey Hhdr]. pose proof Hfit as (Hk & Hn & Hb & _).
  assert (Hi' : 0 <= Z.of_nat i < batch_of c) by lia.
  pose proof (decode_batchRecord (kc_topic c) op (Z.of_nat i) (batch_of c) (ft_Partition f) (ft_Offset f) Hfit Hi')
    as Hd. cbn zeta in Hd. rewrite <- Hkey, <- Hhdr in Hd. unfold decodes_to. cbn [fst snd].
  replace (Z.of_nat i + op_Key op * batch_of c) with (batch_key op (Z.of_nat i) (batch_of c))
    by (unfold batch_key; lia).
  split; [by destruct f|]. rewrite Hkey. cbn [batchRecordAt kr_Key]. f_equal.
  rewrite i64_mul_id by (unfold is_i64; nia). apply i64_add_id. unfold is_i64. nia.
Qed.

Lemma produced_reads c ops :
  Forall (fun op => batch_fits op (batch_of c)) ops -> Forall2 reads_as (produced c ops) (intended (batch_of c) ops).
Proof.
  unfold produced, intended. induction 1 as [|op ops Hop _ IH]; [constructor|].
  rewrite !fmap_cons. cbn [concat]. apply Forall2_app; [by apply produce_reads|done].
Qed.

(** The log's record [d] for the fetched [f]. *)
Definition logged (f : fetched) (d : logRecord) : Prop :=
  decode_record f = Some d /\ ft_Key f = keyBytes (lr_Key d) /\ place d = (ft_Partition f, ft_Offset f).

Definition pair_of (r : logRecord) : Z * Z := (lr_Key r, lr_Seq r).

Lemma log_of_records recs kvs fs :
  Forall2 reads_as recs kvs -> Forall2 same_record recs fs ->
  exists d, omap decode_record fs = d /\ Forall2 logged fs d /\ pair_of <$> d = kvs.
Proof.
  intros H. revert fs. induction H as [|r kv recs kvs Hr _ IH]; intros fs Hs; inversion Hs as [|? f ? fs' Hf Hfs]; subst.
  { exists []. split_and!; [done|constructor|done]. }
  destruct (IH fs' Hfs) as (d & E & Hl & Hp). destruct (Hr f Hf) as [Hd Hk].
  eexists. cbn. rewrite Hd. split_and!; [by rewrite E|by constructor|]. rewrite fmap_cons, Hp. by destruct kv.
Qed.

Lemma key_seqs_pairs k d : key_seqs k d = snd <$> List.filter (fun kv => kv.1 =? k) (pair_of <$> d).
Proof.
  unfold key_seqs. induction d as [|r d IH]; [done|]. cbn. destruct (lr_Key r =? k); cbn; by rewrite IH.
Qed.

(** The broker appends: within a partition offsets grow, and a key has one partition. *)
Definition before (a b : fetched) : Prop :=
  (ft_Partition a = ft_Partition b -> ft_Offset a < ft_Offset b) /\
  (ft_Key a = ft_Key b -> ft_Partition a = ft_Partition b).

Definition appended : list fetched -> Prop := StronglySorted before.

Definition log_before (a b : logRecord) : Prop :=
  place a <> place b /\ (lr_Key a = lr_Key b -> log_le a b = true).

Lemma appended_log fs d : Forall2 logged fs d -> appended fs -> StronglySorted log_before d.
Proof.
  intros Hl. unfold appended. induction Hl as [|f r fs d (Hd & Hk & Hp) Hl IH]; intros Ha; [constructor|].
  inversion Ha as [|? ? Ha' Hf]; subst. constructor; [by apply IH|].
  clear IH Ha Ha'. induction Hl as [|g s fs d (Hgd & Hgk & Hgp) Hl IH]; [constructor|].
  apply Forall_cons in Hf as [[H1 H2] Hf]. constructor; [|by apply IH].
  unfold place in *. injection Hp as Hp1 Hp2. injection Hgp as Hg1 Hg2. split.
  - intros [= E1 E2]. lia.
  - intros E. apply log_le_spec. rewrite Hk, Hgk, E in H2. specialize (H2 eq_refl). lia.
Qed.

Lemma log_before_places d : StronglySorted log_before d -> NoDup (place <$> d).
Proof.
  induction 1 as [|r d _ IH Hr]; [constructor|]. rewrite fmap_cons, NoDup_cons. split; [|done].
  rewrite list_elem_of_fmap. intros (s & E & Hs). rewrite Forall_forall in Hr. by destruct (Hr s Hs).
Qed.

Lemma log_before_key k d :
  StronglySorted log_before d -> StronglySorted log_le (List.filter (fun r => lr_Key r =? k) d).
Proof.
  induction 1 as [|r d _ IH Hr]; cbn [List.filter]; [constructor|]. destruct (lr_Key r =? k) eqn:E; zbool; [|done].
  constructor; [done|]. rewrite Forall_forall in *. intros s Hs. apply list_elem_of_In, filter_In in Hs as [Hs Ek].
  zbool. apply Is_true_true, Hr; [by apply list_elem_of_In|congruence].
Qed.

(** The polls that deliver [fs] before the topic goes idle. *)
Definition good_poll (p : poll) : Prop := pl_ctx p = None /\ pl_err p = None /\ pl_records p <> [].
Definition idle_poll (p : poll) : Prop :=
  pl_ctx p = None /\
  (pl_err p = None /\ pl_records p = [] \/ (exists e, pl_err p = Some e) /\ pl_ctx_again p = None).

Definition delivers (polls : list poll) (fs : list fetched) : Prop :=
  exists good last rest, polls = good ++ last :: rest /\ Forall good_poll good /\ idle_poll last /\
    concat (pl_records <$> good) ≡ₚ fs.

Lemma drainTopic_delivers polls fs :
  delivers polls fs -> exists recs, drainTopic polls [] = Some (recs, None) /\ recs ≡ₚ omap decode_record fs.
Proof.
  intros (good & p & rest & -> & Hg & Hp & Hfs).
  assert (H : forall out, drainTopic (good ++ p :: rest) out
                          = Some (out ++ omap decode_record (concat (pl_records <$> good)), None)).
  { clear Hfs. induction Hg as [|q good (Q1 & Q2 & Q3) _ IH]; intros out.
    - cbn. destruct Hp as (-> & [[-> ->]|[[e ->] ->]]); by rewrite app_nil_r.
    - cbn [app drainTopic]. rewrite Q1, Q2, fmap_cons. cbn [concat]. rewrite omap_app, app_assoc, <- IH.
      by destruct (pl_records q). }
  eexists. split; [apply H|]. cbn [app]. by rewrite Hfs.
Qed.

Lemma drained_log c ops fs :
  Forall (fun op => batch_fits op (batch_of c)) ops -> Forall2 same_record (produced c ops) fs ->
  exists d, omap decode_record fs = d /\ Forall2 logged fs d /\ pair_of <$> d = intended (batch_of c) ops.
Proof. intros Hb Hs. eapply log_of_records; [by apply produced_reads|done]. Qed.

Lemma numbered_bound ops op : numbered ops -> op ∈ ops -> 1 <= op_Seq op <= Z.of_nat (length ops).
Proof.
  intros H Hin. apply list_elem_of_split in Hin as (pre & post & ->).
  rewrite (H pre op post eq_refl), length_app. cbn [length]. pose proof (keyCount_nonneg (op_Key op) pre). lia.
Qed.

Lemma intended_in k s n ops : (k, s) ∈ intended n ops -> exists op, op ∈ ops /\ s = op_Seq op.
Proof.
  unfold intended, op_row. rewrite list_elem_of_In, in_concat.
  intros (row & Hrow%list_elem_of_In & Hin%list_elem_of_In).
  apply list_elem_of_fmap in Hrow as (op & -> & Hop). exists op. split; [done|].
  apply list_elem_of_fmap in Hin as (x & [= -> ->] & _). done.
Qed.

Lemma produced_log_fits_of c ops d N :
  Forall (fun op => 1 <= op_Seq op <= N) ops -> Z.of_nat (length ops) <= N ->
  1 <= batch_of c -> batch_of c * N < 2^31 ->
  pair_of <$> d = intended (batch_of c) ops -> log_fits (2^31) d.
Proof.
  intros Hn HN Hb Hlt Hp.
  assert (Hlen : Z.of_nat (length d) = batch_of c * Z.of_nat (length ops)).
  { rewrite <- length_intended by lia. by rewrite <- Hp, length_fmap. }
  assert (Hm : batch_of c * Z.of_nat (length ops) <= batch_of c * N) by (apply Z.mul_le_mono_nonneg_l; lia).
  split_and!; [|lia|nia|lia]. unfold seqs_in. rewrite Forall_fmap, Forall_forall. intros r Hr. cbn.
  assert (Hin : pair_of r ∈ intended (batch_of c) ops) by (rewrite <- Hp; by apply list_elem_of_fmap_2).
  apply intended_in in Hin as (op & Hop & ->). rewrite Forall_forall in Hn. pose proof (Hn op Hop). nia.
Qed.

Lemma produced_log_fits c ops d :
  numbered ops -> 1 <= batch_of c -> batch_of c * Z.of_nat (length ops) < 2^31 ->
  pair_of <$> d = intended (batch_of c) ops -> log_fits (2^31) d.
Proof.
  intros Hn. apply produced_log_fits_of; [|lia]. apply Forall_forall. intros op. by apply numbered_bound.
Qed.

Lemma batch_of_pos c : 1 <= batch_of c.
Proof. unfold batch_of. destruct (_ <? 1) eqn:E; zbool; lia. Qed.

(** *** Produces among other operations *)

(** The operations that send records. *)
Definition sends (op : Operation) : bool := isProduce (op_Type op) || isProduceBatch (op_Type op).

Definition key_ops (k : Z) (ops : list Operation) : list Operation := List.filter (fun o => op_Key o =? k) ops.

(** The elements that satisfy [p] stand together. *)
Definition in_one_block {A} (p : A -> bool) (l : list A) : Prop :=
  exists pre block post, l = pre ++ block ++ post /\
    Forall (fun a => p a = true) block /\ Forall (fun a => p a = false) (pre ++ post).

Section blocks.
Context {A : Type} (p : A -> bool) (f : A -> Z).

Lemma run_cons a l s n :
  f <$> a :: l = seqZ s n -> f a = s /\ f <$> l = seqZ (s + 1) (Z.pred n) /\ 0 < n.
Proof.
  destruct (decide (0 < n)); [|rewrite seqZ_nil by lia; done].
  rewrite seqZ_cons by done. intros [= Ea E]. split_and!; [done| |done].
  replace (s + 1) with (Z.succ s) by lia. exact E.
Qed.

(** Selected from consecutive numbers, themselves consecutive from the first. *)
Lemma run_prefix l s n m :
  f <$> l = seqZ s n -> f <$> List.filter p l = seqZ s m ->
  exists block post, l = block ++ post /\ Forall (fun a => p a = true) block /\ Forall (fun a => p a = false) post.
Proof.
  revert s n m. induction l as [|a l IH]; intros s n m Hl Hf; [by exists [], []|].
  apply run_cons in Hl as (Ha & Hl & _). cbn [List.filter] in Hf. destruct (p a) eqn:Ep.
  - apply run_cons in Hf as (_ & Hf & _). destruct (IH _ _ _ Hl Hf) as (block & post & -> & Hb & Hp).
    exists (a :: block), post. split_and!; [done|by constructor|done].
  - exists [], (a :: l). split_and!; [done|constructor|]. constructor; [done|].
    destruct (List.filter p l) as [|b fl] eqn:E.
    + apply Forall_forall. intros x Hx. apply not_true_iff_false. intros Hpx.
      assert (Hin : In x (List.filter p l)) by (apply filter_In; split; [by apply list_elem_of_In|done]). by rewrite E in Hin.
    + apply run_cons in Hf as (Hb & _ & _).
      assert (Hin : f b ∈ f <$> l).
      { apply list_elem_of_fmap_2, list_elem_of_In. apply (filter_In p). rewrite E. by left. }
      rewrite Hl, elem_of_seqZ in Hin. lia.
Qed.

Lemma run_block l s n :
  f <$> l = seqZ s n -> (exists m len, f <$> List.filter p l = seqZ m len) <-> in_one_block p l.
Proof.
  intros Hl. split.
  - intros (m & len & Hf). revert s n Hl. induction l as [|a l IH]; intros s n Hl; [by exists [], [], []|].
    pose proof (run_cons _ _ _ _ Hl) as (Ha & Hl' & _). cbn [List.filter] in Hf, IH. destruct (p a) eqn:Ep.
    + pose proof (run_cons _ _ _ _ Hf) as (Hm & _ & _). assert (m = s) as -> by congruence.
      destruct (run_prefix (a :: l) s n len Hl) as (block & post & -> & Hb & Hp); [cbn; by rewrite Ep|].
      by exists [], block, post.
    + destruct (IH Hf _ _ Hl') as (pre & block & post & -> & Hb & Hp).
      exists (a :: pre), block, post. split_and!; [done|done|by constructor].
  - intros (pre & block & post & -> & Hb & [Hp1 Hp2]%Forall_app).
    rewrite !List.filter_app, (filter_none p pre), (filter_none p post), app_nil_r, (filter_all p block) by by apply Forall_forall.
    rewrite !fmap_app in Hl. cbn [app]. exists (s + Z.of_nat (length pre)), (Z.of_nat (length block)).
    apply list_eq. intros i. destruct (decide (i < length block)%nat) as [Hi|Hi].
    + assert (E : (seqZ s n) !! (length pre + i)%nat = (f <$> block) !! i).
      { rewrite <- Hl, lookup_app_r, length_fmap by (rewrite length_fmap; lia).
        rewrite lookup_app_l by (rewrite length_fmap; lia). f_equal. lia. }
      destruct ((f <$> block) !! i) as [z|] eqn:Ez.
      * apply lookup_seqZ in E as [-> ?]. symmetry. apply lookup_seqZ. lia.
      * apply lookup_ge_None in Ez. rewrite length_fmap in Ez. lia.
    + rewrite !lookup_ge_None_2; [done|rewrite length_seqZ; lia|rewrite length_fmap; lia].
Qed.
End blocks.

Lemma filter_filter_comm {A} (p q : A -> bool) l : List.filter p (List.filter q l) = List.filter q (List.filter p l).
Proof.
  induction l as [|a l IH]; [done|]. cbn. destruct (p a) eqn:Ep, (q a) eqn:Eq; cbn; rewrite ?Ep, ?Eq, IH; done.
Qed.

(** The sends of a key are numbered consecutively when they stand together among
    the key's operations. *)
Lemma sends_run k ops :
  numbered ops ->
  (exists m n, op_seqs k (List.filter sends ops) = seqZ m n) <-> in_one_block sends (key_ops k ops).
Proof.
  intros Hn. unfold op_seqs. rewrite filter_filter_comm.
  eapply (run_block sends op_Seq), (numbered_seqs ops k Hn).
Qed.

Lemma increasing_run s n : StronglySorted Z.lt (seqZ s n).
Proof.
  destruct (decide (0 <= n)) as [Hn|]; [|rewrite seqZ_nil by lia; constructor].
  revert s. pattern n. apply natlike_ind; [by constructor| |done]. clear n Hn. intros n Hn IH s.
  rewrite seqZ_cons by lia. rewrite Z.pred_succ. constructor; [apply IH|].
  apply Forall_forall. intros x Hx%elem_of_seqZ. lia.
Qed.

Lemma StronglySorted_map_filter {A} (p : A -> bool) (f : A -> Z) l :
  StronglySorted Z.lt (f <$> l) -> StronglySorted Z.lt (f <$> List.filter p l).
Proof.
  induction l as [|a l IH]; [done|]. rewrite fmap_cons. intros H. inversion_clear H as [|? ? Hs Hf]. cbn [List.filter].
  destruct (p a); [|by apply IH]. rewrite fmap_cons. constructor; [by apply IH|].
  rewrite Forall_fmap, Forall_forall in *. intros x Hx. apply Hf. apply list_elem_of_In, filter_In in Hx as [Hx _].
  by apply list_elem_of_In.
Qed.

Lemma sends_increasing k ops : numbered ops -> StronglySorted Z.lt (op_seqs k (List.filter sends ops)).
Proof.
  intros Hn. unfold op_seqs. rewrite filter_filter_comm. apply StronglySorted_map_filter.
  change (StronglySorted Z.lt (op_seqs k ops)). rewrite (numbered_seqs ops k Hn). apply increasing_run.
Qed.

Lemma increasing_clean s : StronglySorted Z.lt s -> nondec s /\ NoDup s.
Proof.
  induction 1 as [|a l _ [IH1 IH2] Hf]; [by split; [intros i ?|constructor]|]. rewrite Forall_forall in Hf. split.
  - intros [|i] x y; cbn.
    + intros [= <-] Hy%list_elem_of_lookup_2. specialize (Hf _ Hy). lia.
    + by apply IH1.
  - constructor; [|done]. intros Hin. specialize (Hf _ Hin). lia.
Qed.

(** ** The verifier *)

(** C22: The kafka-log verdict: on a non-empty log the report passes exactly when
    every key's sequence numbers, read in (partition, offset) order, are a run
    of consecutive integers, and fails otherwise; on an empty log the verdict
    is unknown.  The order in which the keys are visited does not matter. *)
Theorem analyzeLog_pass_iff order M recs :
  (forall m, order m ≡ₚ map_to_list m) -> log_fits M recs ->
  let v := vr_Verdict (analyzeLog order recs) in
  (v = VerdictUnknown <-> recs = []) /\
  (recs <> [] ->
   (v = VerdictPass <->
    forall k, exists m n, key_seqs k (sort_by (le_of_less log_less) recs) = seqZ m n) /\
   (v <> VerdictPass -> v = VerdictFail)).
Proof.
  intros Ho Hfit v. destruct (decide (recs = [])) as [->|Hne]; [split; [done|by intros []]|].
  destruct (analyzeLog_counts order Ho M recs Hne Hfit) as (_ & _ & _ & Hv & Hf). split.
  { split; [|done]. intros E. fold v in Hf. rewrite Hf in E by (rewrite E; done). done. }
  intros _. split; [|done]. unfold v. rewrite (analyzeLog_runs order Ho M recs Hne Hfit).
  split; intros H k; destruct (H k) as [m Hm]; [by eauto|]. destruct Hm as [n Hn]. exists m.
  fold log_le in Hn. rewrite Hn. rewrite length_seqZ. destruct (decide (0 <= n)); [by rewrite Z2Nat.id|].
  rewrite !seqZ_nil by lia. done.
Qed.

Definition sample_log : list logRecord :=
  [{| lr_Partition := 0; lr_Offset := 1; lr_Key := 7; lr_Seq := 3 |};
   {| lr_Partition := 0; lr_Offset := 0; lr_Key := 7; lr_Seq := 2 |};
   {| lr_Partition := 1; lr_Offset := 0; lr_Key := 4; lr_Seq := 1 |}].

Lemma analyzeLog_pass_iff_witness :
  vr_Verdict (analyzeLog map_to_list sample_log) = VerdictPass /\
  (forall k, exists m n, key_seqs k (sort_by (le_of_less log_less) sample_log) = seqZ m n).
Proof.
  assert (Hfit : log_fits 10 sample_log).
  { split_and!; [|lia|cbn; lia|cbn; lia]. unfold seqs_in, sample_log. repeat constructor; cbn; lia. }
  assert (Hp : vr_Verdict (analyzeLog map_to_list sample_log) = VerdictPass) by (vm_compute; reflexivity).
  split; [exact Hp|].
  apply (proj1 (proj1 (proj2 (analyzeLog_pass_iff map_to_list 10 sample_log (fun m => Permutation_refl _) Hfit)
    ltac:(discriminate))) Hp).
Defined.

(** The report does not depend on how the fetches interleave: for a log whose
    (partition, offset) places are distinct, any order of delivery and any order
    of visiting the keys gives the same verdict and the same counts. *)
Theorem analyzeLog_delivery order1 order2 M recs1 recs2 :
  (forall m, order1 m ≡ₚ map_to_list m) -> (forall m, order2 m ≡ₚ map_to_list m) ->
  log_fits M recs1 -> NoDup (place <$> recs1) -> recs1 ≡ₚ recs2 ->
  let counts rep := (vr_Verdict rep, vr_Checked rep, vr_Lost rep, vr_Duplicated rep, vr_OrderingViol rep) in
  counts (analyzeLog order1 recs1) = counts (analyzeLog order2 recs2).
Proof.
  intros H1 H2 Hfit Hd Hp counts. assert (Hfit2 : log_fits M recs2) by exact (proj1 (log_fits_proper M _ _ Hp) Hfit).
  destruct (decide (recs1 = [])) as [->|Hne1]; [apply Permutation_nil_l in Hp; subst recs2; reflexivity|].
  assert (Hne2 : recs2 <> []) by (intros ->; by apply Permutation_nil_r in Hp).
  destruct (analyzeLog_counts order1 H1 M recs1 Hne1 Hfit) as (A1 & A2 & A3 & A4 & A5).
  destruct (analyzeLog_counts order2 H2 M recs2 Hne2 Hfit2) as (B1 & B2 & B3 & B4 & B5).
  rewrite (log_sort_unique _ _ Hd Hp) in A1, A2, A3.
  assert (E1 : vr_Lost (analyzeLog order1 recs1) = vr_Lost (analyzeLog order2 recs2)).
  { rewrite A1, B1. apply zsum_perm. by rewrite H1, H2. }
  assert (E2 : vr_Duplicated (analyzeLog order1 recs1) = vr_Duplicated (analyzeLog order2 recs2)).
  { rewrite A2, B2. apply zsum_perm. by rewrite H1, H2. }
  assert (E3 : vr_OrderingViol (analyzeLog order1 recs1) = vr_OrderingViol (analyzeLog order2 recs2))
    by (rewrite A3, B3; done).
  assert (E4 : vr_Verdict (analyzeLog order1 recs1) = vr_Verdict (analyzeLog order2 recs2)).
  { destruct (decide (vr_Verdict (analyzeLog order1 recs1) = VerdictPass)) as [P|P].
    - rewrite P. symmetry. apply B4. rewrite <- E1, <- E2, <- E3. by apply A4.
    - rewrite (A5 P). symmetry. apply B5. intros Q. apply P, A4. rewrite E1, E2, E3. by apply B4. }
  unfold counts. rewrite E1, E2, E3, E4. do 4 f_equal.
  by rewrite !analyzeLog_checked, Hp.
Qed.

Lemma analyzeLog_delivery_witness :
  vr_Verdict (analyzeLog (fun m => reverse (map_to_list m)) (reverse sample_log)) = VerdictPass.
Proof.
  pose proof (analyzeLog_delivery map_to_list (fun m => reverse (map_to_list m)) 10 sample_log (reverse sample_log)
    (fun m => Permutation_refl _) (fun m => reverse_Permutation _)) as H.
  assert (E : vr_Verdict (analyzeLog map_to_list sample_log) = VerdictPass) by (vm_compute; reflexivity).
  rewrite <- E. symmetry. simple refine (f_equal (fun t => t.1.1.1.1) (H _ _ _)).
  - split_and!; [|lia|cbn; lia|cbn; lia]. unfold seqs_in, sample_log. repeat constructor; cbn; lia.
  - apply (bool_decide_unpack _). vm_compute. exact I.
  - symmetry. apply reverse_Permutation.
Defined.

(** A log on which every key's numbers increase has nothing duplicated or reordered. *)
Lemma analyzeLog_increasing order M recs :
  (forall m, order m ≡ₚ map_to_list m) -> recs <> [] -> log_fits M recs ->
  (forall k, StronglySorted Z.lt (key_seqs k (sort_by log_le recs))) ->
  vr_Duplicated (analyzeLog order recs) = 0 /\ vr_OrderingViol (analyzeLog order recs) = 0.
Proof.
  intros Ho Hne Hfit Hinc. destruct (analyzeLog_counts order Ho M recs Hne Hfit) as (_ & -> & -> & _).
  set (l := sort_by log_le recs) in *.
  assert (Hl : log_fits M l) by (unfold l; by rewrite sort_by_perm).
  pose proof (scan_entries_ok M l _ Hl (Ho _)) as Hok. rewrite Forall_forall in Hok.
  destruct Hl as (_ & HM & _). destruct (scan_log_spec l) as (_ & _ & _ & ->). split.
  - apply zsum_zero; [intros x Hx; apply Hok in Hx; pose proof (entry_bounds _ _ _ Hx HM); lia|].
    intros [k s] Hin. destruct (Hok _ Hin) as (Hs & Hr & _). cbn in Hs, Hr.
    apply (scan_entries l _ k s (Ho _)) in Hin as [-> _]. unfold kdup. cbn.
    destruct (key_stats _) as [[[lost dup] lo] hi] eqn:E. cbn.
    destruct (key_stats_bounds M _ _ _ _ _ Hs Hr HM E) as (_ & _ & _ & -> & _).
    destruct (uniq_size (key_seqs k l)) as [_ U]. rewrite (proj2 U); [lia|]. by apply increasing_clean.
  - intros k. by apply increasing_clean.
Qed.

(** C4: End to end, one generator's operations, each numbered among all of its key
    whatever its type: the records its produces send (batched, every derived key),
    appended by the broker with one partition per key and drained in any order, are
    never reported as duplicated or reordered, and verify with a pass exactly when no
    key has another operation between two of its produces. So a workload of produces
    alone passes, while a consume of a key between two of its produces is reported as
    a loss although every record is there. *)
Theorem produced_stream_verdict order c ops fs polls rc :
  (forall m, order m ≡ₚ map_to_list m) ->
  numbered ops -> (exists op, op ∈ ops /\ sends op = true) ->
  Forall (fun op => sends op = true -> batch_fits op (batch_of c)) ops ->
  batch_of c * Z.of_nat (length ops) < 2^31 ->
  Forall2 same_record (produced c (List.filter sends ops)) fs -> appended fs -> delivers polls fs ->
  exists rep, kafka_Verify order (Ok rc) polls = Some (Ok rep) /\
    vr_Duplicated rep = 0 /\ vr_OrderingViol rep = 0 /\
    vr_Checked rep = batch_of c * Z.of_nat (length (List.filter sends ops)) /\
    (vr_Verdict rep = VerdictPass <-> forall k, in_one_block sends (key_ops k ops)) /\
    (vr_Verdict rep <> VerdictPass -> vr_Verdict rep = VerdictFail /\ vr_Lost rep <> 0) /\
    (Forall (fun op => sends op = true) ops -> vr_Verdict rep = VerdictPass /\ vr_Lost rep = 0).
Proof.
  intros Ho Hnum (op0 & Hin0 & Hs0) Hb Hlt Hs Ha Hdel. pose proof (batch_of_pos c) as Hpos.
  set (sent := List.filter sends ops) in *.
  assert (Hsub : forall op, op ∈ sent -> op ∈ ops /\ sends op = true).
  { intros op Hop. apply list_elem_of_In, filter_In in Hop as [H1 H2]. by rewrite list_elem_of_In. }
  assert (Hsb : Forall (fun op => batch_fits op (batch_of c)) sent).
  { rewrite Forall_forall in Hb |- *. intros op [H1 H2]%Hsub. by apply Hb. }
  destruct (drained_log c sent fs Hsb Hs) as (d & Ed & Hl & Hp).
  destruct (drainTopic_delivers polls fs Hdel) as (recs & Er & Hr). rewrite Ed in Hr. symmetry in Hr.
  assert (Hfd : log_fits (2^31) d).
  { apply (produced_log_fits_of c sent d (Z.of_nat (length ops))); try done.
    - apply Forall_forall. intros op [Hop _]%Hsub. by apply numbered_bound.
    - apply inj_le, List.filter_length_le. }
  assert (Hfit : log_fits (2^31) recs) by exact (proj1 (log_fits_proper _ _ _ Hr) Hfd).
  assert (Hlen : Z.of_nat (length recs) = batch_of c * Z.of_nat (length sent)).
  { rewrite <- Hr, <- length_intended by lia. by rewrite <- Hp, length_fmap. }
  assert (Hrne : recs <> []).
  { intros ->. assert (Hin : op0 ∈ sent) by (apply list_elem_of_In, filter_In; by rewrite <- list_elem_of_In).
    destruct sent; [by apply elem_of_nil in Hin|]. cbn [length] in Hlen. nia. }
  pose proof (appended_log fs d Hl Ha) as Hord.
  assert (Hks : forall k, key_seqs k (sort_by log_le recs) = op_seqs (k / batch_of c) sent).
  { intros k. rewrite (key_seqs_sort k d recs (log_before_places d Hord) Hr (log_before_key k d Hord)).
    by rewrite key_seqs_pairs, Hp, intended_seqs. }
  destruct (analyzeLog_increasing order _ recs Ho Hrne Hfit) as [Hdup Hvio];
    [intros k; rewrite Hks; by apply sends_increasing|].
  destruct (analyzeLog_counts order Ho _ recs Hrne Hfit) as (_ & _ & _ & Hv & Hf).
  assert (Hpass : vr_Verdict (analyzeLog order recs) = VerdictPass <-> forall k, in_one_block sends (key_ops k ops)).
  { rewrite (analyzeLog_runs order Ho _ recs Hrne Hfit). split; intros H k.
    - destruct (H (k * batch_of c)) as [m Hm]. rewrite Hks, Z.div_mul in Hm by lia. apply sends_run; eauto.
    - rewrite Hks. destruct (proj2 (sends_run (k / batch_of c) ops Hnum) (H _)) as (m & n & E). exists m.
      fold sent in E. rewrite E, length_seqZ. destruct (decide (0 <= n)); [by rewrite Z2Nat.id|by rewrite !seqZ_nil by lia]. }
  exists (analyzeLog order recs). cbn [kafka_Verify]. rewrite Er, analyzeLog_checked.
  split_and!; [done|done|done|done|exact Hpass| |].
  - intros Hn. split; [by apply Hf|]. intros E. apply Hn, Hv. done.
  - intros Hall. assert (HP : vr_Verdict (analyzeLog order recs) = VerdictPass); [|split; [done|by apply Hv]].
    apply Hpass. intros k. exists [], (key_ops k ops), []. rewrite app_nil_r. split_and!; [done| |constructor].
    rewrite Forall_forall in Hall |- *. intros op Hop. apply Hall. apply list_elem_of_In, filter_In in Hop as [Hop _].
    by apply list_elem_of_In.
Qed.

Definition sample_conn : kafkaConn :=
  {| kc_topic := "proofload"; kc_transactional := false; kc_grouped := false; kc_batchSize := 2 |}.

Definition sample_rc : resolvedConfig :=
  {| rc_brokers := ["localhost:9092"]; rc_topic := {| tc_Name := "proofload"; tc_Partitions := 1; tc_Replication := 1 |};
     rc_acks := ackAll; rc_idempotent := true; rc_txnID := ""; rc_group := ""; rc_batchSize := 2 |}.

Definition sample_op (key seq : Z) : Operation :=
  {| op_Type := "w"; op_Key := key; op_Value := []; op_Seq := seq |}.

Definition sample_ops : list Operation := [sample_op 0 1; sample_op 1 1; sample_op 0 2].

(** A one-partition topic that holds [recs]. *)
Definition one_partition (recs : list kgoRecord) : list fetched :=
  imap (fun i r => {| ft_Partition := 0; ft_Offset := Z.of_nat i; ft_Key := kr_Key r; ft_Headers := kr_Headers r |})
    recs.

Definition one_poll (fs : list fetched) : list poll :=
  [{| pl_ctx := None; pl_err := None; pl_ctx_again := None; pl_records := fs |};
   {| pl_ctx := None; pl_err := Some "context deadline exceeded"; pl_ctx_again := None; pl_records := [] |}].

Lemma one_partition_ok recs : Forall2 same_record recs (one_partition recs) /\ appended (one_partition recs).
Proof.
  unfold one_partition.
  assert (H : forall n, let fs := imap (fun i r => {| ft_Partition := 0; ft_Offset := Z.of_nat (n + i);
      ft_Key := kr_Key r; ft_Headers := kr_Headers r |}) recs in
    Forall2 same_record recs fs /\ appended fs /\
    Forall (fun f => ft_Partition f = 0 /\ Z.of_nat n <= ft_Offset f) fs).
  { induction recs as [|r recs IH]; intros n fs; unfold fs in *; cbn [imap];
      [split_and!; constructor|].
    destruct (IH (S n)) as (I1 & I2 & I3).
    rewrite (imap_ext _ (fun i r => {| ft_Partition := 0; ft_Offset := Z.of_nat (S n + i);
      ft_Key := kr_Key r; ft_Headers := kr_Headers r |}))
      by (intros i x _; unfold compose; f_equal; lia).
    split_and!.
    - constructor; [done|exact I1].
    - constructor; [exact I2|]. eapply Forall_impl; [exact I3|]. intros f (Hp & Hf).
      split; cbn; intros _; [lia|done].
    - constructor; [cbn; split; [done|lia]|]. eapply Forall_impl; [exact I3|]. intros f (Hp & Hf).
      split; [done|lia]. }
  destruct (H 0%nat) as (H1 & H2 & _). done.
Qed.

Lemma one_poll_delivers fs : fs <> [] -> delivers (one_poll fs) fs.
Proof.
  intros Hne. eexists [_], _, []. split; [reflexivity|]. split_and!.
  - repeat constructor. done.
  - split; [done|]. right. split; [by eexists|done].
  - cbn. by rewrite app_nil_r.
Qed.

(** [numbered], decided by a scan. *)
Fixpoint numbered_from (pre ops : list Operation) : bool :=
  match ops with
  | [] => true
  | op :: post => (op_Seq op =? keyCount (op_Key op) pre + 1) && numbered_from (pre ++ [op]) post
  end.

Lemma numbered_from_ok pre ops : numbered pre -> numbered_from pre ops = true -> numbered (pre ++ ops).
Proof.
  revert pre. induction ops as [|op ops IH]; intros pre Hp H; [by rewrite app_nil_r|].
  cbn [numbered_from] in H. apply andb_true_iff in H as [H1 H2]. zbool.
  change (op :: ops) with ([op] ++ ops). rewrite app_assoc. apply IH; [|done]. by apply numbered_snoc.
Qed.

Lemma numbered_nil : numbered [].
Proof. intros [|] ? ?; done. Qed.

(** A consume of key 0 between its two produces. *)
Definition gap_ops : list Operation :=
  [sample_op 0 1; sample_op 1 1; {| op_Type := "consume"; op_Key := 0; op_Value := []; op_Seq := 2 |}; sample_op 0 3].

(** Produces alone pass; with a consume between them every record is in the log, and
    the run is failed for a lost one. *)
Lemma produced_stream_verdict_witness :
  (exists rep, kafka_Verify map_to_list (Ok sample_rc)
     (one_poll (one_partition (produced sample_conn sample_ops))) = Some (Ok rep) /\
     vr_Verdict rep = VerdictPass /\ vr_Checked rep = 6) /\
  (exists rep, kafka_Verify map_to_list (Ok sample_rc)
     (one_poll (one_partition (produced sample_conn (List.filter sends gap_ops)))) = Some (Ok rep) /\
     vr_Verdict rep = VerdictFail /\ vr_Lost rep <> 0).
Proof.
  split.
  - edestruct (produced_stream_verdict map_to_list sample_conn sample_ops) as (rep & E & _ & _ & C & _ & _ & V).
    + intros m. reflexivity.
    + apply (numbered_from_ok []); [apply numbered_nil|vm_compute; reflexivity].
    + exists (sample_op 0 1). split; [left|reflexivity].
    + repeat constructor; cbn; lia.
    + cbn; lia.
    + apply one_partition_ok.
    + apply one_partition_ok.
    + apply one_poll_delivers. vm_compute. discriminate.
    + exists rep. split; [exact E|]. split; [apply V; repeat constructor|exact C].
  - edestruct (produced_stream_verdict map_to_list sample_conn gap_ops) as (rep & E & _ & _ & C & V & F & _).
    + intros m. reflexivity.
    + apply (numbered_from_ok []); [apply numbered_nil|vm_compute; reflexivity].
    + exists (sample_op 0 1). split; [left|reflexivity].
    + repeat constructor; cbn; lia.
    + cbn; lia.
    + apply one_partition_ok.
    + apply one_partition_ok.
    + apply one_poll_delivers. vm_compute. discriminate.
    + exists rep. split; [exact E|]. apply F. intros Hp. pose proof (proj1 V Hp 0) as (pre & block & post & Eb & Hb & Hn).
      cbn in Eb. destruct pre as [|a pre].
      * destruct block as [|b block]; [cbn in Eb, Hn; subst post; by inversion Hn|].
        injection Eb as <- Eb. destruct block as [|b2 block]; [cbn in Eb; subst post|].
        -- cbn in Hn. apply Forall_cons in Hn as [_ Hn]. by apply Forall_cons in Hn as [Hn _].
        -- injection Eb as <- _. apply Forall_cons in Hb as [_ Hb]. by apply Forall_cons in Hb as [Hb _].
      * injection Eb as <- _. by apply Forall_cons in Hn as [Hn _].
Defined.

(** Two generators on one topic: when the produces of two separately numbered
    streams share a key, the drained log is reported as a failure with
    duplicates, although every record was written exactly once. *)
Theorem shared_key_false_duplicates order c ops1 ops2 fs1 fs2 recs :
  (forall m, order m ≡ₚ map_to_list m) -> numbered ops1 -> numbered ops2 ->
  Forall (fun op => batch_fits op (batch_of c)) (ops1 ++ ops2) ->
  batch_of c * Z.of_nat (length (ops1 ++ ops2)) < 2^31 ->
  (exists op1 op2, op1 ∈ ops1 /\ op2 ∈ ops2 /\ op_Key op1 = op_Key op2) ->
  Forall2 same_record (produced c ops1) fs1 -> Forall2 same_record (produced c ops2) fs2 ->
  recs ≡ₚ omap decode_record (fs1 ++ fs2) ->
  vr_Verdict (analyzeLog order recs) = VerdictFail /\ 0 < vr_Duplicated (analyzeLog order recs).
Proof.
  intros Ho Hn1 Hn2 [Hb1 Hb2]%Forall_app Hlt (op1 & op2 & Hi1 & Hi2 & Hkey) Hs1 Hs2.
  pose proof (batch_of_pos c) as Hpos. rewrite length_app in Hlt.
  destruct (drained_log c ops1 fs1 Hb1 Hs1) as (d1 & E1 & _ & Hp1).
  destruct (drained_log c ops2 fs2 Hb2 Hs2) as (d2 & E2 & _ & Hp2).
  rewrite omap_app, E1, E2. intros Hr.
  pose proof (produced_log_fits c ops1 d1 Hn1 Hpos ltac:(nia) Hp1) as [F1 _].
  pose proof (produced_log_fits c ops2 d2 Hn2 Hpos ltac:(nia) Hp2) as [F2 _].
  assert (Hlen : Z.of_nat (length (d1 ++ d2)) = batch_of c * Z.of_nat (length ops1 + length ops2)).
  { rewrite length_app, Nat2Z.inj_add, <- (length_fmap pair_of d1), <- (length_fmap pair_of d2), Hp1, Hp2,
      !length_intended by lia. lia. }
  assert (Hfit : log_fits (2^31) recs).
  { symmetry in Hr. apply (proj1 (log_fits_proper _ _ _ Hr)). split_and!; [|lia|lia|lia].
    unfold seqs_in. rewrite fmap_app. by apply Forall_app. }
  set (k := op_Key op1 * batch_of c).
  assert (Hk : k / batch_of c = op_Key op1) by (apply Z.div_mul; lia).
  assert (Hperm : key_seqs k (sort_by log_le recs) ≡ₚ
                  seqZ 1 (keyCount (op_Key op1) ops1) ++ seqZ 1 (keyCount (op_Key op1) ops2)).
  { rewrite (key_seqs_perm k _ _ (sort_by_perm log_le recs)), (key_seqs_perm k _ _ Hr).
    rewrite key_seqs_pairs, fmap_app, List.filter_app, fmap_app, Hp1, Hp2, !intended_seqs, Hk by done.
    by rewrite !numbered_seqs. }
  assert (Hc : forall op ops, op ∈ ops -> 1 <= keyCount (op_Key op) ops).
  { intros op ops Hin. apply list_elem_of_split in Hin as (pre & post & ->). clear.
    induction pre as [|o pre IH]; cbn [app]; rewrite keyCount_cons; [rewrite Z.eqb_refl|];
      [pose proof (keyCount_nonneg (op_Key op) post); lia|]. destruct (op_Key o =? op_Key op); lia. }
  pose proof (Hc op1 ops1 Hi1) as C1. pose proof (Hc op2 ops2 Hi2) as C2. rewrite <- Hkey in C2.
  assert (Hdup : ~ NoDup (key_seqs k (sort_by log_le recs))).
  { rewrite Hperm. rewrite NoDup_app. intros (_ & H & _). apply (H 1); rewrite elem_of_seqZ; lia. }
  assert (Hkne : key_seqs k (sort_by log_le recs) <> []) by (intros E; apply Hdup; rewrite E; constructor).
  assert (Hne : recs <> []) by (intros ->; done).
  destruct (analyzeLog_counts order Ho _ recs Hne Hfit) as (_ & Ed & _ & Hv & Hf).
  assert (Hpos' : 0 < vr_Duplicated (analyzeLog order recs)).
  { rewrite Ed. apply (zsum_pos_in kdup _ (k, key_seqs k (sort_by log_le recs))).
    - intros [k' s'] Hin. eapply (entry_bounds (2^31)); [|lia].
      eapply (proj1 (Forall_forall _ _)); [|exact Hin].
      eapply scan_entries_ok; [|apply Ho]. by rewrite sort_by_perm.
    - by apply (scan_entries (sort_by log_le recs) _ _ _ (Ho _)).
    - unfold kdup. cbn. destruct (key_stats _) as [[[lost dup] lo] hi] eqn:E.
      assert (Hin : seqs_in (2^31) (key_seqs k (sort_by log_le recs)))
        by (apply key_seqs_fit; by rewrite sort_by_perm).
      destruct (key_stats_bounds (2^31) _ _ _ _ _ Hkne Hin ltac:(lia) E) as (_ & _ & _ & -> & _).
      destruct (uniq_size (key_seqs k (sort_by log_le recs))) as [U1 U2]. cbn.
      destruct (decide (size (list_to_set (C := gset Z) (key_seqs k (sort_by log_le recs)))
                          = length (key_seqs k (sort_by log_le recs)))) as [e|]; [by apply U2 in e|lia]. }
  split; [|done]. apply Hf. intros (_ & E & _)%Hv. lia.
Qed.

Lemma shared_key_false_duplicates_witness :
  vr_Verdict (analyzeLog map_to_list
    (omap decode_record (one_partition (produced sample_conn [sample_op 0 1])
                         ++ one_partition (produced sample_conn [sample_op 0 1])))) = VerdictFail.
Proof.
  eapply (shared_key_false_duplicates map_to_list sample_conn [sample_op 0 1] [sample_op 0 1]).
  - intros m. reflexivity.
  - apply (numbered_from_ok []); [apply numbered_nil|vm_compute; reflexivity].
  - apply (numbered_from_ok []); [apply numbered_nil|vm_compute; reflexivity].
  - repeat constructor; cbn; lia.
  - cbn; lia.
  - exists (sample_op 0 1), (sample_op 0 1). split_and!; [left|left|reflexivity].
  - apply one_partition_ok.
  - apply one_partition_ok.
  - reflexivity.
Defined.

(** ** Transactions *)

(** The calls a client has received, with whether they succeeded. *)
Inductive client_call :=
| CBegin (ok : bool)
| CProduce (recs : list kgoRecord) (ok : bool)
| CEnd (commit ok : bool)
| CPoll.

Definition is_ok {A} (e : option A) : bool := match e with None => true | Some _ => false end.

(** A client that remembers its calls; what each call returns is its own. *)
Class ClientTrace (W : Type) {KC : KafkaClient W} := {
  calls : W -> list client_call;
  begin_traced w : calls (kc_BeginTransaction w).1 = calls w ++ [CBegin (is_ok (kc_BeginTransaction w).2)];
  produce_traced recs w :
    calls (kc_ProduceSync recs w).1 = calls w ++ [CProduce recs (is_ok (kc_ProduceSync recs w).2)];
  end_traced commit w :
    calls (kc_EndTransaction commit w).1 = calls w ++ [CEnd commit (is_ok (kc_EndTransaction commit w).2)];
  poll_traced w : calls (kc_PollRecord w).1 = calls w ++ [CPoll]
}.

(** The transaction protocol, as the states of one producer: no transaction, one
    begun, one whose records were all written. *)
Inductive txn_state := TxnIdle | TxnOpen | TxnWritten | TxnFailed.

Definition txn_step (s : txn_state) (c : client_call) : option txn_state :=
  match s, c with
  | TxnIdle, CBegin ok => Some (if ok then TxnOpen else TxnIdle)
  | TxnIdle, CPoll => Some TxnIdle
  | TxnOpen, CProduce _ ok => Some (if ok then TxnWritten else TxnFailed)
  | TxnWritten, CEnd true _ => Some TxnIdle
  | TxnFailed, CEnd false _ => Some TxnIdle
  | _, _ => None
  end.

Definition txn_run (s : txn_state) (l : list client_call) : option txn_state :=
  foldl (fun s c => match s with Some s => txn_step s c | None => None end) (Some s) l.

Section transactions.
Context {W : Type} {KC : KafkaClient W} {KT : ClientTrace W}.

(** The calls of one produce of a transactional connection. *)
Lemma produce_calls c op w :
  kc_transactional c = true ->
  let '(w', r) := produce c op w in
  let recs := produce_records c op in
  exists l, calls w' = calls w ++ l /\
    ((l = [CBegin false] /\ or_Err r <> None /\ or_Rows r = 0) \/
     (exists ok, l = [CBegin true; CProduce recs false; CEnd false ok] /\ or_Err r <> None /\ or_Rows r = 0) \/
     (l = [CBegin true; CProduce recs true; CEnd true false] /\ or_Err r <> None /\ or_Rows r = 0) \/
     (l = [CBegin true; CProduce recs true; CEnd true true] /\ or_Err r = None /\ or_Rows r = batch_of c)).
Proof.
  intros Ht. unfold produce. rewrite Ht. fold (batch_of c).
  pose proof (begin_traced w) as HB. destruct (kc_BeginTransaction w) as [w1 [e|]]; cbn [fst snd is_ok] in HB.
  { eexists. split; [exact HB|]. left. by cbn. }
  pose proof (produce_traced (produce_records c op) w1) as HP.
  destruct (kc_ProduceSync _ w1) as [w2 [e|]]; cbn [fst snd is_ok] in HP.
  - rewrite end_traced, HP, HB, <- !app_assoc. eexists. split; [reflexivity|]. right. left. eexists. by cbn.
  - pose proof (end_traced true w2) as HE. destruct (kc_EndTransaction true w2) as [w3 [e|]]; cbn [fst snd is_ok] in HE;
      rewrite HE, HP, HB, <- !app_assoc; (eexists; split; [reflexivity|]); right; right; [left|right]; by cbn.
Qed.

Fixpoint execute_all (c : kafkaConn) (ops : list Operation) (w : W) : W * list OpResult :=
  match ops with
  | [] => (w, [])
  | op :: ops => let '(w, r) := kafka_Execute c op w in
                 let '(w, rs) := execute_all c ops w in (w, r :: rs)
  end.

Lemma execute_calls c op w :
  kc_transactional c = true ->
  exists l, calls (kafka_Execute c op w).1 = calls w ++ l /\ txn_run TxnIdle l = Some TxnIdle.
Proof.
  intros Ht. unfold kafka_Execute. destruct (_ || _).
  - pose proof (produce_calls c op w Ht) as H. destruct (produce c op w) as [w' r].
    destruct H as (l & E & H). exists l. split; [done|].
    destruct H as [(-> & _)|[(ok & -> & _)|[(-> & _)|(-> & _)]]]; done.
  - destruct (isConsume _).
    + exists [CPoll]. unfold consume. pose proof (poll_traced w) as HP.
      destruct (kc_PollRecord w) as [w' [[v|]|e]]; by cbn in *.
    + exists []. by rewrite app_nil_r.
Qed.

(** A transactional connection keeps the transaction protocol whatever the
    client answers: over any sequence of operations every transaction it begins
    holds one produce and is ended before the next call, committed exactly when
    the produce succeeded and aborted otherwise. *)
Theorem transactions_well_bracketed c ops w :
  kc_transactional c = true ->
  exists l, calls (execute_all c ops w).1 = calls w ++ l /\ txn_run TxnIdle l = Some TxnIdle.
Proof.
  intros Ht. revert w. induction ops as [|op ops IH]; intros w; cbn [execute_all].
  { exists []. by rewrite app_nil_r. }
  destruct (execute_calls c op w Ht) as (l & E & H). destruct (kafka_Execute c op w) as [w1 r].
  destruct (IH w1) as (l' & E' & H'). destruct (execute_all c ops w1) as [w2 rs]. cbn [fst] in *.
  exists (l ++ l'). split; [by rewrite E', E, <- app_assoc|].
  unfold txn_run in *. by rewrite foldl_app, H.
Qed.
End transactions.

(** A client whose second produce fails. *)
Definition trace_client : KafkaClient (list client_call) := {|
  kc_BeginTransaction := fun w => (w ++ [CBegin true], None);
  kc_ProduceSync := fun recs w =>
    let ok := (length w <? 4)%nat in (w ++ [CProduce recs ok], if ok then None else Some "NOT_LEADER"%string);
  kc_EndTransaction := fun commit w => (w ++ [CEnd commit true], None);
  kc_PollRecord := fun w => (w ++ [CPoll], Ok None);
  kc_AddConsumeTopics := fun _ w => w
|}.

Definition trace_client_law : @ClientTrace _ trace_client.
Proof.
  refine {| calls := fun w => w |}; intros; try done.
  cbv [kc_ProduceSync trace_client]. by destruct (length w <? 4)%nat.
Defined.

Lemma transactions_well_bracketed_witness :
  exists l, txn_run TxnIdle l = Some TxnIdle /\
    l = (@execute_all _ trace_client
           {| kc_topic := "t"; kc_transactional := true; kc_grouped := false; kc_batchSize := 1 |} sample_ops []).1.
Proof.
  destruct (@transactions_well_bracketed _ trace_client trace_client_law
    {| kc_topic := "t"; kc_transactional := true; kc_grouped := false; kc_batchSize := 1 |} sample_ops [] eq_refl)
    as (l & E & H).
  exists l. split; [exact H|]. symmetry. exact E.
Defined.

(** ** The resolved configuration *)

Lemma brokersFrom_nonempty cfg : brokersFrom cfg <> [].
Proof.
  unfold brokersFrom. destruct (cfg_Endpoints cfg); [|done].
  by destruct (List.filter _ _).
Qed.

(** C39: A resolved configuration is one the client accepts: exactly-once (a
    transactional id) and idempotence force acks=all, the idempotent write is
    disabled exactly when the configuration is not idempotent, the transactional
    id is passed exactly in the transactional case, a batch is at least one
    record and there is a broker; resolving fails only on an unknown level. *)
Theorem resolve_consistent cfg :
  match resolve cfg with
  | Ok rc =>
      (rc_txnID rc <> ""%string -> rc_acks rc = ackAll /\ rc_idempotent rc = true) /\
      (rc_idempotent rc = true -> rc_acks rc = ackAll) /\
      (DisableIdempotentWrite ∈ clientOpts rc <-> rc_idempotent rc = false) /\
      (forall id, TransactionalID id ∈ clientOpts rc <-> id = rc_txnID rc /\ id <> ""%string) /\
      (forall a, RequiredAcks a ∈ clientOpts rc <-> a = rc_acks rc) /\
      1 <= rc_batchSize rc /\ rc_brokers rc <> []
  | Err _ => exists e, parseAcks (cfg_Consistency cfg) = Err e
  end.
Proof.
  unfold resolve. destruct (parseAcks (cfg_Consistency cfg)) as [acks|e]; [|by exists e].
  set (txn := firstNonEmpty _). set (grp := firstNonEmpty [paramString (cfg_Params cfg) "group"; _]).
  unfold clientOpts. cbn [rc_txnID rc_acks rc_idempotent rc_batchSize rc_brokers rc_group rc_topic].
  assert (Hb : 1 <= batchSizeFrom cfg) by (unfold batchSizeFrom; destruct (_ <? 1) eqn:E; zbool; lia).
  pose proof (brokersFrom_nonempty cfg) as Hbr.
  destruct (String.eqb_spec txn "") as [Et|Et]; cbn [negb].
  - rewrite Et. destruct acks, (kafka_paramBool (cfg_Params cfg) "idempotent" true), (String.eqb grp "");
      cbn; split_and!; try done; try tauto; set_solver.
  - destruct (String.eqb grp ""); cbn; split_and!; try done; try tauto; set_solver.
Qed.
