(* ===== verification/KafkaDriver.v ===== *)
(** * KafkaDriver: the Kafka target as a driver (targets/kafka/kafkadriver)

    The topic (driver.go, [Schema]), the connections as the port of Driver, and the
    verifier with its own client (verify.go, [Verify]), over the class of
    franz-go's calls; what a broker promises about topics, and what a second run on
    the topic of a first one is reported as. *)

From Stdlib Require Import Ascii String.
From S2P Require Import Reconcile Prelude Domain Strconv Driver Workload Kafka.

Local Open Scope Z_scope.
Local Open Scope go_scope.

(** The calls on a client: [KafkaClient] for the ones of a connection,
    [kg_CreateTopics] for the request [kmsg.CreateTopicsRequest] of one topic with its
    time-out (the topics and error codes of the response, [None] for a response of
    another kind), [kg_PollFetches] for one poll of the verifier. *)
Class Kgo (W Cl : Type) := {
  kg_NewClient : list kgoOpt -> W -> W * result error Cl;
  kg_Close : Cl -> W -> W;
  kg_calls : Cl -> KafkaClient W;
  kg_CreateTopics : Cl -> Z -> topicConfig -> W -> W * result error (option (list (string * Z)));
  kg_PollFetches : Cl -> W -> W * poll
}.

(** [kerr.ErrorForCode]: the code of [kerr.TopicAlreadyExists] is 36. *)
Definition TopicAlreadyExists : Z := 36.

Section driver.
Context {W Cl : Type} {KG : Kgo W Cl}.
Context (ErrorForCode : Z -> error).
Implicit Types w : W.

(** ** driver.go *)

(** The first code of the response that is an error and not an existing topic. *)
Definition topic_error (topics : list (string * Z)) : option error :=
  match List.find (fun t => negb (t.2 =? 0) && negb (t.2 =? TopicAlreadyExists)) topics with
  | Some (name, code) => Some ("kafkadriver: create topic " +:+ name +:+ ": " +:+ ErrorForCode code)
  | None => None
  end.

Definition ensureTopic (cl : Cl) (tc : topicConfig) (w : W) : W * option error :=
  match kg_CreateTopics cl 15000 tc w with
  | (w, Err e) => (w, Some ("kafkadriver: create topic " +:+ tc_Name tc +:+ ": " +:+ e))
  | (w, Ok None) => (w, Some "kafkadriver: unexpected CreateTopics response"%string)
  | (w, Ok (Some topics)) => (w, topic_error topics)
  end.

Definition kafka_Schema (cfg : Config) (w : W) : W * option error :=
  match resolve cfg with
  | Err e => (w, Some e)
  | Ok rc =>
      match kg_NewClient [SeedBrokers (rc_brokers rc)] w with
      | (w, Err e) => (w, Some ("kafkadriver: admin client: " +:+ e))
      | (w, Ok cl) => let '(w, e) := ensureTopic cl (rc_topic rc) w in (kg_Close cl w, e)
      end
  end.

Definition conn_of (rc : resolvedConfig) : kafkaConn :=
  {| kc_topic := tc_Name (rc_topic rc); kc_transactional := negb (String.eqb (rc_txnID rc) "");
     kc_grouped := negb (String.eqb (rc_group rc) ""); kc_batchSize := rc_batchSize rc |}.

(** A connection is its client and its settings. *)
Definition kafka_Connect (cfg : Config) (w : W) : W * result error (Cl * kafkaConn) :=
  match resolve cfg with
  | Err e => (w, Err e)
  | Ok rc =>
      match kg_NewClient (clientOpts rc) w with
      | (w, Err e) => (w, Err ("kafkadriver: connect: " +:+ e))
      | (w, Ok cl) => (w, Ok (cl, conn_of rc))
      end
  end.

Definition kafka_Close (c : Cl * kafkaConn) (w : W) : W * option error := (kg_Close c.1 w, None).

#[export] Instance kafka_driver : Driver W (Cl * kafkaConn) := {|
  drv_Connect := kafka_Connect;
  conn_Prepare c wl w := (@kafka_Prepare _ (kg_calls c.1) c.2 wl w, None);
  conn_Execute c op w := @kafka_Execute _ (kg_calls c.1) c.2 op w;
  conn_Close := kafka_Close
|}.

Definition errReadKeyUnsupported : error :=
  "kafkadriver: ReadKeyFrom unsupported: Kafka is an append-only log with no per-key point read from a specific node; use the kafka-log verify model for correctness".

Definition kafka_ReadKeyFrom (_ : Node) (_ : Z) (w : W) : W * result error OpResult := (w, Err errReadKeyUnsupported).

#[export] Instance kafka_cluster : ClusterAware W := {|
  ca_Nodes := kafka_Nodes;
  ca_ReadKeyFrom := kafka_ReadKeyFrom
|}.

(** ** verify.go *)

(** The loop of [drainTopic] on the client, at most [fuel] polls; [None] while it still
    polls. *)
Fixpoint drain_calls (fuel : nat) (cl : Cl) (out : list logRecord) (w : W) : option (W * (list logRecord * option error)) :=
  match fuel with
  | O => None
  | S fuel =>
      let '(w, p) := kg_PollFetches cl w in
      match pl_ctx p with
      | Some e => Some (w, (out, Some e))
      | None =>
          match pl_err p with
          | Some e => Some (w, (out, match pl_ctx_again p with None => None | Some _ => Some e end))
          | None =>
              match pl_records p with
              | [] => Some (w, (out, None))
              | l => drain_calls fuel cl (out ++ omap decode_record l) w
              end
          end
      end
  end.

Definition Verify (fuel : nat) (order : gmap Z (list Z) -> list (Z * list Z)) (cfg : Config) (w : W)
    : option (W * (VerifyReport * option error)) :=
  let none : VerifyReport := report_zero VerifyKafkaLog in
  match resolve cfg with
  | Err e => Some (w, (none, Some e))
  | Ok rc =>
      match kg_NewClient [SeedBrokers (rc_brokers rc); ConsumeTopics (tc_Name (rc_topic rc)); ConsumeFromStart] w with
      | (w, Err e) => Some (w, (none, Some ("kafkadriver: verify client: " +:+ e)))
      | (w, Ok cl) =>
          match drain_calls fuel cl [] w with
          | None => None
          | Some (w, (_, Some e)) => Some (kg_Close cl w, (none, Some e))
          | Some (w, (recs, None)) => Some (kg_Close cl w, (analyzeLog order recs, None))
          end
      end
  end.

(** The polls of the client, one after the other. *)
Fixpoint polls_from (n : nat) (cl : Cl) (w : W) : list poll :=
  match n with
  | O => []
  | S n => let '(w, p) := kg_PollFetches cl w in p :: polls_from n cl w
  end.

Lemma drain_calls_spec n cl out w : option_map snd (drain_calls n cl out w) = drainTopic (polls_from n cl w) out.
Proof.
  revert out w. induction n as [|n IH]; intros out w; [done|]. cbn [drain_calls polls_from].
  destruct (kg_PollFetches cl w) as [w1 p]. cbn [drainTopic]. destruct (pl_ctx p); [done|]. destruct (pl_err p).
  - by destruct (pl_ctx_again p).
  - destruct (pl_records p); [done|]. apply IH.
Qed.
End driver.

(** ** Topics

    What a broker promises about them: a new topic is created as asked and empty, one
    that exists is answered as existing and left alone, another error creates
    nothing; clients come and go without touching them. *)
Class KgoTopics (W Cl : Type) {KG : Kgo W Cl} := {
  topics : W -> gmap string (topicConfig * list fetched);
  kg_client_topics opts w : topics (kg_NewClient opts w).1 = topics w;
  kg_close_topics cl w : topics (kg_Close cl w) = topics w;
  kg_failed_create cl ms tc w w' e : kg_CreateTopics cl ms tc w = (w', Err e) -> topics w' = topics w;
  kg_odd_create cl ms tc w w' : kg_CreateTopics cl ms tc w = (w', Ok None) -> topics w' = topics w;
  kg_create cl ms tc w w' l : kg_CreateTopics cl ms tc w = (w', Ok (Some l)) ->
    exists code, l = [(tc_Name tc, code)] /\
      (if code =? 0 then topics w !! tc_Name tc = None /\ topics w' = <[tc_Name tc := (tc, [])]> (topics w)
       else topics w' = topics w /\ (code = TopicAlreadyExists -> is_Some (topics w !! tc_Name tc)))
}.

Section topics.
Context {W Cl : Type} {KG : Kgo W Cl} {KT : KgoTopics W Cl} (ErrorForCode : Z -> error).

(** Applying the schema leaves every topic there was with its partitions and its
    records, and when it succeeds the topic of the configuration is there, as asked
    and empty if it was not there before. *)
Lemma kafka_Schema_keeps cfg rc w w' err :
  resolve cfg = Ok rc -> kafka_Schema ErrorForCode cfg w = (w', err) ->
  topics w ⊆ topics w' /\
  (err = None -> topics w' !! tc_Name (rc_topic rc) = Some (default (rc_topic rc, []) (topics w !! tc_Name (rc_topic rc)))).
Proof.
  intros Hrc. unfold kafka_Schema, ensureTopic. rewrite Hrc.
  pose proof (kg_client_topics [SeedBrokers (rc_brokers rc)] w) as Hc.
  destruct (kg_NewClient _ w) as [w1 [cl|e]]; cbn in Hc; [|intros [= <- <-]; by rewrite Hc].
  destruct (kg_CreateTopics cl _ _ w1) as [w2 [[l|]|e]] eqn:E.
  - apply kg_create in E as (code & -> & Hk). intros [= <- <-]. rewrite kg_close_topics. unfold topic_error.
    cbn [List.find snd]. rewrite Hc in Hk. destruct (code =? 0) eqn:E0; cbn [negb andb].
    + destruct Hk as [Hn ->]. rewrite Hn. split; [by apply insert_subseteq|]. intros _. apply lookup_insert_eq.
    + destruct Hk as [-> Hx]. split; [done|]. destruct (Z.eqb_spec code TopicAlreadyExists) as [Hcode|]; cbn [negb]; [|done].
      intros _. by destruct (Hx Hcode) as [t ->].
  - apply kg_odd_create in E. intros [= <- <-]. by rewrite kg_close_topics, E, Hc.
  - apply kg_failed_create in E. intros [= <- <-]. by rewrite kg_close_topics, E, Hc.
Qed.

(** A second application changes nothing. *)
Lemma kafka_Schema_again cfg rc w w' w'' err :
  resolve cfg = Ok rc -> kafka_Schema ErrorForCode cfg w = (w', None) -> kafka_Schema ErrorForCode cfg w' = (w'', err) ->
  topics w'' = topics w'.
Proof.
  intros Hrc H1 H2. destruct (kafka_Schema_keeps _ _ _ _ _ Hrc H1) as [_ Ht]. specialize (Ht eq_refl).
  revert H2. unfold kafka_Schema, ensureTopic. rewrite Hrc. pose proof (kg_client_topics [SeedBrokers (rc_brokers rc)] w') as Hc.
  destruct (kg_NewClient _ w') as [w1 [cl|e]]; cbn in Hc; [|by intros [= <- <-]].
  destruct (kg_CreateTopics cl _ _ w1) as [w2 [[l|]|e]] eqn:E.
  - apply kg_create in E as (code & -> & Hk). rewrite Hc in Hk. intros [= <- <-]. rewrite kg_close_topics.
    destruct (code =? 0); [by destruct Hk as [Hn _]; rewrite Ht in Hn|by destruct Hk as [-> _]].
  - apply kg_odd_create in E. intros [= <- <-]. by rewrite kg_close_topics, E, Hc.
  - apply kg_failed_create in E. intros [= <- <-]. by rewrite kg_close_topics, E, Hc.
Qed.

(** The records of a topic. *)
Definition topic_log (w : W) (name : string) : list fetched := default [] (snd <$> topics w !! name).

(** C35: two runs on one topic.  A first run wrote its records, numbered per key from
    one; the schema of the second run succeeds, and it writes its own, numbered from
    one again.  When the two runs share a key, the verification of the second run
    fails and reports duplicates, although each record was written exactly once and
    in order: the schema keeps the records of the first run, and the verifier reads
    the topic from its start. *)
Theorem second_run_reported_duplicated order cfg rc w w1 w2 w3 cl fuel ops1 ops2 fs1 fs2 :
  (forall m, order m ≡ₚ map_to_list m) -> resolve cfg = Ok rc ->
  let c := conn_of rc in
  let name := tc_Name (rc_topic rc) in
  numbered ops1 -> numbered ops2 -> Forall (fun op => batch_fits op (batch_of c)) (ops1 ++ ops2) ->
  batch_of c * Z.of_nat (length (ops1 ++ ops2)) < 2^31 ->
  (exists op1 op2, op1 ∈ ops1 /\ op2 ∈ ops2 /\ op_Key op1 = op_Key op2) ->
  Forall2 same_record (produced c ops1) fs1 -> Forall2 same_record (produced c ops2) fs2 ->
  topic_log w name = fs1 -> kafka_Schema ErrorForCode cfg w = (w1, None) ->
  topic_log w2 name = topic_log w1 name ++ fs2 ->
  kg_NewClient [SeedBrokers (rc_brokers rc); ConsumeTopics name; ConsumeFromStart] w2 = (w3, Ok cl) ->
  delivers (polls_from fuel cl w3) (topic_log w2 name) ->
  exists w4 rep, Verify fuel order cfg w2 = Some (w4, (rep, None)) /\ vr_Verdict rep = VerdictFail /\ 0 < vr_Duplicated rep.
Proof.
  intros Ho Hrc c name Hn1 Hn2 Hb Hlt Hshare Hs1 Hs2 Hlog1 Hsch Hlog2 Hcl Hdel.
  destruct (kafka_Schema_keeps _ _ _ _ _ Hrc Hsch) as [_ Ht]. specialize (Ht eq_refl). fold name in Ht.
  assert (Hlog : topic_log w2 name = fs1 ++ fs2).
  { rewrite Hlog2. f_equal. rewrite <- Hlog1. unfold topic_log. rewrite Ht. by destruct (topics w !! name). }
  destruct (drainTopic_delivers _ _ Hdel) as (recs & Hdrain & Hperm). rewrite Hlog in Hperm.
  rewrite <- drain_calls_spec in Hdrain. destruct (drain_calls fuel cl [] w3) as [[w4 res]|] eqn:Ed; [|done].
  injection Hdrain as ->. exists (kg_Close cl w4), (analyzeLog order recs). split.
  - unfold Verify. rewrite Hrc. fold name. by rewrite Hcl, Ed.
  - by eapply (shared_key_false_duplicates order c ops1 ops2 fs1 fs2).
Qed.
End topics.

(** ** A broker with one partition per topic *)

(** Its topics, and whether the consumer has read its topic. *)
Definition broker : Type := gmap string (topicConfig * list fetched) * bool.

Definition broker_append (r : kgoRecord) (b : broker) : broker :=
  match b.1 !! kr_Topic r with
  | Some (tc, l) =>
      (<[kr_Topic r := (tc, l ++ [{| ft_Partition := 0; ft_Offset := Z.of_nat (length l); ft_Key := kr_Key r; ft_Headers := kr_Headers r |}])]> b.1, b.2)
  | None => b
  end.

Definition broker_client : KafkaClient broker := {|
  kc_BeginTransaction b := (b, None);
  kc_ProduceSync recs b := (foldl (fun b r => broker_append r b) b recs, None);
  kc_EndTransaction _ b := (b, None);
  kc_PollRecord b := (b, Ok None);
  kc_AddConsumeTopics _ b := b
|}.

#[export] Instance broker_kgo : Kgo broker string := {|
  kg_NewClient opts b := ((b.1, false), Ok (from_option (fun o => match o with ConsumeTopics t => t | _ => ""%string end) ""%string
    (List.find (fun o => match o with ConsumeTopics _ => true | _ => false end) opts)));
  kg_Close _ b := b;
  kg_calls _ := broker_client;
  kg_CreateTopics _ _ tc b :=
    match b.1 !! tc_Name tc with
    | Some _ => (b, Ok (Some [(tc_Name tc, TopicAlreadyExists)]))
    | None => ((<[tc_Name tc := (tc, [])]> b.1, b.2), Ok (Some [(tc_Name tc, 0)]))
    end;
  kg_PollFetches cl b :=
    if b.2 then (b, {| pl_ctx := None; pl_err := Some "context deadline exceeded"%string; pl_ctx_again := None; pl_records := [] |})
    else ((b.1, true), {| pl_ctx := None; pl_err := None; pl_ctx_again := None; pl_records := default [] (snd <$> b.1 !! cl) |})
|}.

#[export] Instance broker_topics : KgoTopics broker string.
Proof.
  refine {| topics := fst |}; try done.
  - intros cl ms tc w w' e. cbn. by destruct (w.1 !! tc_Name tc).
  - intros cl ms tc w w'. cbn. by destruct (w.1 !! tc_Name tc).
  - intros cl ms tc w w' l. cbn. destruct (w.1 !! tc_Name tc) eqn:E; intros [= <- <-]; eexists; (split; [done|]); cbn.
    + by split; [|intros _; eexists].
    + done.
Defined.

Definition sample_cfg : Config :=
  {| cfg_Endpoints := ["localhost:9092"%string]; cfg_Consistency := ""; cfg_Cluster := {| cs_Nodes := []; cs_ReplicationFactor := 1; cs_Consistency := [] |}; cfg_Params := ∅ |}.

(** A run: the schema applied and the operations executed on one connection. *)
Definition sample_run_on (b : broker) (ops : list Operation) : broker :=
  let b := (kafka_Schema (fun _ => "error"%string) sample_cfg b).1 in
  match drv_Connect (C := string * kafkaConn) sample_cfg b with
  | (b, Ok c) => foldl (fun b op => (conn_Execute c op b).1) b ops
  | (b, Err _) => b
  end.

Definition sample_first : broker := sample_run_on (∅, false) [sample_op 0 1].
Definition sample_second : broker := sample_run_on sample_first [sample_op 0 1].

Lemma second_run_reported_duplicated_witness :
  exists w4 rep, Verify 2 map_to_list sample_cfg sample_second = Some (w4, (rep, None)) /\ vr_Verdict rep = VerdictFail /\ 0 < vr_Duplicated rep.
Proof.
  set (rc := {| rc_brokers := ["localhost:9092"%string]; rc_topic := {| tc_Name := "proofload"; tc_Partitions := 3; tc_Replication := 1 |};
     rc_acks := ackAll; rc_idempotent := true; rc_txnID := ""; rc_group := ""; rc_batchSize := 1 |}).
  apply (second_run_reported_duplicated (fun _ => "error"%string) map_to_list sample_cfg rc
    sample_first (kafka_Schema (fun _ => "error"%string) sample_cfg sample_first).1 sample_second (sample_second.1, false) "proofload" 2
    [sample_op 0 1] [sample_op 0 1]
    [{| ft_Partition := 0; ft_Offset := 0; ft_Key := kr_Key (recordFrom "proofload" (sample_op 0 1)); ft_Headers := kr_Headers (recordFrom "proofload" (sample_op 0 1)) |}]
    [{| ft_Partition := 0; ft_Offset := 1; ft_Key := kr_Key (recordFrom "proofload" (sample_op 0 1)); ft_Headers := kr_Headers (recordFrom "proofload" (sample_op 0 1)) |}]).
  - intros m. reflexivity.
  - vm_compute. reflexivity.
  - apply (numbered_from_ok []); [apply numbered_nil|vm_compute; reflexivity].
  - apply (numbered_from_ok []); [apply numbered_nil|vm_compute; reflexivity].
  - repeat constructor; cbn; lia.
  - cbn; lia.
  - exists (sample_op 0 1), (sample_op 0 1). split_and!; [left|left|reflexivity].
  - repeat constructor.
  - repeat constructor.
  - vm_compute. reflexivity.
  - vm_compute. reflexivity.
  - vm_compute. reflexivity.
  - vm_compute. reflexivity.
  - exists [(kg_PollFetches (Cl := string) "proofload"%string (sample_second.1, false)).2], (kg_PollFetches (Cl := string) "proofload"%string (sample_second.1, true)).2, [].
    split; [vm_compute; reflexivity|]. split_and!.
    + repeat constructor. vm_compute. discriminate.
    + split; [done|]. right. split; [by eexists|done].
    + vm_compute. reflexivity.
Defined.
