(* ===== verification/Distributed.v ===== *)
(** * Distributed: merging the workers of a run (core/cli/distributed.go)

    [coordinate] waits for the cluster's result and merges it; [doWorker] splits
    the rate, runs its shard and submits its encoded recorder.  The cluster
    protocol is in [Coordinator], the recorder in [Metrics]. *)

From Stdlib Require Import Ascii String.
From S2P Require Import Schedule Coordinator Prelude Domain Strconv Metrics Driver Runner.

Local Open Scope Z_scope.
Local Open Scope go_scope.

(** ** mergeResults *)

Section merge.
Context {H : Type} {HH : Histogram H}.
Context (unwire : string -> option wireEnvelope).

Definition decode_err (i : Z) (e : error) : error := str (txt "decode worker " ++ FormatInt i ++ txt ": " ++ txt e).

(** The loop over the histograms after the first. *)
Fixpoint merge_loop (merged : Recorder H) (i : Z) (blobs : list string) : result error (Recorder H) :=
  match blobs with
  | [] => Ok merged
  | b :: blobs =>
      match Decode unwire b with
      | Err e => Err (decode_err i e)
      | Ok r => merge_loop (Merge merged r) (i + 1) blobs
      end
  end.

Definition add_report (rep : RunReport) (wr : WorkerReport) : RunReport :=
  {| rep_Total := rep_Total rep +! wr_Total wr; rep_Errors := rep_Errors rep +! wr_Errors wr;
     rep_Records := rep_Records rep; rep_ClientBound := rep_ClientBound rep || wr_ClientBound wr;
     rep_MeanLateness := rep_MeanLateness rep; rep_MeanService := rep_MeanService rep;
     rep_Duration := rep_Duration rep |}.

Definition mergeResults (res : Result) : result error (Recorder H * RunReport) :=
  match res_Histograms res with
  | [] => Err "no worker results"%string
  | b :: blobs =>
      match Decode unwire b with
      | Err e => Err (decode_err 0 e)
      | Ok r =>
          merged <-? merge_loop r 1 blobs ;;
          Ok (merged, foldl add_report RunReport_zero (res_Reports res))
      end
  end.
End merge.

(** ** The worker *)

(** Values of the overrides map: what [workerOverrides] and [overrides] put in it. *)
Inductive override :=
| OInt (n : Z)
| ODuration (d : Z)
| OStrings (l : list string)
| OString (s : string).

Definition workerOverrides (spec : RunSpec) : gmap string override :=
  let o : gmap string override :=
    <["warmup"%string := ODuration (sp_Warmup spec)]>
    (<["duration"%string := ODuration (sp_Duration spec)]>
    (<["connections"%string := OInt (sp_Connections spec)]> ∅)) in
  let o := match sp_Endpoints spec with [] => o | l => <["endpoints"%string := OStrings l]> o end in
  if String.eqb (sp_Consistency spec) "" then o
  else <["consistency"%string := OString (sp_Consistency spec)]> o.

Definition workerRate (spec : RunSpec) : RateSpec :=
  if (sp_RateOpsPerSec spec <=? 0) || (sp_WorkerCount spec <=? 0) then RateSpec_zero
  else {| rate_Mode := RateFixed; rate_OpsPerSec := Z.quot (sp_RateOpsPerSec spec) (sp_WorkerCount spec) |}.

(** ** Merging is lossless *)

Section lossless.
Context {H : Type} {HH : Histogram H} {HL : HistogramLaws H}.
Context (wire : wireEnvelope -> string) (unwire : string -> option wireEnvelope).
Context (unwire_wire : forall env, unwire (wire env) = Some env).
Context (high sig : Z) (high_ok : 0 <= high) (sig_ok : 1 <= sig <= 5).

(** [b] is the encoding of a recorder that saw [evs]. *)
Definition encodes (b : string) (evs : list event) : Prop :=
  exists r : Recorder H, session_holds high sig evs r /\ Encode wire r = Ok b.

Lemma encodes_decode b evs :
  encodes b evs -> exists r, Decode unwire b = Ok r /\ session_holds high sig evs r.
Proof.
  intros (r & Hr & Hb). destruct (Encode_Decode wire unwire unwire_wire high sig sig_ok evs r Hr)
    as (b' & r' & Hb' & Hd & Hs).
  assert (b' = b) as -> by (rewrite Hb in Hb'; by injection Hb'). by exists r'.
Qed.

Lemma merge_loop_ok m evs i blobs evss :
  session_holds high sig evs m -> Forall2 encodes blobs evss ->
  exists m', merge_loop unwire m i blobs = Ok m' /\ session_holds high sig (evs ++ mjoin evss) m'.
Proof.
  intros Hm Hb. revert m evs i Hm. induction Hb as [|b evs1 blobs evss Hb1 _ IH]; intros m evs i Hm; cbn [merge_loop].
  { exists m. split; [done|]. cbn. by rewrite app_nil_r. }
  destruct (encodes_decode _ _ Hb1) as (r & -> & Hr).
  destruct (IH (Merge m r) (evs ++ evs1) (i + 1)) as (m' & E & Hm'); [by apply Merge_holds|].
  exists m'. split; [done|]. cbn [mjoin list_join]. by rewrite app_assoc.
Qed.

Lemma mergeResults_ok res evss :
  res_Histograms res <> [] -> Forall2 encodes (res_Histograms res) evss ->
  exists m, mergeResults unwire res = Ok (m, foldl add_report RunReport_zero (res_Reports res)) /\
    session_holds high sig (mjoin evss) m.
Proof.
  intros Hne Hb. unfold mergeResults. inversion Hb as [E|b evs blobs evss' Hb1 Hb' E]; [congruence|].
  subst. destruct (encodes_decode _ _ Hb1) as (r & -> & Hr).
  destruct (merge_loop_ok r evs 1 blobs evss' Hr Hb') as (m & -> & Hm). by exists m.
Qed.
End lossless.


(** The summed tallies, up to the width of an [int64]. *)
Lemma add_reports_spec l rep :
  let r := foldl add_report rep l in
  wrap64 (rep_Total r) = wrap64 (rep_Total rep + zsum (wr_Total <$> l)) /\
  wrap64 (rep_Errors r) = wrap64 (rep_Errors rep + zsum (wr_Errors <$> l)) /\
  rep_ClientBound r = rep_ClientBound rep || existsb wr_ClientBound l.
Proof.
  revert rep. induction l as [|w l IH]; intros rep; cbn [foldl].
  { cbn. by rewrite !Z.add_0_r, orb_false_r. }
  destruct (IH (add_report rep w)) as (E1 & E2 & E3). rewrite E1, E2, E3, !fmap_cons. cbn [zsum existsb].
  cbn [add_report rep_Total rep_Errors rep_ClientBound]. unfold i64_add. rewrite !wrap64_add_l, orb_assoc.
  split_and!; [f_equal; lia|f_equal; lia|done].
Qed.

(** ** A whole distributed run *)

(** A distributed run reports as one recorder would: when [Serve] returns
    without error and every accepted submission carries the encoding of its
    worker's recorder, [mergeResults] succeeds, and the merged snapshot is that
    of any single recorder that saw all the workers' events; the tallies are the
    sums of the workers' reports, and the run is client-bound when one worker is. *)
Theorem distributed_run_exact {H} {HH : Histogram H} {HL : HistogramLaws H}
    (wire : wireEnvelope -> string) (unwire : string -> option wireEnvelope)
    high sig spec n k r (evs_of : Z -> list event) (whole : Recorder H) phase dur :
  (forall env, unwire (wire env) = Some env) -> 0 <= high -> 1 <= sig <= 5 -> 0 < n ->
  rtc cluster_step (cluster_init spec n) k -> k_serve k = Returned r None ->
  (forall req, req ∈ k_submitted k ->
     encodes wire high sig (sr_Histogram req) (evs_of (wr_WorkerID (sr_Report req)))) ->
  session_holds high sig (mjoin (evs_of <$> seqZ 0 n)) whole ->
  exists merged report, mergeResults unwire r = Ok (merged, report) /\
    Snapshot merged phase dur = Snapshot whole phase dur /\
    wrap64 (rep_Total report) = wrap64 (zsum (wr_Total <$> res_Reports r)) /\
    wrap64 (rep_Errors report) = wrap64 (zsum (wr_Errors <$> res_Reports r)) /\
    rep_ClientBound report = existsb wr_ClientBound (res_Reports r).
Proof.
  intros Hw Hhigh Hsig Hn Hreach Hret Hsub Hwhole.
  destruct (cinv_reach _ _ _ Hreach) as [_ _ _ _ _ _ _ _ Hserve]. rewrite Hret in Hserve.
  destruct Hserve as (L1 & L2 & Hi).
  assert (Henc : Forall2 (encodes wire high sig) (res_Histograms r) (evs_of <$> seqZ 0 n)).
  { apply Forall2_same_length_lookup. split; [by rewrite length_fmap, length_seqZ|].
    intros i b evs Hb He. assert (Hlt : (i < Z.to_nat n)%nat) by (rewrite <- L2; by eapply lookup_lt_Some).
    destruct (Hi i Hlt) as (req & Hin & Eid & _ & Hh). specialize (Hsub req Hin).
    rewrite list_lookup_fmap, lookup_seqZ_lt in He by lia. cbn in He. injection He as <-.
    assert (b = sr_Histogram req) as -> by congruence. by rewrite Eid in Hsub. }
  assert (Hne : res_Histograms r <> []) by (intros E; rewrite E in L2; cbn in L2; lia).
  destruct (mergeResults_ok wire unwire Hw high sig Hsig r _ Hne Henc) as (m & E & Hm).
  eexists m, _. split; [exact E|].
  destruct (session_snapshot high sig Hhigh _ _ _ phase dur Hm Hwhole) as [-> _]. split; [done|].
  exact (add_reports_spec (res_Reports r) RunReport_zero).
Qed.

(** ** Splitting the rate *)

(** The fixed rate is split without overshoot: the workers together drive at
    most the requested rate and miss it by less than one operation per second
    each; without a rate every worker is closed-loop.  When the rate is below
    the number of workers each one gets rate 0, which the scheduler runs as a
    closed loop at full speed. *)
Theorem workerRate_split spec start :
  let total := sp_RateOpsPerSec spec in
  let n := sp_WorkerCount spec in
  let w := rate_OpsPerSec (workerRate spec) in
  (0 < total -> 0 < n -> total - n < n * w <= total) /\
  (total <= 0 -> workerRate spec = RateSpec_zero) /\
  (0 < total < n -> w = 0 /\ NewOpenLoop start (workerRate spec) = NewClosedLoop start).
Proof.
  intros total n w. unfold w, workerRate. fold total n. split_and!.
  - intros Ht Hn. destruct (total <=? 0) eqn:E1, (n <=? 0) eqn:E2; zbool; try lia. cbn [orb rate_OpsPerSec].
    rewrite Z.quot_div_nonneg by lia. pose proof (Z.div_mod total n ltac:(lia)).
    pose proof (Z.mod_pos_bound total n Hn). lia.
  - intros Ht. apply Z.leb_le in Ht. by rewrite Ht.
  - intros Ht. destruct (total <=? 0) eqn:E1, (n <=? 0) eqn:E2; zbool; try lia. cbn [orb rate_OpsPerSec].
    rewrite Z.quot_small by lia. split; [done|]. reflexivity.
Qed.

Lemma workerRate_split_witness :
  sp_RateOpsPerSec sample_run_spec = 1000 /\ 1000 - 2 < 2 * rate_OpsPerSec (workerRate sample_run_spec) <= 1000.
Proof. split; [reflexivity|]. apply (workerRate_split sample_run_spec 0); reflexivity. Defined.

(** ** A run of two workers *)

Definition sample_wire (env : wireEnvelope) : string :=
  pos_string (encode (env_Overall env, env_ByOp env, env_Sig env, env_High env, env_ErrByOp env, env_ErrTotal env)).

Definition sample_unwire (b : string) : option wireEnvelope :=
  match decode (A := string * gmap string string * Z * Z * option (gmap string Z) * Z) (string_pos b) with
  | Some (ov, byop, sig, high, errby, errtot) =>
      Some {| env_Overall := ov; env_ByOp := byop; env_Sig := sig; env_High := high;
              env_ErrByOp := errby; env_ErrTotal := errtot |}
  | None => None
  end.

Lemma sample_unwire_wire env : sample_unwire (sample_wire env) = Some env.
Proof. unfold sample_unwire, sample_wire. rewrite string_pos_string, decode_encode. by destruct env. Qed.

Definition sample_worker_actions (i : Z) : list action :=
  if i =? 0 then [NewL; Rec 0 ("read", 3, false)]%string
  else [NewL; NewL; Rec 1 ("write", 7, true); Rec 0 ("read", 99, false)]%string.

Definition sample_events (i : Z) : list event := events_of 0 (sample_worker_actions i).

Definition sample_recorder (acts : list action) : Recorder HSnapshot :=
  @run_actions _ exact_histogram (@NewRecorder _ 3 10) acts.

Lemma sample_recorder_holds acts :
  @session_holds _ exact_histogram exact_histogram_laws 10 3 (events_of 0 acts) (sample_recorder acts).
Proof.
  exact (@session_holds_actions _ exact_histogram exact_histogram_laws 10 3 ltac:(lia) acts [] _ 0
    (@NewRecorder_holds _ exact_histogram exact_histogram_laws 3 10) eq_refl).
Qed.

(** The cluster after both workers joined and submitted, and [Serve] returned. *)
Definition sample_posted (b0 b1 : string) : cluster :=
  sample_post (sample_post sample_k4 (sample_submit 1 b1)) (sample_submit 0 b0).

Definition sample_served (b0 b1 : string) : cluster :=
  let k := sample_posted b0 b1 in
  {| k_coord := close_stop (k_coord k); k_waiting := k_waiting k; k_assigned := k_assigned k;
     k_replies := k_replies k; k_submitted := k_submitted k;
     k_serve := Returned (Coordinator.result (close_stop (k_coord k))) None |}.

Lemma sample_served_reach b0 b1 : rtc cluster_step (cluster_init sample_run_spec 2) (sample_served b0 b1).
Proof.
  transitivity sample_k1; [apply sample_join_reach|].
  transitivity sample_k2; [apply sample_join_reach|].
  transitivity sample_k3; [apply sample_answer_reach; vm_compute; reflexivity|].
  transitivity sample_k4; [apply sample_answer_reach; vm_compute; reflexivity|].
  transitivity (sample_posted b0 b1); [etrans; apply sample_post_reach|].
  eapply rtc_l; [apply (k_serve_select (sample_posted b0 b1) None); vm_compute; reflexivity|].
  apply rtc_once. refine (k_serve_return _ None _). reflexivity.
Qed.

Lemma distributed_run_exact_witness :
  exists b0 b1 merged report,
    @mergeResults _ exact_histogram sample_unwire (Coordinator.result (close_stop (k_coord (sample_posted b0 b1))))
      = Ok (merged, report) /\
    @Snapshot _ exact_histogram merged PhaseMeasure second
      = @Snapshot _ exact_histogram (sample_recorder (NewL :: map (Rec 0) (sample_events 0 ++ sample_events 1)))
          PhaseMeasure second.
Proof.
  assert (He : forall i, exists b, @encodes _ exact_histogram exact_histogram_laws sample_wire 10 3 b (sample_events i)).
  { intros i. destruct (Encode_Decode sample_wire sample_unwire sample_unwire_wire 10 3 ltac:(lia) _ _
      (sample_recorder_holds (sample_worker_actions i))) as (b & r' & Hb & _).
    exists b, (sample_recorder (sample_worker_actions i)). split; [apply sample_recorder_holds|exact Hb]. }
  destruct (He 0) as [b0 H0], (He 1) as [b1 H1]. exists b0, b1.
  destruct (@distributed_run_exact _ exact_histogram exact_histogram_laws sample_wire sample_unwire 10 3
    sample_run_spec 2 (sample_served b0 b1) (Coordinator.result (close_stop (k_coord (sample_posted b0 b1))))
    sample_events (sample_recorder (NewL :: map (Rec 0) (sample_events 0 ++ sample_events 1))) PhaseMeasure second
    sample_unwire_wire ltac:(lia) ltac:(lia) ltac:(lia) (sample_served_reach b0 b1) eq_refl)
    as (m & rep & E & S & _).
  - intros req Hin.
    assert (Hcases : req = sample_submit 0 b0 \/ req = sample_submit 1 b1).
    { assert (Hs : k_submitted (sample_served b0 b1) = [sample_submit 0 b0; sample_submit 1 b1])
        by (vm_compute; reflexivity).
      rewrite Hs in Hin. rewrite !elem_of_cons, elem_of_nil in Hin. tauto. }
    destruct Hcases as [-> | ->]; [exact H0|exact H1].
  - exact (sample_recorder_holds (NewL :: map (Rec 0) (sample_events 0 ++ sample_events 1))).
  - exists m, rep. split; [exact E|exact S].
Defined.
