(* ===== verification/History.v ===== *)
(** * History: operation histories and their checkers
    (core/verify/history.go, historyio.go, porcupine.go, elle.go)

    The recorder classifies each observed operation, the writer appends it as a
    JSON line, the reader indexes the lines by process and by key; one checker
    asks porcupine whether each key is a linearizable register, the other
    writes an Elle history and reads elle-cli's verdict.  [json.Unmarshal],
    porcupine's check and elle-cli are parameters. *)

From Stdlib Require Import Ascii String.
From S2P Require Import Prelude Domain Strconv Workload Checksum Expect Driver Reconcile.

Local Open Scope Z_scope.
Local Open Scope go_scope.

(** ** history.go *)

Record Event := {
  ev_Process : Z;
  ev_F : string;
  ev_Key : Z;
  ev_WVal : Z;
  ev_RVal : Z;
  ev_RList : list Z;
  ev_Invoke : Z;
  ev_Complete : Z;
  ev_OK : bool
}.

#[export] Instance Event_eq_dec : EqDecision Event.
Proof. solve_decision. Defined.

Definition fRead : string := "read".
Definition fWrite : string := "write".
Definition fAppend : string := "append".

(** [strings.Contains]. *)
Fixpoint Contains (s sub : string) : bool :=
  String.prefix sub s || match s with EmptyString => false | String _ s' => Contains s' sub end.

Definition isAppendOp (t : OpType) : bool := Contains (ToLower t) "append".

(** The integer conversions keep the low 64 bits. *)
Definition toInt64s (l : list Z) : list Z := i64_of_u64 <$> l.

Definition observedList (v : any) : option (list Z) :=
  match v with
  | AInt64s l => Some l
  | AUint64s l => Some (toInt64s l)
  | AInts l => Some l
  | AByteSlices l => Some ((fun e => i64_of_u64 (Checksum e)) <$> l)
  | _ => None
  end.

(** The event [Observe] appends. *)
Definition Observe (process : Z) (op : Operation) (res : OpResult) (invoke complete : Z) : Event :=
  let mk f wval rval rlist :=
    {| ev_Process := process; ev_F := f; ev_Key := op_Key op; ev_WVal := wval; ev_RVal := rval;
       ev_RList := rlist; ev_Invoke := invoke; ev_Complete := complete;
       ev_OK := match or_Err res with None => true | Some _ => false end |} in
  if isAppendOp (op_Type op) then
    mk fAppend (Checksum (op_Value op)) 0 (default [] (observedList (or_Observed res)))
  else match op_Value op with
  | [] =>
      match observedList (or_Observed res) with
      | Some l => mk fRead 0 0 l
      | None => let '(b, present) := coerceBytes (or_Observed res) in
                mk fRead 0 (if present then Checksum b else 0) []
      end
  | _ => mk fWrite (Checksum (op_Value op)) 0 []
  end.

(** ** historyio.go *)

Definition commas (l : list text) : text :=
  match l with
  | [] => []
  | x :: l => x ++ mjoin ((fun y => ","%char :: y) <$> l)
  end.

(** [json.Marshal] of an event of one of the three families, whose names need no
    escaping; zero values and empty lists of the optional fields are left out. *)
Definition event_json (e : Event) : text :=
  ["{"%char] ++ json_field "p" ++ FormatInt (ev_Process e) ++
  [","%char] ++ json_field "f" ++ [dquote] ++ txt (ev_F e) ++ [dquote] ++
  [","%char] ++ json_field "k" ++ FormatInt (ev_Key e) ++
  (if ev_WVal e =? 0 then [] else [","%char] ++ json_field "wv" ++ FormatUint (ev_WVal e)) ++
  (if ev_RVal e =? 0 then [] else [","%char] ++ json_field "rv" ++ FormatUint (ev_RVal e)) ++
  (match ev_RList e with
   | [] => []
   | l => [","%char] ++ json_field "rl" ++ ["["%char] ++ commas (FormatInt <$> l) ++ ["]"%char]
   end) ++
  [","%char] ++ json_field "inv" ++ FormatInt (ev_Invoke e) ++
  [","%char] ++ json_field "cmp" ++ FormatInt (ev_Complete e) ++
  [","%char] ++ json_field "ok" ++ txt (if ev_OK e then "true" else "false") ++ ["}"%char].

(** The writer: the file and the buffered text. *)
Record HistoryWriter := { hw_file : text; hw_buf : text }.

Definition NewHistoryWriter (existing : text) : HistoryWriter := {| hw_file := existing; hw_buf := [] |}.

Definition Append (w : HistoryWriter) (e : Event) : HistoryWriter :=
  {| hw_file := hw_file w; hw_buf := hw_buf w ++ event_json e ++ [newline] |}.

Definition HistoryWriter_Close (w : HistoryWriter) : text := hw_file w ++ hw_buf w.

Record History := {
  h_events : list Event;
  h_byProcess : gmap Z (list Event);
  h_byKey : gmap Z (list Event)
}.

Definition History_empty : History := {| h_events := []; h_byProcess := ∅; h_byKey := ∅ |}.

Definition push (m : gmap Z (list Event)) (k : Z) (e : Event) : gmap Z (list Event) :=
  <[k := default [] (m !! k) ++ [e]]> m.

Definition add_event (h : History) (e : Event) : History :=
  {| h_events := h_events h ++ [e];
     h_byProcess := push (h_byProcess h) (ev_Process e) e;
     h_byKey := push (h_byKey h) (ev_Key e) e |}.

Section reader.
Context (unmarshal : text -> option Event).

Fixpoint readHistory_loop (lines : list text) (line : Z) (h : History) : result read_error History :=
  match lines with
  | [] => Ok h
  | l :: rest =>
      if max_token <=? Z.of_nat (length l) then Err ErrTooLong
      else match drop_cr l with
           | [] => readHistory_loop rest (line + 1) h
           | b => match unmarshal b with
                  | None => Err (ErrLine line)
                  | Some e => readHistory_loop rest (line + 1) (add_event h e)
                  end
           end
  end.

Definition readHistory (t : text) : result read_error History :=
  readHistory_loop (split_lines t []) 1 History_empty.
End reader.

Definition All (h : History) : list Event := h_events h.
Definition ByProcess (h : History) (p : Z) : list Event := default [] (h_byProcess h !! p).
Definition ByKey (h : History) (k : Z) : list Event := default [] (h_byKey h !! k).

Definition Keys (h : History) : list Z := sort_by Z.leb (map_to_list (h_byKey h)).*1.

(** ** porcupine.go *)

Record regInput := { ri_write : bool; ri_key : Z; ri_value : Z }.

(** A [porcupine.Operation] of the register model. *)
Record porcOp := {
  po_ClientId : Z;
  po_Input : regInput;
  po_Output : Z;
  po_Call : Z;
  po_Return : Z
}.

#[export] Instance regInput_eq_dec : EqDecision regInput.
Proof. solve_decision. Defined.
#[export] Instance porcOp_eq_dec : EqDecision porcOp.
Proof. solve_decision. Defined.

(** [registerModel]: its Init and Step. *)
Definition register_init : Z := 0.

Definition register_step (st : Z) (input : regInput) (output : Z) : bool * Z :=
  if ri_write input then (true, ri_value input) else (output =? st, st).

Definition registerOp (e : Event) : option porcOp :=
  if String.eqb (ev_F e) fWrite then
    Some {| po_ClientId := ev_Process e;
            po_Input := {| ri_write := true; ri_key := ev_Key e; ri_value := ev_WVal e |};
            po_Output := 0; po_Call := ev_Invoke e; po_Return := ev_Complete e |}
  else if String.eqb (ev_F e) fRead then
    Some {| po_ClientId := ev_Process e;
            po_Input := {| ri_write := false; ri_key := ev_Key e; ri_value := 0 |};
            po_Output := ev_RVal e; po_Call := ev_Invoke e; po_Return := ev_Complete e |}
  else None.

Definition registerOps (events : list Event) : list porcOp := omap registerOp events.

Definition witnessCap : nat := 32.

Definition op_text (letter : ascii) (e : Event) (v : Z) : string :=
  str (["p"%char] ++ FormatInt (ev_Process e) ++ [":"%char; letter] ++ FormatUint v ++ txt "@[" ++
       FormatInt (ev_Invoke e) ++ [","%char] ++ FormatInt (ev_Complete e) ++ ["]"%char]).

Fixpoint registerWitness_loop (events : list Event) (out : list string) : list string :=
  match events with
  | [] => out
  | e :: events =>
      if (witnessCap <? length out)%nat then out ++ ["..."%string]
      else if String.eqb (ev_F e) fWrite then
        registerWitness_loop events (out ++ [op_text "w"%char e (ev_WVal e)])
      else if String.eqb (ev_F e) fRead then
        registerWitness_loop events (out ++ [op_text "r"%char e (ev_RVal e)])
      else registerWitness_loop events out
  end.

Definition registerWitness (key : Z) (events : list Event) : list string :=
  registerWitness_loop events [str (txt "key=" ++ FormatInt key)].

Inductive CheckResult := PorcOk | PorcIllegal | PorcUnknown.

Record reg_state := { rs_report : VerifyReport; rs_illegal : bool; rs_unknown : bool }.

Definition anomaly_append (a : Anomaly) (ordering : Z) (r : VerifyReport) : VerifyReport :=
  {| vr_Model := vr_Model r; vr_Verdict := vr_Verdict r; vr_Anomalies := vr_Anomalies r ++ [a];
     vr_Checked := vr_Checked r; vr_Lost := vr_Lost r; vr_Duplicated := vr_Duplicated r;
     vr_OrderingViol := vr_OrderingViol r +! ordering; vr_ConvergedIn := vr_ConvergedIn r;
     vr_MaxStaleness := vr_MaxStaleness r; vr_Extra := vr_Extra r |}.

Definition set_verdict (v : Verdict) (r : VerifyReport) : VerifyReport :=
  {| vr_Model := vr_Model r; vr_Verdict := v; vr_Anomalies := vr_Anomalies r; vr_Checked := vr_Checked r;
     vr_Lost := vr_Lost r; vr_Duplicated := vr_Duplicated r; vr_OrderingViol := vr_OrderingViol r;
     vr_ConvergedIn := vr_ConvergedIn r; vr_MaxStaleness := vr_MaxStaleness r; vr_Extra := vr_Extra r |}.

Definition illegal_anomaly (key : Z) (events : list Event) : Anomaly :=
  {| an_Kind := "non-linearizable";
     an_Detail := str (txt "key " ++ FormatInt key ++ txt " register history is not linearizable");
     an_Witness := registerWitness key events |}.

Definition checkTimeout : Z := 5 * second.

Definition unknown_anomaly (key : Z) : Anomaly :=
  {| an_Kind := "unknown";
     an_Detail := str (txt "key " ++ FormatInt key ++ txt " linearizability check timed out after "
                       ++ duration_text checkTimeout);
     an_Witness := [str (txt "key=" ++ FormatInt key)] |}.

Section CheckRegister.
(** [porcupine.CheckOperationsVerbose] with the register model. *)
Context (check : list porcOp -> CheckResult).

Definition check_key (h : History) (s : reg_state) (key : Z) : reg_state :=
  match registerOps (ByKey h key) with
  | [] => s
  | ops =>
      match check ops with
      | PorcIllegal => {| rs_report := anomaly_append (illegal_anomaly key (ByKey h key)) 1 (rs_report s);
                          rs_illegal := true; rs_unknown := rs_unknown s |}
      | PorcUnknown => {| rs_report := anomaly_append (unknown_anomaly key) 0 (rs_report s);
                          rs_illegal := rs_illegal s; rs_unknown := true |}
      | PorcOk => s
      end
  end.

Definition CheckRegister (h : History) : VerifyReport :=
  let keys := Keys h in
  let report := {| vr_Model := VerifyRegister; vr_Verdict := VerdictPass; vr_Anomalies := [];
                   vr_Checked := Z.of_nat (length keys); vr_Lost := 0; vr_Duplicated := 0;
                   vr_OrderingViol := 0; vr_ConvergedIn := 0; vr_MaxStaleness := 0; vr_Extra := ∅ |} in
  let s := foldl (check_key h) {| rs_report := report; rs_illegal := false; rs_unknown := false |} keys in
  if rs_illegal s then set_verdict VerdictFail (rs_report s)
  else if rs_unknown s then set_verdict VerdictUnknown (rs_report s)
  else rs_report s.
End CheckRegister.

(** ** elle.go *)

Definition ednList (l : list Z) : text :=
  match l with
  | [] => txt "[]"
  | x :: l => ["["%char] ++ FormatInt x ++ mjoin ((fun y => " "%char :: FormatInt y) <$> l) ++ ["]"%char]
  end.

Definition mops (e : Event) (complete : bool) : text :=
  if String.eqb (ev_F e) fAppend then
    let v := txt "[:append " ++ FormatInt (ev_Key e) ++ [" "%char] ++ FormatUint (ev_WVal e) ++ ["]"%char] in
    match ev_RList e with
    | (_ :: _) as l =>
        if complete then ["["%char] ++ v ++ txt " [:r " ++ FormatInt (ev_Key e) ++ [" "%char] ++ ednList l ++ txt "]]"
        else ["["%char] ++ v ++ ["]"%char]
    | [] => ["["%char] ++ v ++ ["]"%char]
    end
  else if String.eqb (ev_F e) fRead then
    if complete then txt "[[:r " ++ FormatInt (ev_Key e) ++ [" "%char] ++ ednList (ev_RList e) ++ txt "]]"
    else txt "[[:r " ++ FormatInt (ev_Key e) ++ txt " nil]]"
  else txt "[]".

Example mops_examples :
  (fun l => str (mops {| ev_Process := 0; ev_F := fAppend; ev_Key := 5; ev_WVal := 7; ev_RVal := 0; ev_RList := l;
                         ev_Invoke := 1; ev_Complete := 2; ev_OK := true |} true)) <$> [[]; [7]; [3; 7]]
  = ["[[:append 5 7]]"; "[[:append 5 7] [:r 5 [7]]]"; "[[:append 5 7] [:r 5 [3 7]]]"]%string.
Proof. vm_compute. reflexivity. Qed.

Definition edn_line (ty : string) (e : Event) (complete : bool) : text :=
  txt "{:type " ++ txt ty ++ txt ", :process " ++ FormatInt (ev_Process e) ++ txt ", :value " ++
  mops e complete ++ ["}"%char; newline].

(** [WriteElleEDN]'s file. *)
Definition WriteElleEDN (h : History) : text :=
  mjoin ((fun e => edn_line ":invoke" e false ++ edn_line (if ev_OK e then ":ok" else ":fail") e true) <$> All h).

Definition report_add (v : Verdict) (a : list Anomaly) (r : VerifyReport) : VerifyReport :=
  {| vr_Model := vr_Model r; vr_Verdict := v; vr_Anomalies := vr_Anomalies r ++ a; vr_Checked := vr_Checked r;
     vr_Lost := vr_Lost r; vr_Duplicated := vr_Duplicated r; vr_OrderingViol := vr_OrderingViol r;
     vr_ConvergedIn := vr_ConvergedIn r; vr_MaxStaleness := vr_MaxStaleness r; vr_Extra := vr_Extra r |}.

Definition parseElleOutput (out : string) (runErr : option error) (report : VerifyReport) : VerifyReport :=
  if Contains out ":valid? true" then report_add VerdictPass [] report
  else if Contains out ":valid? false" || Contains out ":anomal" then
    report_add VerdictFail [{| an_Kind := "isolation"; an_Detail := TrimSpace out; an_Witness := [] |}] report
  else
    let detail := match runErr with
                  | Some e => String.append "elle-cli: " (String.append e (String.append ": " (TrimSpace out)))
                  | None => TrimSpace out
                  end in
    report_add VerdictUnknown
      [{| an_Kind := "tooling"; an_Detail := String.append "could not parse elle-cli verdict: " detail;
          an_Witness := [] |}] report.

(** [RunElle]: [None] when elle-cli is not on the path, else its output and error. *)
Definition RunElle (cli : option (string * option error)) : VerifyReport :=
  let report := report_zero VerifyListAppend in
  match cli with
  | None => report_add VerdictUnknown
              [{| an_Kind := "tooling"; an_Detail := "elle-cli not installed"; an_Witness := [] |}] report
  | Some (out, runErr) => parseElleOutput out runErr report
  end.

(** ** The history round trip *)

Definition family (f : string) : Prop := f = fRead \/ f = fWrite \/ f = fAppend.

Definition ev_ok (e : Event) : Prop := family (ev_F e) /\ is_u64 (ev_WVal e) /\ is_u64 (ev_RVal e).

Lemma Observe_ok p op res inv cmp : ev_ok (Observe p op res inv cmp).
Proof.
  assert (Z0 : is_u64 0) by (unfold is_u64; lia). unfold Observe, ev_ok, family.
  destruct (isAppendOp _); [cbn; eauto 6 with golib|]. destruct (op_Value op); [|cbn; eauto 6 with golib].
  destruct (observedList _); [cbn; eauto 6|].
  destruct (coerceBytes _) as [b []]; cbn; eauto 6 with golib.
Qed.

Lemma commas_plain l : Forall plain_text l -> plain_text (commas l).
Proof.
  intros [|x l' Hx Hl]; [constructor|]. apply plain_text_app; [done|].
  induction Hl as [|y l' Hy _ IH]; [constructor|]. cbn. constructor; [done|]. by apply plain_text_app.
Qed.

Lemma event_json_plain e : ev_ok e -> plain_text (event_json e).
Proof.
  intros (Hf & [Hw _] & [Hr _]). unfold event_json.
  repeat apply plain_text_app; try (apply plain_const; reflexivity); try apply FormatInt_plain.
  - destruct Hf as [-> |[-> | ->]]; apply plain_const; reflexivity.
  - destruct (_ =? 0); [constructor|]. repeat apply plain_text_app; try (apply plain_const; reflexivity).
    by apply FormatUint_plain.
  - destruct (_ =? 0); [constructor|]. repeat apply plain_text_app; try (apply plain_const; reflexivity).
    by apply FormatUint_plain.
  - assert (Hc : plain_text (commas (FormatInt <$> ev_RList e))).
    { apply commas_plain. rewrite Forall_fmap. apply Forall_true. intros. apply FormatInt_plain. }
    destruct (ev_RList e) as [|x l]; [constructor|]. revert Hc. generalize (commas (FormatInt <$> x :: l)).
    intros t Ht. repeat apply plain_text_app; try (apply plain_const; reflexivity). done.
  - by destruct (ev_OK e); apply plain_const.
Qed.

Definition history_text (es : list Event) : text := mjoin ((fun e => event_json e ++ [newline]) <$> es).

Lemma history_text_cons e es : history_text (e :: es) = event_json e ++ newline :: history_text es.
Proof. unfold history_text. rewrite fmap_cons. cbn [mjoin list_join]. by rewrite <- app_assoc. Qed.

Lemma Append_all_text w es : HistoryWriter_Close (foldl Append w es) = HistoryWriter_Close w ++ history_text es.
Proof.
  revert w. induction es as [|e es IH]; intros w; cbn [foldl]; [by rewrite app_nil_r|].
  rewrite IH, history_text_cons. unfold HistoryWriter_Close, Append. cbn [hw_file hw_buf]. by rewrite <- !app_assoc.
Qed.

(** A line the scanner and the decoder can read back. *)
Definition readable (unmarshal : text -> option Event) (e : Event) : Prop :=
  ev_ok e /\ Z.of_nat (length (event_json e)) < max_token /\ unmarshal (event_json e) = Some e.

Lemma readHistory_loop_text unmarshal es line h :
  Forall (readable unmarshal) es ->
  readHistory_loop unmarshal (split_lines (history_text es) []) line h = Ok (foldl add_event h es).
Proof.
  intros H. revert line h. induction H as [|e es (Hok & Hlen & Hu) _ IH]; intros line h; [done|].
  rewrite history_text_cons. pose proof (event_json_plain e Hok) as Hp.
  rewrite split_lines_line by exact (plain_no_newline _ Hp). cbn [rev app readHistory_loop].
  destruct (max_token <=? Z.of_nat (length (event_json e))) eqn:E; zbool; [lia|].
  rewrite plain_drop_cr by exact Hp. destruct (event_json e) as [|c b] eqn:Em; [discriminate Em|].
  rewrite Hu. apply IH.
Qed.

(** The index of the events with key [f e = k]. *)
Definition indexes (f : Event -> Z) (m : gmap Z (list Event)) (es : list Event) : Prop :=
  forall k, m !! k = match List.filter (fun e => f e =? k) es with [] => None | l => Some l end.

Lemma push_indexes f m es e : indexes f m es -> indexes f (push m (f e) e) (es ++ [e]).
Proof.
  intros H k. unfold push. rewrite List.filter_app. cbn [List.filter]. destruct (f e =? k) eqn:E; zbool.
  - subst k. rewrite lookup_insert_eq, (H (f e)). by destruct (List.filter _ es).
  - by rewrite lookup_insert_ne, (H k), app_nil_r.
Qed.

Lemma add_events_spec es :
  h_events (foldl add_event History_empty es) = es /\
  indexes ev_Process (h_byProcess (foldl add_event History_empty es)) es /\
  indexes ev_Key (h_byKey (foldl add_event History_empty es)) es.
Proof.
  induction es as [|e es (I1 & I2 & I3)] using rev_ind.
  { split_and!; [done|by intros k|by intros k]. }
  rewrite foldl_app. cbn. split_and!; [by rewrite I1|by apply push_indexes|by apply push_indexes].
Qed.

Lemma indexes_default f m es k : indexes f m es -> default [] (m !! k) = List.filter (fun e => f e =? k) es.
Proof. intros ->. by destruct (List.filter _ es). Qed.

Lemma leb_sorted l : StronglySorted Z.leb (sort_by Z.leb l).
Proof. apply sort_by_sorted; intros; zbool; rewrite ?Z.leb_le in *; lia. Qed.

Lemma Keys_spec h es :
  indexes ev_Key (h_byKey h) es ->
  StronglySorted Z.lt (Keys h) /\ forall k, k ∈ Keys h <-> exists e, e ∈ es /\ ev_Key e = k.
Proof.
  intros Hi. unfold Keys. set (l := (map_to_list (h_byKey h)).*1).
  assert (Hd : NoDup (sort_by Z.leb l)) by (rewrite sort_by_perm; apply NoDup_fst_map_to_list).
  split.
  - pose proof (leb_sorted l) as Hs. revert Hd. induction Hs as [|x s _ IH Hx]; [constructor|].
    intros [Hn Hd]%NoDup_cons. constructor; [by apply IH|]. rewrite Forall_forall in *. intros y Hy.
    specialize (Hx y Hy). apply Is_true_true in Hx. zbool. assert (x <> y) by (by intros ->). lia.
  - intros k. rewrite sort_by_perm. unfold l. rewrite list_elem_of_fmap. split.
    + intros ([k' s] & -> & Hin). apply elem_of_map_to_list in Hin. cbn. rewrite (Hi k') in Hin.
      destruct (List.filter _ es) as [|e l'] eqn:E; [done|].
      assert (Hf : In e (e :: l')) by by left. rewrite <- E in Hf. apply filter_In in Hf as [Hf Hk]. zbool.
      exists e. split; [by apply list_elem_of_In|done].
    + intros (e & Hin & <-). assert (Hf : In e (List.filter (fun x => ev_Key x =? ev_Key e) es)).
      { apply filter_In. split; [by apply list_elem_of_In|apply Z.eqb_refl]. }
      specialize (Hi (ev_Key e)). destruct (List.filter _ es) as [|x l'] eqn:E; [done|].
      exists (ev_Key e, x :: l'). split; [done|]. by apply elem_of_map_to_list.
Qed.

(** An observation: the recorder's process, the operation, its result and interval. *)
Definition observation : Type := Z * Operation * OpResult * Z * Z.

Definition observed_event (o : observation) : Event :=
  let '(p, op, res, inv, cmp) := o in Observe p op res inv cmp.

(** C31: The history reads back as it was observed: for any interleaving of the
    recorders' observations, whose lines fit the scanner's buffer, closing and
    reading the file gives the events in recording order, indexed by key and by
    process as the sublists of that order, with the keys listed once, sorted. *)
Theorem history_roundtrip unmarshal (obs : list observation) :
  Forall (fun o => Z.of_nat (length (event_json (observed_event o))) < max_token /\
                   unmarshal (event_json (observed_event o)) = Some (observed_event o)) obs ->
  let es := observed_event <$> obs in
  exists h, readHistory unmarshal (HistoryWriter_Close (foldl Append (NewHistoryWriter []) es)) = Ok h /\
    All h = es /\
    (forall k, ByKey h k = List.filter (fun e => ev_Key e =? k) es) /\
    (forall p, ByProcess h p = List.filter (fun e => ev_Process e =? p) es) /\
    StronglySorted Z.lt (Keys h) /\ (forall k, k ∈ Keys h <-> exists e, e ∈ es /\ ev_Key e = k).
Proof.
  intros Hobs es. rewrite Append_all_text. cbn [HistoryWriter_Close NewHistoryWriter hw_file hw_buf app].
  eexists. split.
  - apply readHistory_loop_text. unfold es. rewrite Forall_fmap. eapply Forall_impl; [exact Hobs|].
    intros [[[[p op] res] inv] cmp] [H1 H2]. split; [apply Observe_ok|]. by split.
  - destruct (add_events_spec es) as (E1 & E2 & E3).
    destruct (Keys_spec _ _ E3) as [K1 K2].
    split_and!; [done|intros k; by apply indexes_default|intros p; by apply indexes_default|done|done].
Qed.

(** ** A decoder of the encoder's own output *)

Fixpoint span_to (stop : ascii) (t : text) : text * text :=
  match t with
  | c :: t' => if Ascii.eqb c stop then ([], t') else let '(a, b) := span_to stop t' in (c :: a, b)
  | [] => ([], [])
  end.

Definition int_field (name : string) (t : text) : option (Z * text) :=
  t ← strip (json_field name) t; n ← ParseInt (span_num t).1; Some (n, (span_num t).2).

(** A field left out when zero. *)
Definition opt_field (name : string) (t : text) : option (Z * text) :=
  match strip (","%char :: json_field name) t with
  | None => Some (0, t)
  | Some t => n ← ParseUint (span_num t).1; Some (n, (span_num t).2)
  end.

Fixpoint ints_field (fuel : nat) (t : text) : option (list Z * text) :=
  match fuel with
  | O => None
  | S fuel =>
      n ← ParseInt (span_num t).1;
      match (span_num t).2 with
      | c :: rest => if Ascii.eqb c ","%char then '(l, rest) ← ints_field fuel rest; Some (n :: l, rest)
                     else Some ([n], rest)
      | [] => None
      end
  end.

Definition list_field (name : string) (t : text) : option (list Z * text) :=
  match strip (","%char :: json_field name ++ ["["%char]) t with
  | None => Some ([], t)
  | Some t => ints_field (length t) t
  end.

Definition strict_event (t : text) : option Event :=
  t ← strip ["{"%char] t; '(p, t) ← int_field "p" t;
  t ← strip (","%char :: json_field "f" ++ [dquote]) t;
  let '(f, t) := span_to dquote t in
  t ← strip [","%char] t; '(k, t) ← int_field "k" t;
  '(wv, t) ← opt_field "wv" t; '(rv, t) ← opt_field "rv" t; '(rl, t) ← list_field "rl" t;
  t ← strip [","%char] t; '(inv, t) ← int_field "inv" t;
  t ← strip [","%char] t; '(cmp, t) ← int_field "cmp" t;
  t ← strip (","%char :: json_field "ok") t;
  ok ← (if decide (t = txt "true}") then Some true else if decide (t = txt "false}") then Some false else None);
  Some {| ev_Process := p; ev_F := str f; ev_Key := k; ev_WVal := wv; ev_RVal := rv; ev_RList := rl;
          ev_Invoke := inv; ev_Complete := cmp; ev_OK := ok |}.

Definition sample_res (v : any) (err : option error) : OpResult :=
  {| or_Type := ""; or_Rows := 0; or_Observed := v; or_Err := err |}.

Definition reg_op (t : OpType) (key : Z) (v : bytes) : Operation :=
  {| op_Type := t; op_Key := key; op_Value := v; op_Seq := 0 |}.

Definition sample_obs : list observation :=
  [(0, reg_op "write" 5 [Byte.x61], sample_res ANil None, 10, 20);
   (1, reg_op "append" 3 [Byte.x62], sample_res (AInt64s [4; -9]) None, 12, 22);
   (1, reg_op "read" 5 [], sample_res (ABytes (Some [Byte.x61])) None, 30, 35);
   (0, reg_op "read" 3 [], sample_res ANil (Some "timeout"%string), 31, 36)].

Lemma history_roundtrip_witness :
  exists h, readHistory strict_event
              (HistoryWriter_Close (foldl Append (NewHistoryWriter []) (observed_event <$> sample_obs))) = Ok h /\
    length (ByKey h 5) = 2%nat /\ length (All h) = 4%nat.
Proof.
  destruct (history_roundtrip strict_event sample_obs) as (h & E & A & K & _).
  - repeat constructor; vm_compute; reflexivity.
  - exists h. split; [exact E|]. rewrite (K 5), A. split; vm_compute; reflexivity.
Defined.

(** ** Linearizability of a register *)

(** A sequential run of the register model accepts the operations. *)
Fixpoint legal (st : Z) (ops : list porcOp) : bool :=
  match ops with
  | [] => true
  | o :: ops => let '(ok, st') := register_step st (po_Input o) (po_Output o) in ok && legal st' ops
  end.

(** No operation is placed after one that began after it returned. *)
Definition real_time (a b : porcOp) : Prop := ~ po_Return b < po_Call a.

Definition linearizes (l : list porcOp) : Prop := StronglySorted real_time l /\ legal register_init l = true.

Definition linearizable (ops : list porcOp) : Prop := exists l, l ≡ₚ ops /\ linearizes l.

(** What porcupine documents of its check. *)
Definition check_sound (check : list porcOp -> CheckResult) : Prop :=
  forall ops, match check ops with
              | PorcOk => linearizable ops
              | PorcIllegal => ~ linearizable ops
              | PorcUnknown => True
              end.

(** A check that tries every order, to have one. *)
Fixpoint rt_sorted (l : list porcOp) : bool :=
  match l with
  | [] => true
  | a :: l => forallb (fun b => negb (po_Return b <? po_Call a)) l && rt_sorted l
  end.

Definition brute_check (ops : list porcOp) : CheckResult :=
  if existsb (fun l => rt_sorted l && legal register_init l) (permutations ops) then PorcOk else PorcIllegal.

Lemma rt_sorted_spec l : rt_sorted l = true <-> StronglySorted real_time l.
Proof.
  induction l as [|a l IH]; cbn [rt_sorted]; [split; [constructor|done]|].
  rewrite andb_true_iff, IH, forallb_forall. split.
  - intros [H Hs]. constructor; [done|]. apply Forall_forall. intros b Hb. unfold real_time.
    apply list_elem_of_In in Hb. specialize (H b Hb). zbool. lia.
  - intros Hs. inversion Hs as [|? ? Hs' Hf]; subst. split; [|done]. intros b Hb.
    rewrite Forall_forall in Hf. apply list_elem_of_In in Hb. specialize (Hf b Hb). unfold real_time in Hf.
    apply negb_true_iff, Z.ltb_ge. lia.
Qed.

Lemma brute_check_sound : check_sound brute_check.
Proof.
  intros ops. unfold brute_check.
  assert (E : existsb (fun l => rt_sorted l && legal register_init l) (permutations ops) = true <-> linearizable ops).
  { rewrite existsb_exists. unfold linearizable, linearizes. split.
    - intros (l & Hin & H). apply andb_true_iff in H as [H1 H2]. exists l.
      apply list_elem_of_In, permutations_Permutation in Hin. split; [by symmetry|].
      split; [by apply rt_sorted_spec|done].
    - intros (l & Hp & H1 & H2). exists l. split; [by apply list_elem_of_In, permutations_Permutation|].
      apply andb_true_iff. split; [by apply rt_sorted_spec|done]. }
  destruct (existsb _ _); [by apply E|]. intros H. by apply E in H.
Qed.

(** ** The register verdict *)

Lemma existsb_false_in {A} (f : A -> bool) l x : existsb f l = false -> x ∈ l -> f x = false.
Proof.
  intros H Hx. destruct (f x) eqn:E; [|done]. apply list_elem_of_In in Hx.
  assert (existsb f l = true) by (apply existsb_exists; by exists x). congruence.
Qed.

Section register_verdict.
Context (check : list porcOp -> CheckResult).

Definition key_result (h : History) (k : Z) : CheckResult :=
  match registerOps (ByKey h k) with [] => PorcOk | ops => check ops end.

Definition is_illegal (r : CheckResult) : bool := match r with PorcIllegal => true | _ => false end.
Definition is_unknown (r : CheckResult) : bool := match r with PorcUnknown => true | _ => false end.

Definition illegal_keys (h : History) (keys : list Z) : list Z :=
  List.filter (fun k => is_illegal (key_result h k)) keys.

Lemma check_keys_spec h keys s :
  0 <= vr_OrderingViol (rs_report s) -> vr_OrderingViol (rs_report s) + Z.of_nat (length keys) < 2^63 ->
  let s' := foldl (check_key check h) s keys in
  rs_illegal s' = rs_illegal s || existsb (fun k => is_illegal (key_result h k)) keys /\
  rs_unknown s' = rs_unknown s || existsb (fun k => is_unknown (key_result h k)) keys /\
  vr_OrderingViol (rs_report s') = vr_OrderingViol (rs_report s) + Z.of_nat (length (illegal_keys h keys)) /\
  vr_Verdict (rs_report s') = vr_Verdict (rs_report s) /\ vr_Checked (rs_report s') = vr_Checked (rs_report s).
Proof.
  revert s. induction keys as [|k keys IH]; intros s H0 Hlt; cbn [foldl].
  { cbn. rewrite !orb_false_r. split_and!; try done. lia. }
  cbn [length] in Hlt.
  assert (E : let s1 := check_key check h s k in
    rs_illegal s1 = rs_illegal s || is_illegal (key_result h k) /\
    rs_unknown s1 = rs_unknown s || is_unknown (key_result h k) /\
    vr_OrderingViol (rs_report s1) = vr_OrderingViol (rs_report s) + (if is_illegal (key_result h k) then 1 else 0) /\
    vr_Verdict (rs_report s1) = vr_Verdict (rs_report s) /\ vr_Checked (rs_report s1) = vr_Checked (rs_report s)).
  { unfold check_key, key_result. destruct (registerOps (ByKey h k)) as [|o ops];
      [|destruct (check (o :: ops))]; cbn; rewrite ?orb_false_r, ?orb_true_r;
      split_and!; try done; try lia; apply i64_add_id; unfold is_i64; lia. }
  destruct E as (E1 & E2 & E3 & E4 & E5).
  destruct (IH (check_key check h s k)) as (I1 & I2 & I3 & I4 & I5);
    [destruct (is_illegal _); lia|destruct (is_illegal _); lia|].
  rewrite I1, I2, I3, I4, I5, E1, E2, E3, E4, E5. cbn [existsb illegal_keys List.filter].
  rewrite !orb_assoc. fold (illegal_keys h keys).
  split_and!; try done. destruct (is_illegal _); cbn [length]; lia.
Qed.

Lemma CheckRegister_spec h :
  Z.of_nat (length (Keys h)) < 2^63 ->
  vr_Verdict (CheckRegister check h)
    = (if existsb (fun k => is_illegal (key_result h k)) (Keys h) then VerdictFail
       else if existsb (fun k => is_unknown (key_result h k)) (Keys h) then VerdictUnknown else VerdictPass) /\
  vr_OrderingViol (CheckRegister check h) = Z.of_nat (length (illegal_keys h (Keys h))) /\
  vr_Checked (CheckRegister check h) = Z.of_nat (length (Keys h)).
Proof.
  intros Hlt. unfold CheckRegister.
  match goal with |- context [foldl (check_key check h) ?s0 _] =>
    destruct (check_keys_spec h (Keys h) s0) as (E1 & E2 & E3 & E4 & E5); [cbn; lia|cbn; lia|] end.
  cbn [rs_illegal rs_unknown rs_report vr_OrderingViol vr_Verdict vr_Checked orb] in *.
  rewrite E1, E2. destruct (existsb _ (Keys h)); [|destruct (existsb _ (Keys h))];
    cbn [set_verdict vr_Verdict vr_OrderingViol vr_Checked]; rewrite ?E3, ?E4, ?E5; split_and!; done.
Qed.

Lemma linearizable_nil : linearizable [].
Proof. exists []. split; [done|]. split; [constructor|done]. Qed.

Lemma key_result_sound h k :
  check_sound check ->
  match key_result h k with
  | PorcOk => linearizable (registerOps (ByKey h k))
  | PorcIllegal => ~ linearizable (registerOps (ByKey h k))
  | PorcUnknown => True
  end.
Proof.
  intros Hc. unfold key_result. destruct (registerOps (ByKey h k)) as [|o ops] eqn:E; [apply linearizable_nil|].
  apply (Hc (o :: ops)).
Qed.

Lemma ByKey_nil h k : k ∉ Keys h -> ByKey h k = [].
Proof.
  intros Hk. unfold ByKey. destruct (h_byKey h !! k) as [l|] eqn:E; [|done]. exfalso. apply Hk.
  unfold Keys. rewrite sort_by_perm, list_elem_of_fmap. exists (k, l). split; [done|]. by apply elem_of_map_to_list.
Qed.
End register_verdict.

(** C23: The register verdict is sound against porcupine's own guarantee: a pass
    means every key's recorded reads and writes are linearizable, a failure that
    some key's are not, with one ordering violation counted per such key, and
    unknown that no key was refuted but some check gave up. *)
Theorem CheckRegister_sound check h :
  check_sound check -> Z.of_nat (length (Keys h)) < 2^63 ->
  let rep := CheckRegister check h in
  (vr_Verdict rep = VerdictPass -> forall k, linearizable (registerOps (ByKey h k))) /\
  (vr_Verdict rep = VerdictFail ->
     0 < vr_OrderingViol rep /\ exists k, k ∈ Keys h /\ ~ linearizable (registerOps (ByKey h k))) /\
  (vr_Verdict rep = VerdictUnknown -> vr_OrderingViol rep = 0 /\ exists k, k ∈ Keys h /\ key_result check h k = PorcUnknown) /\
  (vr_Verdict rep = VerdictPass \/ vr_Verdict rep = VerdictFail \/ vr_Verdict rep = VerdictUnknown).
Proof.
  intros Hc Hlt rep. destruct (CheckRegister_spec check h Hlt) as (Ev & Eo & _). fold rep in Ev, Eo.
  rewrite Ev, Eo. clear Ev Eo.
  destruct (existsb (fun k => is_illegal _) (Keys h)) eqn:E1; [|destruct (existsb (fun k => is_unknown _) (Keys h)) eqn:E2].
  - apply existsb_exists in E1 as (k & Hk & Hi). split_and!; try done; [|by right; left].
    intros _. split.
    + assert (Hin : In k (illegal_keys check h (Keys h))) by by apply filter_In.
      destruct (illegal_keys check h (Keys h)); [done|cbn; lia].
    + exists k. split; [by apply list_elem_of_In|]. pose proof (key_result_sound check h k Hc) as H.
      by destruct (key_result check h k).
  - apply existsb_exists in E2 as (k & Hk & Hi). split_and!; try done; [|by right; right].
    intros _. split.
    + assert (illegal_keys check h (Keys h) = []) as ->; [|done].
      destruct (illegal_keys check h (Keys h)) as [|x l] eqn:E; [done|].
      assert (Hx : In x (illegal_keys check h (Keys h))) by (rewrite E; by left).
      apply filter_In in Hx. assert (existsb (fun k => is_illegal (key_result check h k)) (Keys h) = true) as H
        by (apply existsb_exists; by exists x). congruence.
    + exists k. split; [by apply list_elem_of_In|]. by destruct (key_result check h k).
  - split_and!; try done; [|by left]. intros _ k. pose proof (key_result_sound check h k Hc) as H.
    destruct (decide (k ∈ Keys h)) as [Hk|Hk].
    + pose proof (existsb_false_in _ _ k E1 Hk) as H1. pose proof (existsb_false_in _ _ k E2 Hk) as H2.
      cbn beta in H1, H2.
      by destruct (key_result check h k).
    + rewrite (ByKey_nil h k Hk). apply linearizable_nil.
Qed.

(** The history of the observations of one file. *)
Definition history_of (obs : list observation) : History :=
  foldl add_event History_empty (observed_event <$> obs).

Lemma history_of_ByKey obs k :
  ByKey (history_of obs) k = List.filter (fun e => ev_Key e =? k) (observed_event <$> obs).
Proof. destruct (add_events_spec (observed_event <$> obs)) as (_ & _ & H). by apply indexes_default. Qed.

Lemma history_of_Keys obs k : k ∈ Keys (history_of obs) <-> exists o, o ∈ obs /\ op_Key o.1.1.1.2 = k.
Proof.
  destruct (add_events_spec (observed_event <$> obs)) as (_ & _ & H).
  destruct (Keys_spec _ _ H) as [_ ->].
  assert (E : forall o, ev_Key (observed_event o) = op_Key o.1.1.1.2).
  { intros [[[[p op] res] inv] cmp]. cbn. unfold Observe. repeat case_match; done. }
  setoid_rewrite list_elem_of_fmap. split.
  - intros (e & (o & -> & Ho) & <-). exists o. by rewrite E.
  - intros (o & Ho & <-). exists (observed_event o). split; [by exists o|]. apply E.
Qed.

Lemma CheckRegister_sound_witness :
  linearizable (registerOps (ByKey (history_of [
    (0, reg_op "write" 5 [Byte.x61], sample_res ANil None, 10, 20);
    (1, reg_op "read" 5 [], sample_res (ABytes (Some [Byte.x61])) None, 15, 18)]) 5)).
Proof.
  apply (CheckRegister_sound brute_check (history_of [
    (0, reg_op "write" 5 [Byte.x61], sample_res ANil None, 10, 20);
    (1, reg_op "read" 5 [], sample_res (ABytes (Some [Byte.x61])) None, 15, 18)]) brute_check_sound);
    vm_compute; reflexivity.
Defined.

(** ** An atomic register *)

Definition obs_op (o : observation) : Operation := o.1.1.1.2.
Definition obs_res (o : observation) : OpResult := o.1.1.2.
Definition obs_invoke (o : observation) : Z := o.1.2.
Definition obs_complete (o : observation) : Z := o.2.

(** An observation of a read: neither an append nor an operation with a payload. *)
Definition is_read (o : observation) : bool :=
  negb (isAppendOp (op_Type (obs_op o))) && match op_Value (obs_op o) with [] => true | _ => false end.

(** The observations are explained by one register holding value bytes, [None]
    before the first write, that each operation acts on in turn: a write sets it,
    a read that succeeded observed what it holds, and a read that failed says
    nothing about it. *)
Fixpoint atomic_run (st : option bytes) (l : list observation) : Prop :=
  match l with
  | [] => True
  | o :: l =>
      isAppendOp (op_Type (obs_op o)) = false /\
      match op_Value (obs_op o) with
      | [] =>
          (or_Err (obs_res o) = None ->
           observedList (or_Observed (obs_res o)) = None /\
           match st with
           | Some b => coerceBytes (or_Observed (obs_res o)) = (b, true)
           | None => (coerceBytes (or_Observed (obs_res o))).2 = false
           end) /\
          atomic_run st l
      | v => atomic_run (Some v) l
      end
  end.

(** Each operation takes effect at a time within its interval. *)
Definition atomic (obs : list observation) : Prop :=
  exists l : list (observation * Z),
    l.*1 ≡ₚ obs /\ StronglySorted (fun a b => a.2 <= b.2) l /\
    Forall (fun a => obs_invoke a.1 <= a.2 <= obs_complete a.1) l /\ atomic_run None l.*1.

Definition token (st : option bytes) : Z := match st with Some b => Checksum b | None => 0 end.

Definition obs_porc (o : observation) : option porcOp := registerOp (observed_event o).

Definition reads_succeed (l : list observation) : Prop :=
  Forall (fun o => is_read o = true -> or_Err (obs_res o) = None) l.

Lemma atomic_run_legal st l :
  reads_succeed l -> atomic_run st l -> legal (token st) (omap obs_porc l) = true.
Proof.
  revert st. induction l as [|[[[[p op] res] inv] cmp] l IH]; intros st Hok H; [done|].
  apply Forall_cons in Hok as [Hok1 Hok]. specialize (fun st => IH st Hok).
  cbn [atomic_run obs_op fst snd] in H. destruct H as [Ha H].
  unfold is_read, obs_op, obs_res in *. cbn [fst snd] in *. rewrite Ha in Hok1.
  cbn [omap list_omap]. unfold obs_porc at 1. cbn [observed_event]. unfold Observe. rewrite Ha.
  destruct (op_Value op) as [|b v] eqn:Ev.
  - destruct H as (Hr & H). destruct (Hr (Hok1 eq_refl)) as (Hl & Hst). rewrite Hl. destruct (coerceBytes (or_Observed res)) as [b pr] eqn:Ec.
    cbn. apply andb_true_iff. split; [|by apply IH].
    destruct st as [b'|]; cbn in Hst |- *; [injection Hst as -> ->; by rewrite Z.eqb_refl|by rewrite Hst].
  - cbn. specialize (IH _ H). cbn [token] in IH. exact IH.
Qed.

Lemma obs_porc_times o q : obs_porc o = Some q -> po_Call q = obs_invoke o /\ po_Return q = obs_complete o.
Proof.
  destruct o as [[[[p op] res] inv] cmp]. unfold obs_porc, observed_event, Observe, registerOp.
  repeat case_match; intros; simplify_eq; done.
Qed.

Lemma atomic_linearizable obs : reads_succeed obs -> atomic obs -> linearizable (omap obs_porc obs).
Proof.
  intros Hok (l & Hp & Hs & Ht & Hr). exists (omap obs_porc l.*1). split; [by rewrite Hp|].
  unfold reads_succeed in Hok. rewrite <- Hp in Hok.
  split; [|by apply (atomic_run_legal None)]. clear Hp Hr Hok obs.
  induction Hs as [|[o t] l _ IH Hx]; [constructor|]. apply Forall_cons in Ht as [Hto Ht].
  rewrite fmap_cons. cbn [omap list_omap fst]. specialize (IH Ht).
  destruct (obs_porc o) as [q|] eqn:Eq; [|exact IH]. constructor; [exact IH|].
  apply Forall_forall. intros q' Hq'. apply list_elem_of_omap in Hq' as (o' & Ho' & Eq').
  apply list_elem_of_fmap in Ho' as ([o2 t'] & -> & Ho'). cbn in Eq'.
  rewrite Forall_forall in Hx, Ht. specialize (Hx _ Ho'). specialize (Ht _ Ho'). cbn in *.
  destruct (obs_porc_times _ _ Eq) as [E1 E2]. destruct (obs_porc_times _ _ Eq') as [E3 E4].
  unfold real_time. rewrite E1, E4. lia.
Qed.

Lemma registerOps_ByKey obs k :
  registerOps (ByKey (history_of obs) k) = omap obs_porc (List.filter (fun o => op_Key (obs_op o) =? k) obs).
Proof.
  rewrite history_of_ByKey. unfold registerOps. induction obs as [|o obs IH]; [done|].
  rewrite fmap_cons. cbn [List.filter].
  assert (ev_Key (observed_event o) = op_Key (obs_op o)) as ->.
  { destruct o as [[[[p op] res] inv] cmp]. cbn. unfold Observe. by repeat case_match. }
  destruct (_ =? k); cbn [omap list_omap]; rewrite IH; done.
Qed.

Lemma unknown_not_fail : VerdictUnknown <> VerdictFail.
Proof. discriminate. Qed.
Lemma pass_not_fail : VerdictPass <> VerdictFail.
Proof. discriminate. Qed.

Lemma length_Keys_events es : (length (Keys (foldl add_event History_empty es)) <= length es)%nat.
Proof.
  unfold Keys. rewrite length_sort_by, length_fmap, length_map_to_list.
  induction es as [|e es IH] using rev_ind; [done|]. rewrite foldl_app, length_app. cbn.
  unfold push. destruct (h_byKey (foldl add_event History_empty es) !! ev_Key e) eqn:E.
  - rewrite map_size_insert_Some by done. lia.
  - rewrite map_size_insert_None by done. lia.
Qed.

(** C32: No false alarm on a register that behaves, as long as no read fails: when
    every read succeeded and every key's observations are explained by one register
    on which each operation acts once, at a moment within its interval, the register
    verdict is not a failure. A write acts whether or not it reported an error. A
    read that failed is a false alarm waiting, see [failed_read_false_alarm]. *)
Theorem atomic_register_never_fails check obs :
  check_sound check -> Z.of_nat (length obs) < 2^63 -> reads_succeed obs ->
  (forall k, atomic (List.filter (fun o => op_Key (obs_op o) =? k) obs)) ->
  vr_Verdict (CheckRegister check (history_of obs)) <> VerdictFail.
Proof.
  intros Hc Hlen Hok Ha.
  destruct (CheckRegister_spec check (history_of obs)) as (-> & _); [pose proof (length_Keys_events (observed_event <$> obs)) as Hkl; rewrite length_fmap in Hkl;
    unfold history_of; lia|].
  destruct (existsb _ _) eqn:E; [|case_match; [exact unknown_not_fail|exact pass_not_fail]].
  apply existsb_exists in E as (k & _ & Hi).
  pose proof (key_result_sound check (history_of obs) k Hc) as H. rewrite registerOps_ByKey in H.
  destruct (key_result _ _ k); try done. exfalso. apply H, atomic_linearizable, Ha.
  apply Forall_forall. intros o Ho. apply list_elem_of_In, filter_In in Ho as [Ho _].
  unfold reads_succeed in Hok. rewrite Forall_forall in Hok. apply Hok. by apply list_elem_of_In.
Qed.

Lemma atomic_register_never_fails_witness :
  vr_Verdict (CheckRegister brute_check (history_of [
    (0, reg_op "write" 5 [Byte.x61], sample_res ANil None, 10, 20);
    (1, reg_op "read" 5 [], sample_res ANil None, 15, 25)])) <> VerdictFail.
Proof.
  apply (atomic_register_never_fails brute_check); [apply brute_check_sound|vm_compute; reflexivity| |].
  { repeat constructor. }
  intros k. destruct (decide (k = 5)) as [->|Hk].
  - exists [((1, reg_op "read" 5 [], sample_res ANil None, 15, 25), 16);
            ((0, reg_op "write" 5 [Byte.x61], sample_res ANil None, 10, 20), 17)].
    split_and!; [cbn; apply perm_swap| | |].
    + constructor; [constructor; constructor|]. constructor; [cbn; lia|constructor].
    + constructor; [cbn; lia|]. constructor; [cbn; lia|constructor].
    + cbn. by split_and!.
  - cbn [List.filter obs_op fst snd op_Key reg_op]. rewrite (proj2 (Z.eqb_neq 5 k)) by lia. exists [].
    split_and!; [done|constructor|constructor|done].
Defined.

(** ** Histories of writes only *)

Lemma legal_writes st l : Forall (fun o => ri_write (po_Input o) = true) l -> legal st l = true.
Proof.
  revert st. induction l as [|o l IH]; intros st Hl; [done|]. apply Forall_cons in Hl as [Ho Hl].
  cbn [legal]. unfold register_step. rewrite Ho. by apply IH.
Qed.

(** In the order of their calls, writes are always explained. *)
Lemma writes_linearizable ops :
  Forall (fun o => ri_write (po_Input o) = true /\ po_Call o <= po_Return o) ops -> linearizable ops.
Proof.
  intros Hw. pose (le := fun a b : porcOp => po_Call a <=? po_Call b).
  exists (sort_by le ops). split; [apply sort_by_perm|]. split.
  - assert (Hs : StronglySorted le (sort_by le ops)).
    { apply sort_by_sorted; unfold le; intros; rewrite ?Z.leb_le in *; lia. }
    assert (Hr : Forall (fun o => po_Call o <= po_Return o) (sort_by le ops)).
    { rewrite sort_by_perm. eapply Forall_impl; [exact Hw|]. by intros o [_ ?]. }
    revert Hr. induction Hs as [|o l _ IH Ho]; intros Hr; [constructor|]. apply Forall_cons in Hr as [_ Hr].
    constructor; [by apply IH|]. rewrite Forall_forall in Ho, Hr |- *. intros x Hx.
    specialize (Ho x Hx). specialize (Hr x Hx). apply Is_true_true in Ho. unfold le in Ho. zbool.
    unfold real_time. lia.
  - apply legal_writes. rewrite sort_by_perm. eapply Forall_impl; [exact Hw|]. by intros o [? _].
Qed.

Lemma write_history_never_fails check es :
  check_sound check -> Z.of_nat (length es) < 2^63 ->
  Forall (fun e => ev_F e = fWrite /\ ev_Invoke e <= ev_Complete e) es ->
  vr_Verdict (CheckRegister check (foldl add_event History_empty es)) <> VerdictFail.
Proof.
  intros Hc Hlen Hw.
  destruct (CheckRegister_spec check (foldl add_event History_empty es)) as (-> & _);
    [pose proof (length_Keys_events es); lia|].
  destruct (existsb _ _) eqn:E; [|case_match; [exact unknown_not_fail|exact pass_not_fail]].
  apply existsb_exists in E as (k & _ & Hi).
  pose proof (key_result_sound check (foldl add_event History_empty es) k Hc) as H.
  destruct (key_result _ _ k); try done. exfalso. apply H, writes_linearizable.
  destruct (add_events_spec es) as (_ & _ & Hix). unfold ByKey. rewrite (indexes_default _ _ _ _ Hix).
  apply Forall_forall. intros o Ho. unfold registerOps in Ho. apply list_elem_of_omap in Ho as (e & He & Eo).
  apply list_elem_of_In, filter_In in He as [He _]. rewrite Forall_forall in Hw.
  destruct (Hw e ltac:(by apply list_elem_of_In)) as [Ef Et].
  unfold registerOp in Eo. rewrite Ef in Eo. cbn in Eo. injection Eo as <-. done.
Qed.

Lemma legal_nonzero st l r :
  legal st l = true -> st <> 0 -> Forall (fun o => ri_write (po_Input o) = true -> ri_value (po_Input o) <> 0) l ->
  r ∈ l -> ri_write (po_Input r) = false -> po_Output r = 0 -> False.
Proof.
  revert st. induction l as [|o l IH]; intros st Hl Hst Hw Hin Hr Ho; [by apply elem_of_nil in Hin|].
  apply Forall_cons in Hw as [Hwo Hw]. cbn [legal] in Hl. unfold register_step in Hl.
  apply elem_of_cons in Hin as [->|Hin].
  - rewrite Hr, Ho in Hl. apply andb_true_iff in Hl as [Hl _]. zbool. done.
  - destruct (ri_write (po_Input o)) eqn:Ew.
    + apply (IH (ri_value (po_Input o))); try done. by apply Hwo.
    + apply andb_true_iff in Hl as [_ Hl]. by apply (IH st).
Qed.

Lemma empty_read_not_linearizable ops w r :
  w ∈ ops -> r ∈ ops -> ri_write (po_Input w) = true -> ri_write (po_Input r) = false -> po_Output r = 0 ->
  po_Return w < po_Call r ->
  Forall (fun o => ri_write (po_Input o) = true -> ri_value (po_Input o) <> 0) ops -> ~ linearizable ops.
Proof.
  intros Hw Hr Ww Wr Or Ht Hnz (l & Hp & Hs & Hl). rewrite <- Hp in Hw, Hr, Hnz.
  generalize dependent register_init. clear Hp. induction l as [|o l IH]; intros st Hl; [by apply elem_of_nil in Hw|].
  inversion Hs as [|? ? Hs' Hf]; subst. apply Forall_cons in Hnz as [Hno Hnz].
  cbn [legal] in Hl. unfold register_step in Hl.
  apply elem_of_cons in Hw as [->|Hw].
  - rewrite Ww in Hl. apply elem_of_cons in Hr as [->|Hr]; [congruence|].
    cbn [andb] in Hl. apply (legal_nonzero _ l r Hl); try done. by apply Hno.
  - apply elem_of_cons in Hr as [->|Hr].
    + rewrite Forall_forall in Hf. by apply (Hf w Hw).
    + destruct (ri_write (po_Input o)).
      * by apply (IH Hw Hr Hnz Hs' (ri_value (po_Input o))).
      * apply andb_true_iff in Hl as [_ Hl]. by apply (IH Hw Hr Hnz Hs' st).
Qed.

(** A failed read counts as having observed an empty register: when a read of
    a key returned an error and nothing, and began after a write of that key
    completed, a decided register check reports a failure, although the read
    observed nothing at all ([Event.OK] is not consulted). *)
Theorem failed_read_false_alarm check obs rd wr e :
  check_sound check -> Z.of_nat (length obs) < 2^63 ->
  rd ∈ obs -> wr ∈ obs -> op_Key (obs_op rd) = op_Key (obs_op wr) ->
  or_Err (obs_res rd) = Some e -> or_Observed (obs_res rd) = ANil -> op_Value (obs_op rd) = [] ->
  op_Value (obs_op wr) <> [] -> obs_complete wr < obs_invoke rd ->
  (forall o, o ∈ obs -> isAppendOp (op_Type (obs_op o)) = false /\ Checksum (op_Value (obs_op o)) <> 0) ->
  key_result check (history_of obs) (op_Key (obs_op rd)) <> PorcUnknown ->
  vr_Verdict (CheckRegister check (history_of obs)) = VerdictFail.
Proof.
  intros Hc Hlen Hrd Hwr Hk He Ho Hv Hv' Ht Hall Hu.
  destruct (CheckRegister_spec check (history_of obs)) as (-> & _); [pose proof (length_Keys_events (observed_event <$> obs)) as Hkl; rewrite length_fmap in Hkl;
    unfold history_of; lia|].
  set (k := op_Key (obs_op rd)) in *.
  assert (Hkeys : k ∈ Keys (history_of obs)) by (apply history_of_Keys; by exists rd).
  assert (Hi : is_illegal (key_result check (history_of obs) k) = true).
  { pose proof (key_result_sound check (history_of obs) k Hc) as H. rewrite registerOps_ByKey in H.
    destruct (key_result check (history_of obs) k); [exfalso|done|done]. revert H.
    assert (Hf : forall o, o ∈ List.filter (fun o => op_Key (obs_op o) =? k) obs <-> o ∈ obs /\ op_Key (obs_op o) = k).
    { intros o. rewrite !list_elem_of_In, filter_In, Z.eqb_eq. done. }
    assert (Hr' : exists r, obs_porc rd = Some r /\ ri_write (po_Input r) = false /\ po_Output r = 0).
    { destruct (Hall rd Hrd) as [Ha _]. destruct rd as [[[[p op] res] inv] cmp]. cbn in *.
      unfold obs_porc, observed_event, Observe. unfold obs_op, obs_res in *. cbn in *.
      rewrite Ha, Hv, Ho. cbn. eexists. by split_and!. }
    assert (Hw' : exists w, obs_porc wr = Some w /\ ri_write (po_Input w) = true).
    { destruct (Hall wr Hwr) as [Ha _]. destruct wr as [[[[p op] res] inv] cmp]. cbn in *.
      unfold obs_porc, observed_event, Observe. unfold obs_op, obs_res in *. cbn in *.
      rewrite Ha. destruct (op_Value op); [done|]. cbn. eexists. by split. }
    destruct Hr' as (r & Er & Rw & Ro), Hw' as (w & Ew & Ww).
    destruct (obs_porc_times _ _ Er) as [T1 _], (obs_porc_times _ _ Ew) as [_ T2].
    apply (empty_read_not_linearizable _ w r); [| |done|done|done|lia|].
    - apply list_elem_of_omap. exists wr. split; [apply Hf; split; [done|congruence]|done].
    - apply list_elem_of_omap. exists rd. split; [by apply Hf|done].
    - apply Forall_forall. intros q Hq. apply list_elem_of_omap in Hq as (o & Hin & Eq).
      apply Hf in Hin as [Hin _]. destruct (Hall o Hin) as [Ha Hnz].
      destruct o as [[[[p op] res] inv] cmp]. unfold obs_porc, observed_event, Observe in Eq.
      unfold obs_op in *. cbn in *. rewrite Ha in Eq. destruct (op_Value op).
      + destruct (observedList _); [|destruct (coerceBytes _)]; cbn in Eq; by simplify_eq.
      + cbn in Eq. by simplify_eq. }
  assert (existsb (fun k => is_illegal (key_result check (history_of obs) k)) (Keys (history_of obs)) = true) as ->; [|done].
  apply existsb_exists. exists k. split; [by apply list_elem_of_In|done].
Qed.

Lemma failed_read_false_alarm_witness :
  vr_Verdict (CheckRegister brute_check (history_of [
    (0, reg_op "write" 5 [Byte.x61], sample_res ANil None, 10, 20);
    (1, reg_op "read" 5 [], sample_res ANil (Some "timeout"%string), 30, 40)])) = VerdictFail.
Proof.
  apply (failed_read_false_alarm brute_check _
    (1, reg_op "read" 5 [], sample_res ANil (Some "timeout"%string), 30, 40)
    (0, reg_op "write" 5 [Byte.x61], sample_res ANil None, 10, 20) "timeout"%string).
  - exact brute_check_sound.
  - vm_compute. reflexivity.
  - right. left.
  - left.
  - reflexivity.
  - reflexivity.
  - reflexivity.
  - reflexivity.
  - discriminate.
  - reflexivity.
  - intros o Ho. rewrite !elem_of_cons, elem_of_nil in Ho. destruct Ho as [-> |[-> |[]]];
      (split; [reflexivity|vm_compute; discriminate]).
  - vm_compute. discriminate.
Defined.

(** ** Elle *)

Lemma FormatUint_inj a b : is_u64 a -> is_u64 b -> FormatUint a = FormatUint b -> a = b.
Proof.
  intros Ha Hb E. apply (f_equal ParseUint) in E. rewrite !ParseUint_FormatUint in E by done. congruence.
Qed.

(** The token of an append and the token read back for it agree in the Elle
    history exactly when the checksum is below 2^63: the append prints it
    unsigned, the read as a signed integer, so that half of the tokens are never
    seen again. *)
Theorem elle_tokens_agree v e_app e_read :
  ev_F e_app = fAppend -> ev_WVal e_app = Checksum v -> ev_RList e_app = [] -> ev_F e_read = fRead ->
  observedList (AByteSlices [v]) = Some (ev_RList e_read) ->
  exists ta tr,
    mops e_app true = txt "[[:append " ++ FormatInt (ev_Key e_app) ++ txt " " ++ ta ++ txt "]]" /\
    mops e_read true = txt "[[:r " ++ FormatInt (ev_Key e_read) ++ txt " [" ++ tr ++ txt "]]]" /\
    (ta = tr <-> Checksum v < 2^63).
Proof.
  intros Fa Wa La Fr Lr. cbn in Lr. injection Lr as Lr.
  exists (FormatUint (Checksum v)), (FormatInt (i64_of_u64 (Checksum v))).
  pose proof (Checksum_range v) as Hr. unfold mops. rewrite Fa, Fr, Wa, La, <- Lr. cbn [String.eqb Ascii.eqb Bool.eqb fAppend fRead].
  split_and!.
  - rewrite <- !app_assoc. done.
  - cbn [ednList mjoin list_join fmap list_fmap]. rewrite <- !app_assoc. done.
  - unfold is_u64 in Hr. assert (Hi : i64_of_u64 (Checksum v) = if Checksum v <? 2^63 then Checksum v else Checksum v - 2^64).
    { unfold i64_of_u64, wrap64. destruct (Checksum v <? 2^63) eqn:E; zbool.
      - rewrite Z.mod_small by lia. lia.
      - replace (Checksum v + 2^63) with (Checksum v - 2^63 + 1 * 2^64) by lia.
        rewrite Z.mod_add, Z.mod_small by lia. lia. }
    rewrite Hi. destruct (Checksum v <? 2^63) eqn:E; zbool.
    + split; [done|]. intros _. unfold FormatInt. destruct (Checksum v <? 0) eqn:E2; zbool; [lia|done].
    + split; [|lia]. intros Heq. exfalso. unfold FormatInt in Heq. destruct (_ <? 0) eqn:E2; zbool; [|lia].
      destruct (FormatUint_head (Checksum v) _ _ ltac:(lia) Heq) as [H _]. done.
Qed.

Lemma elle_tokens_agree_witness :
  exists ta tr,
    mops (Observe 0 (reg_op "append" 5 [Byte.x61]) (sample_res ANil None) 1 2) true
      = txt "[[:append " ++ FormatInt 5 ++ txt " " ++ ta ++ txt "]]" /\
    mops (Observe 0 (reg_op "read" 5 []) (sample_res (AByteSlices [[Byte.x61]]) None) 3 4) true
      = txt "[[:r " ++ FormatInt 5 ++ txt " [" ++ tr ++ txt "]]]" /\
    (ta = tr <-> Checksum [Byte.x61] < 2^63).
Proof.
  apply (elle_tokens_agree [Byte.x61] (Observe 0 (reg_op "append" 5 [Byte.x61]) (sample_res ANil None) 1 2)
    (Observe 0 (reg_op "read" 5 []) (sample_res (AByteSlices [[Byte.x61]]) None) 3 4)); vm_compute; reflexivity.
Defined.
