(* ===== verification/Config.v ===== *)
(** * Config: layering the configuration (core/config)

    The two files a target publishes are mapped and validated (target.go,
    workload.go), and the run's scalar settings are merged over the layers
    global file, target defaults, options, environment and overrides
    (resolve.go).  koanf is third-party code: the class [Koanf] lists the calls
    made on it and [KoanfLaws] what it documents of them. *)

From Stdlib Require Import Ascii String.
From S2P Require Import Prelude Domain Strconv Workload Driver.

Local Open Scope Z_scope.
Local Open Scope go_scope.

(** ** koanf *)

(** The values the layers hold under a flat key. *)
Inductive conf :=
| CfInt (n : Z)
| CfDuration (d : Z)
| CfString (s : string)
| CfStrings (l : list string)
| CfOther.

Abbreviation layer := (gmap string conf).

(** A key without the delimiter names a value at the top level. *)
Definition flat_key (k : string) : Prop := "."%char ∉ txt k.
Definition flat (l : layer) : Prop := forall k v, l !! k = Some v -> flat_key k.

Class Koanf (K : Type) := {
  k_New : K;
  k_Load : layer -> K -> K;
  k_Set : string -> conf -> K -> K;
  k_Get : string -> K -> option conf;
  to_Int : option conf -> Z;
  to_Duration : option conf -> Z;
  to_String : option conf -> string;
  to_Strings : option conf -> list string
}.

Class KoanfLaws (K : Type) {KK : Koanf K} := {
  get_New k : k_Get k k_New = None;
  get_Load l c k : flat l -> flat_key k ->
    k_Get k (k_Load l c) = match l !! k with Some v => Some v | None => k_Get k c end;
  get_Set k v c k' : flat_key k -> flat_key k' ->
    k_Get k' (k_Set k v c) = if String.eqb k k' then Some v else k_Get k' c;
  Int_int n : to_Int (Some (CfInt n)) = n;
  Int_none : to_Int None = 0;
  Duration_duration d : to_Duration (Some (CfDuration d)) = d;
  String_string s : to_String (Some (CfString s)) = s;
  String_none : to_String None = ""%string;
  Strings_strings l : to_Strings (Some (CfStrings l)) = l;
  Strings_none : to_Strings None = []
}.

(** ** target.go *)

Record Defaults := { df_Connections : Z; df_Warmup : Z; df_Duration : Z }.

Record ClusterConfig := {
  cc_Backend : string;
  cc_Nodes : Z;
  cc_ReplicationFactor : Z;
  cc_Consistency : list string
}.

Record Capabilities := { cap_VerifyModels : list string; cap_Faults : list string }.

Record TargetConfig := {
  tg_Target : string;
  tg_Image : string;
  tg_Version : string;
  tg_Defaults : Defaults;
  tg_Cluster : ClusterConfig;
  tg_Capabilities : Capabilities
}.

(** The parsed target.yaml, durations still text. *)
Record targetFile := {
  tf_Target : string;
  tf_Image : string;
  tf_Version : string;
  tf_Connections : Z;
  tf_Warmup : string;
  tf_Duration : string;
  tf_Cluster : ClusterConfig;
  tf_Capabilities : Capabilities
}.

(** A text in quotes, as [%q] prints it when nothing needs escaping. *)
Definition quoted (s : string) : string := String (ascii_of_nat 34) (s +:+ String (ascii_of_nat 34) "").

Definition parseDuration (s field : string) : result error Z :=
  if String.eqb s "" then Ok 0
  else match ParseDuration s with
       | Some d => Ok d
       | None => Err ("invalid " +:+ field +:+ " " +:+ quoted s +:+ ": time: invalid duration " +:+ quoted s)
       end.

Definition mapTarget (tf : targetFile) : result error TargetConfig :=
  warmup <-? parseDuration (tf_Warmup tf) "warmup" ;;
  duration <-? parseDuration (tf_Duration tf) "duration" ;;
  Ok {| tg_Target := tf_Target tf; tg_Image := tf_Image tf; tg_Version := tf_Version tf;
        tg_Defaults := {| df_Connections := tf_Connections tf; df_Warmup := warmup; df_Duration := duration |};
        tg_Cluster := tf_Cluster tf; tg_Capabilities := tf_Capabilities tf |}.

(** ** workload.go *)

Record workloadFile := {
  wf_Name : string;
  wf_Mode : string;
  wf_KeySpace : Z;
  wf_KeyDist : string;
  wf_ValueSize : Z;
  wf_VerifyModel : string;
  wf_Operations : list (string * Z);
  wf_Params : params
}.

(** The accepted enum strings; each is its own domain value. *)
Definition validModes : list string := [ModePerformance; ModeCorrectness].
Definition validDists : list string := [DistUniform; DistZipfian; DistLatest; DistSequential].
Definition validModels : list string :=
  [VerifyNone; VerifyReconciliation; VerifyRegister; VerifyListAppend; VerifyKafkaLog].

Definition enum_lookup (valid : list string) (s : string) : option string :=
  List.find (String.eqb s) valid.

Definition mapWorkload (wf : workloadFile) : result error Workload :=
  match enum_lookup validModes (wf_Mode wf) with
  | None => Err ("invalid mode " +:+ quoted (wf_Mode wf))
  | Some mode =>
      match enum_lookup validDists (wf_KeyDist wf) with
      | None => Err ("invalid key_dist " +:+ quoted (wf_KeyDist wf))
      | Some dist =>
          match enum_lookup validModels (wf_VerifyModel wf) with
          | None => Err ("invalid verify_model " +:+ quoted (wf_VerifyModel wf))
          | Some model =>
              Ok {| w_Name := wf_Name wf; w_Mode := mode;
                    w_Operations := (fun op => {| os_Type := op.1; os_Weight := op.2 |}) <$> wf_Operations wf;
                    w_KeySpace := wf_KeySpace wf; w_KeyDist := dist; w_ValueSize := wf_ValueSize wf;
                    w_VerifyModel := model; w_Params := wf_Params wf |}
          end
      end
  end.

(** ** resolve.go *)

Definition envPrefix : string := "PROOFLOAD_".

Record ResolveOptions := {
  ro_GlobalPath : string;
  ro_TargetPath : string;
  ro_WorkloadPath : string;
  ro_Endpoints : list string;
  ro_Consistency : string;
  ro_Overrides : layer
}.

Record settings := {
  se_Connections : Z;
  se_Duration : Z;
  se_Warmup : Z;
  se_Consistency : string;
  se_Endpoints : list string;
  se_Rate : RateSpec
}.

(** [strings.Split] on a comma. *)
Fixpoint split_commas (t cur : text) : list string :=
  match t with
  | [] => [str (rev cur)]
  | c :: t' => if Ascii.eqb c ","%char then str (rev cur) :: split_commas t' [] else split_commas t' (c :: cur)
  end.

Fixpoint drop_prefix (pre s : string) : option string :=
  match pre, s with
  | EmptyString, _ => Some s
  | String p pre', String c s' => if Ascii.eqb p c then drop_prefix pre' s' else None
  | String _ _, EmptyString => None
  end.

(** [envProvider]: the variables with the prefix, under their lower-cased names. *)
Definition env_entry (kv : string * string) : option (string * conf) :=
  match drop_prefix envPrefix kv.1 with
  | None => None
  | Some rest =>
      let name := ToLower rest in
      if String.eqb name "" then None
      else Some (name, if String.eqb name "endpoints" then CfStrings (split_commas (txt kv.2) []) else CfString kv.2)
  end.

Definition envProvider (environ : list (string * string)) : layer :=
  foldl (fun l kv => match env_entry kv with Some (k, v) => <[k := v]> l | None => l end) ∅ environ.

Definition defaults_layer (t : TargetConfig) : layer :=
  <["connections"%string := CfInt (df_Connections (tg_Defaults t))]>
  (<["duration"%string := CfDuration (df_Duration (tg_Defaults t))]>
  (<["warmup"%string := CfDuration (df_Warmup (tg_Defaults t))]> ∅)).

Section resolve.
Context {K : Type} {KK : Koanf K}.

(** The files, as read and parsed; the process environment. *)
Context (read_global : string -> result error layer).
Context (read_target : string -> result error targetFile).
Context (read_workload : string -> result error workloadFile).
Context (environ : list (string * string)).

Definition readSettings (k : K) : settings :=
  let ops := to_Int (k_Get "ops_per_sec" k) in
  {| se_Connections := to_Int (k_Get "connections" k);
     se_Duration := to_Duration (k_Get "duration" k);
     se_Warmup := to_Duration (k_Get "warmup" k);
     se_Consistency := to_String (k_Get "consistency" k);
     se_Endpoints := to_Strings (k_Get "endpoints" k);
     se_Rate := if 0 <? ops then {| rate_Mode := RateFixed; rate_OpsPerSec := ops |} else RateSpec_zero |}.

(** The layers loaded over an instance. *)
Definition load_layers (o : ResolveOptions) (t : TargetConfig) (k : K) : K :=
  let k := k_Load (defaults_layer t) k in
  let k := match cc_Consistency (tg_Cluster t) with c :: _ => k_Set "consistency" (CfString c) k | [] => k end in
  let k := if String.eqb (ro_Consistency o) "" then k else k_Set "consistency" (CfString (ro_Consistency o)) k in
  let k := match ro_Endpoints o with [] => k | l => k_Set "endpoints" (CfStrings l) k end in
  let k := k_Load (envProvider environ) k in
  if bool_decide (ro_Overrides o = ∅) then k else k_Load (ro_Overrides o) k.

Definition resolveSettings (o : ResolveOptions) (t : TargetConfig) : result error settings :=
  k <-? (if String.eqb (ro_GlobalPath o) "" then Ok k_New
         else match read_global (ro_GlobalPath o) with
              | Ok l => Ok (k_Load l k_New)
              | Err e => Err ("read " +:+ ro_GlobalPath o +:+ ": " +:+ e)
              end) ;;
  Ok (readSettings (load_layers o t k)).

Definition LoadTarget (path : string) : result error TargetConfig :=
  tf <-? read_target path ;; mapTarget tf.

Definition LoadWorkload (path : string) : result error Workload :=
  wf <-? read_workload path ;; mapWorkload wf.

Definition buildTopology (t : TargetConfig) : Topology :=
  {| topo_Name := tg_Target t; topo_Backend := cc_Backend (tg_Cluster t); topo_Target := tg_Target t;
     topo_Image := tg_Image t; topo_Version := tg_Version t; topo_Nodes := cc_Nodes (tg_Cluster t);
     topo_ReplicationFactor := cc_ReplicationFactor (tg_Cluster t);
     topo_Resources := {| rs_CPU := ""; rs_Memory := "" |}; topo_Bundle := ""; topo_Extra := ∅ |}.

Record Resolved := {
  rv_Workload : Workload;
  rv_Topology : Topology;
  rv_Driver : Config;
  rv_Manifest : Manifest
}.

Definition Resolve (o : ResolveOptions) : result error Resolved :=
  target <-? LoadTarget (ro_TargetPath o) ;;
  workload <-? LoadWorkload (ro_WorkloadPath o) ;;
  s <-? resolveSettings o target ;;
  let cluster := {| cs_Nodes := []; cs_ReplicationFactor := cc_ReplicationFactor (tg_Cluster target);
                    cs_Consistency := cc_Consistency (tg_Cluster target) |} in
  Ok {| rv_Workload := workload;
        rv_Topology := buildTopology target;
        rv_Driver := {| cfg_Endpoints := se_Endpoints s; cfg_Consistency := se_Consistency s;
                        cfg_Cluster := cluster; cfg_Params := w_Params workload |};
        rv_Manifest := {| mf_RunID := ""; mf_Target := tg_Target target; mf_TargetVersion := tg_Version target;
                          mf_Workload := w_Name workload; mf_TestType := ""; mf_Mode := w_Mode workload;
                          mf_Rate := se_Rate s; mf_Duration := se_Duration s; mf_Warmup := se_Warmup s;
                          mf_Connections := se_Connections s; mf_Seed := 0; mf_Trials := 0;
                          mf_Consistency := se_Consistency s; mf_Cluster := cluster; mf_Faults := [];
                          mf_EngineVersion := ""; mf_GitSHA := ""; mf_Client := ClientInfo_zero;
                          mf_Labels := ∅; mf_CreatedAt := zero_time |} |}.
End resolve.

(** ** Precedence *)

(** The layers, highest precedence first, as the code stacks them. *)
Definition endpoints_layer (o : ResolveOptions) : layer :=
  match ro_Endpoints o with [] => ∅ | l => {[ "endpoints"%string := CfStrings l ]} end.

Definition consistency_layer (o : ResolveOptions) : layer :=
  if String.eqb (ro_Consistency o) "" then ∅ else {[ "consistency"%string := CfString (ro_Consistency o) ]}.

Definition levels_layer (t : TargetConfig) : layer :=
  match cc_Consistency (tg_Cluster t) with c :: _ => {[ "consistency"%string := CfString c ]} | [] => ∅ end.

Definition stack (o : ResolveOptions) (t : TargetConfig) (environ : list (string * string)) (global : layer) : layer :=
  ro_Overrides o ∪ (envProvider environ ∪ (endpoints_layer o ∪ (consistency_layer o ∪
    (levels_layer t ∪ (defaults_layer t ∪ global))))).

Lemma flat_named (k : string) (b : bool) : forallb (fun c => negb (Ascii.eqb c "."%char)) (txt k) = b -> b = true -> flat_key k.
Proof.
  intros H -> Hin. rewrite forallb_forall in H. apply list_elem_of_In in Hin. specialize (H _ Hin). done.
Qed.

Lemma defaults_flat t : flat (defaults_layer t).
Proof.
  intros k v H. unfold defaults_layer in H. rewrite !lookup_insert_Some, lookup_empty in H.
  destruct H as [[<- _]|[_ [[<- _]|[_ [[<- _]|[_ ?]]]]]]; [..|done]; by eapply flat_named.
Qed.

Section precedence.
Context {K : Type} {KK : Koanf K} {KL : KoanfLaws K}.
Context (environ : list (string * string)) (env_flat : flat (envProvider environ)).

Lemma get_Set_union k v (c : K) k' :
  flat_key k -> flat_key k' -> k_Get k' (k_Set k v c) = ({[ k := v ]} : layer) !! k' ∪ k_Get k' c.
Proof.
  intros Hk Hk'. rewrite get_Set by done.
  destruct (String.eqb_spec k k') as [->|Hne].
  - rewrite lookup_singleton_eq. by destruct (k_Get k' c).
  - rewrite lookup_singleton_ne by done. by destruct (k_Get k' c).
Qed.

Lemma get_Load_union l (c : K) k : flat l -> flat_key k -> k_Get k (k_Load l c) = l !! k ∪ k_Get k c.
Proof. intros Hl Hk. rewrite get_Load by done. by destruct (l !! k), (k_Get k c). Qed.

(** A layer that is skipped when empty. *)
Lemma get_skip k (c : K) : k_Get k c = (∅ : layer) !! k ∪ k_Get k c.
Proof. rewrite lookup_empty. by destruct (k_Get k c). Qed.

Lemma load_layers_get o t (c : K) global k :
  flat (ro_Overrides o) -> flat_key k -> k_Get k c = global !! k ->
  k_Get k (load_layers environ o t c) = stack o t environ global !! k.
Proof.
  intros Ho Hk Hg. unfold load_layers, stack. rewrite !lookup_union.
  assert (Hc : flat_key "consistency") by (by eapply flat_named).
  assert (He : flat_key "endpoints") by (by eapply flat_named).
  assert (E1 : forall c, k_Get k (if bool_decide (ro_Overrides o = ∅) then c else k_Load (ro_Overrides o) c)
                         = ro_Overrides o !! k ∪ k_Get k c).
  { intros c'. case_bool_decide as E; [rewrite E; apply get_skip|by apply get_Load_union]. }
  assert (E2 : forall c, k_Get k (match ro_Endpoints o with [] => c | l => k_Set "endpoints" (CfStrings l) c end)
                         = endpoints_layer o !! k ∪ k_Get k c).
  { intros c'. unfold endpoints_layer. destruct (ro_Endpoints o); [apply get_skip|by apply get_Set_union]. }
  assert (E3 : forall c, k_Get k (if String.eqb (ro_Consistency o) "" then c
                                  else k_Set "consistency" (CfString (ro_Consistency o)) c)
                         = consistency_layer o !! k ∪ k_Get k c).
  { intros c'. unfold consistency_layer. destruct (String.eqb _ _); [apply get_skip|by apply get_Set_union]. }
  assert (E4 : forall c, k_Get k (match cc_Consistency (tg_Cluster t) with
                                  | x :: _ => k_Set "consistency" (CfString x) c | [] => c end)
                         = levels_layer t !! k ∪ k_Get k c).
  { intros c'. unfold levels_layer. destruct (cc_Consistency _); [apply get_skip|by apply get_Set_union]. }
  rewrite E1, get_Load_union, E2, E3, E4, get_Load_union, Hg by (done || apply defaults_flat). done.
Qed.
End precedence.

(** ** Properties *)

(** C33: Every scalar setting is the value of the highest layer that has its key:
    overrides, then the environment, then the endpoints and consistency options,
    the target's levels and defaults, and the global file last; the rate is
    fixed exactly when ops_per_sec resolves to a positive number. *)
Theorem settings_precedence {K} {KK : Koanf K} {KL : KoanfLaws K} read_global environ o t global :
  flat (envProvider environ) -> flat (ro_Overrides o) -> flat global ->
  (if String.eqb (ro_GlobalPath o) "" then global = ∅ else read_global (ro_GlobalPath o) = Ok global) ->
  let look k := stack o t environ global !! k in
  exists s, resolveSettings (K := K) read_global environ o t = Ok s /\
    se_Connections s = to_Int (K := K) (look "connections"%string) /\
    se_Duration s = to_Duration (K := K) (look "duration"%string) /\
    se_Warmup s = to_Duration (K := K) (look "warmup"%string) /\
    se_Consistency s = to_String (K := K) (look "consistency"%string) /\
    se_Endpoints s = to_Strings (K := K) (look "endpoints"%string) /\
    (0 < to_Int (K := K) (look "ops_per_sec"%string) ->
       se_Rate s = {| rate_Mode := RateFixed; rate_OpsPerSec := to_Int (K := K) (look "ops_per_sec"%string) |}) /\
    (to_Int (K := K) (look "ops_per_sec"%string) <= 0 -> se_Rate s = RateSpec_zero).
Proof.
  intros Henv Hov Hgf Hg look. unfold resolveSettings.
  assert (H : exists c : K, (if String.eqb (ro_GlobalPath o) "" then Ok k_New
       else match read_global (ro_GlobalPath o) with
            | Ok l => Ok (k_Load l k_New)
            | Err e => Err ("read " +:+ ro_GlobalPath o +:+ ": " +:+ e)
            end) = Ok c /\ forall k, flat_key k -> k_Get k c = global !! k).
  { destruct (String.eqb _ _).
    - exists k_New. split; [done|]. intros k Hk. by rewrite get_New, Hg, lookup_empty.
    - rewrite Hg. eexists. split; [done|]. intros k Hk. rewrite get_Load, get_New by done. by destruct (global !! k). }
  destruct H as (c & -> & Hc).
  assert (E : forall k, flat_key k -> k_Get k (load_layers environ o t c) = look k)
    by (intros k Hk; apply load_layers_get; auto).
  eexists. split; [done|]. unfold readSettings.
  cbn [se_Connections se_Duration se_Warmup se_Consistency se_Endpoints se_Rate].
  rewrite !E by (by eapply flat_named). split_and!; try done.
  - intros H. by rewrite (proj2 (Z.ltb_lt _ _) H).
  - intros H. by rewrite (proj2 (Z.ltb_ge _ _) H).
Qed.

(** A koanf of one layer. *)
#[local] Instance layer_koanf : Koanf layer := {|
  k_New := ∅;
  k_Load := fun l c => l ∪ c;
  k_Set := fun k v c => <[k := v]> c;
  k_Get := fun k c => c !! k;
  to_Int := fun v => match v with
                     | Some (CfInt n) => n
                     | Some (CfString s) => default 0 (ParseInt (txt s))
                     | _ => 0
                     end;
  to_Duration := fun v => match v with
                          | Some (CfDuration d) => d
                          | Some (CfString s) => default 0 (ParseDuration s)
                          | _ => 0
                          end;
  to_String := fun v => match v with Some (CfString s) => s | _ => "" end;
  to_Strings := fun v => match v with Some (CfStrings l) => l | _ => [] end
|}.

#[local] Instance layer_koanf_laws : KoanfLaws layer.
Proof.
  split; try done.
  - intros l c k _ _. cbn. rewrite lookup_union. by destruct (l !! k), (c !! k).
  - intros k v c k' _ _. cbn. destruct (String.eqb_spec k k') as [->|Hne];
      [apply lookup_insert_eq|by apply lookup_insert_ne].
Qed.

Definition sample_target : TargetConfig :=
  {| tg_Target := "redis"; tg_Image := "redis:7"; tg_Version := "7";
     tg_Defaults := {| df_Connections := 16; df_Warmup := 0; df_Duration := 30 * second |};
     tg_Cluster := {| cc_Backend := "compose"; cc_Nodes := 3; cc_ReplicationFactor := 1;
                      cc_Consistency := ["eventual"; "wait"]%string |};
     tg_Capabilities := {| cap_VerifyModels := []; cap_Faults := [] |} |}.

Definition sample_options : ResolveOptions :=
  {| ro_GlobalPath := ""; ro_TargetPath := "t"; ro_WorkloadPath := "w"; ro_Endpoints := ["h:1"%string];
     ro_Consistency := "wait"; ro_Overrides := {[ "connections"%string := CfInt 4 ]} |}.

Definition sample_environ : list (string * string) :=
  [("HOME", "/root"); ("PROOFLOAD_ENDPOINTS", "a:1,b:2"); ("PROOFLOAD_DURATION", "5s")]%string.

Lemma flat_dec (l : layer) :
  forallb (fun kv : string * conf => forallb (fun c => negb (Ascii.eqb c "."%char)) (txt kv.1)) (map_to_list l) = true ->
  flat l.
Proof.
  intros H k v Hk. rewrite forallb_forall in H. apply elem_of_map_to_list, list_elem_of_In in Hk.
  specialize (H _ Hk). by eapply flat_named.
Qed.

(** The option's endpoints lose to the environment's. *)
Lemma settings_precedence_witness :
  exists s, resolveSettings (K := layer) (fun _ => Err "no file"%string) sample_environ sample_options sample_target = Ok s /\
    se_Connections s = 4 /\ se_Duration s = 5 * second /\ se_Consistency s = "wait"%string /\
    se_Endpoints s = ["a:1"; "b:2"]%string.
Proof.
  destruct (settings_precedence (K := layer) (fun _ => Err "no file"%string) sample_environ sample_options sample_target ∅)
    as (s & E & E1 & E2 & E3 & E4 & E5 & _).
  - apply flat_dec. vm_compute. reflexivity.
  - apply flat_dec. vm_compute. reflexivity.
  - apply flat_dec. vm_compute. reflexivity.
  - reflexivity.
  - exists s. split; [exact E|]. rewrite E1, E2, E4, E5. vm_compute. repeat split.
Defined.

Lemma enum_lookup_spec valid s :
  enum_lookup valid s = if bool_decide (s ∈ valid) then Some s else None.
Proof.
  unfold enum_lookup. case_bool_decide as H.
  - destruct (List.find (String.eqb s) valid) as [x|] eqn:E.
    + apply find_some in E as [_ E]. apply String.eqb_eq in E. by subst.
    + apply list_elem_of_In in H. pose proof (find_none _ _ E _ H) as Hn. by rewrite String.eqb_refl in Hn.
  - destruct (List.find (String.eqb s) valid) as [x|] eqn:E; [|done].
    apply find_some in E as [Hin E]. apply String.eqb_eq in E. subst. by apply list_elem_of_In in Hin.
Qed.

(** A workload file is accepted exactly when its mode, key distribution and
    verification model are known names; the workload then carries the file's
    values unchanged, and a refusal names the first field at fault. *)
Theorem mapWorkload_validates wf :
  match mapWorkload wf with
  | Ok w =>
      wf_Mode wf ∈ validModes /\ wf_KeyDist wf ∈ validDists /\ wf_VerifyModel wf ∈ validModels /\
      w_Mode w = wf_Mode wf /\ w_KeyDist w = wf_KeyDist wf /\ w_VerifyModel w = wf_VerifyModel wf /\
      w_Name w = wf_Name wf /\ w_KeySpace w = wf_KeySpace wf /\ w_ValueSize w = wf_ValueSize wf /\
      w_Params w = wf_Params wf /\ (fun o => (os_Type o, os_Weight o)) <$> w_Operations w = wf_Operations wf
  | Err e =>
      (wf_Mode wf ∉ validModes /\ e = ("invalid mode " +:+ quoted (wf_Mode wf))%string) \/
      (wf_Mode wf ∈ validModes /\ wf_KeyDist wf ∉ validDists /\
       e = ("invalid key_dist " +:+ quoted (wf_KeyDist wf))%string) \/
      (wf_Mode wf ∈ validModes /\ wf_KeyDist wf ∈ validDists /\ wf_VerifyModel wf ∉ validModels /\
       e = ("invalid verify_model " +:+ quoted (wf_VerifyModel wf))%string)
  end.
Proof.
  unfold mapWorkload. rewrite !enum_lookup_spec.
  case_bool_decide; [|by left]. case_bool_decide; [|by right; left]. case_bool_decide; [|by right; right].
  cbn. split_and!; try done. induction (wf_Operations wf) as [|[ty wt] l IH]; [done|]. cbn. by rewrite IH.
Qed.
