(* ===== verification/Engine.v ===== *)
(** * Engine: one unit of load execution (core/cli/run.go, testtype.go, verify.go)

    [drive] puts the generator factory, an arrival schedule, the recorder and the
    observers together and runs the workers.  This file instantiates the runner's
    collaborators with the real components and proves what the composition
    promises: the recorder and the runner's report agree, and what the observers
    wrote is what reconciliation will look for. *)

From Stdlib Require Import Ascii String.
From S2P Require Import Schedule Rand Prelude Domain Strconv Checksum Workload Metrics Expect Driver Reconcile.
From S2P Require Import History Config Runner.

Local Open Scope Z_scope.
Local Open Scope go_scope.

(** ** run.go, the flags *)

Record runFlags := {
  rf_workload : string;
  rf_endpoints : list string;
  rf_consistency : string;
  rf_connections : Z;
  rf_duration : Z;
  rf_warmup : Z;
  rf_rate : Z;
  rf_seed : Z;
  rf_results : string;
  rf_provision : string;
  rf_verify : string;
  rf_export : string;
  rf_fault : string;
  rf_workers : Z;
  rf_coordAddr : string;
  rf_keep : bool;
  rf_test : string
}.

(** ** testtype.go *)

Definition resolveTestType (f : runFlags) : result error TestType :=
  let t := rf_test f in
  if String.eqb t "" then Ok (if 0 <? rf_rate f then TestLoad else TestBenchmark)
  else if String.eqb t "benchmark" then Ok TestBenchmark
  else if String.eqb t "load" then
    if rf_rate f <=? 0 then Err "--test load requires --rate (the constant arrival rate)"%string else Ok TestLoad
  else if String.eqb t "stress" then
    if rf_rate f <=? 0 then Err "--test stress requires --rate (the ramp ceiling)"%string else Ok TestStress
  else if String.eqb t "acid" then Ok TestACID
  else if String.eqb t "combined" then Ok TestCombined
  else Err ("unknown --test " +:+ quoted t +:+ " (want benchmark|load|stress|acid|combined)")%string.

Definition buildScheduler (start : Z) (tt : TestType) (rate : RateSpec) (duration : Z) : scheduler :=
  if String.eqb tt TestBenchmark then NewClosedLoop start
  else if String.eqb tt TestStress then
    let top := rate_OpsPerSec rate in
    let from := Z.quot top 5 in
    let from := if from <? 1 then 1 else from in
    let step := Z.quot duration 5 in
    let step := if step <=? 0 then second else step in
    LinearRamp start from top 5 step
  else NewOpenLoop start rate.

(** ** verify.go, what a run records *)

Definition resolveVerifyModel (f : runFlags) (w : Workload) : VerifyModel :=
  if negb (String.eqb (rf_verify f) "") then rf_verify f else w_VerifyModel w.

(** The read operation reconciliation uses. *)
Definition pickReadOp (w : Workload) : OpType :=
  let present cand := existsb (fun op => String.eqb (os_Type op) cand) (w_Operations w) in
  match List.filter present ["read"; "r"; "get"]%string with
  | cand :: _ => cand
  | [] => "read"%string
  end.

(** Which recording a model sets up: the log writer, the history writer, none. *)
Inductive recorder_kind := KLog | KHistory.

Record verification := {
  vf_model : VerifyModel;
  vf_path : string;
  vf_kind : option recorder_kind;
  vf_readOp : OpType
}.

(** [tempFile] is the outcome of creating the recording file and [open] that of
    opening a writer on it. *)
Definition newVerification (tempFile : string -> result error string) (open : string -> option error)
    (model : VerifyModel) (w : Workload) : result error verification :=
  let recording pattern kind readOp :=
    p <-? tempFile pattern ;;
    match open p with
    | Some e => Err e
    | None => Ok {| vf_model := model; vf_path := p; vf_kind := Some kind; vf_readOp := readOp |}
    end in
  if String.eqb model VerifyReconciliation then
    recording "proofload-expect-*.ndjson"%string KLog (pickReadOp w)
  else if String.eqb model VerifyRegister || String.eqb model VerifyListAppend then
    recording "proofload-history-*.ndjson"%string KHistory ""%string
  else Ok {| vf_model := model; vf_path := ""; vf_kind := None; vf_readOp := "" |}.

(** What one connection's observer hands to the shared writer, in order. *)
Inductive recording :=
| RLog (rs : list WriteRecord)
| RHist (process : Z) (evs : list History.Event).

Definition observer (v : verification) : option (Z -> option recording) :=
  match vf_kind v with
  | Some KLog => Some (fun _ => Some (RLog []))
  | Some KHistory => Some (fun shard => Some (RHist shard []))
  | None => None
  end.

Definition Observe_recording (op : Operation) (res : OpResult) (invoke complete : Z) (r : recording) : recording :=
  match r with
  | RLog rs => RLog (rs ++ match committed (op, res) with Some x => [x] | None => [] end)
  | RHist p evs => RHist p (evs ++ [History.Observe p op res invoke complete])
  end.

(** ** The collaborators of a run *)

Definition Operation_zero : Operation := {| op_Type := ""; op_Key := 0; op_Value := []; op_Seq := 0 |}.

(** Where [Next] panics the process dies; [drive_no_panic] shows that no run
    gets there, so that the values returned then are immaterial. *)
#[export] Instance engine_collaborators {R H : Type} `{HR : Rng R} `{HH : Histogram H} :
  Collaborators (generator R) scheduler (Local H) recording := {|
  gen_Next g := match generator_Next g with Some r => r | None => (Operation_zero, g) end;
  sched_Next now s := match Schedule.Next s now with Some r => r | None => (0, s) end;
  sink_Record := Local_Record;
  obs_Observe := Observe_recording
|}.

(** ** drive *)

Record driveParams := {
  dp_workload : Workload;
  dp_cfg : Driver.Config;
  dp_rate : RateSpec;
  dp_connections : Z;
  dp_warmup : Z;
  dp_duration : Z;
  dp_seed : Z;
  dp_workerID : Z;
  dp_workerCount : Z;
  dp_startAt : Z;
  dp_observer : option (Z -> option recording);
  dp_testType : TestType
}.

Definition drive_count (pp : driveParams) : Z := if dp_workerCount pp <? 1 then 1 else dp_workerCount pp.

Inductive drive_error :=
| DriveWorkload (e : new_error)
| DriveCancelled
| DriveRun (e : error).

Section drive.
Context {W C R H : Type} {HR : Rng R} {HH : Histogram H} {Drv : Driver W C}.

(** The dependencies [drive] hands to the runner. *)
Definition drive_deps (pp : driveParams) (fa : Factory) (start : Z)
    : Deps W C (generator R) scheduler (Local H) recording :=
  {| d_Driver := Some Drv; d_Cfg := dp_cfg pp; d_Workload := dp_workload pp;
     d_Sched := Some (buildScheduler start (dp_testType pp) (dp_rate pp) (dp_duration pp));
     d_Gen := Some (fun shard => Generator fa shard);
     d_Sink := Some (fun _ => Some (newLocal (r_high (NewRecorder (H := H) 0 0)) (r_sig (NewRecorder (H := H) 0 0))));
     d_Observer := dp_observer pp |}.

Definition drive_options (pp : driveParams) : RunOptions :=
  {| o_Connections := dp_connections pp; o_Warmup := dp_warmup pp; o_Duration := dp_duration pp;
     o_LatenessThreshold := 0 |}.

(** The recorder at the end: its locals are those the connections recorded into,
    in the order the goroutines registered them; the interval state is what the
    ticker's calls of [TakeInterval] left. *)
Definition recorder_of (g : gstate W C (generator R) scheduler (Local H) recording) (r : Recorder H) : Prop :=
  r_high r = r_high (NewRecorder (H := H) 0 0) /\ r_sig r = r_sig (NewRecorder (H := H) 0 0) /\
  r_locals r ≡ₚ omap ws_sink (g_workers g).

(** The worker phase of a run that opened its connections at [base]. *)
Definition drive_starts (pp : driveParams) (fa : Factory) (start base : Z) (w1 : W) (conns : list C) :=
  let d := drive_deps pp fa start in
  run_init (fun shard => Generator fa shard) (d_Sink d) (d_Observer d)
    (buildScheduler start (dp_testType pp) (dp_rate pp) (dp_duration pp)) conns base w1.

(** The earliest clock reading after the wait for the start-gun: a timer fires after at
    least its duration. *)
Definition waited (t startAt : Z) (wake : wakeup) : Z :=
  if startAt <=? t then t else match wake with TimerFired now => Z.max startAt now | Cancelled => t end.

(** How the load comes to begin at [start]. *)
Definition begins (pp : driveParams) (t : Z) (wake : wakeup) (start : Z) : Prop :=
  if dp_startAt pp =? zero_time then t <= start
  else (exists late, WaitUntil t (dp_startAt pp) wake = Ok late) /\ waited t (dp_startAt pp) wake <= start.

(** [t] is the clock when [drive] is entered, [wake] how a wait for the
    start-gun ended, [start] the clock after it and [base] the clock when the
    connections are open; [steps] counts the transitions of the worker phase. *)
Inductive drive (pp : driveParams) (t : Z) (wake : wakeup) (start base : Z) (steps : nat) (w : W)
    : W -> result drive_error (RunReport * Recorder H * gstate W C (generator R) scheduler (Local H) recording) -> Prop :=
| drive_workload e :
    Workload.New (dp_workload pp) (dp_seed pp) (dp_workerID pp) (drive_count pp) = Err e ->
    drive pp t wake start base steps w w (Err (DriveWorkload e))
| drive_cancelled fa :
    Workload.New (dp_workload pp) (dp_seed pp) (dp_workerID pp) (drive_count pp) = Ok fa ->
    dp_startAt pp <> zero_time -> WaitUntil t (dp_startAt pp) wake = Err tt ->
    drive pp t wake start base steps w w (Err DriveCancelled)
| drive_failed fa w' rep e :
    Workload.New (dp_workload pp) (dp_seed pp) (dp_workerID pp) (drive_count pp) = Ok fa ->
    begins pp t wake start ->
    Runner.Run (drive_deps pp fa start) (drive_options pp) base w w' (rep, Some e) ->
    drive pp t wake start base steps w w' (Err (DriveRun ("run: " +:+ e)))
| drive_done fa w1 conns g rec :
    Workload.New (dp_workload pp) (dp_seed pp) (dp_workerID pp) (drive_count pp) = Ok fa ->
    begins pp t wake start ->
    validate (drive_deps pp fa start) (drive_options pp) = None ->
    connectAll (dp_cfg pp) (dp_workload pp) (dp_connections pp) w = (w1, Ok conns) ->
    nsteps (gstep (base + dp_warmup pp)) steps (drive_starts pp fa start base w1 conns) g ->
    all_exited g -> recorder_of g rec ->
    drive pp t wake start base steps w (closeAll conns (g_world g))
      (Ok (report (g_acc g) (g_now g) (base + dp_warmup pp) (drive_options pp), rec, g)).

(** No load begins before its start-gun. *)
Lemma begins_after pp t wake start : begins pp t wake start -> dp_startAt pp <> zero_time -> dp_startAt pp <= start.
Proof.
  unfold begins, waited, WaitUntil, time_sub. intros Hb Hz. destruct (Z.eqb_spec (dp_startAt pp) zero_time); [done|].
  destruct Hb as [[late Hl] Hb]. destruct (dp_startAt pp <=? t) eqn:E; zbool; [lia|].
  destruct wake as [now|]; [lia|]. destruct (_ <=? 0) eqn:E0; [|done]. zbool. lia.
Qed.

(** A successful [drive] is a successful run of the runner. *)
Lemma drive_done_runs pp t wake start base steps w w' rep rec g :
  drive pp t wake start base steps w w' (Ok (rep, rec, g)) ->
  exists fa, Runner.Run (drive_deps pp fa start) (drive_options pp) base w w' (rep, None).
Proof.
  inversion 1 as [| | |fa w1 conns g' rec' Hn Hs Hv Hc Hr Hx Hrec]. subst. exists fa.
  eapply Run_finished; eauto using rtc_nsteps_2.
Qed.
End drive.

(** ** No run panics *)

(** Binary search returns 0 only when the predicate holds there. *)
Lemma search_loop_positive fuel f i j :
  0 <= i < j -> (j - i <= Z.of_nat fuel) -> f i = false -> i < search_loop fuel f i j.
Proof.
  revert i j. induction fuel as [|fuel IH]; intros i j Hij Hf Hi; [lia|]. cbn [search_loop].
  destruct (i <? j) eqn:E; zbool; [|lia].
  assert (Hh : i <= Z.shiftr (i + j) 1 < j).
  { rewrite Z.shiftr_div_pow2 by lia. change (2^1) with 2.
    split; [apply Z.div_le_lower_bound; lia|apply Z.div_lt_upper_bound; lia]. }
  destruct (f (Z.shiftr (i + j) 1)) eqn:Ef.
  - destruct (decide (Z.shiftr (i + j) 1 = i)) as [Ei|]; [congruence|]. apply IH; [lia|lia|done].
  - assert (Hge : forall n a b, a <= search_loop n f a b).
    { intros n. induction n as [|n IHn]; intros a b; cbn [search_loop]; [lia|].
      destruct (a <? b) eqn:Eab; zbool; [|lia]. destruct (f (Z.shiftr (a + b) 1)); [apply IHn|].
      etrans; [|apply IHn]. rewrite Z.shiftr_div_pow2 by lia. change (2^1) with 2.
      pose proof (Z.div_le_lower_bound (a + b) 2 a ltac:(lia) ltac:(lia)). lia. }
    pose proof (Hge fuel (Z.shiftr (i + j) 1 + 1) j). lia.
Qed.

Lemma search_loop_le fuel f i j : i <= j -> search_loop fuel f i j <= j.
Proof.
  revert i j. induction fuel as [|fuel IH]; intros i j Hij; cbn [search_loop]; [lia|].
  destruct (i <? j) eqn:E; zbool; [|lia].
  assert (Hh : i <= Z.shiftr (i + j) 1 < j).
  { rewrite Z.shiftr_div_pow2 by lia. change (2^1) with 2.
    split; [apply Z.div_le_lower_bound; lia|apply Z.div_lt_upper_bound; lia]. }
  destruct (f _); [|apply IH; lia]. etrans; [apply IH; lia|lia].
Qed.

(** A schedule that has answered [t] calls. *)
Definition sched_ok (t : Z) (s : scheduler) : Prop :=
  match s with
  | SRamp r => 0 <= rp_n r <= t /\ exists seg segs, rp_segs r = seg :: segs /\ sg_startCount seg = 0
  | _ => True
  end.

Lemma offsetForIndex_total r n seg segs :
  rp_segs r = seg :: segs -> sg_startCount seg = 0 -> 0 <= n -> is_Some (offsetForIndex r n).
Proof.
  intros Es Hs Hn. unfold offsetForIndex. set (f := fun k => _).
  pose proof (search_loop_positive (Z.to_nat (Z.of_nat (length (rp_segs r)))) f 0 (Z.of_nat (length (rp_segs r)))) as Hp.
  pose proof (search_loop_le (Z.to_nat (Z.of_nat (length (rp_segs r)))) f 0 (Z.of_nat (length (rp_segs r)))) as Hl.
  fold (Search (Z.of_nat (length (rp_segs r))) f) in Hp, Hl.
  assert (Hlen : (0 < length (rp_segs r))%nat) by (rewrite Es; cbn; lia).
  assert (f 0 = false) by (unfold f; rewrite Es; change ((seg :: segs) !! Z.to_nat 0) with (Some seg); cbv iota; rewrite Hs; apply Z.ltb_ge; lia).
  specialize (Hp ltac:(lia) ltac:(lia) ltac:(done)). specialize (Hl ltac:(lia)).
  destruct (Search _ f - 1 <? 0) eqn:E; zbool; [lia|].
  destruct (lookup_lt_is_Some_2 (rp_segs r) (Z.to_nat (Search (Z.of_nat (length (rp_segs r))) f - 1))) as [x ->]; [lia|].
  done.
Qed.

Lemma Next_ok t s now : sched_ok t s -> 0 <= t < 2^62 -> exists r, Schedule.Next s now = Some r /\ sched_ok (t + 1) r.2.
Proof.
  intros Hs Ht. destruct s as [o| |r|p]; cbn [Schedule.Next]; [|by eexists| |by eexists].
  { destruct (openLoop_Next o). by eexists. }
  destruct Hs as (Hn & seg & segs & Es & H0). unfold ramp_Next.
  rewrite (i64_add_id (rp_n r)), i64_sub_id by (unfold is_i64; lia).
  destruct (offsetForIndex_total r (rp_n r + 1 - 1) seg segs Es H0 ltac:(lia)) as [d ->].
  eexists. split; [done|]. cbn. split; [lia|eauto].
Qed.

Lemma sched_ok_later t s : sched_ok t s -> sched_ok (t + 1) s.
Proof. destruct s; cbn; [done|done| |done]. intros [? ?]. split; [lia|done]. Qed.

Lemma NewRamp_ok start steps : sched_ok 0 (NewRamp start steps).
Proof.
  unfold NewRamp. destruct (rampSegs steps 0 0) as [|seg segs] eqn:E; [done|]. cbn. split; [lia|].
  exists seg, segs. split; [done|]. revert E. induction steps as [|s steps IH]; cbn [rampSegs]; [done|].
  destruct (_ || _); [exact IH|]. by intros [= <- _].
Qed.

Lemma buildScheduler_ok start tt rate d : sched_ok 0 (buildScheduler start tt rate d).
Proof.
  unfold buildScheduler, LinearRamp, NewClosedLoop, NewOpenLoop.
  destruct (String.eqb tt TestBenchmark); [done|]. destruct (String.eqb tt TestStress).
  - destruct (5 <=? 1); apply NewRamp_ok.
  - destruct (_ || _); done.
Qed.

(** A generator of [fa] that has been drawn from [t] times at most. *)
Definition gen_ok {R} (fa : Factory) (t : Z) (g : generator R) : Prop :=
  g_f g = fa /\ keyGen_ok (fa_localSpace fa) t (g_keys g) /\ g_vsize g = w_ValueSize (fa_w fa).

Lemma gen_ok_later {R} fa t (g : generator R) : gen_ok fa t g -> gen_ok fa (t + 1) g.
Proof. intros (E & Hk & Ev). split_and!; [done| |done]. destruct (g_keys g); cbn -[zipf_nil] in *; intuition lia. Qed.

Lemma Generator_ok {R} `{Rng R} fa shard : Factory_ok fa -> gen_ok fa 0 (Generator (R := R) fa shard).
Proof. intros (_ & Hl & _ & _ & _ & Hz & _). split_and!; [done| |done]. cbn. by apply newKeyGen_ok. Qed.

(** What every operation of a run satisfies. *)
Definition drawn (fa : Factory) (op : Operation) : Prop :=
  op_ok fa (w_ValueSize (fa_w fa)) op /\ is_i64 (op_Seq op).

Lemma gen_Next_ok {R} `{HR : Rng R} {HL : RngLaws R} fa t (g : generator R) :
  Factory_ok fa -> gen_ok fa t g -> 0 <= t < 2^62 ->
  exists op g', generator_Next g = Some (op, g') /\ drawn fa op /\ gen_ok fa (t + 1) g'.
Proof.
  intros Hf (<- & Hk & Ev) Ht.
  destruct (generator_Next_ok g t Hf Hk Ht) as (op & g' & E & Hop & Hseq & _ & Ef & Evs & Hk').
  exists op, g'. unfold drawn, gen_ok. rewrite <- Ev, Hseq. unfold i64_add.
  split_and!; try done. apply wrap64_range.
Qed.

Section runs.
Context {W C R H : Type} {HR : Rng R} {RL : RngLaws R} {HH : Histogram H} {Drv : Driver W C}.
Context (fa : Factory) (fa_ok : Factory_ok fa) (warmupEnd : Z).

Local Abbreviation state := (gstate W C (generator R) scheduler (Local H) recording).
Local Abbreviation worker := (wstate C (generator R) (Local H) recording).

Definition pc_drawn (pc : wpc) : Prop :=
  match pc with PExec _ op _ => drawn fa op | PDone c => drawn fa (c_op c) | _ => True end.

Definition worker_drawn (t : Z) (ws : worker) : Prop :=
  gen_ok fa t (ws_gen ws) /\ pc_drawn (ws_pc ws) /\ Forall (fun c => drawn fa (c_op c)) (ws_ops ws).

Definition run_drawn (t : Z) (g : state) : Prop :=
  sched_ok t (g_sched g) /\ Forall (worker_drawn t) (g_workers g).

Lemma worker_drawn_later t ws : worker_drawn t ws -> worker_drawn (t + 1) ws.
Proof. intros (Hg & Hp). split; [by apply gen_ok_later|done]. Qed.

Lemma start_op_drawn t now i (ws : worker) :
  worker_drawn t ws -> 0 <= t < 2^62 -> worker_drawn (t + 1) (start_op now i ws).
Proof.
  intros (Hg & _ & Ho) Ht. unfold start_op. cbn [gen_Next engine_collaborators].
  destruct (gen_Next_ok fa t _ fa_ok Hg Ht) as (op & g' & -> & Hop & Hg'). done.
Qed.

Lemma worker_step_drawn t now done pick sc w a (ws : worker) sc' w' a' ws' :
  worker_step warmupEnd now done pick sc w a ws = Some (sc', w', a', ws') ->
  sched_ok t sc -> worker_drawn t ws -> 0 <= t < 2^62 ->
  sched_ok (t + 1) sc' /\ worker_drawn (t + 1) ws'.
Proof.
  intros Hs Hsc Hw Ht. pose proof (worker_drawn_later _ _ Hw) as Hl. pose proof (sched_ok_later _ _ Hsc) as Hscl.
  assert (Hset : forall pc, pc_drawn pc -> worker_drawn (t + 1) (set_pc pc ws)).
  { intros pc Hpc. destruct Hl as (? & _ & ?). by split_and!. }
  assert (Hwoken : forall i (ok : bool),
    worker_drawn (t + 1) (if ok then start_op now i ws else set_pc PExit ws)).
  { intros i [|]; [by apply start_op_drawn|by apply Hset]. }
  destruct Hw as (Hg & Hpc & Ho). unfold worker_step in Hs.
  destruct (ws_pc ws) as [|i|i|i op d|c|[|x l]|] eqn:Epc; cbn in Hpc.
  - destruct done; [simplify_eq; by split; [|apply Hset]|]. cbn [sched_Next engine_collaborators] in Hs.
    destruct (Next_ok t sc now Hsc Ht) as ([i s'] & E & Hs'). rewrite E in Hs. simplify_eq.
    by split; [|apply Hset].
  - destruct (sleepUntil_enter now done i) as [ok|]; simplify_eq; (split; [done|]);
      [apply Hwoken|by apply Hset].
  - destruct (sleepUntil_select now done pick i) as [ok|]; simplify_eq. split; [done|apply Hwoken].
  - destruct (conn_Execute (ws_conn ws) op w) as [w1 res]. simplify_eq. by split; [|apply Hset].
  - destruct done; simplify_eq; (split; [done|]); [by apply Hset|].
    unfold observe. destruct (c_dispatch c <? warmupEnd); [by apply Hset|].
    destruct Hl as (Hgl & _ & _). split_and!; [done|done|]. cbn [ws_ops].
    apply Forall_app. split; [done|]. by constructor.
  - simplify_eq. by split; [|apply Hset].
  - simplify_eq. by split; [|apply Hset].
  - done.
Qed.

Lemma gstep_drawn t g g' : gstep warmupEnd g g' -> run_drawn t g -> 0 <= t < 2^62 -> run_drawn (t + 1) g'.
Proof.
  intros Hstep [Hsc Hw] Ht.
  assert (Hlater : Forall (worker_drawn (t + 1)) (g_workers g)).
  { eapply Forall_impl; [exact Hw|]. apply worker_drawn_later. }
  destruct Hstep as [g i pick ws sc w a ws' Hi Hs|g d Hd|g].
  2, 3: split; [by apply sched_ok_later|done].
  destruct (worker_step_drawn t _ _ _ _ _ _ _ _ _ _ _ Hs Hsc (proj1 (Forall_lookup _ _) Hw _ _ Hi) Ht).
  split; [done|]. by apply Forall_insert.
Qed.

Lemma gsteps_drawn n g g' t :
  nsteps (gstep warmupEnd) n g g' -> run_drawn t g -> 0 <= t -> t + Z.of_nat n <= 2^62 ->
  run_drawn (t + Z.of_nat n) g'.
Proof.
  intros Hn. revert t. induction Hn as [g|n g1 g2 g3 H12 _ IH]; intros t Hg Ht Hb.
  { by replace (t + Z.of_nat 0) with t by lia. }
  replace (t + Z.of_nat (Datatypes.S n)) with (t + 1 + Z.of_nat n) by lia.
  apply IH; [|lia|lia]. apply (gstep_drawn t g1); [done|done|lia].
Qed.

Lemma starts_drawn obs sinks tt rate d start conns base w1 :
  run_drawn 0 (run_init (fun shard => Generator fa shard) sinks obs (buildScheduler start tt rate d) conns base w1).
Proof.
  split; [apply buildScheduler_ok|]. cbn [run_init g_workers]. apply Forall_lookup. intros i ws Hi.
  rewrite list_lookup_imap in Hi. destruct (conns !! i); simplify_eq/=.
  split_and!; [by apply Generator_ok|done|constructor].
Qed.
End runs.

(** ** The recorder and the report *)

(** The event the sink receives for a measured call. *)
Definition event_of (c : completion) : event := (or_Type (c_res c), latency c, isErr c).

Lemma fails_events cs : fails (event_of <$> cs) = Z.of_nat (length (List.filter isErr cs)).
Proof.
  unfold fails. f_equal. induction cs as [|c cs IH]; [done|]. rewrite fmap_cons. cbn [List.filter].
  change ((event_of c).2) with (isErr c). destruct (isErr c); cbn [length]; by rewrite IH.
Qed.

Section sinks.
Context {W C R H : Type} {HR : Rng R} {HH : Histogram H} {HL : HistogramLaws H}.
Local Abbreviation state := (gstate W C (generator R) scheduler (Local H) recording).

Lemma record_all_holds high sig (l : Local H) evs cs :
  0 <= high -> l_high l = high -> l_sig l = sig -> local_holds high sig evs l ->
  exists l', record_all (Col := engine_collaborators (R := R)) (Some l) cs = Some l' /\
    l_high l' = high /\ l_sig l' = sig /\ local_holds high sig (evs ++ (event_of <$> cs)) l'.
Proof.
  intros Hh. revert l evs. induction cs as [|c cs IH]; intros l evs Eh Es Hl.
  { exists l. cbn. by rewrite app_nil_r. }
  destruct (local_holds_record high sig Hh evs l (or_Type (c_res c)) (latency c) (isErr c) Eh Es Hl)
    as (Hl' & Eh' & Es').
  destruct (IH _ _ Eh' Es' Hl') as (l' & E & Eh'' & Es'' & Hl''). exists l'.
  split; [exact E|]. split_and!; [done..|]. by rewrite <- app_assoc in Hl''.
Qed.

(** The locals of a finished run hold the measured calls. *)
Lemma sinks_hold high sig (g : state) :
  0 <= high ->
  (forall i ws, g_workers g !! i = Some ws ->
     ws_sink ws = record_all (Col := engine_collaborators (R := R)) (Some (newLocal high sig)) (ws_ops ws)) ->
  Forall2 (fun evs l => local_holds high sig evs l /\ l_high l = high /\ l_sig l = sig)
    ((fun ws => event_of <$> ws_ops ws) <$> g_workers g) (omap ws_sink (g_workers g)).
Proof.
  intros Hh Hs.
  assert (Hf : Forall (fun ws => ws_sink ws = record_all (Col := engine_collaborators (R := R))
    (Some (newLocal high sig)) (ws_ops ws)) (g_workers g)) by (apply Forall_lookup; eauto).
  induction Hf as [|ws l Hw _ IH]; [constructor|].
  destruct (record_all_holds high sig (newLocal high sig) [] (ws_ops ws) Hh eq_refl eq_refl
    (local_holds_new high sig)) as (l' & E & Eh & Es & Hl).
  change (omap ws_sink (ws :: l))
    with (match ws_sink ws with Some x => x :: omap ws_sink l | None => omap ws_sink l end).
  rewrite Hw, E, fmap_cons. constructor; [done|].
  apply IH. intros i ws' Hi. by apply (Hs (Datatypes.S i)).
Qed.

Lemma recorder_of_session (g : state) (r : Recorder H) :
  let high := r_high (NewRecorder (H := H) 0 0) in
  let sig := r_sig (NewRecorder (H := H) 0 0) in
  recorder_of g r ->
  (forall i ws, g_workers g !! i = Some ws ->
     ws_sink ws = record_all (Col := engine_collaborators (R := R)) (Some (newLocal high sig)) (ws_ops ws)) ->
  session_holds high sig (event_of <$> all_ops g) r.
Proof.
  intros high sig (Eh & Es & Hp) Hs.
  assert (Hh : 0 <= high) by apply NewRecorder_high.
  pose proof (sinks_hold high sig g Hh Hs) as Hf.
  assert (Hperm : exists evss, Forall2 (fun evs l => local_holds high sig evs l /\ l_high l = high /\ l_sig l = sig)
            evss (r_locals r) /\ evss ≡ₚ (fun ws => event_of <$> ws_ops ws) <$> g_workers g).
  { apply Forall2_flip in Hf. destruct (Permutation_Forall2 (Permutation_sym Hp) Hf) as (evss & Hq & Hf').
    exists evss. split; [by apply Forall2_flip|exact (Permutation_sym Hq)]. }
  destruct Hperm as (evss & Hf' & Hq). exists evss. split_and!.
  - split_and!; [done|done|]. eapply Forall2_impl; [exact Hf'|]. by intros ? ? [? _].
  - rewrite Hq. unfold all_ops. clear.
    induction (g_workers g) as [|ws l IH]; [done|]. cbn [fmap list_fmap mjoin list_join].
    rewrite fmap_app. by f_equiv.
  - apply Forall_forall. intros l Hl. apply list_elem_of_lookup in Hl as [i Hi].
    destruct (Forall2_lookup_r _ _ _ _ _ Hf' Hi) as (evs & _ & _ & ? & ?). done.
Qed.
End sinks.

(** ** What the observers leave *)

(** The records a connection hands to the expectation log. *)
Definition records_of (cs : list completion) : list WriteRecord :=
  omap (fun c => committed (c_op c, c_res c)) cs.

Lemma join_cons {A} (l : list A) ls : mjoin (l :: ls) = l ++ mjoin ls.
Proof. done. Qed.

(** The lines one file receives when several goroutines write to it, each its
    own lines in order. *)
Inductive interleaving {A} : list (list A) -> list A -> Prop :=
| il_done ls : Forall (fun l => l = []) ls -> interleaving ls []
| il_next ls i x l out :
    ls !! i = Some (x :: l) -> interleaving (<[i := l]> ls) out -> interleaving ls (x :: out).

Lemma interleaving_perm {A} (ls : list (list A)) out : interleaving ls out -> out ≡ₚ mjoin ls.
Proof.
  induction 1 as [ls Hn|ls i x l out Hi _ IH].
  - induction Hn as [|l ls -> _ IHn]; [done|exact IHn].
  - destruct (lookup_split _ _ _ Hi) as (l1 & l2 & -> & E). rewrite (E l) in IH.
    rewrite IH, !join_app. cbn [mjoin list_join]. cbn [app]. by rewrite <- Permutation_middle.
Qed.

Section observers.
Context {W C R H : Type} {HR : Rng R} {HH : Histogram H}.
Local Abbreviation state := (gstate W C (generator R) scheduler (Local H) recording).

(** The log records each connection wrote. *)
Definition logs (g : state) : list (list WriteRecord) :=
  omap (fun ws => match ws_obs ws with Some (RLog rs) => Some rs | _ => None end) (g_workers g).

Lemma observe_all_log rs cs :
  observe_all (Col := engine_collaborators (R := R) (H := H)) (Some (RLog rs)) cs = Some (RLog (rs ++ records_of cs)).
Proof.
  revert rs. induction cs as [|c cs IH]; intros rs; [by rewrite app_nil_r|].
  cbn [observe_all foldl fmap option_fmap option_map obs_Observe engine_collaborators Observe_recording].
  unfold observe_all in IH. rewrite IH. unfold records_of. cbn [omap list_omap].
  destruct (committed _); [by rewrite <- app_assoc|by rewrite app_nil_r].
Qed.

Lemma logs_records (g : state) :
  (forall i ws, g_workers g !! i = Some ws ->
     ws_obs ws = observe_all (Col := engine_collaborators (R := R) (H := H)) (Some (RLog [])) (ws_ops ws)) ->
  mjoin (logs g) = records_of (all_ops g).
Proof.
  intros Hs. unfold logs, all_ops.
  assert (Hf : Forall (fun ws => ws_obs ws = Some (RLog (records_of (ws_ops ws)))) (g_workers g)).
  { apply Forall_lookup. intros i ws Hi. by rewrite (Hs i ws Hi), observe_all_log. }
  clear Hs. set (f := fun ws : wstate C (generator R) (Local H) recording => _).
  induction Hf as [|ws l Hw _ IH]; [done|].
  change (omap f (ws :: l)) with (match f ws with Some x => x :: omap f l | None => omap f l end).
  unfold f at 1. rewrite Hw, fmap_cons, !join_cons, IH. unfold records_of. by rewrite omap_app.
Qed.
End observers.

(** ** The register workload *)

(** The labels the shipped register workload uses: reads are called [r]. *)
Definition register_labels (w : Workload) : Prop :=
  Forall (fun o => os_Type o = "r" \/ os_Type o = "w")%string (w_Operations w).

Lemma interleaving_elem {A} (ls : list (list A)) out x : interleaving ls out -> x ∈ out -> exists l, l ∈ ls /\ x ∈ l.
Proof. intros Hi Hx. rewrite (interleaving_perm _ _ Hi) in Hx. apply list_elem_of_join in Hx as (l & ? & ?). eauto. Qed.

Section histories.
Context {W C R H : Type} {HR : Rng R} {HH : Histogram H}.
Local Abbreviation state := (gstate W C (generator R) scheduler (Local H) recording).

(** The history lines each connection wrote. *)
Definition histories (g : state) : list (list History.Event) :=
  omap (fun ws => match ws_obs ws with Some (RHist _ evs) => Some evs | _ => None end) (g_workers g).

Lemma observe_all_hist p evs cs :
  observe_all (Col := engine_collaborators (R := R) (H := H)) (Some (RHist p evs)) cs
  = Some (RHist p (evs ++ ((fun c => History.Observe p (c_op c) (c_res c) (c_dispatch c) (c_done c)) <$> cs))).
Proof.
  revert evs. induction cs as [|c cs IH]; intros evs; [by rewrite app_nil_r|].
  cbn [observe_all foldl fmap option_fmap option_map obs_Observe engine_collaborators Observe_recording].
  unfold observe_all in IH. by rewrite IH, <- app_assoc.
Qed.

Lemma histories_events (g : state) l e :
  (forall i ws, g_workers g !! i = Some ws ->
     ws_obs ws = observe_all (Col := engine_collaborators (R := R) (H := H)) (Some (RHist (Z.of_nat i) [])) (ws_ops ws)) ->
  l ∈ histories g -> e ∈ l ->
  exists p c, c ∈ all_ops g /\ e = History.Observe p (c_op c) (c_res c) (c_dispatch c) (c_done c).
Proof.
  intros Hs Hl He. unfold histories in Hl. apply list_elem_of_omap in Hl as (ws & Hws & El).
  apply list_elem_of_lookup in Hws as [i Hi]. rewrite (Hs i ws Hi), observe_all_hist in El.
  injection El as <-. cbn [app] in He. apply list_elem_of_fmap in He as (c & -> & Hc).
  exists (Z.of_nat i), c. split; [|done]. unfold all_ops. apply list_elem_of_join.
  exists (ws_ops ws). split; [done|]. apply list_elem_of_fmap. exists ws. split; [done|].
  by eapply list_elem_of_lookup_2.
Qed.
End histories.

(** Whatever the target answers, an operation labelled [r] or [w] that carries a
    payload is recorded as a write. *)
Lemma labelled_write p op res invoke complete :
  op_Type op = "r"%string \/ op_Type op = "w"%string -> op_Value op <> [] ->
  ev_F (History.Observe p op res invoke complete) = fWrite /\
  ev_Invoke (History.Observe p op res invoke complete) = invoke /\
  ev_Complete (History.Observe p op res invoke complete) = complete.
Proof.
  intros Ht Hv. unfold History.Observe.
  assert (isAppendOp (op_Type op) = false) as -> by (destruct Ht as [-> | ->]; reflexivity).
  by destruct (op_Value op).
Qed.

(** A write the target acknowledged, and what it must read back as. *)
Definition acknowledged (c : completion) : Prop := or_Err (c_res c) = None /\ op_Value (c_op c) <> [].

Definition reads_back (res : OpResult) (v : bytes) : Prop :=
  or_Err res = None /\ (coerceBytes (or_Observed res)).2 = true /\
  Checksum (coerceBytes (or_Observed res)).1 = Checksum v.

Lemma acknowledged_record c :
  acknowledged c <-> exists r, committed (c_op c, c_res c) = Some r.
Proof.
  unfold acknowledged, committed. cbn [fst snd]. destruct (or_Err (c_res c)), (op_Value (c_op c)); naive_solver.
Qed.

Lemma committed_fields c r :
  committed (c_op c, c_res c) = Some r ->
  wr_Key r = op_Key (c_op c) /\ wr_Checksum r = Checksum (op_Value (c_op c)) /\ wr_Seq r = op_Seq (c_op c) /\
  acknowledged c.
Proof.
  unfold acknowledged, committed. cbn [fst snd].
  destruct (or_Err (c_res c)), (op_Value (c_op c)); try done. intros [= <-]. by split_and!.
Qed.

(** An interleaved log of operations that carry their key's payload expects every
    acknowledged write, and only those. *)
Lemma log_expects (value : Z -> bytes) cs rs :
  (forall c, c ∈ cs -> acknowledged c -> op_Value (c_op c) = value (op_Key (c_op c))) ->
  rs ≡ₚ records_of cs ->
  forall (good : Z -> Z -> Prop),
  (forall k r, foldl keepLatest ∅ rs !! k = Some r -> good k (wr_Checksum r)) <->
  (forall c, c ∈ cs -> acknowledged c -> good (op_Key (c_op c)) (Checksum (op_Value (c_op c)))).
Proof.
  intros Hv Hp good.
  assert (Hrec : forall r, r ∈ rs <-> exists c, c ∈ cs /\ committed (c_op c, c_res c) = Some r).
  { intros r. rewrite Hp. unfold records_of. rewrite list_elem_of_omap. done. }
  split.
  - intros Hall c Hc Ha. destruct (proj1 (acknowledged_record c) Ha) as [r0 Er0].
    destruct (committed_fields c r0 Er0) as (Ek0 & Es0 & _ & _).
    pose proof (keepLatest_correct rs (op_Key (c_op c))) as Hl.
    destruct (foldl keepLatest ∅ rs !! op_Key (c_op c)) as [r|] eqn:E.
    + specialize (Hall _ _ E). destruct (latest_max _ _ _ Hl) as (Hin & Hk & _).
      apply Hrec in Hin as (c' & Hc' & Ec'). destruct (committed_fields c' r Ec') as (Ek & Es & _ & Ha').
      rewrite Es, (Hv c' Hc' Ha') in Hall. rewrite (Hv c Hc Ha). by rewrite <- Ek, Hk in Hall.
    + rewrite Forall_forall in Hl. destruct (Hl r0); [|done]. apply Hrec. eauto.
  - intros Hall k r Hk. apply keepLatest_latest, latest_max in Hk as (Hin & <- & _).
    apply Hrec in Hin as (c & Hc & Ec). destruct (committed_fields c r Ec) as (-> & -> & _ & Ha). auto.
Qed.

Lemma records_of_ok fa cs :
  Factory_ok fa -> (forall c, c ∈ cs -> drawn fa (c_op c)) -> Forall record_ok (records_of cs).
Proof.
  intros (_ & _ & Hk & _) Hd. apply Forall_forall. intros r Hr.
  unfold records_of in Hr. apply list_elem_of_omap in Hr as (c & Hc & Ec).
  destruct (committed_fields c r Ec) as (E1 & E2 & E3 & _). destruct (Hd c Hc) as [(_ & Hr & _) Hs].
  unfold record_ok. rewrite E1, E2, E3. split_and!; [unfold is_i64; lia|apply Checksum_range|done].
Qed.

Lemma LogWriter_lines lines :
  LogWriter_Close (foldl LogWriter_Record (NewLogWriter []) lines) = log_text lines.
Proof.
  assert (Hgen : forall l lw, LogWriter_Close (foldl LogWriter_Record lw l) = LogWriter_Close lw ++ log_text l).
  { intros l. induction l as [|r l IH]; intros lw; cbn [foldl].
    - unfold log_text. cbn. by rewrite app_nil_r.
    - rewrite IH, LogWriter_Record_text, <- app_assoc. f_equal. by rewrite <- log_text_app. }
  apply Hgen.
Qed.

(** ** Properties of a whole run *)

Section properties.
Context {W C R H : Type} {HR : Rng R} {RL : RngLaws R} {HH : Histogram H} {Drv : Driver W C}.

(** The workloads the engine is run with: key space and weights stay in range. *)
Definition workload_bounds (pp : driveParams) : Prop :=
  w_KeySpace (dp_workload pp) + drive_count pp < 2^63 /\ zsum (weights (w_Operations (dp_workload pp))) < 2^63.

Lemma drive_factory pp fa :
  workload_bounds pp -> Workload.New (dp_workload pp) (dp_seed pp) (dp_workerID pp) (drive_count pp) = Ok fa ->
  Factory_ok fa.
Proof. intros [Hk Hw] Hn. by apply (New_ok _ _ _ _ _ Hn). Qed.

(** C27: No run panics: in every state a run reaches, whatever the interleaving,
    the shared schedule can answer a call at any clock reading and every
    connection's generator can produce its next operation (no index is out of range,
    no draw is from an empty range, no Zipf source is missing), for a run of up to
    [2^62] transitions. *)
Theorem drive_no_panic pp fa start base w1 conns k (g : gstate W C (generator R) scheduler (Local H) recording) :
  workload_bounds pp -> Workload.New (dp_workload pp) (dp_seed pp) (dp_workerID pp) (drive_count pp) = Ok fa ->
  nsteps (gstep (base + dp_warmup pp)) k (drive_starts pp fa start base w1 conns) g -> Z.of_nat k < 2^62 ->
  (forall now, Schedule.Next (g_sched g) now <> None) /\
  (forall ws, ws ∈ g_workers g -> generator_Next (ws_gen ws) <> None).
Proof.
  intros Hb Hn Hs Hk. pose proof (drive_factory _ _ Hb Hn) as Hf.
  destruct (gsteps_drawn fa Hf _ _ _ _ 0 Hs (starts_drawn fa Hf _ _ _ _ _ _ _ _ _)) as [Hsc Hw]; [lia|lia|].
  split.
  - intros now. destruct (Next_ok _ _ now Hsc) as (r & -> & _); [lia|done].
  - intros ws Hws. rewrite Forall_forall in Hw. destruct (Hw ws Hws) as (Hg & _).
    destruct (gen_Next_ok fa _ _ Hf Hg) as (op & g' & -> & _); [lia|done].
Qed.

Lemma New_workload w seed id n fa : Workload.New w seed id n = Ok fa -> fa_w fa = w.
Proof. by intros (? & ? & ? & ? & ? & _ & _ & _ & _ & _ & _ & ->)%New_inv. Qed.

(** The operations of a state all come from the generator. *)
Lemma run_drawn_ops fa t (g : gstate W C (generator R) scheduler (Local H) recording) :
  run_drawn fa t g -> forall c, c ∈ all_ops g -> drawn fa (c_op c).
Proof.
  intros [_ Hw]. apply Forall_forall. apply Forall_join, Forall_fmap.
  eapply Forall_impl; [exact Hw|]. by intros ws (_ & _ & ?).
Qed.

Lemma run_ops_measured warmupEnd gen sink obs sched conns base w
    (g : gstate W C (generator R) scheduler (Local H) recording) :
  rtc (gstep warmupEnd) (run_init gen sink obs sched conns base w) g -> Forall (measured warmupEnd) (all_ops g).
Proof.
  intros Hr. pose proof (run_inv_reach _ _ _ _ _ _ _ _ _ Hr) as Hinv.
  apply Forall_join, Forall_fmap. eapply Forall_impl; [exact (inv_workers _ _ _ _ Hinv)|]. by intros ws [_ ?].
Qed.

Lemma drive_done_reach pp t wake start base steps w w' rep rec g :
  drive (R := R) (H := H) pp t wake start base steps w w' (Ok (rep, rec, g)) ->
  exists fa w1 conns,
    Workload.New (dp_workload pp) (dp_seed pp) (dp_workerID pp) (drive_count pp) = Ok fa /\
    nsteps (gstep (base + dp_warmup pp)) steps (drive_starts pp fa start base w1 conns) g /\
    all_exited g /\ recorder_of g rec /\
    rep = report (g_acc g) (g_now g) (base + dp_warmup pp) (drive_options pp).
Proof. inversion 1; subst. eauto 10. Qed.

Lemma report_counts a now we o :
  rep_Total (report a now we o) = a_total a /\ rep_Errors (report a now we o) = a_errors a.
Proof. unfold report. by destruct (a_total a =? 0). Qed.

(** What a driven run leaves in its recorder and its report. *)
Lemma drive_session {HL : HistogramLaws H} pp t wake start base steps w w' rep rec g :
  drive (R := R) (H := H) pp t wake start base steps w w' (Ok (rep, rec, g)) ->
  session_holds (r_high (NewRecorder (H := H) 0 0)) (r_sig (NewRecorder (H := H) 0 0)) (event_of <$> all_ops g) rec /\
  rep_Total rep = wrap64 (Z.of_nat (length (all_ops g))) /\ rep_Errors rep = wrap64 (fails (event_of <$> all_ops g)).
Proof.
  intros Hd. apply drive_done_reach in Hd as (fa & w1 & conns & _ & Hs & Hx & Hrec & ->).
  apply rtc_nsteps_2 in Hs. destruct (run_final_acc _ _ _ _ _ _ _ _ _ Hs Hx) as [Hacc _].
  pose proof (run_inv_reach _ _ _ _ _ _ _ _ _ Hs) as Hinv.
  split; [exact (recorder_of_session g rec Hrec (fun i ws Hi => proj1 (inv_sinks _ _ _ _ Hinv i ws Hi)))|].
  destruct (report_counts (g_acc g) (g_now g) (base + dp_warmup pp) (drive_options pp)) as [-> ->].
  rewrite Hacc. cbn [tally a_total a_errors]. by rewrite fails_events.
Qed.

(** C26: After a run the recorder and the runner's report describe the same
    calls: every snapshot of the recorder, percentiles per operation type
    included, is the one a single recorder would give after recording all
    measured calls of all connections; its total and error count are those of
    the report. *)
Theorem drive_recorder_exact {HL : HistogramLaws H} pp t wake start base steps w w' rep rec g phase dur :
  drive (R := R) (H := H) pp t wake start base steps w w' (Ok (rep, rec, g)) ->
  Snapshot rec phase dur
    = Snapshot (run_actions (NewRecorder 0 0) (NewL :: map (Rec 0) (event_of <$> all_ops g))) phase dur /\
  rr_Total (Snapshot rec phase dur) = Z.of_nat (length (all_ops g)) /\
  rep_Total rep = wrap64 (rr_Total (Snapshot rec phase dur)) /\
  rep_Errors rep = rr_Errors (Snapshot rec phase dur).
Proof.
  intros Hd. apply drive_session in Hd as (Hses & -> & ->).
  pose proof (recorded_session (H := H) 0 0 (event_of <$> all_ops g)) as Hone.
  destruct (session_snapshot _ _ (NewRecorder_high (H := H) 0 0) _ _ _ phase dur Hses Hone) as (E & Et & Ee).
  split; [exact E|]. rewrite length_fmap in Et. split; [exact Et|]. by rewrite Et, Ee.
Qed.

(** What a run that was logged is reconciled to. *)
Lemma run_verified
    (unmarshal : text -> option WriteRecord)
    (unmarshal_marshal : forall r, record_ok r -> unmarshal (marshal r) = Some r)
    {Clk : Clock W} {WC : WorldClock W} (cluster : option (ClusterAware W))
    (o : ReconcileOptions) (rest : W -> Prop) (get : Z -> OpResult) (reads : Node -> Z -> result error OpResult)
    pp v t wake start base steps w w' rep rec g lines cfg wc w1 conn w2 fuel :
  drive (R := R) (H := H) pp t wake start base steps w w' (Ok (rep, rec, g)) ->
  workload_bounds pp -> Z.of_nat steps <= 2^62 ->
  dp_observer pp = observer v -> vf_kind v = Some KLog ->
  interleaving (logs g) lines ->
  quiescent o rest get conn -> replicas_quiescent cluster rest reads ->
  drv_Connect cfg wc = (w1, Ok conn) -> conn_Prepare conn (ro_Workload o) w1 = (w2, None) -> rest w2 ->
  (converge_fuel (ro_ConvergenceTimeout o) <= fuel)%nat ->
  exists expected,
    readLog unmarshal (LogWriter_Close (foldl LogWriter_Record (NewLogWriter []) lines)) = Ok expected /\
    forall order1 order2, order1 ≡ₚ map_to_list expected ->
    exists w'' vr,
      Reconcile fuel cluster cfg expected order1 order2 o wc = Some (w'', (vr, None)) /\
      (vr_Verdict vr = VerdictPass <->
         (forall c, c ∈ all_ops g -> acknowledged c ->
            reads_back (get (op_Key (c_op c))) (op_Value (c_op c))) /\
         sample_agrees o cluster reads cfg order2) /\
      (vr_Verdict vr = VerdictPass \/ vr_Verdict vr = VerdictFail).
Proof.
  intros Hd Hb Hst Hobs Hkind Hil Hq Hrq Hc Hp Hrest Hfuel.
  apply drive_done_reach in Hd as (fa & w1' & conns & Hn & Hs & _ & _ & _).
  pose proof (drive_factory _ _ Hb Hn) as Hf.
  pose proof (gsteps_drawn fa Hf _ _ _ _ 0 Hs (starts_drawn fa Hf _ _ _ _ _ _ _ _ _) ltac:(lia) ltac:(lia)) as Hw.
  pose proof (run_drawn_ops fa _ g Hw) as Hdrawn.
  apply rtc_nsteps_2 in Hs. pose proof (run_inv_reach _ _ _ _ _ _ _ _ _ Hs) as Hinv.
  assert (Hlogs : lines ≡ₚ records_of (all_ops g)).
  { rewrite (interleaving_perm _ _ Hil). apply reflexive_eq, logs_records. intros i ws Hi.
    rewrite (proj2 (inv_sinks _ _ _ _ Hinv i ws Hi)). cbn [drive_deps d_Observer].
    rewrite Hobs. unfold observer. by rewrite Hkind. }
  assert (Hok : Forall record_ok lines).
  { rewrite Hlogs. by apply (records_of_ok fa). }
  exists (foldl keepLatest ∅ lines). split.
  { rewrite LogWriter_lines. by apply readLog_text. }
  intros order1 order2 Ho.
  destruct (Reconcile_outcome o cluster rest get reads fuel cfg (foldl keepLatest ∅ lines) order1 order2 wc w1 conn w2
    Hq Hrq Hc Hp Hrest Hfuel Ho) as (w'' & vr & E & Hv & Hpf & _).
  exists w'', vr. split; [exact E|]. split; [|exact Hpf]. rewrite Hv. unfold intact, reads_back.
  rewrite (log_expects (fun k => Value k (w_ValueSize (fa_w fa))) (all_ops g) lines
    ltac:(intros c Hin Ha; destruct (Hdrawn c Hin) as [(_ & _ & _ & Hval) _], Ha as [_ Hne];
          rewrite Hval in Hne |- *; by destruct (isWrite _)) Hlogs
    (fun k sum => or_Err (get k) = None /\ (coerceBytes (or_Observed (get k))).2 = true /\
                  Checksum (coerceBytes (or_Observed (get k))).1 = sum)).
  done.
Qed.

(** C1: End to end: after any run that observed into an expectation log, whatever
    the interleaving of the connections, of their log lines and of the loops of
    reconciliation over its map, reading the log back succeeds, and reconciling
    against a target at rest returns a verdict, which is pass exactly when every
    write the target acknowledged during the measured phase reads back with its
    own value's checksum and every sampled key agrees on all replicas. *)
Theorem run_verified_end_to_end
    (unmarshal : text -> option WriteRecord)
    (unmarshal_marshal : forall r, record_ok r -> unmarshal (marshal r) = Some r)
    {Clk : Clock W} {WC : WorldClock W} (cluster : option (ClusterAware W))
    (o : ReconcileOptions) (rest : W -> Prop) (get : Z -> OpResult) (reads : Node -> Z -> result error OpResult)
    pp v t wake start base steps w w' rep rec g lines cfg wc w1 conn w2 fuel :
  drive (R := R) (H := H) pp t wake start base steps w w' (Ok (rep, rec, g)) ->
  workload_bounds pp -> Z.of_nat steps <= 2^62 ->
  dp_observer pp = observer v -> vf_kind v = Some KLog ->
  interleaving (logs g) lines ->
  quiescent o rest get conn -> replicas_quiescent cluster rest reads ->
  drv_Connect cfg wc = (w1, Ok conn) -> conn_Prepare conn (ro_Workload o) w1 = (w2, None) -> rest w2 ->
  (converge_fuel (ro_ConvergenceTimeout o) <= fuel)%nat ->
  exists expected,
    readLog unmarshal (LogWriter_Close (foldl LogWriter_Record (NewLogWriter []) lines)) = Ok expected /\
    forall order1 order2, order1 ≡ₚ map_to_list expected ->
    exists w'' vr,
      Reconcile fuel cluster cfg expected order1 order2 o wc = Some (w'', (vr, None)) /\
      (vr_Verdict vr = VerdictPass <->
         (forall c, c ∈ all_ops g -> acknowledged c ->
            reads_back (get (op_Key (c_op c))) (op_Value (c_op c))) /\
         sample_agrees o cluster reads cfg order2) /\
      (vr_Verdict vr = VerdictPass \/ vr_Verdict vr = VerdictFail).
Proof. by apply run_verified. Qed.

(** The register check cannot fail the register workload: the generator gives
    operations labelled [r] a payload, as it does every label it does not know
    as a read, so the recorder files them as writes, and a history without reads
    is linearizable.  After any run of a workload of [r] and [w] operations, whatever
    the target answered and however the lines interleaved, the verdict is not a
    failure. *)
Theorem register_workload_vacuous (check : list porcOp -> CheckResult)
    pp v t wake start base steps w w' rep rec g lines :
  drive (R := R) (H := H) pp t wake start base steps w w' (Ok (rep, rec, g)) ->
  workload_bounds pp -> Z.of_nat steps <= 2^62 ->
  register_labels (dp_workload pp) -> 0 < w_ValueSize (dp_workload pp) ->
  dp_observer pp = observer v -> vf_kind v = Some KHistory ->
  interleaving (histories g) lines -> Z.of_nat (length lines) < 2^63 ->
  check_sound check ->
  vr_Verdict (CheckRegister check (foldl add_event History_empty lines)) <> VerdictFail.
Proof.
  intros Hd Hb Hst Hlab Hsize Hobs Hkind Hil Hlen Hc.
  apply drive_done_reach in Hd as (fa & w1' & conns & Hn & Hs & _ & _ & _).
  pose proof (drive_factory _ _ Hb Hn) as Hf.
  pose proof (gsteps_drawn fa Hf _ _ _ _ 0 Hs (starts_drawn fa Hf _ _ _ _ _ _ _ _ _) ltac:(lia) ltac:(lia)) as Hw.
  pose proof (run_drawn_ops fa _ g Hw) as Hdrawn.
  apply rtc_nsteps_2 in Hs. pose proof (run_inv_reach _ _ _ _ _ _ _ _ _ Hs) as Hinv.
  pose proof (run_ops_measured _ _ _ _ _ _ _ _ _ Hs) as Hm.
  apply write_history_never_fails; [done..|]. apply Forall_forall. intros e He.
  destruct (interleaving_elem _ _ _ Hil He) as (l & Hl & Hel).
  destruct (histories_events g l e) as (p & c & Hin & ->); [|done..|].
  { intros i ws Hi. rewrite (proj2 (inv_sinks _ _ _ _ Hinv i ws Hi)). cbn [drive_deps d_Observer].
    rewrite Hobs. unfold observer. by rewrite Hkind. }
  destruct (Hdrawn c Hin) as [(_ & _ & Hty & Hval) _]. apply New_workload in Hn. rewrite Hn in Hty, Hval.
  apply list_elem_of_fmap in Hty as (o & Eo & Ho). unfold register_labels in Hlab. rewrite Forall_forall in Hlab.
  specialize (Hlab o Ho). rewrite <- Eo in Hlab.
  destruct (labelled_write p (c_op c) (c_res c) (c_dispatch c) (c_done c) Hlab) as (-> & -> & ->).
  - rewrite Hval. assert (isWrite (op_Type (c_op c)) = true) as -> by (destruct Hlab as [-> | ->]; reflexivity).
    intros E. pose proof (length_Value (op_Key (c_op c)) (w_ValueSize (dp_workload pp))) as Hlv. rewrite E in Hlv.
    cbn in Hlv. lia.
  - split; [done|]. rewrite Forall_forall in Hm. destruct (Hm c Hin). lia.
Qed.
End properties.

(** ** The stress ramp *)

(** The five steps of a stress test: equal durations, rates from a fifth of the
    ceiling to the ceiling. *)
Definition stress_steps (top duration : Z) : list RateStep :=
  (fun i => {| st_OpsPerSec := linearRate (Z.max 1 (top / 5)) top 5 i; st_Duration := duration / 5 |}) <$> seqZ 0 5.

Lemma usable_all steps :
  Forall (fun s => 0 < st_OpsPerSec s /\ 0 < st_Duration s) steps -> List.filter usable steps = steps.
Proof.
  induction 1 as [|s steps Hs _ IH]; [done|]. cbn [List.filter].
  by rewrite (proj2 (usable_spec s) Hs), IH.
Qed.

(** A stress test ramps to its ceiling: the schedule built for it issues the
    calls of five equal steps, the first at a fifth of the ceiling (at least one
    operation per second), the last at the ceiling, no step outside the two. *)
Theorem stress_ramps_to_ceiling start top duration n :
  1 <= top <= second -> 5 <= duration <= second * second -> 0 <= n <= 8 * 10^9 ->
  let rates := st_OpsPerSec <$> stress_steps top duration in
  head rates = Some (Z.max 1 (top / 5)) /\ last rates = Some top /\
  Forall (fun r => Z.max 1 (top / 5) <= r <= top) rates /\
  exists r,
    buildScheduler start TestStress {| rate_Mode := RateFixed; rate_OpsPerSec := top |} duration = SRamp r /\
    offsetForIndex r n = rampSpec (stress_steps top duration) n.
Proof.
  intros Ht Hd Hn rates.
  assert (Hfrom : 1 <= Z.max 1 (top / 5) <= top).
  { split; [lia|]. apply Z.max_lub; [lia|]. apply Z.div_le_upper_bound; lia. }
  assert (Hstep : 0 < duration / 5 /\ duration / 5 * 5 <= duration).
  { split; [apply Z.div_str_pos; lia|]. pose proof (Z.div_mod duration 5). pose proof (Z.mod_pos_bound duration 5). lia. }
  assert (Hlr : forall i, 0 <= i < 5 -> linearRate (Z.max 1 (top / 5)) top 5 0 = Z.max 1 (top / 5) /\
      linearRate (Z.max 1 (top / 5)) top 5 (5 - 1) = top /\
      Z.max 1 (top / 5) <= linearRate (Z.max 1 (top / 5)) top 5 i <= top).
  { intros i Hi. apply linearRate_spec; unfold second in *; lia. }
  assert (Hall : Forall (fun s => Z.max 1 (top / 5) <= st_OpsPerSec s <= top /\ st_Duration s = duration / 5)
                   (stress_steps top duration)).
  { unfold stress_steps. apply Forall_fmap, Forall_forall. intros i Hi%elem_of_seqZ. cbn.
    split; [|done]. by apply Hlr. }
  assert (Huse : List.filter usable (stress_steps top duration) = stress_steps top duration).
  { apply usable_all. eapply Forall_impl; [exact Hall|]. cbn. intros s [? ->]. lia. }
  assert (Hbounds : ramp_bounds (stress_steps top duration)).
  { split; [eapply Forall_impl; [exact Hall|]; cbn; intros s [? _]; lia|]. rewrite Huse. unfold stress_steps.
    change (seqZ 0 5) with [0; 1; 2; 3; 4]. cbn [fmap list_fmap zsum st_Duration]. lia. }
  destruct (Hlr 0 ltac:(lia)) as (H0 & H4 & _). split_and!.
  - unfold rates, stress_steps. change (seqZ 0 5) with [0; 1; 2; 3; 4].
    cbn [fmap list_fmap head st_OpsPerSec]. by rewrite H0.
  - unfold rates, stress_steps. change (seqZ 0 5) with [0; 1; 2; 3; 5 - 1].
    cbn [fmap list_fmap last st_OpsPerSec]. by rewrite H4.
  - unfold rates. apply Forall_fmap. eapply Forall_impl; [exact Hall|]. by intros s [? _].
  - exists {| rp_start := start; rp_segs := rampSegs (stress_steps top duration) 0 0; rp_n := 0 |}. split.
    + assert (Ebuild : buildScheduler start TestStress {| rate_Mode := RateFixed; rate_OpsPerSec := top |} duration
                       = NewRamp start (stress_steps top duration)).
      { unfold buildScheduler. cbn [String.eqb TestStress TestBenchmark rate_OpsPerSec].
        rewrite !Z.quot_div_nonneg by lia.
        destruct (top / 5 <? 1) eqn:E1, (duration / 5 <=? 0) eqn:E2; zbool; try lia.
        - unfold LinearRamp, stress_steps. by replace (Z.max 1 (top / 5)) with 1 by lia.
        - unfold LinearRamp, stress_steps. by replace (Z.max 1 (top / 5)) with (top / 5) by lia. }
      rewrite Ebuild. unfold NewRamp. destruct (rampSegs (stress_steps top duration) 0 0) eqn:E; [|done].
      exfalso. unfold stress_steps in E. change (seqZ 0 5) with [0; 1; 2; 3; 4] in E. cbn [fmap list_fmap rampSegs st_OpsPerSec st_Duration] in E.
      destruct (_ || _) eqn:Eo; [|done]. apply orb_true_iff in Eo as [Eo|Eo]; zbool; lia.
    + rewrite ramp_refines_aux by done. by rewrite Huse.
Qed.

Lemma stress_ramps_to_ceiling_witness :
  let rates := st_OpsPerSec <$> stress_steps 1000 (10 * second) in
  head rates = Some (Z.max 1 (1000 / 5)) /\ last rates = Some 1000 /\
  Forall (fun r => Z.max 1 (1000 / 5) <= r <= 1000) rates /\
  exists r,
    buildScheduler 7 TestStress {| rate_Mode := RateFixed; rate_OpsPerSec := 1000 |} (10 * second) = SRamp r /\
    offsetForIndex r 500 = rampSpec (stress_steps 1000 (10 * second)) 500.
Proof. apply (stress_ramps_to_ceiling 7 1000 (10 * second) 500); unfold second; lia. Defined.

(** ** A run against a concrete target *)

(** A store that keeps what is written; its world is a clock and a map. *)
Definition map_world : Type := Z * gmap Z bytes.

#[local] Instance map_driver : Driver map_world unit := {|
  drv_Connect _ w := (w, Ok tt);
  conn_Prepare _ _ w := (w, None);
  conn_Execute _ op w :=
    match op_Value op with
    | [] => ((w.1 + 1, w.2),
             {| or_Type := op_Type op; or_Rows := 1;
                or_Observed := match w.2 !! op_Key op with Some b => ABytes (Some b) | None => ANil end;
                or_Err := None |})
    | v => ((w.1 + 1, <[op_Key op := v]> w.2),
            {| or_Type := op_Type op; or_Rows := 1; or_Observed := ANil; or_Err := None |})
    end;
  conn_Close _ w := (w, None)
|}.

#[local] Instance map_clock : Clock map_world := {|
  now w := (w, w.1);
  wait d w := ((w.1 + Z.max d 0, w.2), None);
  ctx_Err _ := None
|}.

#[local] Instance map_world_clock : WorldClock map_world.
Proof. refine {| time_of w := w.1 |}; cbn; intros; simplify_eq/=; lia. Defined.

(** A histogram of a single bucket. *)
#[local] Instance coarse_histogram : Histogram HSnapshot := {|
  h_New lo hi sig := {| hs_Lowest := lo; hs_Highest := hi; hs_SigFigs := sig; hs_Counts := [0] |};
  h_RecordValue v s := {| hs_Lowest := hs_Lowest s; hs_Highest := hs_Highest s; hs_SigFigs := hs_SigFigs s;
                          hs_Counts := alter (Z.add 1) 0%nat (hs_Counts s) |};
  h_Merge a b := {| hs_Lowest := hs_Lowest a; hs_Highest := hs_Highest a; hs_SigFigs := hs_SigFigs a;
                    hs_Counts := zip_with Z.add (hs_Counts a) (hs_Counts b) |};
  h_TotalCount s := zsum (hs_Counts s);
  h_Mean s := float_of_int (zsum (hs_Counts s));
  h_ValueAtQuantile _ s := zsum (hs_Counts s);
  h_Max s := zsum (hs_Counts s);
  h_Export s := s;
  h_Import s := s;
  h_Encode s := Ok (pos_string (encode (hs_Lowest s, hs_Highest s, hs_SigFigs s, hs_Counts s)));
  h_Decode b := match decode (A := Z * Z * Z * list Z) (string_pos b) with
                | Some (lo, hi, sig, counts) =>
                    Ok {| hs_Lowest := lo; hs_Highest := hi; hs_SigFigs := sig; hs_Counts := counts |}
                | None => Err "bad encoding"%string
                end
|}.

#[local] Instance coarse_histogram_laws : HistogramLaws HSnapshot.
Proof.
  refine {| h_len _ _ := 1%nat; h_bucket _ _ _ := 0%nat |}; cbn.
  - intros. lia.
  - done.
  - by intros v h hi sig counts -> _.
  - by intros h1 h2 hi sig c1 c2 -> -> _.
  - done.
  - done.
  - eauto.
  - intros h b [= <-]. rewrite string_pos_string, decode_encode. eexists. split; [done|]. by destruct h.
  - by intros h1 h2 ->.
  - by intros q h1 h2 ->.
  - by intros h1 h2 ->.
Defined.

Definition sample_verification : verification :=
  {| vf_model := VerifyReconciliation; vf_path := "log"; vf_kind := Some KLog; vf_readOp := "read" |}.

Definition sample_params : driveParams :=
  {| dp_workload := sample_workload;
     dp_cfg := {| cfg_Endpoints := ["a:1"]; cfg_Consistency := "";
                  cfg_Cluster := {| cs_Nodes := []; cs_ReplicationFactor := 1; cs_Consistency := [] |};
                  cfg_Params := ∅ |};
     dp_rate := RateSpec_zero; dp_connections := 2; dp_warmup := 0; dp_duration := 50; dp_seed := 42;
     dp_workerID := 0; dp_workerCount := 1; dp_startAt := zero_time;
     dp_observer := observer sample_verification; dp_testType := TestBenchmark |}.

Definition sample_fa : Factory :=
  match New sample_workload 42 0 1 with Ok f => f | Err _ => sample_factory end.

Local Abbreviation sample_state :=
  (gstate map_world unit (generator PCG) scheduler (Local HSnapshot) recording).

Definition sample_begin : sample_state :=
  drive_starts sample_params sample_fa 100 100 (0, ∅) [tt; tt].

(** Each connection completes three calls, then the context expires. *)
Definition sample_moves : list move :=
  let both n := mjoin ((fun _ => [MRun 0 false; MRun 1 false]) <$> seq 0 n) in
  both 30%nat ++ [MExpire] ++ both 1%nat.

Definition has_exited {C} (ws : wstate C (generator PCG) (Local HSnapshot) recording) : bool :=
  match ws_pc ws with PExit => true | _ => false end.

(** What the connections did and logged. *)
Example sample_outcome :
  fmap (fun g : sample_state => (a_total (g_acc g), forallb has_exited (g_workers g), length (mjoin (logs g)),
                  size (g_world g).2)) (exec 100 sample_begin sample_moves)
  = Some (6, true, 2%nat, 2%nat).
Proof. vm_compute. reflexivity. Qed.

(** An executed schedule reaches a state in which all have returned. *)
Lemma executed {W C} {Drv : Driver W C} (s0 : gstate W C (generator PCG) scheduler (Local HSnapshot) recording) ms
    (P : gstate W C (generator PCG) scheduler (Local HSnapshot) recording -> bool) :
  match exec 100 s0 ms with Some g => forallb has_exited (g_workers g) && P g | None => false end = true ->
  exists g, nsteps (gstep 100) (length ms) s0 g /\ all_exited g /\ P g = true.
Proof.
  destruct (exec 100 s0 ms) as [g|] eqn:E; [|done]. intros [Hp HP]%andb_true_iff.
  exists g. split; [by apply exec_steps|]. split; [|done]. unfold all_exited. rewrite forallb_forall in Hp.
  apply Forall_forall. intros ws Hws%list_elem_of_In. specialize (Hp ws Hws). unfold has_exited in Hp.
  by destruct (ws_pc ws).
Qed.

Lemma sample_reached :
  exists g : sample_state, nsteps (gstep 100) (length sample_moves) sample_begin g /\ all_exited g.
Proof.
  destruct (executed sample_begin sample_moves (fun _ => true)) as (g & ? & ? & _); [|by exists g].
  vm_compute. reflexivity.
Qed.

Definition sample_recorder_of (g : sample_state) : Recorder HSnapshot :=
  {| r_high := r_high (NewRecorder (H := HSnapshot) 0 0); r_sig := r_sig (NewRecorder (H := HSnapshot) 0 0);
     r_locals := omap ws_sink (g_workers g); r_prevSnap := ∅; r_prevErr := ∅ |}.

Definition sample_report (g : sample_state) : RunReport :=
  report (g_acc g) (g_now g) 100 (drive_options sample_params).

Lemma sample_drive (g : sample_state) :
  nsteps (gstep 100) (length sample_moves) sample_begin g -> all_exited g ->
  drive (R := PCG) (H := HSnapshot) sample_params 100 Cancelled 100 100 (length sample_moves) (0, ∅)
    (closeAll [tt; tt] (g_world g)) (Ok (sample_report g, sample_recorder_of g, g)).
Proof.
  intros Hs Hx.
  apply (drive_done sample_params 100 Cancelled 100 100 (length sample_moves) (0, ∅) sample_fa (0, ∅) [tt; tt] g);
    try reflexivity; [done|exact Hs|exact Hx|by split_and!].
Qed.

Lemma sample_bounds : workload_bounds sample_params.
Proof. by split. Qed.

Lemma drive_no_panic_witness :
  exists g : sample_state, all_exited g /\
    (forall now, Schedule.Next (g_sched g) now <> None) /\
    (forall ws, ws ∈ g_workers g -> generator_Next (ws_gen ws) <> None).
Proof.
  destruct sample_reached as (g & Hs & Hx). exists g. split; [exact Hx|].
  exact (drive_no_panic sample_params sample_fa 100 100 (0, ∅) [tt; tt] (length sample_moves) g
    sample_bounds eq_refl Hs eq_refl).
Defined.

Lemma drive_recorder_exact_witness :
  exists g : sample_state, all_exited g /\
    let rec := sample_recorder_of g in
    Snapshot rec PhaseMeasure 50
      = Snapshot (run_actions (NewRecorder 0 0) (NewL :: map (Rec 0) (event_of <$> all_ops g))) PhaseMeasure 50 /\
    rr_Total (Snapshot rec PhaseMeasure 50) = Z.of_nat (length (all_ops g)) /\
    rep_Total (sample_report g) = wrap64 (rr_Total (Snapshot rec PhaseMeasure 50)) /\
    rep_Errors (sample_report g) = rr_Errors (Snapshot rec PhaseMeasure 50).
Proof.
  destruct sample_reached as (g & Hs & Hx). exists g. split; [exact Hx|].
  exact (drive_recorder_exact sample_params _ _ _ _ _ _ _ _ _ g PhaseMeasure 50 (sample_drive g Hs Hx)).
Defined.

(** Writing one log after the other is an interleaving. *)
Lemma interleaving_sequential {A} (pre ls : list (list A)) :
  Forall (fun l => l = []) pre -> interleaving (pre ++ ls) (mjoin ls).
Proof.
  revert pre. induction ls as [|l ls IH]; intros pre Hpre.
  { rewrite app_nil_r. by constructor. }
  induction l as [|x l IHl].
  - replace (pre ++ [] :: ls) with ((pre ++ [[]]) ++ ls) by by rewrite <- app_assoc.
    apply IH. apply Forall_app. by repeat constructor.
  - rewrite join_cons in IHl |- *. rewrite <- app_comm_cons. apply (il_next _ (length pre) x l).
    + by rewrite list_lookup_middle.
    + rewrite insert_app_r_alt, Nat.sub_diag by lia. exact IHl.
Qed.

Definition map_options : ReconcileOptions :=
  {| ro_ReadOp := "read"; ro_Workload := sample_workload; ro_ConvergenceSample := 200;
     ro_ConvergenceTimeout := 5 * second |}.

(** What the store returns once it holds [m]. *)
Definition map_get (m : gmap Z bytes) (k : Z) : OpResult :=
  (conn_Execute tt (read_op map_options k) (0, m)).2.

Lemma run_verified_end_to_end_witness :
  exists g : sample_state, all_exited g /\
    let m := (g_world g).2 in
    exists expected,
      readLog strict_unmarshal (LogWriter_Close (foldl LogWriter_Record (NewLogWriter []) (mjoin (logs g)))) = Ok expected /\
      forall order1 order2, order1 ≡ₚ map_to_list expected ->
      exists w'' vr,
        Reconcile 1002 None (dp_cfg sample_params) expected order1 order2 map_options (0, m) = Some (w'', (vr, None)) /\
        (vr_Verdict vr = VerdictPass <->
           (forall c, c ∈ all_ops g -> acknowledged c ->
              reads_back (map_get m (op_Key (c_op c))) (op_Value (c_op c))) /\
           sample_agrees (W := map_world) map_options None (fun _ _ => Err ""%string) (dp_cfg sample_params) order2) /\
        (vr_Verdict vr = VerdictPass \/ vr_Verdict vr = VerdictFail).
Proof.
  destruct sample_reached as (g & Hs & Hx). exists g. split; [exact Hx|]. intros m.
  refine (run_verified_end_to_end strict_unmarshal strict_unmarshal_marshal None map_options
    (fun w => w.2 = m) (map_get m) (fun _ _ => Err ""%string) sample_params sample_verification
    _ _ _ _ _ _ _ _ _ g (mjoin (logs g)) (dp_cfg sample_params) (0, m) (0, m) tt (0, m) 1002
    (sample_drive g Hs Hx) sample_bounds _ eq_refl eq_refl (interleaving_sequential [] (logs g) (List.Forall_nil _)) _ I
    eq_refl eq_refl eq_refl _).
  - vm_compute. congruence.
  - intros k [t m'] Hm. cbn in Hm. by subst m'.
  - vm_compute. lia.
Defined.

(** The register workload, observed into a history. *)
Definition register_workload : Workload :=
  {| w_Name := "register"; w_Mode := ModeCorrectness;
     w_Operations := [{| os_Type := "r"; os_Weight := 50 |}; {| os_Type := "w"; os_Weight := 50 |}];
     w_KeySpace := 1000; w_KeyDist := DistUniform; w_ValueSize := 16;
     w_VerifyModel := VerifyRegister; w_Params := ∅ |}.

Definition register_verification : verification :=
  {| vf_model := VerifyRegister; vf_path := "history"; vf_kind := Some KHistory; vf_readOp := "" |}.

Definition register_params : driveParams :=
  {| dp_workload := register_workload; dp_cfg := dp_cfg sample_params; dp_rate := RateSpec_zero;
     dp_connections := 2; dp_warmup := 0; dp_duration := 50; dp_seed := 42;
     dp_workerID := 0; dp_workerCount := 1; dp_startAt := zero_time;
     dp_observer := observer register_verification; dp_testType := TestBenchmark |}.

Definition register_fa : Factory :=
  match New register_workload 42 0 1 with Ok f => f | Err _ => sample_factory end.

Definition register_begin : sample_state :=
  drive_starts register_params register_fa 100 100 (0, ∅) [tt; tt].

(** Six operations, of both labels; six write events. *)
Example register_outcome :
  fmap (fun g : sample_state => (forallb has_exited (g_workers g), op_Type ∘ c_op <$> all_ops g, ev_F <$> mjoin (histories g)))
    (exec 100 register_begin sample_moves)
  = Some (true, ["r"; "w"; "w"; "r"; "r"; "w"], ["write"; "write"; "write"; "write"; "write"; "write"])%string.
Proof. vm_compute. reflexivity. Qed.

Lemma register_reached :
  exists g : sample_state, nsteps (gstep 100) (length sample_moves) register_begin g /\ all_exited g /\
    length (mjoin (histories g)) = 6%nat.
Proof.
  destruct (executed register_begin sample_moves (fun g => Nat.eqb (length (mjoin (histories g))) 6))
    as (g & ? & ? & E); [vm_compute; reflexivity|]. exists g. split_and!; [done..|by apply Nat.eqb_eq].
Qed.

Lemma register_workload_vacuous_witness :
  exists g : sample_state, all_exited g /\
    vr_Verdict (CheckRegister brute_check (foldl add_event History_empty (mjoin (histories g)))) <> VerdictFail.
Proof.
  destruct register_reached as (g & Hs & Hx & Hlen). exists g. split; [exact Hx|].
  refine (register_workload_vacuous brute_check register_params register_verification
    100 Cancelled 100 100 (length sample_moves) (0, ∅) _ _ _ g (mjoin (histories g))
    (drive_done register_params 100 Cancelled 100 100 (length sample_moves) (0, ∅) register_fa (0, ∅) [tt; tt] g
       (sample_recorder_of g) eq_refl (Z.le_refl 100) eq_refl eq_refl Hs Hx _)
    _ _ _ eq_refl eq_refl eq_refl (interleaving_sequential [] (histories g) (List.Forall_nil _)) _ brute_check_sound).
  - by split_and!.
  - by split.
  - vm_compute. congruence.
  - repeat constructor; by (left + right).
  - rewrite Hlen. reflexivity.
Defined.
