(* ===== verification/KeyValue.v ===== *)
(** * KeyValue: what reconciliation presumes of a target

    A target keeps a value under a key.  The class [KeyValue] says what each
    operation label does to what it keeps; the drivers' files discharge it from
    the documented behaviour of their client.  Against the interface this file
    proves that a run of the engine over such a target ends with every
    acknowledged write in the store, so that reconciliation finds it. *)

From S2P Require Import Schedule Rand Prelude Domain Strconv Checksum Workload Metrics Expect Driver Reconcile.
From S2P Require Import History Config Runner Engine.

Local Open Scope Z_scope.
Local Open Scope go_scope.

(** [kv_ok] holds of the states the program's own calls lead to, [kv_conn] of the
    connections opened with a configuration in [kv_cfg]; [kv_get w k] is what the target keeps under [k].  A label in [kv_writes]
    may store its payload, whatever it answers; one in [kv_upserts] has done so
    when it answers without error, unless the target is [kv_versioned] and keeps
    what it had under the key as newer; one in [kv_reads] returns what is kept. *)
Class KeyValue (W C : Type) {Drv : Driver W C} := {
  kv_ok : W -> Prop;
  kv_cfg : Config -> Prop;
  kv_conn : C -> Prop;
  kv_get : W -> Z -> option bytes;
  kv_writes : OpType -> bool;
  kv_upserts : OpType -> bool;
  kv_reads : OpType -> bool;
  kv_versioned : bool;
  kv_payload t : kv_writes t = true -> isWrite t = true;
  kv_connect cfg w : kv_ok w ->
    kv_ok (drv_Connect cfg w).1 /\ forall k, kv_get (drv_Connect cfg w).1 k = kv_get w k;
  kv_connected cfg w c : kv_cfg cfg -> (drv_Connect cfg w).2 = Ok c -> kv_conn c;
  kv_prepare c wl w : kv_ok w ->
    kv_ok (conn_Prepare c wl w).1 /\ forall k, kv_get (conn_Prepare c wl w).1 k = kv_get w k;
  kv_close c w : kv_ok w ->
    kv_ok (conn_Close c w).1 /\ forall k, kv_get (conn_Close c w).1 k = kv_get w k;
  kv_execute c op w : kv_conn c -> kv_ok w -> kv_ok (conn_Execute c op w).1;
  kv_effect c op w : kv_conn c -> kv_ok w ->
    let w' := (conn_Execute c op w).1 in
    (forall k, kv_get w' k = kv_get w k) \/
    (kv_writes (op_Type op) = true /\
     (is_i64 (op_Key op) -> forall k, is_i64 k ->
      kv_get w' k = if decide (k = op_Key op) then Some (op_Value op) else kv_get w k));
  kv_stored c op w : kv_conn c -> kv_ok w ->
    kv_upserts (op_Type op) = true -> or_Err (conn_Execute c op w).2 = None ->
    kv_get (conn_Execute c op w).1 (op_Key op) = Some (op_Value op) \/
    (kv_versioned = true /\ kv_get w (op_Key op) <> None /\
     kv_get (conn_Execute c op w).1 (op_Key op) = kv_get w (op_Key op));
  kv_read c op w : kv_conn c -> kv_ok w ->
    kv_reads (op_Type op) = true ->
    (forall k, kv_get (conn_Execute c op w).1 k = kv_get w k) /\
    (or_Err (conn_Execute c op w).2 = None ->
     coerceBytes (or_Observed (conn_Execute c op w).2)
       = match kv_get w (op_Key op) with Some v => (v, true) | None => ([], false) end)
}.

(** Workloads whose payloads are all stored on success: every label the
    generator gives a payload is an upsert of the target. *)
Definition supported {W C} {Drv : Driver W C} {KV : KeyValue W C} (wl : Workload) : Prop :=
  Forall (fun os => isWrite (os_Type os) = true -> kv_upserts (os_Type os) = true) (w_Operations wl).

#[export] Instance supported_dec {W C} {Drv : Driver W C} {KV : KeyValue W C} wl : Decision (supported wl).
Proof. unfold supported. apply _. Defined.

(** What a versioned target must not start with: values of another run, which
    it could take for newer than this run's. *)
Definition clean {W C} {Drv : Driver W C} {KV : KeyValue W C} (vsize : Z) (w : W) : Prop :=
  kv_versioned = true -> forall k v, is_i64 k -> kv_get w k = Some v -> v = Value k vsize.

(** ** The store over a run *)

Section runs.
Context {W C R H : Type} {HR : Rng R} {RL : RngLaws R} {HH : Histogram H} {Drv : Driver W C} {KV : KeyValue W C}.
Context (fa : Factory) (fa_ok : Factory_ok fa) (fa_supported : supported (fa_w fa)) (warmupEnd : Z).

Local Abbreviation state := (gstate W C (generator R) scheduler (Local H) recording).
Local Abbreviation worker := (wstate C (generator R) (Local H) recording).

(** An acknowledged call's payload is in the store. *)
Definition kept (w : W) (c : completion) : Prop :=
  acknowledged c -> kv_get w (op_Key (c_op c)) = Some (op_Value (c_op c)).

Definition worker_kept (w : W) (ws : worker) : Prop :=
  kv_conn (ws_conn ws) /\
  match ws_pc ws with PDone c => kept w c | _ => True end /\ Forall (kept w) (ws_ops ws).

Local Abbreviation clean_world := (clean (w_ValueSize (fa_w fa))).

Definition run_kept (g : state) : Prop :=
  kv_ok (g_world g) /\ clean_world (g_world g) /\ Forall (worker_kept (g_world g)) (g_workers g).

Lemma drawn_key op : drawn fa op -> is_i64 (op_Key op).
Proof.
  intros [(_ & Hr & _) _]. destruct fa_ok as (_ & _ & Hk & _). unfold is_i64. lia.
Qed.

Lemma clean_execute c op w : kv_conn c -> drawn fa op -> kv_ok w -> clean_world w -> clean_world (conn_Execute c op w).1.
Proof.
  intros Hcn Hd Hok Hc Hv k v Hk. pose proof (drawn_key op Hd) as Hi. destruct Hd as [(_ & _ & _ & Hop) _].
  destruct (kv_effect c op w Hcn Hok) as [->|[Hw Heff]]; [by apply Hc|]. rewrite Heff by done.
  case_decide as Ek; [|by apply Hc]. intros [= <-]. apply kv_payload in Hw. by rewrite Hop, Hw, Ek.
Qed.

(** Executing an operation of the generator disturbs no payload in the store:
    it can only write the payload of its own key. *)
Lemma kept_execute c op w co :
  kv_conn c -> drawn fa op -> drawn fa (c_op co) -> kv_ok w -> kept w co -> kept (conn_Execute c op w).1 co.
Proof.
  intros Hcn Hd Hdo Hok Hk Ha. specialize (Hk Ha).
  pose proof (drawn_key op Hd) as Hi. pose proof (drawn_key (c_op co) Hdo) as Hio.
  destruct Hd as [(_ & _ & _ & Hop) _], Hdo as [(_ & _ & _ & Hco) _].
  destruct (kv_effect c op w Hcn Hok) as [->|[Hw Heff]]; [done|]. rewrite Heff by done. case_decide as Ek; [|done].
  apply kv_payload in Hw. rewrite Hop, Hw. destruct Ha as [_ Hne]. rewrite Hco in Hne |- *.
  destruct (isWrite (op_Type (c_op co))); [by rewrite Ek|done].
Qed.

Lemma kept_result c op w i d t :
  kv_conn c -> drawn fa op -> kv_ok w -> clean_world w ->
  kept (conn_Execute c op w).1
    {| c_op := op; c_res := (conn_Execute c op w).2; c_intended := i; c_dispatch := d; c_done := t |}.
Proof.
  intros Hcn Hd Hok Hc [Herr Hne]. pose proof (drawn_key op Hd) as Hi. destruct Hd as [(_ & _ & Hin & Hop) _]. cbn in Herr, Hne |- *.
  assert (Hty : isWrite (op_Type op) = true) by (rewrite Hop in Hne; by destruct (isWrite (op_Type op))).
  assert (Hup : kv_upserts (op_Type op) = true).
  2: { destruct (kv_stored c op w Hcn Hok Hup Herr) as [->|(Hv & Hold & ->)]; [done|].
       destruct (kv_get w (op_Key op)) as [v|] eqn:Ev; [|done]. by rewrite (Hc Hv _ _ Hi Ev), Hop, Hty. }
  apply list_elem_of_fmap in Hin as (os & Et & Hos). rewrite Et. pose proof (proj1 (Forall_forall _ _) fa_supported) as Hsup.
  apply (Hsup os Hos). by rewrite <- Et.
Qed.

Lemma worker_kept_execute t c op w (ws : worker) :
  kv_conn c -> drawn fa op -> worker_drawn fa t ws -> kv_ok w -> worker_kept w ws -> worker_kept (conn_Execute c op w).1 ws.
Proof.
  intros Hcn Hop (_ & Hpc & Hops) Hok (Hwc & Hk & Hks). split; [done|]. split.
  - destruct (ws_pc ws); try done. by apply kept_execute.
  - apply Forall_forall. intros co Hco. rewrite Forall_forall in Hops, Hks. apply kept_execute; auto.
Qed.

(** A worker's step keeps its own calls, and those of every other worker. *)
Lemma worker_step_kept t now done pick sc w a (ws : worker) sc' w' a' ws' :
  worker_step warmupEnd now done pick sc w a ws = Some (sc', w', a', ws') ->
  worker_drawn fa t ws -> kv_ok w -> clean_world w -> worker_kept w ws ->
  kv_ok w' /\ clean_world w' /\ worker_kept w' ws' /\
  (forall t' ws2, worker_drawn fa t' ws2 -> worker_kept w ws2 -> worker_kept w' ws2).
Proof.
  intros Hs Hd Hok Hcl (Hcn & Hk & Hks).
  assert (Hset : forall x pc, Forall (kept x) (ws_ops ws) ->
    match pc with PDone c => kept x c | _ => True end -> worker_kept x (set_pc pc ws)) by (intros; split; [done|by split]).
  assert (Hwoken : forall i (ok : bool), worker_kept w (if ok then start_op now i ws else set_pc PExit ws)).
  { intros i [|]; [|by apply Hset]. unfold start_op. destruct (gen_Next (ws_gen ws)). split; [done|by split]. }
  unfold worker_step in Hs. destruct (ws_pc ws) as [|i|i|i op d|c|[|x l]|] eqn:Epc.
  - destruct done; [simplify_eq; split_and!; [done|done|by apply Hset|done]|].
    destruct (sched_Next now sc). simplify_eq. split_and!; [done|done|by apply Hset|done].
  - destruct (sleepUntil_enter now done i) as [ok|]; simplify_eq; (split_and!; [done|done| |done]);
      [apply Hwoken|by apply Hset].
  - destruct (sleepUntil_select now done pick i) as [ok|]; simplify_eq. split_and!; [done|done|apply Hwoken|done].
  - assert (Hop : drawn fa op) by (destruct Hd as (_ & Hpc & _); by rewrite Epc in Hpc).
    pose proof (kept_result (ws_conn ws) op w i d now Hcn Hop Hok Hcl) as Hres.
    pose proof (fun t => worker_kept_execute t (ws_conn ws) op w) as Hoth.
    pose proof (clean_execute (ws_conn ws) op w Hcn Hop Hok Hcl) as Hcl'.
    destruct (worker_kept_execute t (ws_conn ws) op w ws Hcn Hop Hd Hok ltac:(split; [done|split; [by rewrite Epc|done]])) as (_ & _ & Hown).
    pose proof (kv_execute (ws_conn ws) op w Hcn Hok) as Hok'.
    destruct (conn_Execute (ws_conn ws) op w) as [w1 res]. simplify_eq.
    split_and!; [done|done|by apply Hset|]. intros t' ws2 Hd2 Hk2. by eapply Hoth.
  - destruct done; simplify_eq; (split_and!; [done|done| |done]); [by apply Hset|].
    unfold observe. destruct (c_dispatch c <? warmupEnd); [by apply Hset|].
    split; [done|]. split; [done|]. cbn [ws_ops]. apply Forall_app. split; [done|]. by constructor.
  - simplify_eq. split_and!; [done|done|by apply Hset|done].
  - simplify_eq. split_and!; [done|done|by apply Hset|done].
  - done.
Qed.

Lemma gstep_kept t (g g' : state) : gstep warmupEnd g g' -> run_drawn fa t g -> run_kept g -> run_kept g'.
Proof.
  intros Hstep [_ Hd] (Hok & Hc & Hk). destruct Hstep as [g i pick ws sc w a ws' Hi Hs|g d Hd'|g]; [|done..].
  unfold run_kept in *. cbn [g_world g_workers]. rewrite Forall_forall in Hd, Hk.
  assert (Hin : ws ∈ g_workers g) by (by eapply list_elem_of_lookup_2).
  destruct (worker_step_kept t _ _ _ _ _ _ _ _ _ _ _ Hs (Hd _ Hin) Hok Hc (Hk _ Hin))
    as (Hok' & Hc' & Hown & Hoth).
  split; [done|]. split; [done|]. apply Forall_insert; [|done]. apply Forall_forall. intros ws2 Hws2. eapply Hoth; eauto.
Qed.

Lemma gsteps_kept n (g g' : state) t :
  nsteps (gstep warmupEnd) n g g' -> run_drawn fa t g -> 0 <= t -> t + Z.of_nat n <= 2^62 ->
  run_kept g -> run_kept g'.
Proof.
  intros Hn. revert t. induction Hn as [g|n g1 g2 g3 H12 _ IH]; intros t Hg Ht Hb Hk; [done|].
  apply (IH (t + 1)); [|lia|lia|by eapply gstep_kept]. apply (gstep_drawn fa fa_ok warmupEnd t g1); [done|done|lia].
Qed.

Lemma starts_kept obs sinks tt rate d start conns base w1 :
  Forall kv_conn conns -> kv_ok w1 -> clean_world w1 ->
  run_kept (run_init (fun shard => Generator fa shard) sinks obs (buildScheduler start tt rate d) conns base w1).
Proof.
  intros Hcs Hok Hc. unfold run_kept, run_init. cbn [g_workers g_world]. split; [done|]. split; [done|]. apply Forall_lookup. intros i ws Hi.
  rewrite list_lookup_imap in Hi. destruct (conns !! i) eqn:Ec; simplify_eq/=.
  split; [by eapply Forall_lookup_1|]. by repeat constructor.
Qed.

Lemma closeAll_kept conns w :
  kv_ok w -> kv_ok (closeAll conns w) /\ forall k, kv_get (closeAll conns w) k = kv_get w k.
Proof.
  unfold closeAll. revert w. induction conns as [|c conns IH]; intros w Hok; cbn [foldl]; [done|].
  destruct (kv_close c w Hok) as [Hok1 E1]. destruct (IH _ Hok1) as [Hok2 E2].
  split; [done|]. intros k. by rewrite E2.
Qed.

Lemma connectAll_loop_kept n cfg wl i conns w :
  kv_ok w ->
  kv_ok (connectAll_loop n cfg wl i conns w).1 /\
  forall k, kv_get (connectAll_loop n cfg wl i conns w).1 k = kv_get w k.
Proof.
  revert i conns w. induction n as [|n IH]; intros i conns w Hok; cbn [connectAll_loop]; [done|].
  destruct (kv_connect cfg w Hok) as [Hok1 E1]. destruct (drv_Connect cfg w) as [w1 [c|e]]; cbn [fst] in *.
  - destruct (kv_prepare c wl w1 Hok1) as [Hok2 E2]. destruct (conn_Prepare c wl w1) as [w2 [e|]]; cbn [fst] in *.
    + destruct (kv_close c w2 Hok2) as [Hok3 E3]. destruct (closeAll_kept conns _ Hok3) as [Hok4 E4].
      split; [done|]. intros k. by rewrite E4, E3, E2.
    + destruct (IH (i + 1) (conns ++ [c]) w2 Hok2) as [Hok3 E3]. split; [done|]. intros k. by rewrite E3, E2.
  - destruct (closeAll_kept conns w1 Hok1) as [Hok2 E2]. split; [done|]. intros k. by rewrite E2.
Qed.

Lemma connectAll_loop_conns n cfg wl i conns w w1 cs :
  kv_cfg cfg -> Forall kv_conn conns -> connectAll_loop n cfg wl i conns w = (w1, Ok cs) -> Forall kv_conn cs.
Proof.
  intros Hcfg. revert i conns w. induction n as [|n IH]; intros i conns w Hc; cbn [connectAll_loop]; [by intros [= _ <-]|].
  pose proof (fun c => kv_connected cfg w c Hcfg) as Hn. destruct (drv_Connect cfg w) as [w2 [c|e]]; [|done].
  destruct (conn_Prepare c wl w2) as [w3 [e|]]; [done|]. apply IH. apply Forall_app. split; [done|].
  constructor; [by apply Hn|done].
Qed.

Lemma connectAll_kept cfg wl n w w1 cs :
  connectAll cfg wl n w = (w1, Ok cs) -> kv_cfg cfg -> kv_ok w ->
  Forall kv_conn cs /\ kv_ok w1 /\ forall k, kv_get w1 k = kv_get w k.
Proof.
  unfold connectAll. intros E Hcfg Hok. pose proof (connectAll_loop_kept (Z.to_nat n) cfg wl 0 [] w Hok) as H'.
  rewrite E in H'. split; [|done]. by apply (connectAll_loop_conns _ _ _ _ _ _ _ _ Hcfg (List.Forall_nil _) E).
Qed.
End runs.

(** ** Reconciling a key-value target *)

Section reconciled.
Context {W C R H : Type} {HR : Rng R} {RL : RngLaws R} {HH : Histogram H} {Drv : Driver W C} {KV : KeyValue W C}.

(** The states a target is in while it is only read: it holds what it held in
    [w0], and stays [up]. *)
Definition resting (up : W -> Prop) (w0 w : W) : Prop := up w /\ kv_ok w /\ forall k, kv_get w k = kv_get w0 k.

(** Reads through [conn] succeed and leave the target up. *)
Definition readable (o : ReconcileOptions) (up : W -> Prop) (conn : C) : Prop :=
  forall k w, kv_ok w -> up w ->
    or_Err (conn_Execute conn (read_op o k) w).2 = None /\ up (conn_Execute conn (read_op o k) w).1.

(** The answer to a read of what the target holds. *)
Definition answer (o : ReconcileOptions) (w : W) (k : Z) : OpResult :=
  {| or_Type := ro_ReadOp o; or_Rows := 0;
     or_Observed := match kv_get w k with Some v => ABytes (Some v) | None => ANil end; or_Err := None |}.

Lemma readable_quiescent o up conn w0 :
  kv_conn conn -> kv_reads (ro_ReadOp o) = true -> readable o up conn -> quiescent o (resting up w0) (answer o w0) conn.
Proof.
  intros Hcn Hr Hread k w (Hup & Hok & Hw). destruct (Hread k w Hok Hup) as [Herr Hup'].
  destruct (kv_read conn (read_op o k) w Hcn Hok Hr) as [Hsame Hobs]. unfold reading.
  rewrite Herr, (Hobs Herr). cbn [read_op op_Key answer or_Err or_Observed]. rewrite Hw.
  split; [by destruct (kv_get w0 k)|]. split; [done|]. split; [by apply kv_execute|]. intros k'. by rewrite Hsame.
Qed.

Lemma reads_back_answer o w k v :
  reads_back (answer o w k) v <-> exists v', kv_get w k = Some v' /\ Checksum v' = Checksum v.
Proof. unfold reads_back. cbn. destruct (kv_get w k); cbn; naive_solver. Qed.

(** Connecting and preparing leave a target as it was. *)
Lemma connected_rests up cfg wc w1 conn wl w2 :
  kv_cfg cfg -> kv_ok wc -> drv_Connect cfg wc = (w1, Ok conn) -> conn_Prepare conn wl w1 = (w2, None) -> up w2 ->
  kv_conn conn /\ resting up wc w2.
Proof.
  intros Hcfg Hok Hc Hp Hup. split; [by apply (kv_connected cfg wc); [|rewrite Hc]|].
  destruct (kv_connect cfg wc Hok) as [Hok1 E1]. rewrite Hc in Hok1, E1. cbn [fst] in *.
  destruct (kv_prepare conn wl w1 Hok1) as [Hok2 E2]. rewrite Hp in Hok2, E2. cbn [fst] in *.
  split; [done|]. split; [done|]. intros k. by rewrite E2.
Qed.

(** What the log of a single acknowledged write is reconciled to: a pass if its
    value is under its key, a loss if nothing is, a corruption otherwise. *)
Lemma reconcile_single {Clk : Clock W} {WC : WorldClock W} (cluster : option (ClusterAware W))
    o up reads op res cfg wc w1 (conn : C) w2 fuel order1 order2 :
  or_Err res = None -> op_Value op <> [] ->
  kv_cfg cfg -> kv_ok wc -> drv_Connect cfg wc = (w1, Ok conn) -> conn_Prepare conn (ro_Workload o) w1 = (w2, None) ->
  up w2 -> kv_reads (ro_ReadOp o) = true -> readable o up conn -> replicas_quiescent cluster (resting up wc) reads ->
  (converge_fuel (ro_ConvergenceTimeout o) <= fuel)%nat ->
  let expected := foldl keepLatest ∅ (omap committed [(op, res)]) in
  order1 ≡ₚ map_to_list expected ->
  exists w'' vr,
    Reconcile fuel cluster cfg expected order1 order2 o wc = Some (w'', (vr, None)) /\
    (vr_Verdict vr = VerdictPass <->
       (exists v, kv_get wc (op_Key op) = Some v /\ Checksum v = Checksum (op_Value op)) /\
       sample_agrees o cluster reads cfg order2) /\
    (vr_Verdict vr = VerdictPass \/ vr_Verdict vr = VerdictFail) /\
    vr_Lost vr = (if kv_get wc (op_Key op) then 0 else 1).
Proof.
  intros Herr Hv Hcfg Hok Hc Hp Hup Hro Hread Hrq Hf expected Hord.
  destruct (connected_rests up cfg wc w1 conn (ro_Workload o) w2 Hcfg Hok Hc Hp Hup) as [Hcn Hrest].
  set (r := {| wr_Key := op_Key op; wr_Checksum := Checksum (op_Value op); wr_Seq := op_Seq op |}).
  assert (Hexp : expected = {[op_Key op := r]}).
  { unfold expected. cbn. unfold committed. cbn [fst snd]. rewrite Herr. destruct (op_Value op) eqn:Ev; [done|].
    cbn. unfold keepLatest, r. cbn. rewrite lookup_empty. apply insert_empty. }
  destruct (Reconcile_outcome o cluster (resting up wc) (answer o wc) reads fuel cfg expected order1 order2 wc w1 conn w2)
    as (w'' & vr & Er & Hiff & Hpf & _ & Hlost); [by apply readable_quiescent|done..|].
  exists w'', vr. split; [exact Er|]. split_and!; [|done|].
  - rewrite Hiff, Hexp. apply and_iff_compat_r. pose proof (reads_back_answer o wc (op_Key op) (op_Value op)) as Ha.
    rewrite <- Ha. split.
    + intros Hall. apply (Hall (op_Key op) r), lookup_singleton_eq.
    + by intros Hb k r' [<- <-]%lookup_singleton_Some.
  - rewrite Hlost, Hexp, map_to_list_singleton. cbn. unfold key_lost, lost, answer. cbn.
    by destruct (kv_get wc (op_Key op)).
Qed.

(** At the end of a run the store holds every acknowledged write. *)
Lemma drive_kept pp t wake start base steps w w' rep rec (g : gstate W C (generator R) scheduler (Local H) recording) :
  drive (R := R) (H := H) pp t wake start base steps w w' (Ok (rep, rec, g)) ->
  workload_bounds pp -> Z.of_nat steps <= 2^62 -> supported (dp_workload pp) ->
  kv_cfg (dp_cfg pp) -> kv_ok w -> clean (w_ValueSize (dp_workload pp)) w ->
  kv_ok w' /\ forall c, c ∈ all_ops g -> acknowledged c -> kv_get w' (op_Key (c_op c)) = Some (op_Value (c_op c)).
Proof.
  intros Hd Hb Hst Hsup Hcfg Hok Hc. inversion Hd as [| | |fa w1 conns g' rec' Hn _ _ Hconn Hs _ _]; subst.
  pose proof (drive_factory _ _ Hb Hn) as Hf. rewrite <- (New_workload _ _ _ _ _ Hn) in Hsup, Hc.
  destruct (connectAll_kept _ _ _ _ _ _ Hconn Hcfg Hok) as (Hcs & Hok1 & E1).
  assert (Hc1 : clean (w_ValueSize (fa_w fa)) w1).
  { intros Hv k v. rewrite E1. by apply Hc. }
  pose proof (gsteps_kept fa Hf Hsup _ _ _ _ 0 Hs (starts_drawn fa Hf _ _ _ _ _ _ _ _ _)
    ltac:(lia) ltac:(lia) (starts_kept fa _ _ _ _ _ _ _ _ _ Hcs Hok1 Hc1)) as (Hok2 & _ & Hk).
  destruct (closeAll_kept conns _ Hok2) as [Hok3 E3]. split; [done|].
  intros c Hin. rewrite E3. apply list_elem_of_join in Hin as (l & Hin & Hl).
  apply list_elem_of_fmap in Hl as (ws & -> & Hws). rewrite Forall_forall in Hk.
  destruct (Hk ws Hws) as [_ Hops]. rewrite Forall_forall in Hops. by apply Hops.
Qed.

(** C3: No false alarm and no missed loss over a key-value target.  Take any
    run of the engine whose payload-carrying operations are upserts of the
    target (which, if it keeps versions, starts without another run's values), observed into an expectation log, and reconcile it against the
    target in whatever state [wc] it was found in: the verdict is pass exactly
    when every write acknowledged during the measured phase has its value under
    its key (up to the checksum) and the sampled replicas agree; and if the
    target still holds what it held when the run ended, the verdict depends on
    the replicas alone. *)
Theorem key_value_verified
    (unmarshal : text -> option WriteRecord)
    (unmarshal_marshal : forall r, record_ok r -> unmarshal (marshal r) = Some r)
    {Clk : Clock W} {WC : WorldClock W} (cluster : option (ClusterAware W))
    (o : ReconcileOptions) (up : W -> Prop) (reads : Node -> Z -> result error OpResult)
    pp v t wake start base steps w w' rep rec g lines cfg wc w1 conn w2 fuel :
  drive (R := R) (H := H) pp t wake start base steps w w' (Ok (rep, rec, g)) ->
  workload_bounds pp -> Z.of_nat steps <= 2^62 -> supported (dp_workload pp) ->
  kv_cfg (dp_cfg pp) -> kv_ok w -> clean (w_ValueSize (dp_workload pp)) w ->
  dp_observer pp = observer v -> vf_kind v = Some KLog -> interleaving (logs g) lines ->
  kv_cfg cfg -> kv_ok wc -> drv_Connect cfg wc = (w1, Ok conn) -> conn_Prepare conn (ro_Workload o) w1 = (w2, None) -> up w2 ->
  kv_reads (ro_ReadOp o) = true -> readable o up conn -> replicas_quiescent cluster (resting up wc) reads ->
  (converge_fuel (ro_ConvergenceTimeout o) <= fuel)%nat ->
  exists expected,
    readLog unmarshal (LogWriter_Close (foldl LogWriter_Record (NewLogWriter []) lines)) = Ok expected /\
    forall order1 order2, order1 ≡ₚ map_to_list expected ->
    exists w'' vr,
      Reconcile fuel cluster cfg expected order1 order2 o wc = Some (w'', (vr, None)) /\
      (vr_Verdict vr = VerdictPass <->
         (forall c, c ∈ all_ops g -> acknowledged c ->
            exists v', kv_get wc (op_Key (c_op c)) = Some v' /\ Checksum v' = Checksum (op_Value (c_op c))) /\
         sample_agrees o cluster reads cfg order2) /\
      ((forall k, kv_get wc k = kv_get w' k) ->
         vr_Verdict vr = VerdictPass <-> sample_agrees o cluster reads cfg order2).
Proof.
  intros Hd Hb Hst Hsup Hcfgr Hok Hclean Hobs Hkind Hil Hcfg Hokc Hc Hp Hup Hro Hread Hrq Hfuel.
  destruct (connected_rests up cfg wc w1 conn (ro_Workload o) w2 Hcfg Hokc Hc Hp Hup) as [Hcn Hrest].
  destruct (run_verified unmarshal unmarshal_marshal cluster o (resting up wc) (answer o wc) reads
    pp v t wake start base steps w w' rep rec g lines cfg wc w1 conn w2 fuel
    Hd Hb Hst Hobs Hkind Hil (readable_quiescent o up conn wc Hcn Hro Hread) Hrq Hc Hp Hrest Hfuel) as (expected & E & Hall).
  exists expected. split; [exact E|]. intros order1 order2 Ho.
  destruct (Hall order1 order2 Ho) as (w'' & vr & Er & Hv & _). exists w'', vr. split; [exact Er|].
  rewrite Hv. setoid_rewrite reads_back_answer. split; [done|]. intros Hsame.
  split; [by intros []|]. intros Hagree. split; [|done]. intros c Hin Ha. rewrite Hsame.
  eexists. split; [|done]. by apply (drive_kept pp t wake start base steps w w' rep rec g).
Qed.
End reconciled.
