(* ===== verification/Targets.v ===== *)
(** * Targets: what the database targets share

    Each target package repeats the same small functions: reading an endpoint,
    an integer parameter, the scan limit, the queryable nodes.  They are here
    once, with the default each package passes, and their lemmas; the target
    files name their own copies. *)

From Stdlib Require Import Ascii String.
From S2P Require Import Prelude Domain Strconv Driver Workload.

Local Open Scope Z_scope.
Local Open Scope go_scope.

(** ** Parameters and environment *)

(** [asInt] on the value of a parameter, 0 when absent or not a number. *)
Definition asInt (v : any) : Z :=
  match v with
  | AInt n | AInt64 n => n
  | AFloat f => int_of_float f
  | _ => 0
  end.

Definition first_positive (vals : list Z) (def : Z) : Z :=
  default def (List.find (fun n => 0 <? n) vals).

Definition scan_limit (def : Z) (w : Workload) : Z :=
  first_positive ((fun key => asInt (param_any (w_Params w) key)) <$> ["scan_limit"; "limit"]%string) def.

Definition string_param (p : params) (key : string) : string :=
  match param_any p key with AString s => s | _ => "" end.

Definition first_nonempty (vals : list string) : string :=
  default ""%string (List.find (fun v => negb (String.eqb v "")) vals).

Lemma first_positive_pos vals def : 0 < def -> 0 < first_positive vals def.
Proof.
  intros Hd. unfold first_positive. destruct (List.find _ vals) eqn:E; [|done].
  apply find_some in E as [_ E]. by zbool.
Qed.

(** ** Statements *)

(** The values bound to a statement's placeholders: int64 and int, []byte, and
    the string of a payload. *)
Inductive arg := ArgInt (n : Z) | ArgBytes (b : bytes) | ArgString (b : bytes).

(** What scanning a single row fails with: the client's no-rows error or
    another. *)
Inductive row_error := ErrNoRows | RowErr (e : error).

(** The values of a ranged read: each row scanned or failing to, and the error
    the iteration ended with. *)
Fixpoint scan_rows (rows : list (result error (Z * bytes))) (err : option error) (out : list bytes)
    : result error (list bytes) :=
  match rows with
  | [] => match err with Some e => Err e | None => Ok out end
  | Err e :: _ => Err e
  | Ok (_, v) :: rows => scan_rows rows err (out ++ [v])
  end.

Lemma scan_rows_complete rows out :
  scan_rows (Ok <$> rows) None out = Ok (out ++ (snd <$> rows)).
Proof.
  revert out. induction rows as [|[k v] rows IH]; intros out; cbn; [by rewrite app_nil_r|].
  rewrite IH. by rewrite <- app_assoc.
Qed.

(** ** Endpoints *)

(** The text before and after the last occurrence of [c]. *)
Fixpoint split_last (c : ascii) (t : text) : option (text * text) :=
  match t with
  | [] => None
  | x :: r =>
      match split_last c r with
      | Some (a, b) => Some (x :: a, b)
      | None => if Ascii.eqb x c then Some ([], r) else None
      end
  end.

Definition has_suffix (c : ascii) (t : text) : bool :=
  match rev t with x :: _ => Ascii.eqb x c | [] => false end.

(** Splitting on the last colon, unless the endpoint ends in a bracketed host. *)
Definition split_host_port (port : string) (endpoint : string) : string * string :=
  if String.eqb endpoint "" then ("localhost"%string, port)
  else match split_last ":"%char (txt endpoint) with
       | Some (h, p) => if has_suffix "]"%char (txt endpoint) then (endpoint, port) else (str h, str p)
       | None => (endpoint, port)
       end.

Definition first_endpoint (port : string) (endpoints : list string) : string :=
  match endpoints with [] => "localhost:" +:+ port | e :: _ => e end.

Definition queryable (cfg : Config) : list Node :=
  List.filter (fun n => negb (String.eqb (node_Client n) "")) (cs_Nodes (cfg_Cluster cfg)).

Lemma split_last_spec c t a b : split_last c t = Some (a, b) <-> t = a ++ c :: b /\ c ∉ b.
Proof.
  revert a b. induction t as [|x t IH]; intros a b; cbn [split_last].
  - split; [done|]. intros [E _]. by destruct a.
  - assert (Hnone : split_last c t = None -> c ∉ t).
    { intros Hn Hin. apply list_elem_of_split in Hin as (l1 & l2 & ->).
      clear -Hn. revert Hn. induction l1 as [|y l1 IH]; cbn [app split_last].
      - destruct (split_last c l2) as [[]|]; [done|]. by rewrite Ascii.eqb_refl.
      - destruct (split_last c (l1 ++ c :: l2)) as [[]|]; [done|]. auto. }
    destruct (split_last c t) as [[a' b']|] eqn:E.
    + split.
      * intros [= <- <-]. destruct (proj1 (IH a' b') eq_refl) as [-> Hb]. done.
      * intros [Ht Hb]. destruct a as [|y a]; simplify_eq/=.
        -- destruct (proj1 (IH a' b') eq_refl) as [-> _]. destruct Hb. set_solver.
        -- pose proof (proj2 (IH a b) (conj eq_refl Hb)). by simplify_eq.
    + destruct (Ascii.eqb_spec x c) as [->|Hx]; split.
      * intros [= <- <-]. split; [done|]. by apply Hnone.
      * intros [Ht Hb]. destruct a as [|y a]; simplify_eq/=; [done|]. destruct (Hnone eq_refl). set_solver.
      * done.
      * intros [Ht Hb]. destruct a as [|y a]; simplify_eq/=. destruct (Hnone eq_refl). set_solver.
Qed.

(** Only queryable nodes are asked. *)
Lemma queryable_client cfg n : n ∈ queryable cfg -> node_Client n <> ""%string.
Proof.
  unfold queryable. rewrite list_elem_of_In, filter_In. intros [_ Hn] E. by rewrite E in Hn.
Qed.

Lemma omap_fmap {A B C} (f : B -> option C) (g : A -> B) (l : list A) : omap f (g <$> l) = omap (fun x => f (g x)) l.
Proof. induction l as [|x l IH]; [done|]. cbn. destruct (f (g x)); [f_equal|]; exact IH. Qed.
