(* ===== verification/Redis.v ===== *)
(** * Redis: the Redis target (targets/redis/redisdriver)

    Commands and policies (cmd.go), addresses (options.go), connections
    (conn.go, driver.go) and the per-node read (cluster.go).  go-redis is
    third-party code: [RedisClient] lists the calls made on it, [RedisServer]
    what a server keeps and answers. *)

From Stdlib Require Import Ascii String.
From S2P Require Import Schedule Rand Prelude Domain Strconv Checksum Workload Metrics Expect Driver Reconcile.
From S2P Require Import History Config Runner Engine KeyValue Targets.

Local Open Scope Z_scope.
Local Open Scope go_scope.

(** ** cmd.go *)

Definition defaultScanLimit : Z := 100.
Definition consNone : string := "none".
Definition consWait : string := "wait".
Definition defaultWaitReplicas : Z := 1.
Definition defaultWaitTimeout : Z := 100 * millisecond.

Definition keyName (k : Z) : string := str (txt "proofload:{" ++ FormatInt k ++ txt "}").

#[global] Arguments keyName : simpl never.

Inductive cmdKind := cmdGet | cmdSet | cmdScan.

Record opPlan := {
  pl_kind : cmdKind;
  pl_key : string;
  pl_keys : list string;
  pl_value : bytes
}.

Definition scanKeys (start n : Z) : list string := (fun i => keyName (start +! i)) <$> seqZ 0 n.

Definition planFor (op : Operation) (scanLimit : Z) : result error opPlan :=
  let t := op_Type op in
  if String.eqb t "read" || String.eqb t "r" then
    Ok {| pl_kind := cmdGet; pl_key := keyName (op_Key op); pl_keys := []; pl_value := [] |}
  else if String.eqb t "insert" || String.eqb t "w" || String.eqb t "update" then
    Ok {| pl_kind := cmdSet; pl_key := keyName (op_Key op); pl_keys := []; pl_value := op_Value op |}
  else if String.eqb t "scan" then
    let scanLimit := if scanLimit <=? 0 then defaultScanLimit else scanLimit in
    Ok {| pl_kind := cmdScan; pl_key := ""; pl_keys := scanKeys (op_Key op) scanLimit; pl_value := [] |}
  else Err ("redisdriver: unsupported op type " +:+ quoted t)%string.

Record consistency := { cn_level : string; cn_replicas : Z; cn_timeout : Z }.

Definition paramInt (p : params) (key : string) : Z := asInt (param_any p key).

Definition waitReplicas (p : params) : Z :=
  first_positive (paramInt p <$> ["wait_replicas"; "numreplicas"]%string) defaultWaitReplicas.

Definition waitTimeout (p : params) : Z :=
  let n := paramInt p "wait_timeout_ms" in
  if 0 <? n then n *! millisecond else defaultWaitTimeout.

Definition parseConsistency (level : string) (p : params) : result error consistency :=
  if String.eqb level "" || String.eqb level consNone then
    Ok {| cn_level := consNone; cn_replicas := 0; cn_timeout := 0 |}
  else if String.eqb level consWait || String.eqb level "waitN" then
    Ok {| cn_level := consWait; cn_replicas := waitReplicas p; cn_timeout := waitTimeout p |}
  else Err ("redisdriver: unsupported consistency " +:+ quoted level)%string.

Definition scanLimitFromWorkload (w : Workload) : Z := scan_limit defaultScanLimit w.

(** ** options.go, driver.go *)

Definition defaultRedisPort : string := "6379".

Record clientOptions := { co_Addr : string; co_Password : string; co_DB : Z }.

Definition splitHostPort (endpoint : string) : string * string :=
  split_host_port defaultRedisPort (TrimSpace endpoint).

Definition normalizeAddr (endpoint : string) : string :=
  let '(host, port) := splitHostPort endpoint in host +:+ ":" +:+ port.

(** [getenv] is [os.Getenv]. *)
Definition resolveOptions (getenv : string -> string) (endpoint : string) : clientOptions :=
  {| co_Addr := normalizeAddr endpoint;
     co_Password := first_nonempty [getenv "PROOFLOAD_REDIS_PASSWORD"; getenv "REDIS_PASSWORD"]%string;
     co_DB := 0 |}.

(** The fields of [redis.Options] that are set. *)
Record redisOptions := { ro_Addr : string; ro_Password : string; ro_DB : Z; ro_PoolSize : Z }.

Definition optionsFor (o : clientOptions) : redisOptions :=
  {| ro_Addr := co_Addr o; ro_Password := co_Password o; ro_DB := co_DB o; ro_PoolSize := 1 |}.

Definition firstEndpoint : list string -> string := first_endpoint defaultRedisPort.

Definition redis_Nodes (cfg : Driver.Config) : list Node := queryable cfg.

Definition consistencyLevels : list string := [consNone; consWait].

(** ** conn.go *)

(** [redis.Nil] and the other errors of a reply. *)
Inductive redis_error := RedisNil | RedisErr (e : error).

(** The calls made on a go-redis client. *)
Class RedisClient (N Cl : Type) := {
  rd_NewClient : redisOptions -> N -> N * Cl;
  rd_Ping : Cl -> N -> N * option error;
  rd_Get : Cl -> string -> N -> N * result redis_error bytes;
  rd_Set : Cl -> string -> bytes -> N -> N * option error;
  rd_Wait : Cl -> Z -> Z -> N -> N * result error Z;
  rd_MGet : Cl -> list string -> N -> N * result error (list any);
  rd_Close : Cl -> N -> N * option error
}.

(** What a server keeps, and how the commands treat it.  A failed SET may have
    been carried out. *)
Class RedisServer (N Cl : Type) {RC : RedisClient N Cl} := {
  rd_data : N -> gmap string bytes;
  rd_new_data o n : rd_data (rd_NewClient o n).1 = rd_data n;
  rd_ping_data c n : rd_data (rd_Ping c n).1 = rd_data n;
  rd_wait_data c r t n : rd_data (rd_Wait c r t n).1 = rd_data n;
  rd_close_data c n : rd_data (rd_Close c n).1 = rd_data n;
  rd_get_data c k n : rd_data (rd_Get c k n).1 = rd_data n;
  rd_get_answer c k n :
    match (rd_Get c k n).2 with
    | Ok v => rd_data n !! k = Some v
    | Err RedisNil => rd_data n !! k = None
    | Err (RedisErr _) => True
    end;
  rd_set_data c k v n :
    match rd_Set c k v n with
    | (n', None) => rd_data n' = <[k := v]> (rd_data n)
    | (n', Some _) => rd_data n' = rd_data n \/ rd_data n' = <[k := v]> (rd_data n)
    end;
  rd_mget_data c ks n : rd_data (rd_MGet c ks n).1 = rd_data n;
  rd_mget_answer c ks n vals :
    (rd_MGet c ks n).2 = Ok vals ->
    Forall2 (fun k v => match rd_data n !! k with
                        | Some b => exists s, v = AString s /\ bytes_of_string s = b
                        | None => v = ANil
                        end) ks vals
}.

Section conn.
Context {N Cl : Type} {RC : RedisClient N Cl} (getenv : string -> string).

(** A [*redisConn]: the client and the policy, which never change, and where
    the scan limit, which [Prepare] sets, is kept. *)
Record redisConn := { rc_client : Cl; rc_ptr : nat; rc_cons : consistency }.

(** The clients' side and the scan limits of the connections made so far. *)
Record redis_world := { rw_net : N; rw_scan : list Z }.

Definition on_net {A} (f : N -> N * A) (w : redis_world) : redis_world * A :=
  let '(n, a) := f (rw_net w) in ({| rw_net := n; rw_scan := rw_scan w |}, a).

Definition redis_Connect (cfg : Driver.Config) (w : redis_world) : redis_world * result error redisConn :=
  match parseConsistency (cfg_Consistency cfg) (cfg_Params cfg) with
  | Err e => (w, Err e)
  | Ok pol =>
      let '(n, cl) := rd_NewClient (optionsFor (resolveOptions getenv (firstEndpoint (cfg_Endpoints cfg)))) (rw_net w) in
      ({| rw_net := n; rw_scan := rw_scan w ++ [defaultScanLimit] |},
       Ok {| rc_client := cl; rc_ptr := length (rw_scan w); rc_cons := pol |})
  end.

Definition redis_Prepare (c : redisConn) (wl : Workload) (w : redis_world) : redis_world * option error :=
  let w := {| rw_net := rw_net w; rw_scan := <[rc_ptr c := scanLimitFromWorkload wl]> (rw_scan w) |} in
  match on_net (rd_Ping (rc_client c)) w with
  | (w, Some e) => (w, Some ("redisdriver: ping: " +:+ e)%string)
  | (w, None) => (w, None)
  end.

Definition op_res (t : OpType) (rows : Z) (obs : any) (err : option error) : OpResult :=
  {| or_Type := t; or_Rows := rows; or_Observed := obs; or_Err := err |}.

Definition execGet (c : redisConn) (t : OpType) (plan : opPlan) (w : redis_world) : redis_world * OpResult :=
  match on_net (rd_Get (rc_client c) (pl_key plan)) w with
  | (w, Err RedisNil) => (w, op_res t 0 ANil None)
  | (w, Err (RedisErr e)) => (w, op_res t 0 ANil (Some e))
  | (w, Ok v) => (w, op_res t 1 (ABytes (Some v)) None)
  end.

Definition execSet (c : redisConn) (t : OpType) (plan : opPlan) (w : redis_world) : redis_world * OpResult :=
  match on_net (rd_Set (rc_client c) (pl_key plan) (pl_value plan)) w with
  | (w, Some e) => (w, op_res t 0 ANil (Some e))
  | (w, None) =>
      if String.eqb (cn_level (rc_cons c)) consWait then
        match on_net (rd_Wait (rc_client c) (cn_replicas (rc_cons c)) (cn_timeout (rc_cons c))) w with
        | (w, Err e) => (w, op_res t 1 ANil (Some e))
        | (w, Ok _) => (w, op_res t 1 ANil None)
        end
      else (w, op_res t 1 ANil None)
  end.

(** The present values of an MGET reply. *)
Definition present_values (vals : list any) : list bytes :=
  omap (fun v => match v with
                 | AString s => Some (bytes_of_string s)
                 | ABytes b => Some (default [] b)
                 | _ => None
                 end) vals.

Definition execScan (c : redisConn) (t : OpType) (plan : opPlan) (w : redis_world) : redis_world * OpResult :=
  match on_net (rd_MGet (rc_client c) (pl_keys plan)) w with
  | (w, Err e) => (w, op_res t 0 ANil (Some e))
  | (w, Ok vals) =>
      let out := present_values vals in
      (w, op_res t (Z.of_nat (length out)) (AByteSlices out) None)
  end.

Definition redis_Execute (c : redisConn) (op : Operation) (w : redis_world) : redis_world * OpResult :=
  match planFor op (default 0 (rw_scan w !! rc_ptr c)) with
  | Err e => (w, op_res (op_Type op) 0 ANil (Some e))
  | Ok plan =>
      match pl_kind plan with
      | cmdGet => execGet c (op_Type op) plan w
      | cmdScan => execScan c (op_Type op) plan w
      | cmdSet => execSet c (op_Type op) plan w
      end
  end.

(** The client of a connection is never nil: [Connect] sets it. *)
Definition redis_Close (c : redisConn) (w : redis_world) : redis_world * option error :=
  on_net (rd_Close (rc_client c)) w.

#[export] Instance redis_driver : Driver redis_world redisConn := {|
  drv_Connect := redis_Connect;
  conn_Prepare := redis_Prepare;
  conn_Execute := redis_Execute;
  conn_Close := redis_Close
|}.

(** cluster.go: a client of the node's own, closed again whatever happens. *)
Definition ReadKeyFrom (node : Node) (key : Z) (w : redis_world) : redis_world * result error OpResult :=
  if String.eqb (node_Client node) "" then
    (w, Err ("redisdriver: node " +:+ quoted (node_ID node) +:+ " has no client endpoint")%string)
  else
    let '(n, cl) := rd_NewClient (optionsFor (resolveOptions getenv (node_Client node))) (rw_net w) in
    let '(n, res) := rd_Get cl (keyName key) n in
    let n := (rd_Close cl n).1 in
    ({| rw_net := n; rw_scan := rw_scan w |},
     match res with
     | Err RedisNil => Ok (op_res "read" 0 ANil None)
     | Err (RedisErr e) =>
         Err ("redisdriver: read key " +:+ str (FormatInt key) +:+ " from node " +:+ quoted (node_ID node) +:+ ": " +:+ e)%string
     | Ok v => Ok (op_res "read" 1 (ABytes (Some v)) None)
     end).

#[export] Instance redis_cluster : ClusterAware redis_world := {|
  ca_Nodes := redis_Nodes;
  ca_ReadKeyFrom := ReadKeyFrom
|}.
End conn.

(** ** What the commands do to the store *)

Lemma keyName_inj j k : is_i64 j -> is_i64 k -> keyName j = keyName k -> j = k.
Proof.
  intros Hj Hk E. unfold keyName in E. apply (f_equal txt) in E. rewrite !txt_str in E.
  apply app_inv_head, app_inv_tail in E.
  pose proof (ParseInt_FormatInt j Hj) as Ej. rewrite E, ParseInt_FormatInt in Ej by done. congruence.
Qed.

(** The label sets of [planFor]. *)
Definition reads_value (t : OpType) : bool := String.eqb t "read" || String.eqb t "r".
Definition writes_value (t : OpType) : bool :=
  String.eqb t "insert" || String.eqb t "w" || String.eqb t "update".

Lemma redis_writes_not_reads t : writes_value t = true -> reads_value t = false /\ isWrite t = true.
Proof.
  unfold writes_value, reads_value. rewrite !orb_true_iff, !String.eqb_eq.
  by intros [[-> | ->] | ->].
Qed.

Section store.
Context {N Cl : Type} {RC : RedisClient N Cl} {RS : RedisServer N Cl}.

Definition value_of (w : redis_world (N := N)) (k : Z) : option bytes := rd_data (rw_net w) !! keyName k.

Lemma on_net_data {A} (f : N -> N * A) w : rw_net (on_net f w).1 = (f (rw_net w)).1 /\ (on_net f w).2 = (f (rw_net w)).2.
Proof. unfold on_net. by destruct (f (rw_net w)). Qed.

Lemma execGet_spec (c : redisConn (Cl := Cl)) t k w :
  let plan := {| pl_kind := cmdGet; pl_key := keyName k; pl_keys := []; pl_value := [] |} in
  rd_data (rw_net (execGet c t plan w).1) = rd_data (rw_net w) /\
  (or_Err (execGet c t plan w).2 = None ->
   (execGet c t plan w).2 = match value_of w k with
                            | Some v => op_res t 1 (ABytes (Some v)) None
                            | None => op_res t 0 ANil None
                            end).
Proof.
  cbv zeta. unfold execGet, on_net, value_of. cbn [pl_key].
  pose proof (rd_get_data (rc_client c) (keyName k) (rw_net w)) as Hd.
  pose proof (rd_get_answer (rc_client c) (keyName k) (rw_net w)) as Ha.
  destruct (rd_Get (rc_client c) (keyName k) (rw_net w)) as [n [v|[|e]]]; cbn in *.
  - by rewrite Ha.
  - by rewrite Ha.
  - done.
Qed.

Lemma execSet_spec (c : redisConn (Cl := Cl)) t k v w :
  let plan := {| pl_kind := cmdSet; pl_key := keyName k; pl_keys := []; pl_value := v |} in
  let d' := rd_data (rw_net (execSet c t plan w).1) in
  (d' = rd_data (rw_net w) \/ d' = <[keyName k := v]> (rd_data (rw_net w))) /\
  (or_Err (execSet c t plan w).2 = None ->
   d' = <[keyName k := v]> (rd_data (rw_net w)) /\ (execSet c t plan w).2 = op_res t 1 ANil None).
Proof.
  cbv zeta. unfold execSet, on_net. cbn [pl_key pl_value].
  pose proof (rd_set_data (rc_client c) (keyName k) v (rw_net w)) as Hs.
  destruct (rd_Set (rc_client c) (keyName k) v (rw_net w)) as [n [e|]]; [by cbn|].
  destruct (String.eqb _ consWait); [|cbn; naive_solver].
  cbn [rw_net]. pose proof (rd_wait_data (rc_client c) (cn_replicas (rc_cons c)) (cn_timeout (rc_cons c)) n) as Hw.
  destruct (rd_Wait _ _ _ n) as [n' [m|e]]; cbn in *; rewrite Hw, Hs; naive_solver.
Qed.

Lemma present_values_spec ks vals d :
  Forall2 (fun k v => match d !! k with
                      | Some b => exists s, v = AString s /\ bytes_of_string s = b
                      | None => v = ANil
                      end) ks vals ->
  present_values vals = omap (fun k : string => (d : gmap string bytes) !! k) ks.
Proof.
  unfold present_values. induction 1 as [|k v ks vals Hv _ IH]; [done|]. cbn. rewrite IH.
  destruct (d !! k); [by destruct Hv as (s & -> & ->)|by rewrite Hv].
Qed.

Lemma redis_execScan_spec (c : redisConn (Cl := Cl)) t plan w :
  rd_data (rw_net (execScan c t plan w).1) = rd_data (rw_net w) /\
  (or_Err (execScan c t plan w).2 = None ->
   let out := omap (fun k => rd_data (rw_net w) !! k) (pl_keys plan) in
   (execScan c t plan w).2 = op_res t (Z.of_nat (length out)) (AByteSlices out) None).
Proof.
  unfold execScan, on_net. pose proof (rd_mget_data (rc_client c) (pl_keys plan) (rw_net w)) as Hd.
  pose proof (rd_mget_answer (rc_client c) (pl_keys plan) (rw_net w)) as Ha.
  destruct (rd_MGet (rc_client c) (pl_keys plan) (rw_net w)) as [n [vals|e]]; cbn in *; [|done].
  split; [done|]. intros _. by rewrite (present_values_spec _ _ _ (Ha vals eq_refl)).
Qed.

(** Every label has one of four plans. *)
Lemma redis_planFor_cases op limit :
  (reads_value (op_Type op) = true /\
   planFor op limit = Ok {| pl_kind := cmdGet; pl_key := keyName (op_Key op); pl_keys := []; pl_value := [] |}) \/
  (writes_value (op_Type op) = true /\
   planFor op limit = Ok {| pl_kind := cmdSet; pl_key := keyName (op_Key op); pl_keys := []; pl_value := op_Value op |}) \/
  (op_Type op = "scan"%string /\
   planFor op limit = Ok {| pl_kind := cmdScan; pl_key := "";
                            pl_keys := scanKeys (op_Key op) (if limit <=? 0 then defaultScanLimit else limit);
                            pl_value := [] |}) \/
  (reads_value (op_Type op) = false /\ writes_value (op_Type op) = false /\ exists e, planFor op limit = Err e).
Proof.
  unfold planFor, reads_value, writes_value.
  destruct (String.eqb (op_Type op) "read" || _); [by left|]. right.
  destruct (_ || String.eqb (op_Type op) "update"); [by left|]. right.
  destruct (String.eqb (op_Type op) "scan") eqn:E; [apply String.eqb_eq in E; by left|]. right. eauto.
Qed.

(** Redis keeps what reconciliation presumes. *)
#[export] Instance redis_KeyValue (getenv : string -> string) :
  KeyValue redis_world (redisConn (Cl := Cl)) (Drv := redis_driver getenv).
Proof.
  refine {| kv_ok _ := True; kv_cfg _ := True; kv_conn _ := True; kv_get := value_of; kv_writes := writes_value; kv_upserts := writes_value; kv_reads := reads_value;
            kv_versioned := false |}.
  - intros t Ht. by apply redis_writes_not_reads.
  - intros cfg w _. split; [done|]. intros k. cbn. unfold redis_Connect, value_of. destruct (parseConsistency _ _); [|done].
    pose proof (rd_new_data (optionsFor (resolveOptions getenv (firstEndpoint (cfg_Endpoints cfg)))) (rw_net w)) as E.
    destruct (rd_NewClient _ _). cbn in *. by rewrite E.
  - done.
  - intros c wl w _. split; [done|]. intros k. cbn. unfold redis_Prepare, on_net, value_of. cbn [rw_net].
    pose proof (rd_ping_data (rc_client c) (rw_net w)) as E.
    destruct (rd_Ping _ _) as [n [e|]]; cbn in *; by rewrite E.
  - intros c w _. split; [done|]. intros k. cbn. unfold redis_Close, on_net, value_of. pose proof (rd_close_data (rc_client c) (rw_net w)) as E.
    destruct (rd_Close _ _). cbn in *. by rewrite E.
  - done.
  - intros c op w _ _. cbn. unfold redis_Execute, value_of.
    destruct (redis_planFor_cases op (default 0 (rw_scan w !! rc_ptr c)))
      as [[_ ->]|[[Hw ->]|[[_ ->]|(_ & _ & e & ->)]]]; cbn [pl_kind]; [left| |left|by left].
    + intros k. by rewrite (proj1 (execGet_spec c (op_Type op) (op_Key op) w)).
    + destruct (proj1 (execSet_spec c (op_Type op) (op_Key op) (op_Value op) w)) as [-> | ->]; [by left|right].
      split; [done|]. intros Hi k Hk. case_decide as E; [subst; apply lookup_insert_eq|].
      apply lookup_insert_ne. intros E'. apply E. symmetry. by apply keyName_inj.
    + intros k. by rewrite (proj1 (redis_execScan_spec c (op_Type op) _ w)).
  - intros c op w _ _. cbn. intros Hw Herr. left. revert Herr. unfold redis_Execute, value_of.
    destruct (redis_planFor_cases op (default 0 (rw_scan w !! rc_ptr c)))
      as [[Hr _]|[[_ ->]|[[Et _]|(_ & Hn & _)]]]; cbn [pl_kind].
    + apply redis_writes_not_reads in Hw as [Hw _]. by rewrite Hw in Hr.
    + intros Herr. rewrite (proj1 (proj2 (execSet_spec c (op_Type op) (op_Key op) (op_Value op) w) Herr)).
      apply lookup_insert_eq.
    + by rewrite Et in Hw.
    + by rewrite Hn in Hw.
  - intros c op w _ _. cbn. intros Hr. unfold redis_Execute.
    destruct (redis_planFor_cases op (default 0 (rw_scan w !! rc_ptr c)))
      as [[_ ->]|[[Hw _]|[[Et _]|(Hn & _)]]]; cbn [pl_kind].
    + destruct (execGet_spec c (op_Type op) (op_Key op) w) as [Hd Ha]. split; [intros k; unfold value_of; by rewrite Hd|].
      intros Herr. rewrite (Ha Herr). unfold value_of. by destruct (rd_data (rw_net w) !! keyName (op_Key op)).
    + apply redis_writes_not_reads in Hw as [Hw _]. by rewrite Hw in Hr.
    + by rewrite Et in Hr.
    + by rewrite Hn in Hr.
Defined.

(** What a connection answers and leaves behind, by the label: a GET, a SET, an
    MGET over consecutive keys, or a refusal. *)
Inductive answers (limit : Z) (op : Operation) (d d' : gmap string bytes) : OpResult -> Prop :=
| answer_value v :
    reads_value (op_Type op) = true -> d' = d -> d !! keyName (op_Key op) = Some v ->
    answers limit op d d' (op_res (op_Type op) 1 (ABytes (Some v)) None)
| answer_missing :
    reads_value (op_Type op) = true -> d' = d -> d !! keyName (op_Key op) = None ->
    answers limit op d d' (op_res (op_Type op) 0 ANil None)
| answer_stored :
    writes_value (op_Type op) = true -> d' = <[keyName (op_Key op) := op_Value op]> d ->
    answers limit op d d' (op_res (op_Type op) 1 ANil None)
| answer_scan out :
    op_Type op = "scan"%string -> d' = d ->
    out = omap (fun i => d !! keyName (op_Key op +! i)) (seqZ 0 limit) ->
    answers limit op d d' (op_res (op_Type op) (Z.of_nat (length out)) (AByteSlices out) None)
| answer_failed rows e :
    d' = d \/ (writes_value (op_Type op) = true /\ d' = <[keyName (op_Key op) := op_Value op]> d) ->
    answers limit op d d' (op_res (op_Type op) rows ANil (Some e)).

Lemma answers_failed (c : redisConn (Cl := Cl)) op w w' res limit :
  redis_Execute c op w = (w', res) -> or_Err res <> None ->
  answers limit op (rd_data (rw_net w)) (rd_data (rw_net w')) res.
Proof.
  unfold redis_Execute. intros E Herr.
  destruct (redis_planFor_cases op (default 0 (rw_scan w !! rc_ptr c)))
    as [[_ Ep]|[[Hw Ep]|[[_ Ep]|(_ & _ & e & Ep)]]]; rewrite Ep in E; cbn [pl_kind] in E.
  - pose proof (proj1 (execGet_spec c (op_Type op) (op_Key op) w)) as Hd. rewrite E in Hd. revert E.
    unfold execGet, on_net. destruct (rd_Get _ _ _) as [n [v|[|e]]]; intros [= <- <-]; try done.
    apply answer_failed. by left.
  - pose proof (proj1 (execSet_spec c (op_Type op) (op_Key op) (op_Value op) w)) as Hd. rewrite E in Hd. revert E.
    unfold execSet, on_net. destruct (rd_Set _ _ _ _) as [n [e|]].
    + intros [= <- <-]. apply answer_failed. destruct Hd; [by left|by right].
    + destruct (String.eqb _ _); [|by intros [= <- <-]]. destruct (rd_Wait _ _ _ _) as [n' [m|e]]; intros [= <- <-]; [done|].
      apply answer_failed. destruct Hd; [by left|by right].
  - pose proof (proj1 (redis_execScan_spec c (op_Type op) {| pl_kind := cmdScan; pl_key := "";
      pl_keys := scanKeys (op_Key op) (if default 0 (rw_scan w !! rc_ptr c) <=? 0 then defaultScanLimit
                                       else default 0 (rw_scan w !! rc_ptr c)); pl_value := [] |} w)) as Hd.
    rewrite E in Hd. revert E. unfold execScan, on_net.
    destruct (rd_MGet _ _ _) as [n [vals|e]]; intros [= <- <-]; [done|]. apply answer_failed. by left.
  - simplify_eq. apply answer_failed. by left.
Qed.

(** On a Redis server every call of a connection answers by its label: a
    read returns the bytes stored under the key or an empty result with no
    error, an insert, [w] or update leaves the payload under the key, a scan
    returns the stored values of the [limit] keys from its own on, in key order
    and counted, and a call that fails changes nothing but, for a write, the
    key it wrote; a label the target does not know fails and changes nothing. *)
Theorem redis_Execute_answers (c : redisConn (Cl := Cl)) op w :
  let limit := default 0 (rw_scan w !! rc_ptr c) in
  let '(w', res) := redis_Execute c op w in
  answers (if limit <=? 0 then defaultScanLimit else limit) op (rd_data (rw_net w)) (rd_data (rw_net w')) res /\
  rw_scan w' = rw_scan w.
Proof.
  cbv zeta. destruct (redis_Execute c op w) as [w' res] eqn:E. split.
  2: { revert E. unfold redis_Execute, execGet, execSet, execScan, on_net.
       repeat case_match; intros; by simplify_eq/=. }
  destruct (decide (or_Err res = None)) as [Hn|Herr]; [|by apply (answers_failed c)].
  unfold redis_Execute in E.
  destruct (redis_planFor_cases op (default 0 (rw_scan w !! rc_ptr c)))
    as [[Hr Ep]|[[Hw Ep]|[[Ht Ep]|(_ & _ & e & Ep)]]]; rewrite Ep in E; cbn [pl_kind] in E.
  - destruct (execGet_spec c (op_Type op) (op_Key op) w) as [Hd Ha]. rewrite E in Hd, Ha. specialize (Ha Hn).
    cbn [fst snd] in Hd, Ha. subst res. clear E Hn.
    unfold value_of. destruct (rd_data (rw_net w) !! keyName (op_Key op)) eqn:Ev; by constructor.
  - destruct (execSet_spec c (op_Type op) (op_Key op) (op_Value op) w) as [_ Ha]. rewrite E in Ha.
    destruct (Ha Hn) as [Hd Hres]. cbn [fst snd] in Hd, Hres. subst res. by apply answer_stored.
  - match type of E with execScan _ _ ?plan _ = _ => destruct (redis_execScan_spec c (op_Type op) plan w) as [Hd Ha] end.
    rewrite E in Hd, Ha. specialize (Ha Hn). cbn [fst snd pl_keys] in Hd, Ha. subst res.
    apply answer_scan; [done|done|]. unfold scanKeys. by rewrite omap_fmap.
  - by simplify_eq.
Qed.

(** Under the [wait] level a write counts as acknowledged however many
    replicas confirmed it: WAIT's reply, the number of replicas reached within
    the timeout, is not compared with the number asked for. *)
Theorem wait_shortfall_acknowledged (c : redisConn (Cl := Cl)) op w n1 n2 acked :
  cn_level (rc_cons c) = consWait -> writes_value (op_Type op) = true ->
  rd_Set (rc_client c) (keyName (op_Key op)) (op_Value op) (rw_net w) = (n1, None) ->
  rd_Wait (rc_client c) (cn_replicas (rc_cons c)) (cn_timeout (rc_cons c)) n1 = (n2, Ok acked) ->
  redis_Execute c op w = ({| rw_net := n2; rw_scan := rw_scan w |}, op_res (op_Type op) 1 ANil None).
Proof.
  intros Hlevel Hw Hset Hwait. unfold redis_Execute.
  destruct (redis_planFor_cases op (default 0 (rw_scan w !! rc_ptr c)))
    as [[Hr _]|[[_ ->]|[[Et _]|(_ & Hn & _)]]].
  - apply redis_writes_not_reads in Hw as [Hw _]. by rewrite Hw in Hr.
  - cbn [pl_kind]. unfold execSet, on_net. cbn [pl_key pl_value]. rewrite Hset, Hlevel. cbn [rw_net rw_scan].
    change (String.eqb consWait consWait) with true. cbv iota. by rewrite Hwait.
  - by rewrite Et in Hw.
  - by rewrite Hn in Hw.
Qed.
End store.

(** ** A concrete server *)

(** A server that keeps a map, and a clock; WAIT reaches no replica. *)
Definition sample_net : Type := Z * gmap string bytes.

#[local] Instance sample_client : RedisClient sample_net unit := {|
  rd_NewClient _ n := (n, tt);
  rd_Ping _ n := (n, None);
  rd_Get _ k n := ((n.1 + 1, n.2), match n.2 !! k with Some v => Ok v | None => Err RedisNil end);
  rd_Set _ k v n := ((n.1 + 1, <[k := v]> n.2), None);
  rd_Wait _ _ _ n := (n, Ok 0);
  rd_MGet _ ks n :=
    (n, Ok ((fun k => match n.2 !! k with Some v => AString (String.string_of_list_byte v) | None => ANil end) <$> ks));
  rd_Close _ n := (n, None)
|}.

#[local] Instance sample_server : RedisServer sample_net unit.
Proof.
  refine {| rd_data n := n.2 |}; cbn; try done.
  - intros _ k n. by destruct (n.2 !! k).
  - intros _ ks n vals [= <-]. induction ks as [|k ks IH]; constructor; [|exact IH].
    destruct (n.2 !! k) as [v|]; [|done]. eexists. split; [done|]. apply String.list_byte_of_string_of_list_byte.
Defined.

Definition sample_env (name : string) : string := "".

#[local] Instance sample_redis : Driver (redis_world (N := sample_net)) (redisConn (Cl := unit)) := redis_driver sample_env.
#[local] Existing Instances coarse_histogram coarse_histogram_laws.

#[local] Instance sample_clock : Clock (redis_world (N := sample_net)) := {|
  now w := (w, (rw_net w).1);
  wait d w := ({| rw_net := ((rw_net w).1 + Z.max d 0, (rw_net w).2); rw_scan := rw_scan w |}, None);
  ctx_Err _ := None
|}.

#[local] Instance sample_world_clock : WorldClock (redis_world (N := sample_net)).
Proof. refine {| time_of w := (rw_net w).1 |}; cbn; intros; simplify_eq/=; lia. Defined.

Lemma redis_Execute_answers_witness :
  let w := {| rw_net := (0, ∅) : sample_net; rw_scan := [100] |} in
  let c := {| rc_client := tt; rc_ptr := 0%nat; rc_cons := {| cn_level := ""; cn_replicas := 0; cn_timeout := 0 |} |} in
  let op := {| op_Type := "insert"; op_Key := 7; op_Value := [Byte.x41]; op_Seq := 1 |} in
  let '(w', res) := redis_Execute c op w in
  (answers 100 op (rd_data (rw_net w)) (rd_data (rw_net w')) res /\ rw_scan w' = [100]) /\
  (rw_net w').2 !! keyName 7 = Some [Byte.x41].
Proof.
  intros w c op. pose proof (redis_Execute_answers c op w) as Ha. split; [exact Ha|]. reflexivity.
Defined.

Lemma wait_shortfall_acknowledged_witness :
  let w := {| rw_net := (0, ∅) : sample_net; rw_scan := [100] |} in
  let c := {| rc_client := tt; rc_ptr := 0%nat; rc_cons := {| cn_level := consWait; cn_replicas := 2; cn_timeout := 100 |} |} in
  let op := {| op_Type := "insert"; op_Key := 7; op_Value := [Byte.x41]; op_Seq := 1 |} in
  cn_replicas (rc_cons c) = 2 /\ (rd_Wait tt 2 100 (rw_net w)).2 = Ok 0 /\
  (redis_Execute c op w).2 = op_res "insert" 1 ANil None.
Proof.
  intros w c op. split_and!; [reflexivity|reflexivity|].
  set (n := (rd_Set tt (keyName 7) [Byte.x41] (rw_net w)).1).
  by rewrite (wait_shortfall_acknowledged (RC := sample_client) c op w n n 0 eq_refl eq_refl eq_refl eq_refl).
Defined.

(** Two replicas, and a run with two connections. *)
Definition sample_cfg : Driver.Config :=
  let node i := {| node_ID := i; node_Role := RoleReplica; node_Control := {| ce_Method := ""; ce_Ref := ""; ce_Namespace := ""; ce_Extra := ∅ |};
                   node_Client := i |} in
  {| cfg_Endpoints := ["a:1"]; cfg_Consistency := ""; cfg_Params := ∅;
     cfg_Cluster := {| cs_Nodes := [node "a:1"; node "b:2"]%string; cs_ReplicationFactor := 2; cs_Consistency := [] |} |}.

Definition sample_params : driveParams :=
  {| dp_workload := sample_workload; dp_cfg := sample_cfg; dp_rate := RateSpec_zero;
     dp_connections := 2; dp_warmup := 0; dp_duration := 50; dp_seed := 42;
     dp_workerID := 0; dp_workerCount := 1; dp_startAt := zero_time;
     dp_observer := observer sample_verification; dp_testType := TestBenchmark |}.

Local Abbreviation sample_world := (redis_world (N := sample_net)).
Local Abbreviation sample_state :=
  (gstate sample_world (redisConn (Cl := unit)) (generator PCG) scheduler (Local HSnapshot) recording).

Definition sample_start : sample_world := {| rw_net := (0, ∅); rw_scan := [] |}.

Definition sample_conns : list (redisConn (Cl := unit)) :=
  (fun i => {| rc_client := tt; rc_ptr := i; rc_cons := {| cn_level := consNone; cn_replicas := 0; cn_timeout := 0 |} |}) <$> [0; 1]%nat.

Definition sample_begin : sample_state :=
  drive_starts sample_params sample_fa 100 100 {| rw_net := (0, ∅); rw_scan := [100; 100] |} sample_conns.

Lemma redis_sample_reached :
  exists g : sample_state, nsteps (gstep 100) (length sample_moves) sample_begin g /\ all_exited g /\
    negb (Nat.eqb (length (mjoin (logs g))) 0) = true.
Proof. apply executed. vm_compute. reflexivity. Qed.

Definition sample_recorder_of (g : sample_state) : Recorder HSnapshot :=
  {| r_high := r_high (NewRecorder (H := HSnapshot) 0 0); r_sig := r_sig (NewRecorder (H := HSnapshot) 0 0);
     r_locals := omap ws_sink (g_workers g); r_prevSnap := ∅; r_prevErr := ∅ |}.

Lemma redis_sample_drive (g : sample_state) :
  nsteps (gstep 100) (length sample_moves) sample_begin g -> all_exited g ->
  drive (R := PCG) (H := HSnapshot) sample_params 100 Cancelled 100 100 (length sample_moves) sample_start
    (closeAll sample_conns (g_world g))
    (Ok (report (g_acc g) (g_now g) 100 (drive_options sample_params), sample_recorder_of g, g)).
Proof.
  intros Hs Hx.
  apply (drive_done sample_params 100 Cancelled 100 100 (length sample_moves) sample_start sample_fa
    {| rw_net := (0, ∅); rw_scan := [100; 100] |} sample_conns g);
    try reflexivity; [done|exact Hs|exact Hx|by split_and!].
Qed.

(** What either node answers, the server's map being [m]. *)
Definition sample_reads (m : gmap string bytes) (n : Node) (k : Z) : result error OpResult :=
  if String.eqb (node_Client n) "" then
    Err ("redisdriver: node " +:+ quoted (node_ID n) +:+ " has no client endpoint")%string
  else Ok match m !! keyName k with
          | Some v => op_res "read" 1 (ABytes (Some v)) None
          | None => op_res "read" 0 ANil None
          end.

Lemma sample_replicas (w0 : sample_world) :
  replicas_quiescent (Some (redis_cluster sample_env)) (resting (fun _ => True) w0) (sample_reads (rw_net w0).2).
Proof.
  split; [by split|]. intros n k w (_ & _ & Hw). cbn. unfold ReadKeyFrom, sample_reads.
  destruct (String.eqb _ ""); cbn; [by split_and!|].
  specialize (Hw k) as Hk. cbn in Hk. unfold value_of in Hk. cbn in Hk. rewrite Hk.
  destruct ((rw_net w0).2 !! keyName k); cbn; (split; [exact (Z.le_succ_diag_r _)|split; [done|split_and!; [done..|exact Hw]]]).
Qed.

Lemma sample_agreement o (w0 : sample_world) cfg order :
  sample_agrees (W := sample_world) o (Some (redis_cluster sample_env)) (sample_reads (rw_net w0).2) cfg order.
Proof.
  intros _ k _. exists (Checksum (default [] ((rw_net w0).2 !! keyName k))). intros n Hn.
  apply queryable_client in Hn. unfold node_sum, sample_reads.
  destruct (String.eqb_spec (node_Client n) ""); [done|]. by destruct ((rw_net w0).2 !! keyName k).
Qed.

Lemma key_value_verified_witness :
  exists g : sample_state, all_exited g /\ mjoin (logs g) <> [] /\
    let w := closeAll sample_conns (g_world g) in
    exists expected,
      readLog strict_unmarshal (LogWriter_Close (foldl LogWriter_Record (NewLogWriter []) (mjoin (logs g)))) = Ok expected /\
      forall order1 order2, order1 ≡ₚ map_to_list expected ->
      exists w'' vr,
        Reconcile 1002 (Some (redis_cluster sample_env)) sample_cfg expected order1 order2 map_options w
          = Some (w'', (vr, None)) /\
        vr_Verdict vr = VerdictPass.
Proof.
  destruct redis_sample_reached as (g & Hs & Hx & Hne). exists g. split; [exact Hx|].
  split; [intros E; by rewrite E in Hne|]. intros w.
  destruct (key_value_verified strict_unmarshal strict_unmarshal_marshal (Some (redis_cluster sample_env)) map_options
    (fun _ => True) (sample_reads (rw_net w).2) sample_params sample_verification
    _ _ _ _ _ _ _ _ _ g (mjoin (logs g)) sample_cfg w
    {| rw_net := rw_net w; rw_scan := rw_scan w ++ [100] |}
    {| rc_client := tt; rc_ptr := length (rw_scan w); rc_cons := {| cn_level := consNone; cn_replicas := 0; cn_timeout := 0 |} |}
    {| rw_net := rw_net w; rw_scan := <[length (rw_scan w) := 100]> (rw_scan w ++ [100]) |} 1002
    (redis_sample_drive g Hs Hx)) as (expected & E & Hall).
  - by split.
  - vm_compute. congruence.
  - by repeat constructor.
  - done.
  - done.
  - done.
  - done.
  - done.
  - apply (interleaving_sequential [] (logs g)). constructor.
  - done.
  - done.
  - reflexivity.
  - reflexivity.
  - done.
  - done.
  - intros k x _ _. split; [|done]. unfold readable. cbn. unfold redis_Execute, execGet, on_net. cbn.
    by destruct ((rw_net x).2 !! keyName k).
  - apply sample_replicas.
  - vm_compute. lia.
  - exists expected. split; [exact E|]. intros order1 order2 Ho.
    destruct (Hall order1 order2 Ho) as (w'' & vr & Er & _ & Hp). exists w'', vr. split; [exact Er|].
    apply Hp; [done|]. apply sample_agreement.
Defined.
