(* ===== verification/Postgres.v ===== *)
(** * Postgres: the PostgreSQL target (targets/postgresql/pgdriver)

    Statements and plans (sql.go), connection strings (dsn.go), connections
    (conn.go, driver.go) and the per-node read (cluster.go).  pgx is third-party
    code: [PgClient] lists the calls made on it, [PgServer] what they do to the
    table, by the SQL text they run. *)

From Stdlib Require Import Ascii String.
From S2P Require Import Schedule Rand Prelude Domain Strconv Checksum Workload Metrics Expect Driver Reconcile.
From S2P Require Import History Config Runner Engine KeyValue Targets.

Local Open Scope Z_scope.
Local Open Scope go_scope.

(** ** sql.go, schema.go *)

Definition stmtRead : string := "pl_read".
Definition stmtUpsert : string := "pl_upsert".
Definition stmtUpdate : string := "pl_update".
Definition stmtScan : string := "pl_scan".

Definition defaultScanLimit : Z := 100.

Definition readSQL : string := "SELECT v FROM proofload_kv WHERE k=$1".
Definition upsertSQL : string :=
  "INSERT INTO proofload_kv (k, v, seq) VALUES ($1, $2, $3) ON CONFLICT (k) DO UPDATE SET v = EXCLUDED.v, seq = EXCLUDED.seq".
Definition updateSQL : string := "UPDATE proofload_kv SET v = $2, seq = $3 WHERE k = $1".
Definition scanSQL : string := "SELECT k, v FROM proofload_kv WHERE k >= $1 ORDER BY k LIMIT $2".

Definition statements : gmap string string :=
  list_to_map [(stmtRead, readSQL); (stmtUpsert, upsertSQL); (stmtUpdate, updateSQL); (stmtScan, scanSQL)].

Definition createTableSQL : string :=
  "CREATE TABLE IF NOT EXISTS proofload_kv (
	k   BIGINT PRIMARY KEY,
	v   BYTEA  NOT NULL,
	seq BIGINT NOT NULL
)".

Inductive opKind := kindRead | kindWrite | kindScan.

Record opPlan := { pl_stmt : string; pl_args : list arg; pl_kind : opKind }.

Definition planFor (op : Operation) (scanLimit : Z) : result error opPlan :=
  let t := op_Type op in
  if String.eqb t "read" || String.eqb t "r" then
    Ok {| pl_stmt := stmtRead; pl_args := [ArgInt (op_Key op)]; pl_kind := kindRead |}
  else if String.eqb t "insert" || String.eqb t "w" then
    Ok {| pl_stmt := stmtUpsert; pl_args := [ArgInt (op_Key op); ArgBytes (op_Value op); ArgInt (op_Seq op)];
          pl_kind := kindWrite |}
  else if String.eqb t "update" then
    Ok {| pl_stmt := stmtUpdate; pl_args := [ArgInt (op_Key op); ArgBytes (op_Value op); ArgInt (op_Seq op)];
          pl_kind := kindWrite |}
  else if String.eqb t "scan" then
    let scanLimit := if scanLimit <=? 0 then defaultScanLimit else scanLimit in
    Ok {| pl_stmt := stmtScan; pl_args := [ArgInt (op_Key op); ArgInt scanLimit]; pl_kind := kindScan |}
  else Err ("pgdriver: unsupported op type " +:+ quoted t)%string.

(** pgx's isolation levels. *)
Definition isoLevel (consistency : string) : result error string :=
  let one := String.eqb consistency in
  if one "" || one "read-committed" || one "read committed" then Ok "read committed"
  else if one "repeatable-read" || one "repeatable read" then Ok "repeatable read"
  else if one "serializable" then Ok "serializable"
  else Err ("pgdriver: unsupported consistency " +:+ quoted consistency)%string.

Definition scanLimitFromWorkload (w : Workload) : Z := scan_limit defaultScanLimit w.

(** ** dsn.go *)

Record dsnOptions := { do_User : string; do_Password : string; do_DBName : string; do_SSLMode : string }.

Definition defaultUser : string := "postgres".
Definition defaultDBName : string := "proofload".
Definition defaultSSLMode : string := "disable".
Definition defaultPGPort : string := "5432".

Definition splitHostPort (endpoint : string) : string * string := split_host_port defaultPGPort endpoint.

Definition backslash : ascii := ascii_of_nat 92.
Definition quote : ascii := ascii_of_nat 39.

(** [strings.ReplaceAll] of one character. *)
Fixpoint replace_char (c : ascii) (by_ : text) (t : text) : text :=
  match t with
  | [] => []
  | x :: t => (if Ascii.eqb x c then by_ else [x]) ++ replace_char c by_ t
  end.

Definition escapeDSN (v : text) : text :=
  replace_char quote [backslash; quote] (replace_char backslash [backslash; backslash] v).

Definition needs_quotes (v : text) : bool :=
  existsb (fun x => Ascii.eqb x " " || Ascii.eqb x quote || Ascii.eqb x backslash) v.

Definition kv (key : string) (val : string) : text :=
  if String.eqb val "" || needs_quotes (txt val) then
    txt key ++ ["="%char; quote] ++ escapeDSN (txt val) ++ [quote]
  else txt key ++ ["="%char] ++ txt val.

Fixpoint prefixed (pre t : text) : bool :=
  match pre, t with
  | [], _ => true
  | p :: pre, c :: t => Ascii.eqb p c && prefixed pre t
  | _, [] => false
  end.

(** [strings.Contains]. *)
Fixpoint contains (sub t : text) : bool :=
  prefixed sub t || match t with [] => false | _ :: t => contains sub t end.

Fixpoint join (sep : ascii) (parts : list text) : text :=
  match parts with
  | [] => []
  | [p] => p
  | p :: parts => p ++ sep :: join sep parts
  end.

Definition dsn_parts (host port : string) (o : dsnOptions) : list (string * string) :=
  [("host", host); ("port", port); ("user", do_User o); ("dbname", do_DBName o); ("sslmode", do_SSLMode o)]%string ++
  (if String.eqb (do_Password o) "" then [] else [("password"%string, do_Password o)]).

Definition buildDSN (endpoint : string) (o : dsnOptions) : string :=
  let endpoint := TrimSpace endpoint in
  if contains (txt "://") (txt endpoint) || contains (txt "=") (txt endpoint) then endpoint
  else
    let '(host, port) := splitHostPort endpoint in
    str (join " " ((fun p => kv p.1 p.2) <$> dsn_parts host port o)).

Definition resolveOptions (getenv : string -> string) (p : params) : dsnOptions :=
  {| do_User := first_nonempty [string_param p "user"; getenv "PGUSER"; defaultUser]%string;
     do_Password := first_nonempty [getenv "PROOFLOAD_PG_PASSWORD"; getenv "PGPASSWORD"]%string;
     do_DBName := first_nonempty [string_param p "dbname"; string_param p "database"; getenv "PGDATABASE"; defaultDBName]%string;
     do_SSLMode := first_nonempty [string_param p "sslmode"; getenv "PGSSLMODE"; defaultSSLMode]%string |}.

Definition firstEndpoint : list string -> string := first_endpoint defaultPGPort.

Definition pg_Nodes (cfg : Driver.Config) : list Node := queryable cfg.

Definition pg_consistencyLevels : list string := ["read-committed"; "repeatable-read"; "serializable"].

(** ** conn.go *)

(** The calls made on a pgx connection.  A query is its rows, each scanned or
    failing to, and the error the iteration ended with. *)
Class PgClient (N Cl : Type) := {
  pg_Connect : string -> N -> N * result error Cl;
  pg_Prepare : Cl -> string -> string -> N -> N * option error;
  pg_Exec : Cl -> string -> list arg -> N -> N * result error Z;
  pg_QueryRow : Cl -> string -> list arg -> N -> N * result row_error bytes;
  pg_Query : Cl -> string -> list arg -> N -> N * result error (list (result error (Z * bytes)) * option error);
  pg_Close : Cl -> N -> N * option error
}.

Section conn.
Context {N Cl : Type} {PC : PgClient N Cl} (getenv : string -> string).

(** A [*pgConn]: the connection, and where its scan limit is kept. *)
Record pgConn := { pc_conn : Cl; pc_ptr : nat }.

(** The clients' side, and the scan limits of the connections made so far. *)
Record pg_world := { pw_net : N; pw_scan : list Z }.

Definition on_net {A} (f : N -> N * A) (w : pg_world) : pg_world * A :=
  let '(n, a) := f (pw_net w) in ({| pw_net := n; pw_scan := pw_scan w |}, a).

Definition isolation_sql (lvl : string) : string :=
  "SET SESSION CHARACTERISTICS AS TRANSACTION ISOLATION LEVEL " +:+ lvl.

Definition applyConsistency (c : Cl) (level : string) (w : pg_world) : pg_world * option error :=
  match isoLevel level with
  | Err e => (w, Some e)
  | Ok lvl =>
      match on_net (pg_Exec c (isolation_sql lvl) []) w with
      | (w, Err e) => (w, Some ("pgdriver: set isolation " +:+ quoted lvl +:+ ": " +:+ e)%string)
      | (w, Ok _) => (w, None)
      end
  end.

Definition open (cfg : Driver.Config) (endpoint : string) (w : pg_world) : pg_world * result error Cl :=
  match on_net (pg_Connect (buildDSN endpoint (resolveOptions getenv (cfg_Params cfg)))) w with
  | (w, Err e) => (w, Err ("pgdriver: connect: " +:+ e)%string)
  | (w, Ok c) => (w, Ok c)
  end.

Definition Schema (cfg : Driver.Config) (w : pg_world) : pg_world * option error :=
  match open cfg (firstEndpoint (cfg_Endpoints cfg)) w with
  | (w, Err e) => (w, Some e)
  | (w, Ok c) =>
      let '(w, r) := on_net (pg_Exec c createTableSQL []) w in
      let w := (on_net (pg_Close c) w).1 in
      (w, match r with Err e => Some ("pgdriver: apply schema: " +:+ e)%string | Ok _ => None end)
  end.

Definition pg_driver_Connect (cfg : Driver.Config) (w : pg_world) : pg_world * result error pgConn :=
  match open cfg (firstEndpoint (cfg_Endpoints cfg)) w with
  | (w, Err e) => (w, Err e)
  | (w, Ok c) =>
      match applyConsistency c (cfg_Consistency cfg) w with
      | (w, Some e) => ((on_net (pg_Close c) w).1, Err e)
      | (w, None) =>
          ({| pw_net := pw_net w; pw_scan := pw_scan w ++ [defaultScanLimit] |},
           Ok {| pc_conn := c; pc_ptr := length (pw_scan w) |})
      end
  end.

Fixpoint prepare_all (c : Cl) (stmts : list (string * string)) (w : pg_world) : pg_world * option error :=
  match stmts with
  | [] => (w, None)
  | (name, sql) :: stmts =>
      match on_net (pg_Prepare c name sql) w with
      | (w, Some e) => (w, Some ("pgdriver: prepare " +:+ quoted name +:+ ": " +:+ e)%string)
      | (w, None) => prepare_all c stmts w
      end
  end.

(** [order i] is the order in which the range over [statements] visits it when
    the [i]-th connection is prepared. *)
Definition pg_driver_Prepare (order : nat -> list (string * string)) (c : pgConn) (wl : Workload) (w : pg_world)
    : pg_world * option error :=
  prepare_all (pc_conn c) (order (pc_ptr c))
    {| pw_net := pw_net w; pw_scan := <[pc_ptr c := scanLimitFromWorkload wl]> (pw_scan w) |}.

Definition op_res (t : OpType) (rows : Z) (obs : any) (err : option error) : OpResult :=
  {| or_Type := t; or_Rows := rows; or_Observed := obs; or_Err := err |}.

Definition execRead (c : pgConn) (t : OpType) (plan : opPlan) (w : pg_world) : pg_world * OpResult :=
  match on_net (pg_QueryRow (pc_conn c) (pl_stmt plan) (pl_args plan)) w with
  | (w, Err ErrNoRows) => (w, op_res t 0 ANil None)
  | (w, Err (RowErr e)) => (w, op_res t 0 ANil (Some e))
  | (w, Ok v) => (w, op_res t 1 (ABytes (Some v)) None)
  end.

Definition execWrite (c : pgConn) (t : OpType) (plan : opPlan) (w : pg_world) : pg_world * OpResult :=
  match on_net (pg_Exec (pc_conn c) (pl_stmt plan) (pl_args plan)) w with
  | (w, Err e) => (w, op_res t 0 ANil (Some e))
  | (w, Ok n) => (w, op_res t n ANil None)
  end.

Definition execScan (c : pgConn) (t : OpType) (plan : opPlan) (w : pg_world) : pg_world * OpResult :=
  match on_net (pg_Query (pc_conn c) (pl_stmt plan) (pl_args plan)) w with
  | (w, Err e) => (w, op_res t 0 ANil (Some e))
  | (w, Ok (rows, err)) =>
      (w, match scan_rows rows err [] with
          | Err e => op_res t 0 ANil (Some e)
          | Ok out => op_res t (Z.of_nat (length out)) (AByteSlices out) None
          end)
  end.

Definition pg_driver_Execute (c : pgConn) (op : Operation) (w : pg_world) : pg_world * OpResult :=
  match planFor op (default 0 (pw_scan w !! pc_ptr c)) with
  | Err e => (w, op_res (op_Type op) 0 ANil (Some e))
  | Ok plan =>
      match pl_kind plan with
      | kindRead => execRead c (op_Type op) plan w
      | kindScan => execScan c (op_Type op) plan w
      | kindWrite => execWrite c (op_Type op) plan w
      end
  end.

Definition pg_driver_Close (c : pgConn) (w : pg_world) : pg_world * option error := on_net (pg_Close (pc_conn c)) w.

Definition pg_driver (order : nat -> list (string * string)) : Driver pg_world pgConn := {|
  drv_Connect := pg_driver_Connect;
  conn_Prepare := pg_driver_Prepare order;
  conn_Execute := pg_driver_Execute;
  conn_Close := pg_driver_Close
|}.

(** cluster.go: a connection of the node's own, with the default options. *)
Definition pg_ReadKeyFrom (node : Node) (key : Z) (w : pg_world) : pg_world * result error OpResult :=
  if String.eqb (node_Client node) "" then
    (w, Err ("pgdriver: node " +:+ quoted (node_ID node) +:+ " has no client endpoint")%string)
  else
    match on_net (pg_Connect (buildDSN (node_Client node) (resolveOptions getenv ∅))) w with
    | (w, Err e) => (w, Err ("pgdriver: connect to node " +:+ quoted (node_ID node) +:+ ": " +:+ e)%string)
    | (w, Ok c) =>
        let '(w, r) := on_net (pg_QueryRow c readSQL [ArgInt key]) w in
        let w := (on_net (pg_Close c) w).1 in
        (w, match r with
            | Err ErrNoRows => Ok (op_res "read" 0 ANil None)
            | Err (RowErr e) =>
                Err ("pgdriver: read key " +:+ str (FormatInt key) +:+ " from node " +:+ quoted (node_ID node) +:+ ": " +:+ e)%string
            | Ok v => Ok (op_res "read" 1 (ABytes (Some v)) None)
            end)
    end.

#[export] Instance pg_cluster : ClusterAware pg_world := {|
  ca_Nodes := pg_Nodes;
  ca_ReadKeyFrom := pg_ReadKeyFrom
|}.
End conn.

(** ** The connection string read back *)

(** The keyword/value connection strings of the PostgreSQL documentation: blanks
    separate the settings, blanks around the equal sign are optional, a value
    in single quotes may hold blanks, and a backslash takes the next character
    literally. *)
Fixpoint quoted_value (t : text) : option (text * text) :=
  match t with
  | [] => None
  | c :: t =>
      if Ascii.eqb c quote then Some ([], t)
      else if Ascii.eqb c backslash then
        match t with
        | x :: t => '(v, r) ← quoted_value t; Some (x :: v, r)
        | [] => None
        end
      else '(v, r) ← quoted_value t; Some (c :: v, r)
  end.

Fixpoint plain_value (t : text) : text * text :=
  match t with
  | [] => ([], [])
  | c :: t' =>
      if is_space c then ([], t')
      else if Ascii.eqb c backslash then
        match t' with
        | x :: t => let '(v, r) := plain_value t in (x :: v, r)
        | [] => ([], [])
        end
      else let '(v, r) := plain_value t' in (c :: v, r)
  end.

Fixpoint keyword (t : text) : option (text * text) :=
  match t with
  | [] => None
  | c :: t => if Ascii.eqb c "=" then Some ([], t) else '(k, r) ← keyword t; Some (c :: k, r)
  end.

Fixpoint settings_of (fuel : nat) (t : text) : option (list (string * string)) :=
  match fuel with
  | O => None
  | Datatypes.S fuel =>
      match drop_space t with
      | [] => Some []
      | t =>
          '(k, t) ← keyword t;
          '(v, t) ← match drop_space t with
                    | c :: t' => if Ascii.eqb c quote then quoted_value t' else Some (plain_value (c :: t'))
                    | [] => Some ([], [])
                    end;
          rest ← settings_of fuel t;
          Some ((TrimSpace (str k), str v) :: rest)
      end
  end.

Definition parse_dsn (dsn : string) : option (list (string * string)) :=
  settings_of (Datatypes.S (length (txt dsn))) (txt dsn).

(** Values the quoting covers: a blank other than a space occurs only where
    something else calls for quotes. *)
Definition dsn_safe (v : string) : bool := needs_quotes (txt v) || forallb (fun x => negb (is_space x)) (txt v).

Lemma escapeDSN_cons x v :
  escapeDSN (x :: v) =
    (if Ascii.eqb x quote then [backslash; quote]
     else if Ascii.eqb x backslash then [backslash; backslash] else [x]) ++ escapeDSN v.
Proof.
  assert (Happ : forall c by_ a b, replace_char c by_ (a ++ b) = replace_char c by_ a ++ replace_char c by_ b).
  { intros c by_ a b. induction a as [|y a IH]; [done|]. cbn. by rewrite IH, app_assoc. }
  unfold escapeDSN. cbn [replace_char]. rewrite Happ. f_equal.
  destruct (Ascii.eqb_spec x backslash) as [->|Hb]; [reflexivity|]. cbn. by destruct (Ascii.eqb x quote).
Qed.

Lemma quoted_value_escape v rest : quoted_value (escapeDSN v ++ quote :: rest) = Some (v, rest).
Proof.
  induction v as [|x v IH]; [reflexivity|]. rewrite escapeDSN_cons.
  destruct (Ascii.eqb_spec x quote) as [->|Hq]; [cbn; by rewrite IH|].
  destruct (Ascii.eqb_spec x backslash) as [->|Hb]; [cbn; by rewrite IH|].
  cbn [app quoted_value]. rewrite (proj2 (Ascii.eqb_neq x quote) Hq), (proj2 (Ascii.eqb_neq x backslash) Hb).
  by rewrite IH.
Qed.

Lemma plain_value_safe v rest :
  Forall (fun x => is_space x = false /\ x <> backslash) v -> (rest = [] \/ exists r, rest = " "%char :: r) ->
  plain_value (v ++ rest) = (v, tail rest).
Proof.
  induction 1 as [|x v [Hs Hb] _ IH]; intros Hr.
  - by destruct Hr as [->|[r ->]].
  - cbn [app plain_value]. rewrite Hs, (proj2 (Ascii.eqb_neq x backslash) Hb), (IH Hr). done.
Qed.

Lemma keyword_spec k t : "="%char ∉ k -> keyword (k ++ "="%char :: t) = Some (k, t).
Proof.
  induction k as [|c k IH]; intros Hk; [reflexivity|]. cbn [app keyword].
  destruct (Ascii.eqb_spec c "=") as [->|Hc]; [destruct Hk; left|]. rewrite IH; [done|]. set_solver.
Qed.

(** The keywords the target writes. *)
Definition key_ok (k : string) : bool :=
  String.eqb (TrimSpace k) k && negb (existsb (fun x => Ascii.eqb x "=") (txt k)) &&
  match txt k with c :: _ => negb (is_space c) | [] => false end.

Lemma settings_of_blank fuel r : settings_of fuel (" "%char :: r) = settings_of fuel r.
Proof. by destruct fuel. Qed.

Lemma safe_plain v :
  needs_quotes v = false -> forallb (fun x => negb (is_space x)) v = true ->
  Forall (fun x => is_space x = false /\ x <> backslash) v /\ forall x t, v = x :: t -> x <> quote.
Proof.
  induction v as [|x v IH]; [by split; [constructor|]|]. cbn. intros Hn [Hx Hv]%andb_true_iff.
  apply orb_false_iff in Hn as [[[_ Hq]%orb_false_iff Hb]%orb_false_iff Hn].
  apply Ascii.eqb_neq in Hq, Hb. apply negb_true_iff in Hx. destruct (IH Hn Hv) as [Hf _].
  split; [by constructor|]. by intros ? ? [= <- _].
Qed.

(** One setting is read back, whatever follows it. *)
Lemma settings_of_kv fuel k v rest :
  key_ok k = true -> dsn_safe v = true -> rest = [] \/ (exists r, rest = " "%char :: r) ->
  settings_of (Datatypes.S fuel) (kv k v ++ rest)
    = ps ← settings_of fuel (tail rest); Some ((k, v) :: ps).
Proof.
  intros Hk Hv Hrest. unfold key_ok in Hk. rewrite !andb_true_iff, negb_true_iff, String.eqb_eq in Hk.
  destruct Hk as [[Htrim Heq] Hhd].
  assert (Hnot : "="%char ∉ txt k).
  { intros Hin. apply list_elem_of_In in Hin.
    assert (existsb (fun x => Ascii.eqb x "=") (txt k) = true) by (apply existsb_exists; eauto). congruence. }
  assert (Hhead : forall t, drop_space (txt k ++ t) = txt k ++ t).
  { intros t. destruct (txt k) as [|c tk]; [|cbn [app drop_space]; by rewrite (proj1 (negb_true_iff _) Hhd)].
    done. }
  assert (Hne : forall t, exists c t', txt k ++ t = c :: t') by (intros t; destruct (txt k); [done|by eexists _, _]).
  assert (Hstep : forall t, settings_of (Datatypes.S fuel) (txt k ++ "="%char :: t)
    = '(v, t) ← match drop_space t with
                | c :: t' => if Ascii.eqb c quote then quoted_value t' else Some (plain_value (c :: t'))
                | [] => Some ([], [])
                end;
      ps ← settings_of fuel t; Some ((k, str v) :: ps)).
  { intros t. cbn [settings_of]. rewrite Hhead. destruct (Hne ("="%char :: t)) as (c & t' & E).
    rewrite E. rewrite <- E at 1. rewrite (keyword_spec _ _ Hnot). cbn [mbind option_bind]. by rewrite str_txt, Htrim. }
  assert (Htail : settings_of fuel rest = settings_of fuel (tail rest)).
  { destruct Hrest as [->|[r ->]]; [done|apply settings_of_blank]. }
  unfold kv. destruct (String.eqb v "" || needs_quotes (txt v)) eqn:Eq.
  - rewrite <- app_assoc. cbn [app]. rewrite <- app_assoc. cbn [app]. rewrite Hstep.
    change (drop_space (quote :: ?t)) with (quote :: t). cbn [drop_space is_space].
    change (Ascii.eqb quote quote) with true. cbv iota. rewrite quoted_value_escape. cbn [mbind option_bind].
    by rewrite Htail, str_txt.
  - apply orb_false_iff in Eq as [Hv0 Hq]. unfold dsn_safe in Hv. rewrite Hq in Hv. cbn [orb] in Hv.
    destruct (safe_plain (txt v) Hq Hv) as [Hf Hq1].
    rewrite <- app_assoc. cbn [app]. rewrite Hstep. destruct (txt v) as [|c tv] eqn:Ev.
    { destruct v; [done|]. by cbn in Ev. }
    pose proof (plain_value_safe (c :: tv) rest Hf Hrest) as Hpl. cbn [app] in Hpl |- *.
    inversion Hf as [|? ? [Hc _] _]; subst. cbn [drop_space]. rewrite Hc.
    rewrite (proj2 (Ascii.eqb_neq c quote) (Hq1 c tv eq_refl)), Hpl. cbn [mbind option_bind].
    by rewrite <- Ev, str_txt.
Qed.

Lemma settings_of_join parts fuel :
  Forall (fun p => key_ok p.1 = true /\ dsn_safe p.2 = true) parts -> (length parts < fuel)%nat ->
  settings_of fuel (join " " ((fun p => kv p.1 p.2) <$> parts)) = Some parts.
Proof.
  intros Hp. revert fuel. induction Hp as [|[k v] parts [Hk Hv] _ IH]; intros [|fuel] Hf; [lia|done|lia|].
  rewrite fmap_cons. cbn [fst snd] in *. cbn [length] in Hf.
  destruct parts as [|p parts].
  - cbn [fmap list_fmap join]. rewrite <- (app_nil_r (kv k v)).
    rewrite settings_of_kv by auto. destruct fuel; [cbn in Hf; lia|]. reflexivity.
  - rewrite fmap_cons. cbn [join]. rewrite settings_of_kv by eauto. cbn [tail].
    rewrite fmap_cons in IH. rewrite IH by lia. reflexivity.
Qed.

Lemma length_join parts :
  (length parts <= length (join " " ((fun p => kv p.1 p.2) <$> parts)))%nat.
Proof.
  assert (Hkv : forall k v, (1 <= length (kv k v))%nat).
  { intros k v. unfold kv. destruct (_ || _); rewrite !length_app; cbn [length]; lia. }
  induction parts as [|[k v] parts IH]; [done|]. rewrite fmap_cons. specialize (Hkv k v).
  destruct parts as [|p parts]; [exact Hkv|]. rewrite fmap_cons in IH |- *. cbn [join length fst snd] in *.
  rewrite length_app. cbn [length]. lia.
Qed.

Lemma dsn_keys_ok host port o : Forall (fun p => key_ok p.1 = true) (dsn_parts host port o).
Proof. unfold dsn_parts. destruct (String.eqb (do_Password o) ""); by repeat constructor. Qed.

(** The connection string says what was meant: for an endpoint that is not
    itself a connection string, reading the string back by PostgreSQL's rules
    gives host, port and the resolved options, the password last and only when
    there is one, whatever spaces, quotes and backslashes the values contain.
    An endpoint that is a connection string is passed on as it is. *)
Theorem buildDSN_roundtrip endpoint o :
  let e := TrimSpace endpoint in
  let bare := negb (contains (txt "://") (txt e) || contains (txt "=") (txt e)) in
  let '(host, port) := splitHostPort e in
  Forall (fun p => dsn_safe p.2 = true) (dsn_parts host port o) ->
  (bare = true -> parse_dsn (buildDSN endpoint o) = Some (dsn_parts host port o)) /\
  (bare = false -> buildDSN endpoint o = e).
Proof.
  cbv zeta. unfold buildDSN. destruct (splitHostPort (TrimSpace endpoint)) as [host port]. intros Hs.
  destruct (_ || _); (split; [intros Hb|intros Hb]); try done.
  unfold parse_dsn. rewrite txt_str. apply settings_of_join.
  - pose proof (dsn_keys_ok host port o) as Hk. rewrite Forall_forall in *. auto.
  - pose proof (length_join (dsn_parts host port o)). lia.
Qed.

Lemma buildDSN_roundtrip_witness :
  let o := {| do_User := "it's \ me"; do_Password := "a b"; do_DBName := "db"; do_SSLMode := "disable" |} in
  parse_dsn (buildDSN " [::1]:5433 " o)
    = Some [("host", "[::1]"); ("port", "5433"); ("user", "it's \ me"); ("dbname", "db"); ("sslmode", "disable");
            ("password", "a b")]%string.
Proof.
  intros o. apply (buildDSN_roundtrip " [::1]:5433 " o); [by repeat constructor|reflexivity].
Defined.

(** A tab does not make [kv] quote, and cuts the value off. *)
Lemma tab_not_quoted :
  let tab := String (ascii_of_nat 9) "" in
  let o := {| do_User := "a"; do_Password := "p" +:+ tab +:+ "w"; do_DBName := "db"; do_SSLMode := "disable" |} in
  parse_dsn (buildDSN "db" o)
    <> Some [("host", "db"); ("port", "5432"); ("user", "a"); ("dbname", "db"); ("sslmode", "disable");
             ("password", "p" +:+ tab +:+ "w")]%string.
Proof. vm_compute. discriminate. Qed.

(** ** What a server does *)

(** The SQL run for a text: pgx runs a prepared statement by its name. *)
Definition run_text (prepared : gmap string string) (s : string) : string := default s (prepared !! s).

(** The table, the statements prepared on a connection, and what each call does
    to them, by the SQL it runs.  A failed statement may have been carried out;
    a connection may lose its statements, and then their names are not SQL. *)
Class PgServer (N Cl : Type) {PC : PgClient N Cl} := {
  pg_table : N -> gmap Z (bytes * Z);
  pg_prepared : N -> Cl -> gmap string string;
  pg_kept (n n' : N) := forall c, pg_prepared n' c = pg_prepared n c \/ pg_prepared n' c = ∅;
  pg_connect_keeps dsn n : pg_table (pg_Connect dsn n).1 = pg_table n /\ pg_kept n (pg_Connect dsn n).1;
  pg_close_keeps c n : pg_table (pg_Close c n).1 = pg_table n /\ pg_kept n (pg_Close c n).1;
  pg_prepare_keeps c name sql n :
    pg_table (pg_Prepare c name sql n).1 = pg_table n /\
    forall c', pg_prepared (pg_Prepare c name sql n).1 c' = pg_prepared n c' \/
               pg_prepared (pg_Prepare c name sql n).1 c' = ∅ \/
               (c' = c /\ pg_prepared (pg_Prepare c name sql n).1 c' = <[name := sql]> (pg_prepared n c));
  pg_query_keeps c s args n : pg_table (pg_Query c s args n).1 = pg_table n /\ pg_kept n (pg_Query c s args n).1;
  pg_row_keeps c s args n : pg_table (pg_QueryRow c s args n).1 = pg_table n /\ pg_kept n (pg_QueryRow c s args n).1;
  pg_exec_keeps c s args n : pg_kept n (pg_Exec c s args n).1;
  pg_read c s k n : run_text (pg_prepared n c) s = readSQL ->
    match (pg_QueryRow c s [ArgInt k] n).2 with
    | Ok v => fst <$> pg_table n !! k = Some v
    | Err ErrNoRows => pg_table n !! k = None
    | Err (RowErr _) => True
    end;
  pg_upsert c s k v q n : run_text (pg_prepared n c) s = upsertSQL ->
    match pg_Exec c s [ArgInt k; ArgBytes v; ArgInt q] n with
    | (n', Ok r) => pg_table n' = <[k := (v, q)]> (pg_table n) /\ r = 1
    | (n', Err _) => pg_table n' = pg_table n \/ pg_table n' = <[k := (v, q)]> (pg_table n)
    end;
  pg_update c s k v q n : run_text (pg_prepared n c) s = updateSQL ->
    match pg_Exec c s [ArgInt k; ArgBytes v; ArgInt q] n with
    | (n', Ok r) =>
        (pg_table n !! k <> None /\ pg_table n' = <[k := (v, q)]> (pg_table n) /\ r = 1) \/
        (pg_table n !! k = None /\ pg_table n' = pg_table n /\ r = 0)
    | (n', Err _) =>
        pg_table n' = pg_table n \/ (pg_table n !! k <> None /\ pg_table n' = <[k := (v, q)]> (pg_table n))
    end;
  pg_session c lvl n : pg_table (pg_Exec c (isolation_sql lvl) [] n).1 = pg_table n;
  pg_create c n : pg_table (pg_Exec c createTableSQL [] n).1 = pg_table n;
  pg_no_sql c s n : statements !! s <> None -> pg_prepared n c !! s = None ->
    (forall args, pg_table (pg_Exec c s args n).1 = pg_table n /\ exists e, (pg_Exec c s args n).2 = Err e) /\
    (forall args, exists e, (pg_QueryRow c s args n).2 = Err (RowErr e))
}.

Definition reads_value (t : OpType) : bool := String.eqb t "read" || String.eqb t "r".
Definition inserts_value (t : OpType) : bool := String.eqb t "insert" || String.eqb t "w".
Definition writes_value (t : OpType) : bool := inserts_value t || String.eqb t "update".

Lemma pg_writes_not_reads t : writes_value t = true -> reads_value t = false /\ isWrite t = true.
Proof.
  unfold writes_value, inserts_value, reads_value. rewrite !orb_true_iff, !String.eqb_eq.
  by intros [[-> | ->] | ->].
Qed.

Lemma pg_planFor_cases op limit :
  (reads_value (op_Type op) = true /\
   planFor op limit = Ok {| pl_stmt := stmtRead; pl_args := [ArgInt (op_Key op)]; pl_kind := kindRead |}) \/
  (inserts_value (op_Type op) = true /\
   planFor op limit = Ok {| pl_stmt := stmtUpsert; pl_args := [ArgInt (op_Key op); ArgBytes (op_Value op); ArgInt (op_Seq op)];
                            pl_kind := kindWrite |}) \/
  (op_Type op = "update"%string /\
   planFor op limit = Ok {| pl_stmt := stmtUpdate; pl_args := [ArgInt (op_Key op); ArgBytes (op_Value op); ArgInt (op_Seq op)];
                            pl_kind := kindWrite |}) \/
  (op_Type op = "scan"%string /\ exists args,
   planFor op limit = Ok {| pl_stmt := stmtScan; pl_args := args; pl_kind := kindScan |}) \/
  (reads_value (op_Type op) = false /\ writes_value (op_Type op) = false /\ exists e, planFor op limit = Err e).
Proof.
  unfold planFor, reads_value, writes_value, inserts_value.
  destruct (String.eqb (op_Type op) "read" || _); [by left|]. right.
  destruct (String.eqb (op_Type op) "insert" || _); [by left|]. right.
  destruct (String.eqb (op_Type op) "update") eqn:E; [apply String.eqb_eq in E; by left|]. right.
  destruct (String.eqb (op_Type op) "scan") eqn:E'; [apply String.eqb_eq in E'; left; eauto|]. right. eauto.
Qed.

Section store.
Context {N Cl : Type} {PC : PgClient N Cl} {PS : PgServer N Cl}.

(** Only the target's own statements are ever prepared. *)
Definition only_statements (w : pg_world (N := N)) : Prop := forall c : Cl, pg_prepared (pw_net w) c ⊆ statements.

Definition value_of (w : pg_world (N := N)) (k : Z) : option bytes := fst <$> pg_table (pw_net w) !! k.

Lemma kept_statements n n' s s' :
  pg_kept n n' -> only_statements {| pw_net := n; pw_scan := s |} -> only_statements {| pw_net := n'; pw_scan := s' |}.
Proof. intros Hk Ho c. cbn in *. destruct (Hk c) as [-> | ->]; [apply Ho|apply map_empty_subseteq]. Qed.

(** A statement's name runs its SQL, or nothing. *)
Lemma run_statement w (c : Cl) s sql :
  only_statements w -> statements !! s = Some sql ->
  run_text (pg_prepared (pw_net w) c) s = sql \/ pg_prepared (pw_net w) c !! s = None.
Proof.
  intros Ho Hs. destruct (pg_prepared (pw_net w) c !! s) as [sql'|] eqn:E; [left|by right].
  unfold run_text. rewrite E. pose proof (lookup_weaken _ _ _ _ E (Ho c)) as E'. cbn. congruence.
Qed.

Lemma pg_execRead_spec (c : pgConn (Cl := Cl)) t k w :
  only_statements w ->
  let plan := {| pl_stmt := stmtRead; pl_args := [ArgInt k]; pl_kind := kindRead |} in
  pg_table (pw_net (execRead c t plan w).1) = pg_table (pw_net w) /\ only_statements (execRead c t plan w).1 /\
  (or_Err (execRead c t plan w).2 = None ->
   (execRead c t plan w).2 = match value_of w k with
                             | Some v => op_res t 1 (ABytes (Some v)) None
                             | None => op_res t 0 ANil None
                             end).
Proof.
  intros Ho plan. unfold execRead, on_net, value_of. cbn [plan pl_stmt pl_args].
  destruct (pg_row_keeps (pc_conn c) stmtRead [ArgInt k] (pw_net w)) as [Ht Hk].
  pose proof (kept_statements _ _ (pw_scan w) (pw_scan w) Hk Ho) as Ho'.
  destruct (run_statement w (pc_conn c) stmtRead readSQL Ho eq_refl) as [Hr|Hn].
  - pose proof (pg_read (pc_conn c) stmtRead k (pw_net w) Hr) as Ha.
    destruct (pg_QueryRow (pc_conn c) stmtRead [ArgInt k] (pw_net w)) as [n [v|[|e]]]; cbn in *; (split_and!; [done|done|]).
    + by rewrite Ha.
    + by rewrite Ha.
    + done.
  - destruct (proj2 (pg_no_sql (pc_conn c) stmtRead (pw_net w) ltac:(done) Hn) [ArgInt k]) as [e He].
    destruct (pg_QueryRow (pc_conn c) stmtRead [ArgInt k] (pw_net w)) as [n r]; cbn in *. subst r. by cbn.
Qed.

(** A write statement leaves the table alone, or writes the row; the upsert has
    written it when it succeeds, the update only if the key was there. *)
Lemma pg_execWrite_spec (c : pgConn (Cl := Cl)) t s k v q w :
  only_statements w -> s = stmtUpsert \/ s = stmtUpdate ->
  let plan := {| pl_stmt := s; pl_args := [ArgInt k; ArgBytes v; ArgInt q]; pl_kind := kindWrite |} in
  let tb := pg_table (pw_net w) in
  let tb' := pg_table (pw_net (execWrite c t plan w).1) in
  only_statements (execWrite c t plan w).1 /\ (tb' = tb \/ tb' = <[k := (v, q)]> tb) /\
  (or_Err (execWrite c t plan w).2 = None ->
   (tb' = <[k := (v, q)]> tb /\ (execWrite c t plan w).2 = op_res t 1 ANil None /\ (s = stmtUpdate -> tb !! k <> None)) \/
   (s = stmtUpdate /\ tb !! k = None /\ tb' = tb /\ (execWrite c t plan w).2 = op_res t 0 ANil None)).
Proof.
  intros Ho Hs plan. unfold execWrite, on_net. cbn [plan pl_stmt pl_args].
  pose proof (kept_statements _ _ (pw_scan w) (pw_scan w)
    (pg_exec_keeps (pc_conn c) s [ArgInt k; ArgBytes v; ArgInt q] (pw_net w)) Ho) as Ho'.
  assert (Hsql : exists sql, statements !! s = Some sql /\ (s = stmtUpsert /\ sql = upsertSQL \/ s = stmtUpdate /\ sql = updateSQL)).
  { destruct Hs as [-> | ->]; eexists; (split; [reflexivity|]); auto. }
  destruct Hsql as (sql & Hsql & Hcase).
  destruct (run_statement w (pc_conn c) s sql Ho Hsql) as [Hr|Hn].
  - destruct Hcase as [[-> ->]|[-> ->]].
    + pose proof (pg_upsert (pc_conn c) stmtUpsert k v q (pw_net w) Hr) as Ha.
      destruct (pg_Exec _ _ _ _) as [n [r|e]]; cbn in *; (split; [done|]); [|by split].
      destruct Ha as [Ha ->]. split; [by right|]. intros _. left. split_and!; [done|done|done].
    + pose proof (pg_update (pc_conn c) stmtUpdate k v q (pw_net w) Hr) as Ha.
      destruct (pg_Exec _ _ _ _) as [n [r|e]]; cbn in *; (split; [done|]).
      * destruct Ha as [(Hin & Ha & ->)|(Hout & Ha & ->)]; [split; [by right|]; by left|split; [by left|]; by right].
      * split; [naive_solver|done].
  - destruct (proj1 (pg_no_sql (pc_conn c) s (pw_net w) ltac:(by rewrite Hsql) Hn) [ArgInt k; ArgBytes v; ArgInt q]) as [Ht [e He]].
    destruct (pg_Exec _ _ _ _) as [n r]; cbn in *. subst r. cbn. split; [done|]. split; [by left|done].
Qed.

Lemma pg_execScan_spec (c : pgConn (Cl := Cl)) t plan w :
  only_statements w ->
  pg_table (pw_net (execScan c t plan w).1) = pg_table (pw_net w) /\ only_statements (execScan c t plan w).1.
Proof.
  intros Ho. unfold execScan, on_net.
  destruct (pg_query_keeps (pc_conn c) (pl_stmt plan) (pl_args plan) (pw_net w)) as [Ht Hk].
  pose proof (kept_statements _ _ (pw_scan w) (pw_scan w) Hk Ho) as Ho'.
  destruct (pg_Query _ _ _ _) as [n [[rows err]|e]]; by cbn in *.
Qed.

Lemma Execute_ok (c : pgConn (Cl := Cl)) op w : only_statements w -> only_statements (pg_driver_Execute c op w).1.
Proof.
  intros Ho. unfold pg_driver_Execute.
  destruct (pg_planFor_cases op (default 0 (pw_scan w !! pc_ptr c)))
    as [[_ ->]|[[_ ->]|[[_ ->]|[(_ & args & ->)|(_ & _ & e & ->)]]]]; cbn [pl_kind].
  - by apply pg_execRead_spec.
  - apply (pg_execWrite_spec c (op_Type op) stmtUpsert); auto.
  - apply (pg_execWrite_spec c (op_Type op) stmtUpdate); auto.
  - by apply pg_execScan_spec.
  - done.
Qed.

Section opened.
Context (getenv : string -> string) (order : nat -> list (string * string)).

Lemma pg_open_keeps cfg e w :
  only_statements w ->
  pg_table (pw_net (open getenv cfg e w).1) = pg_table (pw_net w) /\ only_statements (open getenv cfg e w).1.
Proof.
  intros Ho. unfold open, on_net. set (dsn := buildDSN e _).
  destruct (pg_connect_keeps dsn (pw_net w)) as [Ht Hk].
  pose proof (kept_statements _ _ (pw_scan w) (pw_scan w) Hk Ho) as Ho'.
  destruct (pg_Connect dsn (pw_net w)) as [n [c|err]]; by cbn in *.
Qed.

Lemma close_keeps (c : Cl) w :
  only_statements w ->
  pg_table (pw_net (on_net (pg_Close c) w).1) = pg_table (pw_net w) /\ only_statements (on_net (pg_Close c) w).1.
Proof.
  intros Ho. unfold on_net. destruct (pg_close_keeps c (pw_net w)) as [Ht Hk].
  pose proof (kept_statements _ _ (pw_scan w) (pw_scan w) Hk Ho) as Ho'.
  destruct (pg_Close c (pw_net w)) as [n r]; by cbn in *.
Qed.

Lemma applyConsistency_keeps (c : Cl) level w :
  only_statements w ->
  pg_table (pw_net (applyConsistency c level w).1) = pg_table (pw_net w) /\ only_statements (applyConsistency c level w).1.
Proof.
  intros Ho. unfold applyConsistency, on_net. destruct (isoLevel level) as [lvl|e]; [|done].
  pose proof (pg_session c lvl (pw_net w)) as Ht.
  pose proof (kept_statements _ _ (pw_scan w) (pw_scan w) (pg_exec_keeps c (isolation_sql lvl) [] (pw_net w)) Ho) as Ho'.
  destruct (pg_Exec c (isolation_sql lvl) [] (pw_net w)) as [n [r|e]]; by cbn in *.
Qed.

Lemma Connect_keeps cfg w :
  only_statements w ->
  pg_table (pw_net (pg_driver_Connect getenv cfg w).1) = pg_table (pw_net w) /\
  only_statements (pg_driver_Connect getenv cfg w).1.
Proof.
  intros Ho. unfold pg_driver_Connect. destruct (pg_open_keeps cfg (firstEndpoint (cfg_Endpoints cfg)) w Ho) as [Ht1 Ho1].
  destruct (open _ _ _ _) as [w1 [c|e]]; [|done]. cbn [fst] in *.
  destruct (applyConsistency_keeps c (cfg_Consistency cfg) w1 Ho1) as [Ht2 Ho2].
  destruct (applyConsistency _ _ _) as [w2 [e|]]; cbn [fst] in *.
  - destruct (close_keeps c w2 Ho2) as [Ht3 Ho3]. split; [congruence|done].
  - split; [cbn; congruence|done].
Qed.

Lemma prepare_all_keeps (c : Cl) stmts w :
  (forall p, p ∈ stmts -> statements !! p.1 = Some p.2) -> only_statements w ->
  pg_table (pw_net (prepare_all c stmts w).1) = pg_table (pw_net w) /\ only_statements (prepare_all c stmts w).1.
Proof.
  revert w. induction stmts as [|[name sql] stmts IH]; intros w Hs Ho; [done|]. cbn [prepare_all]. unfold on_net.
  destruct (pg_prepare_keeps c name sql (pw_net w)) as [Ht Hp].
  assert (Ho' : only_statements {| pw_net := (pg_Prepare c name sql (pw_net w)).1; pw_scan := pw_scan w |}).
  { intros c'. cbn. destruct (Hp c') as [->|[->|[-> ->]]]; [apply Ho|apply map_empty_subseteq|].
    apply insert_subseteq_l; [|apply Ho]. exact (Hs (name, sql) ltac:(left)). }
  destruct (pg_Prepare c name sql (pw_net w)) as [n [e|]]; cbn [fst] in *; [done|].
  destruct (IH {| pw_net := n; pw_scan := pw_scan w |} (fun p Hin => Hs p ltac:(by right)) Ho') as [Ht2 Ho2].
  cbn in Ht2. split; [congruence|done].
Qed.

(** PostgreSQL keeps what reconciliation presumes, except that an update can
    succeed without storing its value: only [insert] and [w] are upserts. *)
#[export] Instance pg_KeyValue (order_ok : forall i, order i ≡ₚ map_to_list statements) :
  KeyValue (pg_world (N := N)) (pgConn (Cl := Cl)) (Drv := pg_driver getenv order).
Proof.
  refine {| kv_ok := only_statements; kv_cfg _ := True; kv_conn _ := True; kv_get := value_of; kv_writes := writes_value; kv_upserts := inserts_value;
            kv_reads := reads_value; kv_versioned := false |}.
  - intros t Ht. by apply pg_writes_not_reads.
  - intros cfg w Ho. destruct (Connect_keeps cfg w Ho) as [Ht Ho']. split; [exact Ho'|].
    intros k. unfold value_of. by rewrite <- Ht.
  - done.
  - intros c wl w Ho.
    destruct (prepare_all_keeps (pc_conn c) (order (pc_ptr c))
      {| pw_net := pw_net w; pw_scan := <[pc_ptr c := scanLimitFromWorkload wl]> (pw_scan w) |}) as [Ht Ho'].
    { intros [name sql]. rewrite order_ok. by rewrite elem_of_map_to_list. }
    { exact Ho. }
    split; [exact Ho'|]. intros k. unfold value_of. cbn in Ht. by rewrite <- Ht.
  - intros c w Ho. destruct (close_keeps (pc_conn c) w Ho) as [Ht Ho']. split; [exact Ho'|].
    intros k. unfold value_of. by rewrite <- Ht.
  - intros c op w _ Ho. by apply Execute_ok.
  - intros c op w _ Ho. cbn. unfold pg_driver_Execute, value_of.
    destruct (pg_planFor_cases op (default 0 (pw_scan w !! pc_ptr c)))
      as [[_ ->]|[[Hw ->]|[[Hw ->]|[(_ & args & ->)|(_ & _ & e & ->)]]]]; cbn [pl_kind].
    + left. intros k. by rewrite (proj1 (pg_execRead_spec c (op_Type op) (op_Key op) w Ho)).
    + destruct (pg_execWrite_spec c (op_Type op) stmtUpsert (op_Key op) (op_Value op) (op_Seq op) w Ho (or_introl eq_refl))
        as (_ & [->| ->] & _); [by left|right].
      unfold writes_value. rewrite Hw. split; [done|]. intros _ k _.
      case_decide; [subst; by rewrite lookup_insert_eq|by rewrite lookup_insert_ne].
    + destruct (pg_execWrite_spec c (op_Type op) stmtUpdate (op_Key op) (op_Value op) (op_Seq op) w Ho (or_intror eq_refl))
        as (_ & [->| ->] & _); [by left|right].
      rewrite Hw. split; [done|]. intros _ k _.
      case_decide; [subst; by rewrite lookup_insert_eq|by rewrite lookup_insert_ne].
    + left. intros k. by rewrite (proj1 (pg_execScan_spec c (op_Type op) _ w Ho)).
    + by left.
  - intros c op w _ Ho. cbn. intros Hw Herr. left. revert Herr. unfold pg_driver_Execute, value_of.
    destruct (pg_planFor_cases op (default 0 (pw_scan w !! pc_ptr c)))
      as [[Hr _]|[[_ ->]|[[Et _]|[(Et & _)|(_ & Hn & _)]]]]; cbn [pl_kind].
    + destruct (pg_writes_not_reads (op_Type op)) as [Hx _]; [by unfold writes_value; rewrite Hw|]. by rewrite Hx in Hr.
    + destruct (pg_execWrite_spec c (op_Type op) stmtUpsert (op_Key op) (op_Value op) (op_Seq op) w Ho (or_introl eq_refl))
        as (_ & _ & Hs). intros Herr. destruct (Hs Herr) as [(-> & _)|(? & _)]; [|done]. by rewrite lookup_insert_eq.
    + by rewrite Et in Hw.
    + by rewrite Et in Hw.
    + unfold writes_value in Hn. by rewrite Hw in Hn.
  - intros c op w _ Ho. cbn. intros Hr. unfold pg_driver_Execute.
    destruct (pg_planFor_cases op (default 0 (pw_scan w !! pc_ptr c)))
      as [[_ ->]|[[Hw _]|[[Et _]|[(Et & _)|(Hn & _)]]]]; cbn [pl_kind].
    + destruct (pg_execRead_spec c (op_Type op) (op_Key op) w Ho) as (Hd & _ & Ha).
      split; [intros k; unfold value_of; by rewrite Hd|].
      intros Herr. rewrite (Ha Herr). by destruct (value_of w (op_Key op)).
    + destruct (pg_writes_not_reads (op_Type op)) as [Hx _]; [by unfold writes_value; rewrite Hw|]. by rewrite Hx in Hr.
    + by rewrite Et in Hr.
    + by rewrite Et in Hr.
    + by rewrite Hn in Hr.
Defined.
End opened.

Lemma update_missing (c : pgConn (Cl := Cl)) op w w' res :
  only_statements w -> op_Type op = "update"%string -> pg_table (pw_net w) !! op_Key op = None ->
  pg_driver_Execute c op w = (w', res) -> or_Err res = None ->
  res = op_res "update" 0 ANil None /\ pg_table (pw_net w') = pg_table (pw_net w).
Proof.
  intros Ho Et Hk E Herr. unfold pg_driver_Execute in E.
  destruct (pg_planFor_cases op (default 0 (pw_scan w !! pc_ptr c)))
    as [[Hr _]|[[Hw _]|[[_ Ep]|[(Es & _)|(_ & Hn & _)]]]].
  - by rewrite Et in Hr.
  - by rewrite Et in Hw.
  - rewrite Ep in E. cbn [pl_kind] in E.
    destruct (pg_execWrite_spec c (op_Type op) stmtUpdate (op_Key op) (op_Value op) (op_Seq op) w Ho (or_intror eq_refl))
      as (_ & _ & Hs). rewrite E in Hs. cbn [fst snd] in Hs. rewrite <- Et.
    destruct (Hs Herr) as [(_ & _ & Hin)|(_ & _ & Ht & ->)]; [by destruct (Hin eq_refl)|by rewrite Ht].
  - by rewrite Et in Es.
  - by rewrite Et in Hn.
Qed.

(** C37: A correct server is reported as having lost data.  An update of a key
    that has no row succeeds, affects no row and leaves the table as it was;
    the observer, which looks only at the error, logs it as a committed write,
    and reconciling that log against the unchanged server fails with one lost
    key. *)
Theorem update_missing_reported_lost {Clk : Clock (pg_world (N := N))} {WC : WorldClock (pg_world (N := N))}
    (cluster : option (ClusterAware (pg_world (N := N)))) (getenv : string -> string)
    (order : nat -> list (string * string)) (order_ok : forall i, order i ≡ₚ map_to_list statements)
    o up reads (c : pgConn (Cl := Cl)) op w w' res cfg w1 (conn : pgConn (Cl := Cl)) w2 fuel order1 order2 :
  only_statements w -> op_Type op = "update"%string -> op_Value op <> [] ->
  pg_table (pw_net w) !! op_Key op = None ->
  pg_driver_Execute c op w = (w', res) -> or_Err res = None ->
  pg_driver_Connect getenv cfg w' = (w1, Ok conn) ->
  pg_driver_Prepare order conn (ro_Workload o) w1 = (w2, None) -> up w2 -> ro_ReadOp o = "read"%string ->
  readable (KV := pg_KeyValue getenv order order_ok) o up conn ->
  replicas_quiescent cluster (resting (KV := pg_KeyValue getenv order order_ok) up w') reads ->
  (converge_fuel (ro_ConvergenceTimeout o) <= fuel)%nat ->
  let expected := foldl keepLatest ∅ (omap committed [(op, res)]) in
  order1 ≡ₚ map_to_list expected ->
  or_Rows res = 0 /\ pg_table (pw_net w') = pg_table (pw_net w) /\
  exists w'' vr,
    Reconcile (Drv := pg_driver getenv order) fuel cluster cfg expected order1 order2 o w' = Some (w'', (vr, None)) /\
    vr_Verdict vr = VerdictFail /\ vr_Lost vr = 1.
Proof.
  intros Ho Et Hv Hk E Herr Hconn Hprep Hup Hro Hread Hrq Hf expected Hord.
  assert (Ho' : only_statements w') by (pose proof (Execute_ok c op w Ho) as H'; by rewrite E in H').
  destruct (update_missing c op w w' res Ho Et Hk E Herr) as [-> Ht]. split; [done|]. split; [done|].
  set (KV := pg_KeyValue getenv order order_ok) in *.
  assert (Hmiss : value_of w' (op_Key op) = None) by (unfold value_of; by rewrite Ht, Hk).
  destruct (reconcile_single (KV := KV) cluster o up reads op (op_res "update" 0 ANil None) cfg w' w1 conn w2 fuel
    order1 order2) as (w'' & vr & Er & Hiff & Hpf & Hlost); [done|done|done|done|done|done|done|by rewrite Hro|done..|].
  exists w'', vr. split; [exact Er|]. cbn in Hiff, Hlost. rewrite Hmiss in Hiff, Hlost. split; [|done].
  destruct Hpf as [Hp|Hp]; [|done]. apply Hiff in Hp as [(v & Hv' & _) _]. done.
Qed.
End store.

(** ** A concrete server *)

(** The clock, the table and the statements prepared on each connection. *)
Record sample_net := {
  sn_time : Z;
  sn_table : gmap Z (bytes * Z);
  sn_prepared : list (gmap string string)
}.

Definition sample_text (c : nat) (s : string) (n : sample_net) : string :=
  run_text (default ∅ (sn_prepared n !! c)) s.

Definition sample_set (tb : gmap Z (bytes * Z)) (n : sample_net) : sample_net :=
  {| sn_time := sn_time n + 1; sn_table := tb; sn_prepared := sn_prepared n |}.

Definition is_statement (s : string) : bool := match statements !! s with Some _ => true | None => false end.

#[local] Instance sample_client : PgClient sample_net nat := {|
  pg_Connect _ n :=
    ({| sn_time := sn_time n; sn_table := sn_table n; sn_prepared := sn_prepared n ++ [∅] |}, Ok (length (sn_prepared n)));
  pg_Prepare c name sql n :=
    ({| sn_time := sn_time n; sn_table := sn_table n; sn_prepared := alter (<[name := sql]>) c (sn_prepared n) |}, None);
  pg_Exec c s args n :=
    match args with
    | [ArgInt k; ArgBytes v; ArgInt q] =>
        if String.eqb (sample_text c s n) upsertSQL then (sample_set (<[k := (v, q)]> (sn_table n)) n, Ok 1)
        else if String.eqb (sample_text c s n) updateSQL then
          match sn_table n !! k with
          | Some _ => (sample_set (<[k := (v, q)]> (sn_table n)) n, Ok 1)
          | None => (sample_set (sn_table n) n, Ok 0)
          end
        else (n, Err "syntax error"%string)
    | _ => (n, if is_statement s then Err "syntax error"%string else Ok 0)
    end;
  pg_QueryRow c s args n :=
    match args with
    | [ArgInt k] =>
        if String.eqb (sample_text c s n) readSQL then
          (sample_set (sn_table n) n, match sn_table n !! k with Some (v, _) => Ok v | None => Err ErrNoRows end)
        else (n, Err (RowErr "syntax error"))
    | _ => (n, Err (RowErr "syntax error"))
    end;
  pg_Query _ _ _ n := (n, Ok ([], None));
  pg_Close _ n := (n, None)
|}.

Lemma statement_names s : statements !! s <> None -> s <> upsertSQL /\ s <> updateSQL /\ s <> readSQL.
Proof. intros Hs. split_and!; intros ->; by apply Hs. Qed.

Lemma sample_text_none s c n :
  default ∅ (sn_prepared n !! c) !! s = None -> sample_text c s n = s.
Proof. unfold sample_text, run_text. by intros ->. Qed.

#[local] Instance sample_server : PgServer sample_net nat.
Proof.
  refine {| pg_table := sn_table; pg_prepared n c := default ∅ (sn_prepared n !! c) |}.
  - intros dsn n. split; [done|]. intros c. cbn. rewrite lookup_app.
    destruct (sn_prepared n !! c) as [p|] eqn:E; [by left|right].
    by destruct (c - length (sn_prepared n))%nat as [|m].
  - intros c n. split; [done|]. by left.
  - intros c name sql n. split; [done|]. intros c'. cbn. destruct (decide (c = c')) as [->|Hne].
    + rewrite list_lookup_alter_eq. destruct (sn_prepared n !! c'); cbn; [right; by right|by left].
    + left. by rewrite list_lookup_alter_ne.
  - intros c s args n. split; [done|]. by left.
  - intros c s args n. cbn. destruct args as [|[k|b|b] [|a args]]; try (split; [done|by left]).
    destruct (String.eqb _ _); (split; [done|by left]).
  - intros c s args n c'. left. cbn. repeat (case_match; try done).
  - intros c s k n Ht. cbn. unfold sample_text. rewrite Ht. change (String.eqb readSQL readSQL) with true. cbn.
    by destruct (sn_table n !! k) as [[v q]|].
  - intros c s k v q n Ht. cbn. unfold sample_text. rewrite Ht. by change (String.eqb upsertSQL upsertSQL) with true.
  - intros c s k v q n Ht. cbn. unfold sample_text. rewrite Ht.
    change (String.eqb updateSQL upsertSQL) with false. change (String.eqb updateSQL updateSQL) with true. cbn.
    destruct (sn_table n !! k) eqn:E; cbn; [left|right]; done.
  - done.
  - done.
  - intros c s n Hs Hp. cbn. destruct (statement_names s Hs) as (Hu & Hd & Hr).
    assert (Hst : is_statement s = true) by (unfold is_statement; by destruct (statements !! s)).
    rewrite (sample_text_none s c n Hp), Hst. split; intros args.
    + destruct args as [|[k|b|b] [|[k'|b'|b'] [|[k''|b''|b''] [|a args]]]]; try (split; [done|by eexists]).
      rewrite (proj2 (String.eqb_neq _ _) Hu), (proj2 (String.eqb_neq _ _) Hd). split; [done|by eexists].
    + destruct args as [|[k|b|b] [|a args]]; try (by eexists).
      rewrite (proj2 (String.eqb_neq _ _) Hr). by eexists.
Defined.

#[local] Instance sample_clock : Clock (pg_world (N := sample_net)) := {|
  now w := (w, sn_time (pw_net w));
  wait d w := ({| pw_net := {| sn_time := sn_time (pw_net w) + Z.max d 0; sn_table := sn_table (pw_net w);
                               sn_prepared := sn_prepared (pw_net w) |}; pw_scan := pw_scan w |}, None);
  ctx_Err _ := None
|}.

#[local] Instance sample_world_clock : WorldClock (pg_world (N := sample_net)).
Proof. refine {| time_of w := sn_time (pw_net w) |}; cbn; intros; simplify_eq/=; lia. Defined.

Definition sample_order (i : nat) : list (string * string) := map_to_list statements.

(** One prepared connection and an empty table. *)
Definition sample_world : pg_world (N := sample_net) :=
  {| pw_net := {| sn_time := 0; sn_table := ∅; sn_prepared := [statements] |}; pw_scan := [100] |}.

Definition sample_conn (i : nat) : pgConn (Cl := nat) := {| pc_conn := i; pc_ptr := i |}.

Definition sample_update : Operation :=
  {| op_Type := "update"; op_Key := 7; op_Value := [Byte.x41]; op_Seq := 1 |}.

Definition sample_cfg : Driver.Config :=
  {| cfg_Endpoints := ["db:5432"]; cfg_Consistency := "serializable"; cfg_Params := ∅;
     cfg_Cluster := {| cs_Nodes := []; cs_ReplicationFactor := 1; cs_Consistency := [] |} |}.

Definition sample_env (name : string) : string := "".

Definition sample_after : pg_world (N := sample_net) := (pg_driver_Execute (sample_conn 0) sample_update sample_world).1.
Definition sample_connected : pg_world (N := sample_net) := (pg_driver_Connect (Cl := nat) sample_env sample_cfg sample_after).1.
Definition sample_prepared : pg_world (N := sample_net) :=
  (pg_driver_Prepare sample_order (sample_conn 1) sample_workload sample_connected).1.

Lemma sample_only : only_statements (Cl := nat) sample_world.
Proof. intros [|c]; cbn; [done|]. apply map_empty_subseteq. Qed.

Lemma update_missing_reported_lost_witness :
  let res := op_res "update" 0 ANil None in
  (pg_driver_Execute (sample_conn 0) sample_update sample_world).2 = res /\
  let expected := foldl keepLatest ∅ (omap committed [(sample_update, res)]) in
  exists w'' vr,
    Reconcile (Drv := pg_driver sample_env sample_order) 1002 None sample_cfg expected (map_to_list expected)
      (map_to_list expected) map_options sample_after = Some (w'', (vr, None)) /\
    vr_Verdict vr = VerdictFail /\ vr_Lost vr = 1.
Proof.
  intros res. split; [vm_compute; reflexivity|]. intros expected.
  destruct (update_missing_reported_lost (PS := sample_server) None sample_env sample_order (fun _ => ltac:(reflexivity))
    map_options (fun w => sn_prepared (pw_net w) !! 1%nat = Some statements) (fun _ _ => Err ""%string)
    (sample_conn 0) sample_update sample_world sample_after res sample_cfg sample_connected (sample_conn 1) sample_prepared
    1002 (map_to_list expected) (map_to_list expected) sample_only eq_refl) as (_ & _ & H);
    [done|done|vm_compute; reflexivity|done|vm_compute; reflexivity|vm_compute; reflexivity|vm_compute; reflexivity|
     reflexivity| |done|vm_compute; lia|reflexivity|exact H].
  intros k w _ Hp. cbn in Hp. cbn. unfold pg_driver_Execute, execRead, on_net. cbn. unfold sample_text. rewrite Hp.
  change (String.eqb (run_text (default ∅ (Some statements)) stmtRead) readSQL) with true. cbn.
  destruct (sn_table (pw_net w) !! k) as [[v q]|]; cbn; by split.
Defined.
