(* ===== verification/Clickhouse.v ===== *)
(** * Clickhouse: the ClickHouse target (targets/clickhouse/clickhousedriver)

    Statements and plans (sql.go), options (config.go), connections (conn.go,
    driver.go) and the per-node read (cluster.go).  clickhouse-go is third-party
    code: [ChClient] lists the calls made on it, [ChServer] what they do to the
    row the target's read returns for a key, the one with the greatest
    sequence number. *)

From Stdlib Require Import Ascii String.
From S2P Require Import Schedule Rand Prelude Domain Strconv Checksum Workload Metrics Expect Driver Reconcile.
From S2P Require Import History Config Runner Engine KeyValue Targets.

Local Open Scope Z_scope.
Local Open Scope go_scope.

(** ** sql.go *)

Definition tableName : string := "proofload_kv".
Definition clusterName : string := "proofload".
Definition columnsDDL : string := "(k Int64, v String, seq Int64)".
Definition defaultScanLimit : Z := 100.

Definition readSQL : string := "SELECT v FROM proofload_kv WHERE k = ? ORDER BY seq DESC LIMIT 1".
Definition insertSQL : string := "INSERT INTO proofload_kv (k, v, seq) VALUES (?, ?, ?)".
Definition scanSQL : string := "SELECT k, v FROM proofload_kv WHERE k >= ? ORDER BY k LIMIT ?".

Inductive opKind := kindRead | kindWrite | kindScan.

Record opPlan := { pl_stmt : string; pl_args : list arg; pl_kind : opKind }.

Definition planFor (op : Operation) (scanLimit : Z) : result error opPlan :=
  let t := op_Type op in
  if String.eqb t "read" || String.eqb t "r" then
    Ok {| pl_stmt := readSQL; pl_args := [ArgInt (op_Key op)]; pl_kind := kindRead |}
  else if String.eqb t "insert" || String.eqb t "w" || String.eqb t "update" then
    Ok {| pl_stmt := insertSQL; pl_args := [ArgInt (op_Key op); ArgString (op_Value op); ArgInt (op_Seq op)];
          pl_kind := kindWrite |}
  else if String.eqb t "scan" then
    let scanLimit := if scanLimit <=? 0 then defaultScanLimit else scanLimit in
    Ok {| pl_stmt := scanSQL; pl_args := [ArgInt (op_Key op); ArgInt scanLimit]; pl_kind := kindScan |}
  else Err ("clickhousedriver: unsupported op type " +:+ quoted t)%string.

Definition createTableSQL (clustered : bool) : string :=
  if clustered then
    "CREATE TABLE IF NOT EXISTS " +:+ tableName +:+ " ON CLUSTER '" +:+ clusterName +:+ "' " +:+ columnsDDL +:+ " " +:+
    "ENGINE = ReplicatedReplacingMergeTree(" +:+
    "'/clickhouse/tables/{shard}/" +:+ tableName +:+ "', '{replica}', seq) ORDER BY k"
  else "CREATE TABLE IF NOT EXISTS " +:+ tableName +:+ " " +:+ columnsDDL +:+ " ENGINE = ReplacingMergeTree(seq) ORDER BY k".

Definition scanLimitFromWorkload (w : Workload) : Z := scan_limit defaultScanLimit w.

(** ** config.go *)

Definition defaultCHPort : string := "9000".
Definition defaultDatabase : string := "default".
Definition defaultUser : string := "default".

(** The settings of a session; none is a nil map. *)
Definition consistencySettings (consistency : string) : result error (list (string * Z)) :=
  if String.eqb consistency "" || String.eqb consistency "none" then Ok []
  else if String.eqb consistency "quorum" then
    Ok [("insert_quorum", 2); ("select_sequential_consistency", 1)]%string
  else Err ("clickhousedriver: unsupported consistency " +:+ quoted consistency)%string.

Definition supportedConsistency : list string := ["none"; "quorum"]%string.

Definition isClustered (cfg : Driver.Config) : bool :=
  (1 <? Z.of_nat (length (cs_Nodes (cfg_Cluster cfg)))) || bool_decide (cfg_Params cfg !! "cluster"%string <> None).

Definition firstEndpoint : list string -> string := first_endpoint defaultCHPort.

Definition splitHostPort (endpoint : string) : string * string := split_host_port defaultCHPort endpoint.

Definition normalizeAddr (endpoint : string) : string :=
  let '(host, port) := splitHostPort (TrimSpace endpoint) in host +:+ ":" +:+ port.

Record chAuth := { ca_Database : string; ca_Username : string; ca_Password : string }.

Definition resolveAuth (getenv : string -> string) (p : params) : chAuth :=
  {| ca_Database := first_nonempty [string_param p "dbname"; string_param p "database"; defaultDatabase]%string;
     ca_Username := first_nonempty [getenv "CLICKHOUSE_USER"; defaultUser]%string;
     ca_Password := first_nonempty [getenv "PROOFLOAD_CLICKHOUSE_PASSWORD"; getenv "CLICKHOUSE_PASSWORD"]%string |}.

(** The fields of [clickhouse.Options] that are set, the protocol being native. *)
Record chOptions := {
  ch_Addr : list string;
  ch_Auth : chAuth;
  ch_Settings : list (string * Z);
  ch_MaxOpenConns : Z;
  ch_MaxIdleConns : Z
}.

Definition buildOptions (getenv : string -> string) (consistency : string) (p : params) (endpoint : string)
    : result error chOptions :=
  settings <-? consistencySettings consistency ;;
  Ok {| ch_Addr := [normalizeAddr endpoint]; ch_Auth := resolveAuth getenv p; ch_Settings := settings;
        ch_MaxOpenConns := 1; ch_MaxIdleConns := 1 |}.

Definition ch_Nodes (cfg : Driver.Config) : list Node := queryable cfg.

(** ** conn.go, driver.go *)

(** The calls made on a clickhouse-go connection. *)
Class ChClient (N Cl : Type) := {
  ch_Open : chOptions -> N -> N * result error Cl;
  ch_Ping : Cl -> N -> N * option error;
  ch_Exec : Cl -> string -> list arg -> N -> N * option error;
  ch_QueryRow : Cl -> string -> list arg -> N -> N * result row_error bytes;
  ch_Query : Cl -> string -> list arg -> N -> N * result error (list (result error (Z * bytes)) * option error);
  ch_Close : Cl -> N -> N * option error
}.

Section conn.
Context {N Cl : Type} {CC : ChClient N Cl} (getenv : string -> string).

(** A [*chConn]: the connection, and where its scan limit is kept. *)
Record chConn := { cc_conn : Cl; cc_ptr : nat }.

Record ch_world := { cw_net : N; cw_scan : list Z }.

Definition on_net {A} (f : N -> N * A) (w : ch_world) : ch_world * A :=
  let '(n, a) := f (cw_net w) in ({| cw_net := n; cw_scan := cw_scan w |}, a).

Definition open (cfg : Driver.Config) (endpoint : string) (w : ch_world) : ch_world * result error Cl :=
  match buildOptions getenv (cfg_Consistency cfg) (cfg_Params cfg) endpoint with
  | Err e => (w, Err e)
  | Ok opts =>
      match on_net (ch_Open opts) w with
      | (w, Err e) => (w, Err ("clickhousedriver: open " +:+ endpoint +:+ ": " +:+ e)%string)
      | (w, Ok c) =>
          match on_net (ch_Ping c) w with
          | (w, Some e) => ((on_net (ch_Close c) w).1, Err ("clickhousedriver: ping " +:+ endpoint +:+ ": " +:+ e)%string)
          | (w, None) => (w, Ok c)
          end
      end
  end.

Definition Schema (cfg : Driver.Config) (w : ch_world) : ch_world * option error :=
  match open cfg (firstEndpoint (cfg_Endpoints cfg)) w with
  | (w, Err e) => (w, Some e)
  | (w, Ok c) =>
      let '(w, r) := on_net (ch_Exec c (createTableSQL (isClustered cfg)) []) w in
      let w := (on_net (ch_Close c) w).1 in
      (w, match r with Some e => Some ("clickhousedriver: apply schema: " +:+ e)%string | None => None end)
  end.

Definition ch_driver_Connect (cfg : Driver.Config) (w : ch_world) : ch_world * result error chConn :=
  match open cfg (firstEndpoint (cfg_Endpoints cfg)) w with
  | (w, Err e) => (w, Err e)
  | (w, Ok c) =>
      ({| cw_net := cw_net w; cw_scan := cw_scan w ++ [defaultScanLimit] |},
       Ok {| cc_conn := c; cc_ptr := length (cw_scan w) |})
  end.

Definition ch_driver_Prepare (c : chConn) (wl : Workload) (w : ch_world) : ch_world * option error :=
  ({| cw_net := cw_net w; cw_scan := <[cc_ptr c := scanLimitFromWorkload wl]> (cw_scan w) |}, None).

Definition op_res (t : OpType) (rows : Z) (obs : any) (err : option error) : OpResult :=
  {| or_Type := t; or_Rows := rows; or_Observed := obs; or_Err := err |}.

Definition execRead (c : chConn) (t : OpType) (plan : opPlan) (w : ch_world) : ch_world * OpResult :=
  match on_net (ch_QueryRow (cc_conn c) (pl_stmt plan) (pl_args plan)) w with
  | (w, Err ErrNoRows) => (w, op_res t 0 ANil None)
  | (w, Err (RowErr e)) => (w, op_res t 0 ANil (Some e))
  | (w, Ok v) => (w, op_res t 1 (ABytes (Some v)) None)
  end.

Definition execWrite (c : chConn) (t : OpType) (plan : opPlan) (w : ch_world) : ch_world * OpResult :=
  match on_net (ch_Exec (cc_conn c) (pl_stmt plan) (pl_args plan)) w with
  | (w, Some e) => (w, op_res t 0 ANil (Some e))
  | (w, None) => (w, op_res t 1 ANil None)
  end.

Definition execScan (c : chConn) (t : OpType) (plan : opPlan) (w : ch_world) : ch_world * OpResult :=
  match on_net (ch_Query (cc_conn c) (pl_stmt plan) (pl_args plan)) w with
  | (w, Err e) => (w, op_res t 0 ANil (Some e))
  | (w, Ok (rows, err)) =>
      (w, match scan_rows rows err [] with
          | Err e => op_res t 0 ANil (Some e)
          | Ok out => op_res t (Z.of_nat (length out)) (AByteSlices out) None
          end)
  end.

Definition ch_driver_Execute (c : chConn) (op : Operation) (w : ch_world) : ch_world * OpResult :=
  match planFor op (default 0 (cw_scan w !! cc_ptr c)) with
  | Err e => (w, op_res (op_Type op) 0 ANil (Some e))
  | Ok plan =>
      match pl_kind plan with
      | kindRead => execRead c (op_Type op) plan w
      | kindScan => execScan c (op_Type op) plan w
      | kindWrite => execWrite c (op_Type op) plan w
      end
  end.

Definition ch_driver_Close (c : chConn) (w : ch_world) : ch_world * option error := on_net (ch_Close (cc_conn c)) w.

#[export] Instance ch_driver : Driver ch_world chConn := {|
  drv_Connect := ch_driver_Connect;
  conn_Prepare := ch_driver_Prepare;
  conn_Execute := ch_driver_Execute;
  conn_Close := ch_driver_Close
|}.

(** cluster.go: a connection of the node's own, with an empty configuration. *)
Definition ch_ReadKeyFrom (node : Node) (key : Z) (w : ch_world) : ch_world * result error OpResult :=
  if String.eqb (node_Client node) "" then
    (w, Err ("clickhousedriver: node " +:+ quoted (node_ID node) +:+ " has no client endpoint")%string)
  else
    match buildOptions getenv "" ∅ (node_Client node) with
    | Err e => (w, Err e)
    | Ok opts =>
        match on_net (ch_Open opts) w with
        | (w, Err e) => (w, Err ("clickhousedriver: connect to node " +:+ quoted (node_ID node) +:+ ": " +:+ e)%string)
        | (w, Ok c) =>
            let '(w, r) := on_net (ch_QueryRow c readSQL [ArgInt key]) w in
            let w := (on_net (ch_Close c) w).1 in
            (w, match r with
                | Err ErrNoRows => Ok (op_res "read" 0 ANil None)
                | Err (RowErr e) =>
                    Err ("clickhousedriver: read key " +:+ str (FormatInt key) +:+ " from node " +:+ quoted (node_ID node) +:+ ": " +:+ e)%string
                | Ok v => Ok (op_res "read" 1 (ABytes (Some v)) None)
                end)
        end
    end.

#[export] Instance ch_cluster : ClusterAware ch_world := {|
  ca_Nodes := ch_Nodes;
  ca_ReadKeyFrom := ch_ReadKeyFrom
|}.
End conn.

(** ** What a server does *)

(** The row a key reads as after a row was added: the one with the greater
    sequence number, either of the two on a tie. *)
Definition newest (old : option (bytes * Z)) (row r : bytes * Z) : Prop :=
  match old with
  | None => r = row
  | Some o => if o.2 <? row.2 then r = row else if row.2 <? o.2 then r = o else r = row \/ r = o
  end.

(** [ch_latest n] is the row each key reads as.  A failed insert may have been
    carried out. *)
Class ChServer (N Cl : Type) {CC : ChClient N Cl} := {
  ch_latest : N -> gmap Z (bytes * Z);
  ch_open_keeps o n : ch_latest (ch_Open o n).1 = ch_latest n;
  ch_ping_keeps c n : ch_latest (ch_Ping c n).1 = ch_latest n;
  ch_close_keeps c n : ch_latest (ch_Close c n).1 = ch_latest n;
  ch_query_keeps c s args n : ch_latest (ch_Query c s args n).1 = ch_latest n;
  ch_row_keeps c s args n : ch_latest (ch_QueryRow c s args n).1 = ch_latest n;
  ch_create c b n : ch_latest (ch_Exec c (createTableSQL b) [] n).1 = ch_latest n;
  ch_read c k n :
    match (ch_QueryRow c readSQL [ArgInt k] n).2 with
    | Ok v => fst <$> ch_latest n !! k = Some v
    | Err ErrNoRows => ch_latest n !! k = None
    | Err (RowErr _) => True
    end;
  ch_insert c k v q n :
    let n' := (ch_Exec c insertSQL [ArgInt k; ArgString v; ArgInt q] n).1 in
    (exists r, newest (ch_latest n !! k) (v, q) r /\ ch_latest n' = <[k := r]> (ch_latest n)) \/
    (ch_latest n' = ch_latest n /\ (ch_Exec c insertSQL [ArgInt k; ArgString v; ArgInt q] n).2 <> None)
}.

Definition reads_value (t : OpType) : bool := String.eqb t "read" || String.eqb t "r".
Definition writes_value (t : OpType) : bool :=
  String.eqb t "insert" || String.eqb t "w" || String.eqb t "update".

Lemma ch_writes_not_reads t : writes_value t = true -> reads_value t = false /\ isWrite t = true.
Proof.
  unfold writes_value, reads_value. rewrite !orb_true_iff, !String.eqb_eq.
  by intros [[-> | ->] | ->].
Qed.

Lemma ch_planFor_cases op limit :
  (reads_value (op_Type op) = true /\
   planFor op limit = Ok {| pl_stmt := readSQL; pl_args := [ArgInt (op_Key op)]; pl_kind := kindRead |}) \/
  (writes_value (op_Type op) = true /\
   planFor op limit = Ok {| pl_stmt := insertSQL; pl_args := [ArgInt (op_Key op); ArgString (op_Value op); ArgInt (op_Seq op)];
                            pl_kind := kindWrite |}) \/
  (op_Type op = "scan"%string /\ exists args,
   planFor op limit = Ok {| pl_stmt := scanSQL; pl_args := args; pl_kind := kindScan |}) \/
  (reads_value (op_Type op) = false /\ writes_value (op_Type op) = false /\ exists e, planFor op limit = Err e).
Proof.
  unfold planFor, reads_value, writes_value.
  destruct (String.eqb (op_Type op) "read" || _); [by left|]. right.
  destruct (_ || String.eqb (op_Type op) "update"); [by left|]. right.
  destruct (String.eqb (op_Type op) "scan") eqn:E; [apply String.eqb_eq in E; left; eauto|]. right. eauto.
Qed.

Lemma newest_cases old row r : newest old row r -> r = row \/ old = Some r.
Proof. unfold newest. destruct old as [o|]; [|by left]. repeat case_match; naive_solver. Qed.

Section store.
Context {N Cl : Type} {CC : ChClient N Cl} {CS : ChServer N Cl}.

Definition value_of (w : ch_world (N := N)) (k : Z) : option bytes := fst <$> ch_latest (cw_net w) !! k.

Lemma ch_execRead_spec (c : chConn (Cl := Cl)) t k w :
  let plan := {| pl_stmt := readSQL; pl_args := [ArgInt k]; pl_kind := kindRead |} in
  ch_latest (cw_net (execRead c t plan w).1) = ch_latest (cw_net w) /\
  (or_Err (execRead c t plan w).2 = None ->
   (execRead c t plan w).2 = match value_of w k with
                             | Some v => op_res t 1 (ABytes (Some v)) None
                             | None => op_res t 0 ANil None
                             end).
Proof.
  intros plan. unfold execRead, on_net, value_of. cbn [plan pl_stmt pl_args].
  pose proof (ch_row_keeps (cc_conn c) readSQL [ArgInt k] (cw_net w)) as Ht.
  pose proof (ch_read (cc_conn c) k (cw_net w)) as Ha.
  destruct (ch_QueryRow (cc_conn c) readSQL [ArgInt k] (cw_net w)) as [n [v|[|e]]]; cbn in *; (split; [done|]).
  - by rewrite Ha.
  - by rewrite Ha.
  - done.
Qed.

Lemma ch_execWrite_spec (c : chConn (Cl := Cl)) t k v q w :
  let plan := {| pl_stmt := insertSQL; pl_args := [ArgInt k; ArgString v; ArgInt q]; pl_kind := kindWrite |} in
  let l := ch_latest (cw_net w) in
  let l' := ch_latest (cw_net (execWrite c t plan w).1) in
  (exists r, newest (l !! k) (v, q) r /\ l' = <[k := r]> l) \/
  (l' = l /\ or_Err (execWrite c t plan w).2 <> None).
Proof.
  intros plan. unfold execWrite, on_net. cbn [plan pl_stmt pl_args].
  pose proof (ch_insert (cc_conn c) k v q (cw_net w)) as Hi. cbv zeta in Hi.
  destruct (ch_Exec _ _ _ _) as [n [e|]]; cbn in *; naive_solver.
Qed.

Lemma ch_execScan_keeps (c : chConn (Cl := Cl)) t plan w :
  ch_latest (cw_net (execScan c t plan w).1) = ch_latest (cw_net w).
Proof.
  unfold execScan, on_net. pose proof (ch_query_keeps (cc_conn c) (pl_stmt plan) (pl_args plan) (cw_net w)) as Ht.
  by destruct (ch_Query _ _ _ _) as [n [[rows err]|e]].
Qed.

Lemma ch_opened_keeps getenv cfg e w : ch_latest (cw_net (open (Cl := Cl) getenv cfg e w).1) = ch_latest (cw_net w).
Proof.
  unfold open, on_net. destruct (buildOptions _ _ _ _) as [opts|]; [|done].
  pose proof (ch_open_keeps opts (cw_net w)) as H1. destruct (ch_Open opts (cw_net w)) as [n1 [c|err]]; cbn in *; [|done].
  pose proof (ch_ping_keeps c n1) as H2. destruct (ch_Ping c n1) as [n2 [err|]]; cbn in *; [|congruence].
  pose proof (ch_close_keeps c n2) as H3. destruct (ch_Close c n2) as [n3 r]; cbn in *. congruence.
Qed.

(** What a write does to the values keys read as. *)
Lemma value_of_write (c : chConn (Cl := Cl)) op w w' res :
  execWrite c (op_Type op) {| pl_stmt := insertSQL;
    pl_args := [ArgInt (op_Key op); ArgString (op_Value op); ArgInt (op_Seq op)]; pl_kind := kindWrite |} w = (w', res) ->
  ((forall k, value_of w' k = value_of w k) /\
   (or_Err res = None -> exists o, ch_latest (cw_net w) !! op_Key op = Some o /\ op_Seq op <= o.2)) \/
  (forall k, value_of w' k = if decide (k = op_Key op) then Some (op_Value op) else value_of w k).
Proof.
  intros E. pose proof (ch_execWrite_spec c (op_Type op) (op_Key op) (op_Value op) (op_Seq op) w) as Hs. cbv zeta in Hs.
  rewrite E in Hs. cbn [fst snd] in Hs. unfold value_of. destruct Hs as [(r & Hn & ->)|[-> Herr]]; [|left; by split].
  destruct (decide (r = (op_Value op, op_Seq op))) as [->|Hne].
  - right. intros k. case_decide; [subst; by rewrite lookup_insert_eq|by rewrite lookup_insert_ne].
  - left. destruct (newest_cases _ _ _ Hn) as [|Hold]; [done|]. split.
    + intros k. by rewrite (insert_id _ _ _ Hold).
    + intros _. exists r. split; [done|]. unfold newest in Hn. rewrite Hold in Hn. cbn [snd] in Hn.
      destruct (r.2 <? op_Seq op) eqn:El; zbool; [done|lia].
Qed.

(** ClickHouse keeps what reconciliation presumes, in versions: a write is
    shadowed by a row with a greater sequence number. *)
#[export] Instance ch_KeyValue (getenv : string -> string) :
  KeyValue (ch_world (N := N)) (chConn (Cl := Cl)) (Drv := ch_driver getenv).
Proof.
  refine {| kv_ok _ := True; kv_cfg _ := True; kv_conn _ := True; kv_get := value_of; kv_writes := writes_value;
            kv_upserts := writes_value; kv_reads := reads_value; kv_versioned := true |}.
  - intros t Ht. by apply ch_writes_not_reads.
  - intros cfg w _. split; [done|]. intros k. cbn. unfold ch_driver_Connect, value_of.
    pose proof (ch_opened_keeps getenv cfg (firstEndpoint (cfg_Endpoints cfg)) w) as E.
    destruct (open _ _ _ _) as [w1 [c|e]]; cbn in *; by rewrite E.
  - done.
  - done.
  - intros c w _. split; [done|]. intros k. cbn. unfold ch_driver_Close, on_net, value_of.
    pose proof (ch_close_keeps (cc_conn c) (cw_net w)) as E. destruct (ch_Close _ _). cbn in *. by rewrite E.
  - done.
  - intros c op w _ _. cbn. unfold ch_driver_Execute.
    destruct (ch_planFor_cases op (default 0 (cw_scan w !! cc_ptr c)))
      as [[_ ->]|[[Hw ->]|[(_ & args & ->)|(_ & _ & e & ->)]]]; cbn [pl_kind].
    + left. intros k. unfold value_of. by rewrite (proj1 (ch_execRead_spec c (op_Type op) (op_Key op) w)).
    + destruct (execWrite _ _ _ _) as [w' res] eqn:E. destruct (value_of_write _ _ _ _ _ E) as [[Hsame _]|Hnew];
        [by left|right; split; [done|]; auto].
    + left. intros k. unfold value_of. by rewrite ch_execScan_keeps.
    + by left.
  - intros c op w _ _. cbn. intros Hw Herr. revert Herr. unfold ch_driver_Execute.
    destruct (ch_planFor_cases op (default 0 (cw_scan w !! cc_ptr c)))
      as [[Hr _]|[[_ ->]|[(Et & _)|(_ & Hn & _)]]]; cbn [pl_kind].
    + apply ch_writes_not_reads in Hw as [Hx _]. by rewrite Hx in Hr.
    + destruct (execWrite _ _ _ _) as [w' res] eqn:E. cbn [fst snd]. intros Herr.
      destruct (value_of_write _ _ _ _ _ E) as [[Hsame Hold]|Hnew].
      * right. split; [done|]. rewrite Hsame. destruct (Hold Herr) as (o & Ho & _). unfold value_of. by rewrite Ho.
      * left. rewrite Hnew. by case_decide.
    + by rewrite Et in Hw.
    + by rewrite Hn in Hw.
  - intros c op w _ _. cbn. intros Hr. unfold ch_driver_Execute.
    destruct (ch_planFor_cases op (default 0 (cw_scan w !! cc_ptr c)))
      as [[_ ->]|[[Hw _]|[(Et & _)|(Hn & _)]]]; cbn [pl_kind].
    + destruct (ch_execRead_spec c (op_Type op) (op_Key op) w) as [Hd Ha].
      split; [intros k; unfold value_of; by rewrite Hd|].
      intros Herr. rewrite (Ha Herr). by destruct (value_of w (op_Key op)).
    + apply ch_writes_not_reads in Hw as [Hx _]. by rewrite Hx in Hr.
    + by rewrite Et in Hr.
    + by rewrite Hn in Hr.
Defined.

(** Rows of an earlier run corrupt a later one.  The table outlives a run and
    sequence numbers start again with each, so a key may hold a row with a
    greater number than an acknowledged write: the write is stored but never
    read, and reconciling its log against the correct server fails unless the
    old value has the same checksum. *)
Theorem stale_row_reported_corrupt {Clk : Clock (ch_world (N := N))} {WC : WorldClock (ch_world (N := N))}
    (cluster : option (ClusterAware (ch_world (N := N)))) (getenv : string -> string)
    o up reads (c : chConn (Cl := Cl)) op w w' res old cfg w1 (conn : chConn (Cl := Cl)) w2 fuel order1 order2 :
  writes_value (op_Type op) = true -> op_Value op <> [] ->
  ch_latest (cw_net w) !! op_Key op = Some old -> op_Seq op < old.2 -> Checksum old.1 <> Checksum (op_Value op) ->
  ch_driver_Execute c op w = (w', res) -> or_Err res = None ->
  ch_driver_Connect getenv cfg w' = (w1, Ok conn) ->
  ch_driver_Prepare conn (ro_Workload o) w1 = (w2, None) -> up w2 -> ro_ReadOp o = "read"%string ->
  readable (KV := ch_KeyValue getenv) o up conn ->
  replicas_quiescent cluster (resting (KV := ch_KeyValue getenv) up w') reads ->
  (converge_fuel (ro_ConvergenceTimeout o) <= fuel)%nat ->
  let expected := foldl keepLatest ∅ (omap committed [(op, res)]) in
  order1 ≡ₚ map_to_list expected ->
  value_of w' (op_Key op) = Some old.1 /\
  exists w'' vr,
    Reconcile (Drv := ch_driver getenv) fuel cluster cfg expected order1 order2 o w' = Some (w'', (vr, None)) /\
    vr_Verdict vr = VerdictFail /\ vr_Lost vr = 0.
Proof.
  intros Hw Hv Hold Hseq Hsum E Herr Hconn Hprep Hup Hro Hread Hrq Hf expected Hord.
  assert (Hval : value_of w' (op_Key op) = Some old.1).
  { unfold ch_driver_Execute in E. destruct (ch_planFor_cases op (default 0 (cw_scan w !! cc_ptr c)))
      as [[Hr _]|[[_ Ep]|[(Et & _)|(_ & Hn & _)]]].
    - apply ch_writes_not_reads in Hw as [Hx _]. by rewrite Hx in Hr.
    - rewrite Ep in E. cbn [pl_kind] in E.
      pose proof (ch_execWrite_spec c (op_Type op) (op_Key op) (op_Value op) (op_Seq op) w) as Hs. cbv zeta in Hs.
      rewrite E in Hs. cbn [fst snd] in Hs. destruct Hs as [(r & Hn & Hl)|[_ Hx]]; [|done].
      unfold newest in Hn. rewrite Hold in Hn. cbn [snd] in Hn.
      destruct (old.2 <? op_Seq op) eqn:E1; zbool; [lia|]. destruct (op_Seq op <? old.2) eqn:E2; zbool; [|lia].
      unfold value_of. by rewrite Hl, lookup_insert_eq, Hn.
    - by rewrite Et in Hw.
    - by rewrite Hn in Hw. }
  split; [done|]. set (KV := ch_KeyValue getenv) in *.
  destruct (reconcile_single (KV := KV) cluster o up reads op res cfg w' w1 conn w2 fuel order1 order2)
    as (w'' & vr & Er & Hiff & Hpf & Hlost); [done|done|done|done|done|done|done|by rewrite Hro|done..|].
  exists w'', vr. split; [exact Er|]. cbn in Hiff, Hlost. rewrite Hval in Hiff, Hlost. split; [|done].
  destruct Hpf as [Hp|Hp]; [|done]. apply Hiff in Hp as [(v & [= <-] & Hx) _]. done.
Qed.
End store.

(** ** A concrete server *)

(** A clock and the row each key reads as. *)
Definition sample_net : Type := Z * gmap Z (bytes * Z).

Definition sample_newest (old : option (bytes * Z)) (row : bytes * Z) : bytes * Z :=
  match old with Some o => if row.2 <? o.2 then o else row | None => row end.

#[local] Instance sample_client : ChClient sample_net unit := {|
  ch_Open _ n := (n, Ok tt);
  ch_Ping _ n := (n, None);
  ch_Exec _ s args n :=
    match args with
    | [ArgInt k; ArgString v; ArgInt q] =>
        ((n.1 + 1, <[k := sample_newest (n.2 !! k) (v, q)]> n.2), None)
    | _ => (n, None)
    end;
  ch_QueryRow _ s args n :=
    match args with
    | [ArgInt k] => ((n.1 + 1, n.2), match n.2 !! k with Some (v, _) => Ok v | None => Err ErrNoRows end)
    | _ => (n, Err (RowErr "syntax error"))
    end;
  ch_Query _ _ _ n := (n, Ok ([], None));
  ch_Close _ n := (n, None)
|}.

#[local] Instance sample_server : ChServer sample_net unit.
Proof.
  refine {| ch_latest n := n.2 |}; cbn; try done.
  - intros _ s args n. by destruct args as [|[k|b|b] [|a args]].
  - intros _ k n. by destruct (n.2 !! k) as [[v q]|].
  - intros _ k v q n. left. eexists. split; [|done]. unfold newest, sample_newest.
    destruct (n.2 !! k) as [o|]; [|done]. cbn [snd].
    destruct (o.2 <? q) eqn:E1, (q <? o.2) eqn:E2; zbool; [lia|done|done|by left].
Defined.

#[local] Instance sample_clock : Clock (ch_world (N := sample_net)) := {|
  now w := (w, (cw_net w).1);
  wait d w := ({| cw_net := ((cw_net w).1 + Z.max d 0, (cw_net w).2); cw_scan := cw_scan w |}, None);
  ctx_Err _ := None
|}.

#[local] Instance sample_world_clock : WorldClock (ch_world (N := sample_net)).
Proof. refine {| time_of w := (cw_net w).1 |}; cbn; intros; simplify_eq/=; lia. Defined.

Definition sample_env (name : string) : string := "".

(** Key 7 holds a row numbered 9 of an earlier run. *)
Definition sample_world : ch_world (N := sample_net) :=
  {| cw_net := (0, {[7 := ([Byte.x42], 9)]}); cw_scan := [100] |}.

Definition sample_conn (i : nat) : chConn (Cl := unit) := {| cc_conn := tt; cc_ptr := i |}.

Definition sample_insert : Operation :=
  {| op_Type := "insert"; op_Key := 7; op_Value := [Byte.x41]; op_Seq := 1 |}.

Definition sample_cfg : Driver.Config :=
  {| cfg_Endpoints := ["db:9000"]; cfg_Consistency := "quorum"; cfg_Params := ∅;
     cfg_Cluster := {| cs_Nodes := []; cs_ReplicationFactor := 1; cs_Consistency := [] |} |}.

Definition sample_after : ch_world (N := sample_net) := (ch_driver_Execute (sample_conn 0) sample_insert sample_world).1.
Definition sample_connected : ch_world (N := sample_net) := (ch_driver_Connect (Cl := unit) sample_env sample_cfg sample_after).1.
Definition sample_prepared : ch_world (N := sample_net) := (ch_driver_Prepare (sample_conn 1) sample_workload sample_connected).1.

Lemma stale_row_reported_corrupt_witness :
  let res := op_res "insert" 1 ANil None in
  (ch_driver_Execute (sample_conn 0) sample_insert sample_world).2 = res /\
  let expected := foldl keepLatest ∅ (omap committed [(sample_insert, res)]) in
  exists w'' vr,
    Reconcile (Drv := ch_driver sample_env) 1002 None sample_cfg expected (map_to_list expected)
      (map_to_list expected) map_options sample_after = Some (w'', (vr, None)) /\
    vr_Verdict vr = VerdictFail /\ vr_Lost vr = 0.
Proof.
  intros res. split; [vm_compute; reflexivity|]. intros expected.
  destruct (stale_row_reported_corrupt (CS := sample_server) None sample_env map_options (fun _ => True)
    (fun _ _ => Err ""%string) (sample_conn 0) sample_insert sample_world sample_after res ([Byte.x42], 9) sample_cfg
    sample_connected (sample_conn 1) sample_prepared 1002 (map_to_list expected) (map_to_list expected))
    as (_ & H); [done|done|vm_compute; reflexivity|done|vm_compute; discriminate|vm_compute; reflexivity|done|
     vm_compute; reflexivity|vm_compute; reflexivity|done|reflexivity| |done|vm_compute; lia|reflexivity|exact H].
  intros k w _ _. split; [|done]. cbn. unfold ch_driver_Execute, execRead, on_net. cbn.
  by destruct ((cw_net w).2 !! k) as [[v q]|].
Defined.
