(* ===== verification/Cassandra.v ===== *)
(** * Cassandra: the Cassandra target (targets/cassandra/cassandradriver)

    Statements and plans (cql.go), cluster options (config.go), sessions
    (conn.go, driver.go) and the per-node read (cluster.go).  gocql is
    third-party code: [CqlClient] lists the calls made on it, [CqlCluster] what
    they do to the rows a quorum returns and to each node's replica. *)

From Stdlib Require Import Ascii String.
From S2P Require Import Schedule Rand Prelude Domain Strconv Checksum Workload Metrics Expect Driver Reconcile.
From S2P Require Import History Config Runner Engine KeyValue Targets.

Local Open Scope Z_scope.
Local Open Scope go_scope.

(** ** cql.go *)

Definition keyspaceName : string := "proofload".
Definition tableName : string := "kv".
Definition defaultScanLimit : Z := 100.

Definition readCQL : string := "SELECT v FROM kv WHERE k = ?".
Definition insertCQL : string := "INSERT INTO kv (k, v, seq) VALUES (?, ?, ?)".
Definition updateCQL : string := "UPDATE kv SET v = ?, seq = ? WHERE k = ?".
Definition scanCQL : string := "SELECT k, v FROM kv WHERE token(k) >= token(?) LIMIT ?".

Inductive opKind := kindRead | kindWrite | kindScan.

Record opPlan := { pl_stmt : string; pl_args : list arg; pl_kind : opKind }.

Definition planFor (op : Operation) (scanLimit : Z) : result error opPlan :=
  let t := op_Type op in
  if String.eqb t "read" || String.eqb t "r" then
    Ok {| pl_stmt := readCQL; pl_args := [ArgInt (op_Key op)]; pl_kind := kindRead |}
  else if String.eqb t "insert" || String.eqb t "w" then
    Ok {| pl_stmt := insertCQL; pl_args := [ArgInt (op_Key op); ArgBytes (op_Value op); ArgInt (op_Seq op)];
          pl_kind := kindWrite |}
  else if String.eqb t "update" then
    Ok {| pl_stmt := updateCQL; pl_args := [ArgBytes (op_Value op); ArgInt (op_Seq op); ArgInt (op_Key op)];
          pl_kind := kindWrite |}
  else if String.eqb t "scan" then
    let scanLimit := if scanLimit <=? 0 then defaultScanLimit else scanLimit in
    Ok {| pl_stmt := scanCQL; pl_args := [ArgInt (op_Key op); ArgInt scanLimit]; pl_kind := kindScan |}
  else Err ("cassandradriver: unsupported op type " +:+ quoted t)%string.

(** The levels of gocql that are used. *)
Inductive Consistency := One | Quorum | LocalQuorum | All.

Definition supportedConsistency : list string := ["one"; "quorum"; "local_quorum"; "all"]%string.

Definition consistencyLevel (consistency : string) : result error Consistency :=
  let one := String.eqb consistency in
  if one ""%string || one "quorum"%string then Ok Quorum
  else if one "one"%string then Ok One
  else if one "local_quorum"%string || one "local-quorum"%string then Ok LocalQuorum
  else if one "all"%string then Ok All
  else Err ("cassandradriver: unsupported consistency " +:+ quoted consistency)%string.

Definition createKeyspaceCQL (keyspace : string) (rf : Z) : string :=
  "CREATE KEYSPACE IF NOT EXISTS " +:+ keyspace +:+
  " WITH replication = {'class': 'SimpleStrategy', 'replication_factor': " +:+ str (FormatInt rf) +:+ "}".

Definition createTableCQL (keyspace : string) : string :=
  "CREATE TABLE IF NOT EXISTS " +:+ keyspace +:+ "." +:+ tableName +:+ " (k bigint PRIMARY KEY, v blob, seq bigint)".

Definition scanLimitFromWorkload (w : Workload) : Z := scan_limit defaultScanLimit w.

(** ** config.go *)

Definition defaultHost : string := "localhost:9042".

Record clusterOptions := {
  co_Keyspace : string;
  co_Consistency : Consistency;
  co_User : string;
  co_Password : string;
  co_Timeout : Z
}.

Definition hostsFrom (endpoints : list string) : list string :=
  match endpoints with [] => [defaultHost] | _ => endpoints end.

Definition resolveReplicationFactor (cfg : Driver.Config) : Z :=
  let rf := cs_ReplicationFactor (cfg_Cluster cfg) in if 0 <? rf then rf else 1.

Definition resolveKeyspace (cfg : Driver.Config) : string :=
  let ks := string_param (cfg_Params cfg) "keyspace" in
  if String.eqb ks "" then keyspaceName else ks.

Definition resolveTimeout (p : params) : Z :=
  let ms := asInt (param_any p "timeout_ms") in
  if 0 <? ms then ms *! millisecond else 10 * second.

Definition resolveOptions (getenv : string -> string) (consistency : string) (p : params) (keyspace : string)
    : result error clusterOptions :=
  cons_ <-? consistencyLevel consistency ;;
  Ok {| co_Keyspace := keyspace; co_Consistency := cons_;
        co_User := first_nonempty [string_param p "user"; getenv "PROOFLOAD_CASSANDRA_USER"]%string;
        co_Password := getenv "PROOFLOAD_CASSANDRA_PASSWORD"%string;
        co_Timeout := resolveTimeout p |}.

(** The fields of [gocql.ClusterConfig] that are set, and the host filter. *)
Record clusterConfig := {
  cl_Hosts : list string;
  cl_Keyspace : string;
  cl_Consistency : Consistency;
  cl_Timeout : Z;
  cl_ConnectTimeout : Z;
  cl_NumConns : Z;
  cl_NumRetries : Z;
  cl_DisableInitialHostLookup : bool;
  cl_Authenticator : option (string * string);
  cl_HostFilter : option string
}.

Definition buildCluster (hosts : list string) (o : clusterOptions) : clusterConfig :=
  {| cl_Hosts := hosts; cl_Keyspace := co_Keyspace o; cl_Consistency := co_Consistency o;
     cl_Timeout := co_Timeout o; cl_ConnectTimeout := co_Timeout o; cl_NumConns := 1; cl_NumRetries := 3;
     cl_DisableInitialHostLookup := true;
     cl_Authenticator := if String.eqb (co_User o) "" then None else Some (co_User o, co_Password o);
     cl_HostFilter := None |}.

Definition with_host_filter (host : string) (c : clusterConfig) : clusterConfig :=
  {| cl_Hosts := cl_Hosts c; cl_Keyspace := cl_Keyspace c; cl_Consistency := cl_Consistency c;
     cl_Timeout := cl_Timeout c; cl_ConnectTimeout := cl_ConnectTimeout c; cl_NumConns := cl_NumConns c;
     cl_NumRetries := cl_NumRetries c; cl_DisableInitialHostLookup := true;
     cl_Authenticator := cl_Authenticator c; cl_HostFilter := Some host |}.

Definition cass_Nodes (cfg : Driver.Config) : list Node := queryable cfg.

(** ** conn.go, driver.go *)

(** The calls made on gocql; an iteration is its rows and the error closing it
    gives. *)
Class CqlClient (N Cl : Type) := {
  cs_CreateSession : clusterConfig -> N -> N * result error Cl;
  cs_Scan : Cl -> string -> list arg -> N -> N * result row_error bytes;
  cs_Exec : Cl -> string -> list arg -> N -> N * option error;
  cs_Iter : Cl -> string -> list arg -> N -> N * (list (Z * bytes) * option error);
  cs_Close : Cl -> N -> N
}.

Section conn.
Context {N Cl : Type} {CC : CqlClient N Cl} (getenv : string -> string).

(** A [*cassConn]: the session, and where its scan limit is kept. *)
Record cassConn := { cc_session : Cl; cc_ptr : nat }.

Record cass_world := { sw_net : N; sw_scan : list Z }.

Definition on_net {A} (f : N -> N * A) (w : cass_world) : cass_world * A :=
  let '(n, a) := f (sw_net w) in ({| sw_net := n; sw_scan := sw_scan w |}, a).

Definition close_session (c : Cl) (w : cass_world) : cass_world :=
  {| sw_net := cs_Close c (sw_net w); sw_scan := sw_scan w |}.

Definition Schema (cfg : Driver.Config) (w : cass_world) : cass_world * option error :=
  let keyspace := resolveKeyspace cfg in
  match resolveOptions getenv (cfg_Consistency cfg) (cfg_Params cfg) "" with
  | Err e => (w, Some e)
  | Ok opts =>
      match on_net (cs_CreateSession (buildCluster (hostsFrom (cfg_Endpoints cfg)) opts)) w with
      | (w, Err e) => (w, Some ("cassandradriver: open schema session: " +:+ e)%string)
      | (w, Ok c) =>
          let rf := resolveReplicationFactor cfg in
          match on_net (cs_Exec c (createKeyspaceCQL keyspace rf) []) w with
          | (w, Some e) => (close_session c w, Some ("cassandradriver: create keyspace: " +:+ e)%string)
          | (w, None) =>
              match on_net (cs_Exec c (createTableCQL keyspace) []) w with
              | (w, Some e) => (close_session c w, Some ("cassandradriver: create table: " +:+ e)%string)
              | (w, None) => (close_session c w, None)
              end
          end
      end
  end.

Definition cass_driver_Connect (cfg : Driver.Config) (w : cass_world) : cass_world * result error cassConn :=
  match resolveOptions getenv (cfg_Consistency cfg) (cfg_Params cfg) (resolveKeyspace cfg) with
  | Err e => (w, Err e)
  | Ok opts =>
      match on_net (cs_CreateSession (buildCluster (hostsFrom (cfg_Endpoints cfg)) opts)) w with
      | (w, Err e) => (w, Err ("cassandradriver: connect: " +:+ e)%string)
      | (w, Ok c) =>
          ({| sw_net := sw_net w; sw_scan := sw_scan w ++ [defaultScanLimit] |},
           Ok {| cc_session := c; cc_ptr := length (sw_scan w) |})
      end
  end.

Definition cass_driver_Prepare (c : cassConn) (wl : Workload) (w : cass_world) : cass_world * option error :=
  ({| sw_net := sw_net w; sw_scan := <[cc_ptr c := scanLimitFromWorkload wl]> (sw_scan w) |}, None).

Definition op_res (t : OpType) (rows : Z) (obs : any) (err : option error) : OpResult :=
  {| or_Type := t; or_Rows := rows; or_Observed := obs; or_Err := err |}.

(** What [Scan(&v)] of a row observed. *)
Definition row_result (t : OpType) (r : result row_error bytes) : OpResult :=
  match r with
  | Err ErrNoRows => op_res t 0 ANil None
  | Err (RowErr e) => op_res t 0 ANil (Some e)
  | Ok v => op_res t 1 (ABytes (Some v)) None
  end.

Definition execRead (c : cassConn) (t : OpType) (plan : opPlan) (w : cass_world) : cass_world * OpResult :=
  let '(w, r) := on_net (cs_Scan (cc_session c) (pl_stmt plan) (pl_args plan)) w in (w, row_result t r).

Definition execWrite (c : cassConn) (t : OpType) (plan : opPlan) (w : cass_world) : cass_world * OpResult :=
  match on_net (cs_Exec (cc_session c) (pl_stmt plan) (pl_args plan)) w with
  | (w, Some e) => (w, op_res t 0 ANil (Some e))
  | (w, None) => (w, op_res t 1 ANil None)
  end.

Definition execScan (c : cassConn) (t : OpType) (plan : opPlan) (w : cass_world) : cass_world * OpResult :=
  match on_net (cs_Iter (cc_session c) (pl_stmt plan) (pl_args plan)) w with
  | (w, (rows, Some e)) => (w, op_res t 0 ANil (Some e))
  | (w, (rows, None)) => (w, op_res t (Z.of_nat (length rows)) (AByteSlices (snd <$> rows)) None)
  end.

Definition cass_driver_Execute (c : cassConn) (op : Operation) (w : cass_world) : cass_world * OpResult :=
  match planFor op (default 0 (sw_scan w !! cc_ptr c)) with
  | Err e => (w, op_res (op_Type op) 0 ANil (Some e))
  | Ok plan =>
      match pl_kind plan with
      | kindRead => execRead c (op_Type op) plan w
      | kindScan => execScan c (op_Type op) plan w
      | kindWrite => execWrite c (op_Type op) plan w
      end
  end.

Definition cass_driver_Close (c : cassConn) (w : cass_world) : cass_world * option error :=
  (close_session (cc_session c) w, None).

#[export] Instance cass_driver : Driver cass_world cassConn := {|
  drv_Connect := cass_driver_Connect;
  conn_Prepare := cass_driver_Prepare;
  conn_Execute := cass_driver_Execute;
  conn_Close := cass_driver_Close
|}.

(** cluster.go: a session with one host, at consistency ONE, on the default
    keyspace. *)
Definition cass_ReadKeyFrom (node : Node) (key : Z) (w : cass_world) : cass_world * result error OpResult :=
  if String.eqb (node_Client node) "" then
    (w, Err ("cassandradriver: node " +:+ quoted (node_ID node) +:+ " has no client endpoint")%string)
  else
    match resolveOptions getenv "one" ∅ keyspaceName with
    | Err e => (w, Err e)
    | Ok opts =>
        match on_net (cs_CreateSession (with_host_filter (node_Client node) (buildCluster [node_Client node] opts))) w with
        | (w, Err e) => (w, Err ("cassandradriver: connect to node " +:+ quoted (node_ID node) +:+ ": " +:+ e)%string)
        | (w, Ok c) =>
            let '(w, r) := on_net (cs_Scan c readCQL [ArgInt key]) w in
            let w := close_session c w in
            (w, match r with
                | Err (RowErr e) =>
                    Err ("cassandradriver: read key " +:+ str (FormatInt key) +:+ " from node " +:+ quoted (node_ID node) +:+ ": " +:+ e)%string
                | r => Ok (row_result "read" r)
                end)
        end
    end.

#[export] Instance cass_cluster : ClusterAware cass_world := {|
  ca_Nodes := cass_Nodes;
  ca_ReadKeyFrom := cass_ReadKeyFrom
|}.
End conn.

(** ** What a cluster does *)

(** The levels at which a read sees every write acknowledged at one of them. *)
Definition strong (c : Consistency) : bool := match c with One => false | _ => true end.

(** The two statements that write value [v] under key [k]. *)
Definition write_of (s : string) (args : list arg) (k : Z) (v : bytes) : Prop :=
  exists q, (s = insertCQL /\ args = [ArgInt k; ArgBytes v; ArgInt q]) \/
            (s = updateCQL /\ args = [ArgBytes v; ArgInt q; ArgInt k]).

(** [cs_rows n ks] is what a strong read of a keyspace returns, [cs_replica n h ks]
    what host [h] holds of it.  Writes carry timestamps, so one may be shadowed
    by what is there; a failed one may have been carried out. *)
Class CqlCluster (N Cl : Type) {CC : CqlClient N Cl} := {
  cs_config : Cl -> clusterConfig;
  cs_rows : N -> string -> gmap Z bytes;
  cs_replica : N -> string -> string -> gmap Z bytes;
  cs_session_config cfg n n' c : cs_CreateSession cfg n = (n', Ok c) -> cs_config c = cfg;
  cs_create_keeps cfg n : cs_rows (cs_CreateSession cfg n).1 = cs_rows n;
  cs_create_replica cfg n : cs_replica (cs_CreateSession cfg n).1 = cs_replica n;
  cs_close_keeps c n : cs_rows (cs_Close c n) = cs_rows n;
  cs_scan_keeps c s args n : cs_rows (cs_Scan c s args n).1 = cs_rows n;
  cs_iter_keeps c s args n : cs_rows (cs_Iter c s args n).1 = cs_rows n;
  cs_read c k n : strong (cl_Consistency (cs_config c)) = true ->
    match (cs_Scan c readCQL [ArgInt k] n).2 with
    | Ok v => cs_rows n (cl_Keyspace (cs_config c)) !! k = Some v
    | Err ErrNoRows => cs_rows n (cl_Keyspace (cs_config c)) !! k = None
    | Err (RowErr _) => True
    end;
  cs_read_one c host k n : cl_Consistency (cs_config c) = One -> cl_HostFilter (cs_config c) = Some host ->
    match (cs_Scan c readCQL [ArgInt k] n).2 with
    | Ok v => cs_replica n host (cl_Keyspace (cs_config c)) !! k = Some v
    | Err ErrNoRows => cs_replica n host (cl_Keyspace (cs_config c)) !! k = None
    | Err (RowErr _) => True
    end;
  cs_write c s args k v n : strong (cl_Consistency (cs_config c)) = true -> write_of s args k v ->
    let n' := (cs_Exec c s args n).1 in
    let ks := cl_Keyspace (cs_config c) in
    (exists r, (r = v \/ cs_rows n ks !! k = Some r) /\ cs_rows n' ks = <[k := r]> (cs_rows n ks)) \/
    (cs_rows n' ks = cs_rows n ks /\ (cs_Exec c s args n).2 <> None)
}.

Definition reads_value (t : OpType) : bool := String.eqb t "read" || String.eqb t "r".
Definition writes_value (t : OpType) : bool :=
  String.eqb t "insert" || String.eqb t "w" || String.eqb t "update".

Lemma cass_writes_not_reads t : writes_value t = true -> reads_value t = false /\ isWrite t = true.
Proof.
  unfold writes_value, reads_value. rewrite !orb_true_iff, !String.eqb_eq.
  by intros [[-> | ->] | ->].
Qed.

Lemma cass_planFor_cases op limit :
  (reads_value (op_Type op) = true /\
   planFor op limit = Ok {| pl_stmt := readCQL; pl_args := [ArgInt (op_Key op)]; pl_kind := kindRead |}) \/
  (writes_value (op_Type op) = true /\ exists s args, write_of s args (op_Key op) (op_Value op) /\
   planFor op limit = Ok {| pl_stmt := s; pl_args := args; pl_kind := kindWrite |}) \/
  (op_Type op = "scan"%string /\ exists args,
   planFor op limit = Ok {| pl_stmt := scanCQL; pl_args := args; pl_kind := kindScan |}) \/
  (reads_value (op_Type op) = false /\ writes_value (op_Type op) = false /\ exists e, planFor op limit = Err e).
Proof.
  unfold planFor, reads_value, writes_value, write_of.
  destruct (String.eqb (op_Type op) "read" || _); [by left|]. right.
  destruct (String.eqb (op_Type op) "insert" || _); [left; split; [done|]; do 2 eexists; split; [|done]; eauto|].
  destruct (String.eqb (op_Type op) "update"); [left; split; [done|]; do 2 eexists; split; [|done]; eauto|]. right.
  destruct (String.eqb (op_Type op) "scan") eqn:E; [apply String.eqb_eq in E; left; eauto|]. right. eauto.
Qed.

Section store.
Context {N Cl : Type} {CC : CqlClient N Cl} {CS : CqlCluster N Cl} (ks : string).

Definition value_of (w : cass_world (N := N)) (k : Z) : option bytes := cs_rows (sw_net w) ks !! k.

(** A session on the keyspace at a strong level. *)
Definition strong_conn (c : cassConn (Cl := Cl)) : Prop :=
  cl_Keyspace (cs_config (cc_session c)) = ks /\ strong (cl_Consistency (cs_config (cc_session c))) = true.

Definition strong_cfg (cfg : Driver.Config) : Prop :=
  resolveKeyspace cfg = ks /\ exists l, consistencyLevel (cfg_Consistency cfg) = Ok l /\ strong l = true.

Lemma cass_execRead_spec (c : cassConn (Cl := Cl)) t k w :
  strong_conn c ->
  let plan := {| pl_stmt := readCQL; pl_args := [ArgInt k]; pl_kind := kindRead |} in
  (forall k, value_of (execRead c t plan w).1 k = value_of w k) /\
  (or_Err (execRead c t plan w).2 = None ->
   (execRead c t plan w).2 = match value_of w k with
                             | Some v => op_res t 1 (ABytes (Some v)) None
                             | None => op_res t 0 ANil None
                             end).
Proof.
  intros [Hks Hst] plan. unfold execRead, on_net, value_of. cbn [plan pl_stmt pl_args].
  pose proof (cs_scan_keeps (cc_session c) readCQL [ArgInt k] (sw_net w)) as Ht.
  pose proof (cs_read (cc_session c) k (sw_net w) Hst) as Ha. rewrite Hks in Ha.
  destruct (cs_Scan (cc_session c) readCQL [ArgInt k] (sw_net w)) as [n [v|[|e]]]; cbn in *;
    (split; [intros; by rewrite Ht|]).
  - by rewrite Ha.
  - by rewrite Ha.
  - done.
Qed.

Lemma cass_execWrite_spec (c : cassConn (Cl := Cl)) t s args k v w :
  strong_conn c -> write_of s args k v ->
  let plan := {| pl_stmt := s; pl_args := args; pl_kind := kindWrite |} in
  let w' := (execWrite c t plan w).1 in
  ((forall k', value_of w' k' = value_of w k') /\
   (or_Err (execWrite c t plan w).2 = None -> value_of w k <> None)) \/
  (forall k', value_of w' k' = if decide (k' = k) then Some v else value_of w k').
Proof.
  intros [Hks Hst] Hwr plan. unfold execWrite, on_net, value_of. cbn [plan pl_stmt pl_args].
  pose proof (cs_write (cc_session c) s args k v (sw_net w) Hst Hwr) as Hi. cbv zeta in Hi. rewrite Hks in Hi.
  assert (Hsame : forall r, cs_rows (sw_net w) ks !! k = Some r -> forall k', <[k := r]> (cs_rows (sw_net w) ks) !! k' = cs_rows (sw_net w) ks !! k').
  { intros r Hr k'. by rewrite (insert_id _ _ _ Hr). }
  destruct (cs_Exec (cc_session c) s args (sw_net w)) as [n o]. cbn [fst snd] in Hi.
  assert (Hw' : (match o with Some e => ({| sw_net := n; sw_scan := sw_scan w |}, op_res t 0 ANil (Some e))
                            | None => ({| sw_net := n; sw_scan := sw_scan w |}, op_res t 1 ANil None) end).1
                = {| sw_net := n; sw_scan := sw_scan w |}) by by destruct o.
  rewrite Hw'. cbn [sw_net]. destruct Hi as [(r & [->|Hr] & ->)|[-> Herr]].
  - right. intros k'. case_decide; [subst; by rewrite lookup_insert_eq|by rewrite lookup_insert_ne].
  - left. split; [by apply Hsame|]. intros _. by rewrite Hr.
  - left. split; [done|]. by destruct o.
Qed.

Lemma cass_execScan_keeps (c : cassConn (Cl := Cl)) t plan w k : value_of (execScan c t plan w).1 k = value_of w k.
Proof.
  unfold execScan, on_net, value_of.
  pose proof (cs_iter_keeps (cc_session c) (pl_stmt plan) (pl_args plan) (sw_net w)) as Ht.
  destruct (cs_Iter _ _ _ _) as [n [rows [e|]]]; cbn in *; by rewrite Ht.
Qed.

(** A keyspace read and written at strong levels keeps what reconciliation
    presumes, in versions. *)
#[export] Instance cass_KeyValue (getenv : string -> string) :
  KeyValue (cass_world (N := N)) (cassConn (Cl := Cl)) (Drv := cass_driver getenv).
Proof.
  refine {| kv_ok _ := True; kv_cfg := strong_cfg; kv_conn := strong_conn; kv_get := value_of; kv_writes := writes_value;
            kv_upserts := writes_value; kv_reads := reads_value; kv_versioned := true |}.
  - intros t Ht. by apply cass_writes_not_reads.
  - intros cfg w _. split; [done|]. intros k. cbn. unfold cass_driver_Connect, on_net, value_of.
    destruct (resolveOptions _ _ _ _) as [opts|e]; [|done].
    pose proof (cs_create_keeps (buildCluster (hostsFrom (cfg_Endpoints cfg)) opts) (sw_net w)) as E.
    destruct (cs_CreateSession _ _) as [n [c|e]]; cbn in *; by rewrite E.
  - intros cfg w c [Hks (l & Hl & Hst)]. cbn. unfold cass_driver_Connect, on_net, resolveOptions. rewrite Hl.
    set (o := {| co_Keyspace := _ |}). cbv beta iota.
    pose proof (cs_session_config (buildCluster (hostsFrom (cfg_Endpoints cfg)) o) (sw_net w)) as Hc.
    destruct (cs_CreateSession _ _) as [n [c'|e]]; [|done]. intros [= <-].
    unfold strong_conn. cbn. by rewrite (Hc _ _ eq_refl).
  - done.
  - intros c w _. split; [done|]. intros k. cbn. unfold cass_driver_Close, close_session, value_of. cbn.
    by rewrite cs_close_keeps.
  - done.
  - intros c op w Hc _. cbn. unfold cass_driver_Execute.
    destruct (cass_planFor_cases op (default 0 (sw_scan w !! cc_ptr c)))
      as [[_ ->]|[[Hw (s & args & Hwr & ->)]|[(_ & args & ->)|(_ & _ & e & ->)]]]; cbn [pl_kind].
    + left. by apply cass_execRead_spec.
    + destruct (cass_execWrite_spec c (op_Type op) s args (op_Key op) (op_Value op) w Hc Hwr) as [[Hsame _]|Hnew];
        [by left|right; split; [done|]; auto].
    + left. intros k. apply cass_execScan_keeps.
    + by left.
  - intros c op w Hc _. cbn. intros Hw Herr. revert Herr. unfold cass_driver_Execute.
    destruct (cass_planFor_cases op (default 0 (sw_scan w !! cc_ptr c)))
      as [[Hr _]|[[_ (s & args & Hwr & ->)]|[(Et & _)|(_ & Hn & _)]]]; cbn [pl_kind].
    + apply cass_writes_not_reads in Hw as [Hx _]. by rewrite Hx in Hr.
    + intros Herr. destruct (cass_execWrite_spec c (op_Type op) s args (op_Key op) (op_Value op) w Hc Hwr) as [[Hsame Hold]|Hnew].
      * right. split; [done|]. split; [by apply Hold|]. apply Hsame.
      * left. rewrite Hnew. by case_decide.
    + by rewrite Et in Hw.
    + by rewrite Hn in Hw.
  - intros c op w Hc _. cbn. intros Hr. unfold cass_driver_Execute.
    destruct (cass_planFor_cases op (default 0 (sw_scan w !! cc_ptr c)))
      as [[_ ->]|[[Hw _]|[(Et & _)|(Hn & _)]]]; cbn [pl_kind].
    + destruct (cass_execRead_spec c (op_Type op) (op_Key op) w Hc) as [Hd Ha]. split; [exact Hd|].
      intros Herr. rewrite (Ha Herr). by destruct (value_of w (op_Key op)).
    + apply cass_writes_not_reads in Hw as [Hx _]. by rewrite Hx in Hr.
    + by rewrite Et in Hr.
    + by rewrite Hn in Hr.
Defined.
End store.

(** What a node answers is its replica of the default keyspace. *)
Lemma ReadKeyFrom_answer {N Cl} {CC : CqlClient N Cl} {CS : CqlCluster N Cl} getenv node k
    (w w' : cass_world (N := N)) res :
  cass_ReadKeyFrom (Cl := Cl) getenv node k w = (w', Ok res) ->
  res = match cs_replica (Cl := Cl) (sw_net w) (node_Client node) keyspaceName !! k with
        | Some v => op_res "read" 1 (ABytes (Some v)) None
        | None => op_res "read" 0 ANil None
        end.
Proof.
  unfold cass_ReadKeyFrom. destruct (String.eqb (node_Client node) ""); [done|].
  unfold resolveOptions. cbn [consistencyLevel String.eqb Ascii.eqb Bool.eqb orb].
  set (o := {| co_Keyspace := _ |}). unfold on_net. set (cfg := with_host_filter _ _).
  pose proof (cs_session_config cfg (sw_net w)) as Hc. pose proof (cs_create_replica cfg (sw_net w)) as Hrep.
  destruct (cs_CreateSession cfg (sw_net w)) as [n [c|e]]; [|done]. cbn [sw_net fst] in *.
  specialize (Hc _ _ eq_refl).
  pose proof (cs_read_one c (node_Client node) k n ltac:(by rewrite Hc) ltac:(by rewrite Hc)) as Ha.
  assert (Hks : cl_Keyspace (cs_config c) = keyspaceName) by (by rewrite Hc). rewrite Hks, Hrep in Ha.
  destruct (cs_Scan c readCQL [ArgInt k] n) as [n' [v|[|e]]]; cbn in *; intros [= _ <-]; by rewrite Ha.
Qed.

(** The convergence check cannot see a keyspace other than the default.  It
    reads nodes through sessions on [proofload] whatever keyspace the run was
    configured with; when the run uses another one and [proofload] holds
    nothing under the key, two nodes that answer at all answer alike, however
    their replicas of the run's keyspace differ. *)
Theorem convergence_blind_to_keyspace {N Cl} {CC : CqlClient N Cl} {CS : CqlCluster N Cl} getenv nd1 nd2 k
    (w w1 w2 : cass_world (N := N)) r1 r2 :
  (forall host, cs_replica (Cl := Cl) (sw_net w) host keyspaceName !! k = None) ->
  cass_ReadKeyFrom (Cl := Cl) getenv nd1 k w = (w1, Ok r1) ->
  cass_ReadKeyFrom (Cl := Cl) getenv nd2 k w = (w2, Ok r2) ->
  r1 = r2 /\ or_Observed r1 = ANil.
Proof.
  intros Hnone H1 H2. apply ReadKeyFrom_answer in H1, H2. rewrite Hnone in H1, H2. by subst.
Qed.

(** ** A concrete cluster *)

(** The replicas by host and keyspace; strong reads and writes go to host [a]. *)
Local Abbreviation sample_net := (gmap (string * string) (gmap Z bytes)).

Definition replica_of (n : sample_net) (host ks : string) : gmap Z bytes := default ∅ (n !! (host, ks)).

Definition session_host (c : clusterConfig) : string :=
  match cl_HostFilter c with Some h => h | None => "a"%string end.

Definition sample_store (c : clusterConfig) (k : Z) (v : bytes) (n : sample_net) : sample_net :=
  <[("a"%string, cl_Keyspace c) := <[k := v]> (replica_of n "a" (cl_Keyspace c))]> n.

Lemma replica_of_store c k v n :
  replica_of (sample_store c k v n) "a" (cl_Keyspace c) = <[k := v]> (replica_of n "a" (cl_Keyspace c)).
Proof.
  unfold sample_store. unfold replica_of at 1.
  by rewrite (lookup_insert_eq (M := gmap (string * string)) n ("a"%string, cl_Keyspace c)).
Qed.

#[local] Instance sample_client : CqlClient sample_net clusterConfig := {|
  cs_CreateSession cfg n := (n, Ok cfg);
  cs_Scan c s args n :=
    match args with
    | [ArgInt k] =>
        let host := if strong (cl_Consistency c) then "a"%string else session_host c in
        (n, match replica_of n host (cl_Keyspace c) !! k with Some v => Ok v | None => Err ErrNoRows end)
    | _ => (n, Err (RowErr "syntax error"))
    end;
  cs_Exec c s args n :=
    match args with
    | [ArgInt k; ArgBytes v; ArgInt q] => (sample_store c k v n, None)
    | [ArgBytes v; ArgInt q; ArgInt k] => (sample_store c k v n, None)
    | _ => (n, None)
    end;
  cs_Iter _ _ _ n := (n, ([], None));
  cs_Close _ n := n
|}.

#[local] Instance sample_cluster : CqlCluster sample_net clusterConfig.
Proof.
  refine {| cs_config c := c; cs_rows n ks := replica_of n "a" ks; cs_replica := replica_of |}; try done.
  - by intros cfg n n' c [= _ <-].
  - intros c s args n. by destruct args as [|[k|b|b] [|a args]].
  - intros c k n Hs. cbn. rewrite Hs. by destruct (replica_of n "a" (cl_Keyspace c) !! k).
  - intros c host k n Hc Hh. cbn. unfold session_host. rewrite Hc, Hh. cbn [strong].
    by destruct (replica_of n host (cl_Keyspace c) !! k).
  - intros c s args k v n _ (q & [[-> ->]|[-> ->]]); left; exists v; (split; [by left|]); apply replica_of_store.
Defined.

Definition sample_replicas : gmap (string * string) (gmap Z bytes) :=
  <[("a", "bench")%string := {[7 := [Byte.x41]]}]> (<[("b", "bench")%string := {[7 := [Byte.x42]]}]> ∅).

(** Two hosts whose replicas of the run's keyspace [bench] differ. *)
Definition sample_world : cass_world (N := sample_net) :=
  {| sw_net := sample_replicas; sw_scan := [] |}.

Definition sample_node (host : string) : Node :=
  {| node_ID := host; node_Role := RoleReplica; node_Client := host;
     node_Control := {| ce_Method := ""; ce_Ref := ""; ce_Namespace := ""; ce_Extra := ∅ |} |}.

Definition sample_cfg : Driver.Config :=
  {| cfg_Endpoints := ["a"]; cfg_Consistency := "quorum"; cfg_Params := {["keyspace"%string := AString "bench"]};
     cfg_Cluster := {| cs_Nodes := [sample_node "a"; sample_node "b"]; cs_ReplicationFactor := 2; cs_Consistency := [] |} |}.

Lemma convergence_blind_to_keyspace_witness :
  resolveKeyspace sample_cfg = "bench"%string /\
  replica_of (sw_net sample_world) "a" "bench" !! 7 <> replica_of (sw_net sample_world) "b" "bench" !! 7 /\
  exists r, (cass_ReadKeyFrom (Cl := clusterConfig) (fun _ => ""%string) (sample_node "a") 7 sample_world).2 = Ok r /\
            (cass_ReadKeyFrom (Cl := clusterConfig) (fun _ => ""%string) (sample_node "b") 7 sample_world).2 = Ok r.
Proof.
  split; [reflexivity|]. split; [vm_compute; discriminate|]. exists (op_res "read" 0 ANil None).
  destruct (convergence_blind_to_keyspace (CS := sample_cluster) (fun _ => ""%string) (sample_node "a") (sample_node "b")
    7 sample_world sample_world sample_world (op_res "read" 0 ANil None) (op_res "read" 0 ANil None))
    as [_ _]; [|reflexivity|reflexivity|split; reflexivity].
  intros host. change (replica_of (sw_net sample_world) host keyspaceName !! 7 = None).
  unfold replica_of, sample_world, keyspaceName. cbn [sw_net]. unfold sample_replicas.
  rewrite lookup_insert_ne by congruence. rewrite lookup_insert_ne by congruence. reflexivity.
Defined.
