(* ===== verification/Provision.v ===== *)
(** * Provision: who owns the cluster (core/provision)

    The [Provisioner] port with its registry, and what the two backends
    ([Compose], [K8s]) share: the command line they shell out to, paths, the
    polling loop and the port parser.  A command acts on the world [W] and
    returns what it printed and whether it failed. *)

From Stdlib Require Import Ascii String.
From S2P Require Import Prelude Domain Strconv Driver Expect Targets.

Local Open Scope Z_scope.

(** ** provisioner.go *)

Record Provisioner (W : Type) := {
  prov_Backend : Backend;
  prov_Up : Topology -> W -> W * result error ClusterSpec;
  prov_Down : Topology -> W -> W * option error;
  prov_Nodes : Topology -> W -> W * result error (list Node)
}.
Arguments prov_Backend {W} _.
Arguments prov_Up {W} _ _ _.
Arguments prov_Down {W} _ _ _.
Arguments prov_Nodes {W} _ _ _.

Inductive register_panic := NilProvisioner | DuplicateBackend (b : Backend).

Section registry.
Context {W : Type}.
Implicit Types (registry : gmap Backend (Provisioner W)) (p : Provisioner W).

Definition Register registry (p : option (Provisioner W)) : result register_panic (gmap Backend (Provisioner W)) :=
  match p with
  | None => Err NilProvisioner
  | Some p =>
      match registry !! prov_Backend p with
      | Some _ => Err (DuplicateBackend (prov_Backend p))
      | None => Ok (<[prov_Backend p := p]> registry)
      end
  end.

Definition Backends registry : list string := sort_by String.leb (map fst (map_to_list registry)).

(** The error names the backends there are. *)
Definition Get registry (b : Backend) : result error (Provisioner W) :=
  match registry !! b with
  | Some p => Ok p
  | None => Err ("provision: no backend registered as " +:+ b +:+ " (have " +:+ String.concat " " (Backends registry) +:+ ")")
  end.

(** What is registered is what a lookup finds, and nothing else changes. *)
Lemma Get_Register registry p registry' b :
  Register registry (Some p) = Ok registry' ->
  Get registry' (prov_Backend p) = Ok p /\ (b <> prov_Backend p -> registry' !! b = registry !! b).
Proof.
  unfold Register, Get. destruct (registry !! prov_Backend p); [done|]. intros [= <-].
  split; [by rewrite lookup_insert_eq|]. intros Hb. by rewrite lookup_insert_ne.
Qed.

Lemma Backends_spec registry b : b ∈ Backends registry <-> is_Some (registry !! b).
Proof.
  unfold Backends. rewrite (sort_by_perm String.leb). rewrite list_elem_of_fmap. split.
  - intros ((b' & p) & -> & Hp). apply elem_of_map_to_list in Hp. by exists p.
  - intros [p Hp]. exists (b, p). split; [done|]. by apply elem_of_map_to_list.
Qed.
End registry.

(** ** path/filepath *)

Fixpoint split_on (c : ascii) (t cur : text) : list text :=
  match t with
  | [] => [rev cur]
  | x :: t' => if Ascii.eqb x c then rev cur :: split_on c t' [] else split_on c t' (x :: cur)
  end.

Definition slash : ascii := "/"%char.

Fixpoint join_text (sep : text) (l : list text) : text :=
  match l with
  | [] => []
  | [x] => x
  | x :: l' => x ++ sep ++ join_text sep l'
  end.

(** One element of the path; the stack holds the elements kept, last first. *)
Definition clean_step (rooted : bool) (stack : list text) (e : text) : list text :=
  if decide (e = [] \/ e = txt ".") then stack
  else if decide (e = txt "..") then
    match stack with
    | [] => if rooted then [] else [txt ".."]
    | x :: rest => if decide (x = txt "..") then txt ".." :: stack else rest
    end
  else e :: stack.

(** [filepath.Clean] and [filepath.Join]. *)
Definition Clean (p : string) : string :=
  let t := txt p in
  let rooted := match t with c :: _ => Ascii.eqb c slash | [] => false end in
  let body := join_text [slash] (rev (foldl (clean_step rooted) [] (split_on slash t []))) in
  if rooted then str (slash :: body) else if decide (body = []) then "."%string else str body.

Fixpoint Join (elem : list string) : string :=
  match elem with
  | [] => ""%string
  | e :: rest => if String.eqb e "" then Join rest else Clean (String.concat "/" elem)
  end.

Example Join_examples :
  [Join [".proofload"; "compose"; "pg"]; Join ["a"; "../b"; ""]; Join [""; ""]; Join ["/x/"; "./y"; "../../.."; "z"]]
  = [".proofload/compose/pg"; "b"; ""; "/z"]%string.
Proof. vm_compute. reflexivity. Qed.

(** ** The shell: os/exec and the files the backends write *)

(** [exec] is [exec.CommandContext(..).CombinedOutput]: what was printed, and
    the error of a command that failed. *)
Class Shell (W : Type) := {
  exec : string -> list string -> W -> W * (string * option error);
  sh_MkdirAll : string -> W -> W * option error;
  sh_WriteFile : string -> string -> W -> W * option error;
  sh_ReadFile : string -> W -> W * result error string
}.

(** The trimmed output of a command; an error carries the command line and what
    was printed. *)
Definition run_command {W} {Sh : Shell W} (prog : string) (args : list string) (w : W) : W * result error string :=
  match exec prog args w with
  | (w, (out, Some e)) =>
      (w, Err (prog +:+ " " +:+ String.concat " " args +:+ ": " +:+ e +:+ ": " +:+ TrimSpace out))
  | (w, (out, None)) => (w, Ok (TrimSpace out))
  end.

(** [for _, x := range l { .. f(x) .. }], collecting the results. *)
Fixpoint for_each {W A B} (f : A -> W -> W * B) (l : list A) (w : W) : W * list B :=
  match l with
  | [] => (w, [])
  | x :: l' => let '(w, y) := f x w in let '(w, ys) := for_each f l' w in (w, y :: ys)
  end.

(** A property of the world every call keeps, and what each call then returns. *)
Lemma for_each_spec {W A B} (f : A -> W -> W * B) (Inv : W -> Prop) (g : A -> B) (l : list A) w :
  (forall x w, x ∈ l -> Inv w -> Inv (f x w).1 /\ (f x w).2 = g x) ->
  Inv w -> Inv (for_each f l w).1 /\ (for_each f l w).2 = g <$> l.
Proof.
  revert w. induction l as [|x l IH]; intros w Hf Hw; [done|]. cbn.
  destruct (Hf x w) as [H1 H2]; [by left|done|]. destruct (f x w) as [w1 z]; cbn in H1, H2. subst z.
  destruct (IH w1) as [H3 H4]; [intros y w' Hy; apply Hf; by right|done|]. destruct (for_each f l w1) as [w2 ys]; cbn in *.
  by rewrite H4.
Qed.

(** A command's world is the one [exec] leaves; its result is the trimmed output. *)
Lemma run_command_world {W} {Sh : Shell W} prog args (w : W) : (run_command prog args w).1 = (exec prog args w).1.
Proof. unfold run_command. by destruct (exec prog args w) as [? [? []]]. Qed.

Lemma run_command_ok {W} {Sh : Shell W} prog args (w w' : W) r :
  run_command prog args w = (w', Ok r) -> exists out, exec prog args w = (w', (out, None)) /\ r = TrimSpace out.
Proof. unfold run_command. destruct (exec prog args w) as [? [? []]]; [done|]. intros [= -> <-]. by eexists. Qed.

(** ** Waiting for health *)

(** The loop of [waitHealthy] and [waitHealthyBundle]: poll, return when nothing
    is pending, give up after the deadline, else sleep.  The fuel is the number
    of polls an undisturbed clock allows. *)
Section waiting.
Context {W : Type} {Clk : Clock W}.
Variable poll : W -> W * result error (list string).
Variable interval : Z.
Variable timed_out : list string -> error.

(** [err == nil && len(pending) == 0], and the names pending. *)
Definition settled (r : result error (list string)) : bool :=
  match r with Ok pending => bool_decide (pending = []) | Err _ => false end.

Definition pending_of (r : result error (list string)) : list string :=
  match r with Ok pending => pending | Err _ => [] end.

Fixpoint poll_loop (fuel : nat) (deadline : Z) (w : W) : option (W * option error) :=
  match fuel with
  | O => None
  | S fuel' =>
      let '(w, r) := poll w in
      if settled r then Some (w, None)
      else
        let '(w, t) := now w in
        if deadline <? t then Some (w, Some (timed_out (pending_of r)))
        else match wait interval w with
             | (w, Some e) => Some (w, Some e)
             | (w, None) => poll_loop fuel' deadline w
             end
  end.

Definition poll_fuel (timeout : Z) : nat := S (S (Z.to_nat (timeout / interval))).

Definition poll_until (timeout : Z) (w : W) : W * option error :=
  let '(w, t) := now w in
  default (w, Some (timed_out [])) (poll_loop (poll_fuel timeout) (t + timeout) w).

(** Success means that the last poll, in the world returned, found nothing
    pending. *)
Lemma poll_loop_nil fuel deadline w w' :
  poll_loop fuel deadline w = Some (w', None) -> exists w1, poll w1 = (w', Ok []).
Proof.
  revert w. induction fuel as [|fuel IH]; intros w; cbn [poll_loop]; [done|].
  destruct (poll w) as [w1 r] eqn:Ep. destruct (settled r) eqn:Er.
  - intros [= <-]. exists w. destruct r as [l|]; [|done]. cbn in Er. by apply bool_decide_eq_true in Er as ->.
  - destruct (now w1) as [w2 t]. destruct (deadline <? t); [done|].
    destruct (wait interval w2) as [w3 [e|]]; [done|]. apply IH.
Qed.

(** What polls, reads of the clock and sleeps keep, the wait keeps. *)
Lemma poll_until_keeps (Inv : W -> Prop) timeout w :
  (forall w, Inv w -> Inv (poll w).1) -> (forall w, Inv w -> Inv (now w).1) ->
  (forall w, Inv w -> Inv (wait interval w).1) -> Inv w -> Inv (poll_until timeout w).1.
Proof.
  intros Hp Hn Hw H.
  assert (Hl : forall fuel deadline w r, Inv w -> poll_loop fuel deadline w = Some r -> Inv r.1).
  { induction fuel as [|fuel IH]; intros d w0 r H0; cbn [poll_loop]; [done|].
    specialize (Hp w0 H0). destruct (poll w0) as [w1 p]. destruct (settled p); [by intros [= <-]|].
    specialize (Hn w1 Hp). destruct (now w1) as [w2 t]. destruct (d <? t); [by intros [= <-]|].
    specialize (Hw w2 Hn). destruct (wait interval w2) as [w3 [e|]]; [by intros [= <-]|]. by apply IH. }
  unfold poll_until. specialize (Hn w H). destruct (now w) as [w1 t].
  destruct (poll_loop _ _ w1) as [r|] eqn:E; [|done]. by apply (Hl _ _ _ _ Hn E).
Qed.

Context {WC : WorldClock W}.
Hypothesis interval_pos : 0 < interval.
Hypothesis poll_forward : forall w, time_of w <= time_of (poll w).1.

(** Every sleep brings the deadline nearer, so the fuel is enough. *)
Lemma poll_loop_returns fuel deadline w :
  deadline < time_of w + Z.of_nat fuel * interval -> is_Some (poll_loop (S fuel) deadline w).
Proof.
  revert w. induction fuel as [|fuel IH]; intros w Hd; cbn [poll_loop].
  all: pose proof (poll_forward w) as Hp; destruct (poll w) as [w1 r]; cbn in Hp.
  all: destruct (settled r); [done|].
  all: destruct (now w1) as [w2 t] eqn:En; pose proof (now_reads _ _ _ En) as Hn.
  all: destruct (deadline <? t) eqn:Ed; [done|].
  - zbool. lia.
  - destruct (wait interval w2) as [w3 [e|]] eqn:Ew; [done|].
    pose proof (wait_lasts _ _ _ Ew). apply IH. lia.
Qed.

Lemma poll_fuel_enough t timeout w :
  t <= time_of w -> is_Some (poll_loop (poll_fuel timeout) (t + timeout) w).
Proof.
  intros Ht. apply poll_loop_returns.
  pose proof (Z.div_mod timeout interval). pose proof (Z.mod_pos_bound timeout interval). lia.
Qed.

(** The value of [poll_until] is the loop's. *)
Lemma poll_until_eq timeout w :
  poll_loop (poll_fuel timeout) ((now w).2 + timeout) (now w).1 = Some (poll_until timeout w).
Proof.
  unfold poll_until. destruct (now w) as [w1 t] eqn:E. cbn [fst snd].
  destruct (poll_fuel_enough t timeout w1) as [r Hr]; [apply now_reads in E; lia|]. by rewrite Hr.
Qed.

(** Liveness.  When, in the worlds of an invariant, a poll started from the
    moment [ready_at] on finds nothing pending, a poll and the look at the clock
    take at most [lag], nothing disturbs a sleep and the moment leaves the loop
    that much time, it succeeds. *)
Section liveness.
Variable Inv : W -> Prop.
Hypothesis inv_poll : forall w, Inv w -> Inv (poll w).1.
Hypothesis inv_now : forall w, Inv w -> Inv (now w).1.
Hypothesis inv_wait : forall w, Inv w -> Inv (wait interval w).1.
Variables ready_at lag : Z.
Hypothesis becomes_ready : forall w, Inv w -> ready_at <= time_of w -> (poll w).2 = Ok [].
Hypothesis poll_lag : forall w, time_of (now (poll w).1).1 <= time_of w + lag.
Hypothesis undisturbed : forall w, (wait interval w).2 = None.

Lemma poll_loop_live fuel deadline w r :
  Inv w -> ready_at + lag <= deadline -> poll_loop fuel deadline w = Some r -> r.2 = None.
Proof.
  intros Hi Hd. revert w Hi. induction fuel as [|fuel IH]; intros w Hi; cbn [poll_loop]; [done|].
  pose proof (poll_lag w) as Hl. pose proof (becomes_ready w Hi) as Hb. pose proof (inv_poll w Hi) as Hi1.
  destruct (poll w) as [w1 p]; cbn in Hl, Hb, Hi1.
  destruct (settled p) eqn:Ep; [by intros [= <-]|].
  assert (Hw : time_of w < ready_at).
  { destruct (decide (ready_at <= time_of w)) as [H|]; [|lia]. by rewrite (Hb H) in Ep. }
  pose proof (inv_now w1 Hi1) as Hi2.
  destruct (now w1) as [w2 t] eqn:En; pose proof (now_reads _ _ _ En) as Hn. cbn in Hl, Hi2.
  destruct (deadline <? t) eqn:Ed; [zbool; lia|].
  pose proof (undisturbed w2) as Hu. pose proof (inv_wait w2 Hi2) as Hi3.
  destruct (wait interval w2) as [w3 e]; cbn in Hu, Hi3. subst e. by apply IH.
Qed.

Lemma poll_until_live timeout w :
  Inv w -> ready_at + lag <= time_of w + timeout -> (poll_until timeout w).2 = None.
Proof.
  intros Hi H. pose proof (inv_now w Hi) as Hi1. eapply poll_loop_live; [| |apply poll_until_eq].
  - done.
  - destruct (now w) as [w' t] eqn:En; pose proof (now_reads _ _ _ En). cbn. lia.
Qed.
End liveness.
End waiting.

(** ** Ports *)

(** [parsePort]: any rune that is not a digit gives 0; [n*10+int(r-'0')] wraps. *)
Fixpoint parsePort_loop (t : text) (n : Z) : Z :=
  match t with
  | [] => n
  | c :: t' => match digit_val c with None => 0 | Some d => parsePort_loop t' (wrap64 (wrap64 (n * 10) + d)) end
  end.

Definition parsePort (s : string) : Z := parsePort_loop (txt (TrimSpace s)) 0.

Lemma parsePort_digits t acc n :
  0 <= acc -> parse_digits t acc = Some n -> n < 2^63 -> parsePort_loop t acc = n /\ acc <= n.
Proof.
  revert acc. induction t as [|c t IH]; intros acc Ha; cbn [parse_digits parsePort_loop]; [intros [= ->]; lia|].
  destruct (digit_val c) as [d|] eqn:Ed; [|done]. cbn. intros Hp Hn.
  assert (Hd : 0 <= d < 10).
  { unfold digit_val in Ed. case_match eqn:E; [|done]. simplify_eq. zbool. lia. }
  assert (Hmono : forall t a b, 0 <= a -> parse_digits t a = Some b -> a <= b).
  { clear. induction t as [|c t IH]; intros a b Ha; cbn; [intros [= ->]; lia|].
    unfold digit_val. case_match eqn:E; [|done]. cbn. intros H%IH; zbool; lia. }
  pose proof (Hmono t (acc * 10 + d) n ltac:(lia) Hp).
  rewrite wrap64_add_l, wrap64_id by (unfold is_i64; lia).
  destruct (IH (acc * 10 + d)); [lia|done..|]. split; [done|]. lia.
Qed.

Lemma drop_space_id t : match t with c :: _ => is_space c = false | [] => True end -> drop_space t = t.
Proof. destruct t as [|c t]; [done|]. cbn. by intros ->. Qed.

(** Text that neither starts nor ends with a blank is its own trim. *)
Lemma TrimSpace_id s :
  match txt s with c :: _ => is_space c = false | [] => True end ->
  match rev (txt s) with c :: _ => is_space c = false | [] => True end -> TrimSpace s = s.
Proof.
  intros H1 H2. unfold TrimSpace. rewrite (drop_space_id _ H1), (drop_space_id _ H2), rev_involutive. apply str_txt.
Qed.

Lemma digit_not_space c : is_digit c = true -> is_space c = false.
Proof. destruct c as [[] [] [] [] [] [] [] []]; vm_compute; congruence. Qed.

(** A port that was printed is read back. *)
Lemma parsePort_FormatUint z : 0 <= z < 2^63 -> parsePort (str (FormatUint z)) = z.
Proof.
  intros Hz. pose proof (parse_nat_FormatUint z ltac:(lia)) as Hp.
  pose proof (FormatUint_digits z ltac:(lia)) as Hd.
  unfold parsePort. rewrite TrimSpace_id, txt_str.
  - unfold parse_nat in Hp. destruct (FormatUint z) eqn:E; [done|]. rewrite <- E in *.
    apply (parsePort_digits _ 0 z); [lia|done|lia].
  - rewrite txt_str. destruct Hd; [done|by apply digit_not_space].
  - rewrite txt_str. apply Forall_rev in Hd. destruct Hd; [done|by apply digit_not_space].
Qed.

Lemma drop_space_head t : match drop_space t with c :: _ => is_space c = false | [] => True end.
Proof. induction t as [|c t IH]; [done|]. cbn [drop_space]. by destruct (is_space c) eqn:E. Qed.

Lemma drop_space_suffix t : exists p, t = p ++ drop_space t.
Proof.
  induction t as [|c t [p IH]]; [by exists []|]. cbn [drop_space]. destruct (is_space c); [|by exists []].
  exists (c :: p). cbn. by f_equal.
Qed.

Lemma TrimSpace_ends s :
  match txt (TrimSpace s) with c :: _ => is_space c = false | [] => True end /\
  match rev (txt (TrimSpace s)) with c :: _ => is_space c = false | [] => True end.
Proof.
  unfold TrimSpace. rewrite txt_str, rev_involutive.
  set (a := drop_space (txt s)). pose proof (drop_space_head (txt s)) as Ha. fold a in Ha.
  split; [|apply drop_space_head].
  destruct (drop_space_suffix (rev a)) as [p Hp]. apply (f_equal (@rev _)) in Hp.
  rewrite rev_involutive, rev_app_distr in Hp. destruct (rev (drop_space (rev a))) as [|c r]; [done|].
  rewrite Hp in Ha. exact Ha.
Qed.

Lemma TrimSpace_idem s : TrimSpace (TrimSpace s) = TrimSpace s.
Proof. apply TrimSpace_id; apply TrimSpace_ends. Qed.

(** Text in brackets of any kind, with or without a newline after it. *)
Lemma TrimSpace_bracketed a b t nl :
  is_space a = false -> is_space b = false -> nl = [] \/ nl = [newline] ->
  TrimSpace (str (a :: t ++ b :: nl)) = str (a :: t ++ [b]).
Proof.
  intros Ha Hb Hnl. unfold TrimSpace. rewrite txt_str. f_equal. cbn [drop_space]. rewrite Ha.
  change (a :: t ++ b :: nl) with ((a :: t) ++ b :: nl). change (a :: t ++ [b]) with ((a :: t) ++ [b]).
  assert (Hd : drop_space (rev ((a :: t) ++ b :: nl)) = rev ((a :: t) ++ [b])).
  { rewrite !rev_app_distr. destruct Hnl as [-> | ->]; cbn [rev app drop_space].
    - by rewrite Hb.
    - change (is_space newline) with true. cbn iota. by rewrite Hb. }
  by rewrite Hd, rev_involutive.
Qed.

(** ** Text of rendered files *)

Definition quoted (t : text) : text := dquote :: t ++ [dquote].

Definition nonempty (s : string) : bool := negb (String.eqb s "").

Definition unlines (l : list text) : text := mjoin ((fun t => t ++ [newline]) <$> l).

Lemma split_unlines l : Forall plain_text l -> split_lines (unlines l) [] = l.
Proof.
  induction 1 as [|t l Ht _ IH]; [done|]. cbn. rewrite <- app_assoc. cbn.
  rewrite split_lines_line by (by apply plain_no_newline). cbn. by f_equal.
Qed.

(** The characters of a container's name. *)
Definition name_char (c : ascii) : bool :=
  let n := nat_of_ascii c in
  ((48 <=? n) && (n <=? 57) || (65 <=? n) && (n <=? 90) || (97 <=? n) && (n <=? 122) || existsb (Nat.eqb n) [45; 46; 95])%nat.

Lemma name_char_plain c : name_char c = true -> plain c = true.
Proof. destruct c as [[] [] [] [] [] [] [] []]; vm_compute; congruence. Qed.

Definition plain_string (s : string) : bool := forallb plain (txt s).

Lemma plain_string_text s : plain_string s = true -> plain_text (txt s).
Proof. apply plain_const. Qed.

#[export] Hint Resolve plain_string_text : plain_db.

(** Splits a plain text at its appends and closes the constant parts. *)
Ltac plain_parts := repeat apply plain_text_app; eauto with plain_db.

(** The same for a list of lines. *)
Ltac plain_lines := repeat first [apply Forall_nil_2 | apply Forall_cons_2]; plain_parts.

Lemma quoted_plain t : plain_text t -> plain_text (quoted t).
Proof. intros Ht. unfold quoted. constructor; [done|]. plain_parts. Qed.

Lemma join_text_plain sep l : plain_text sep -> Forall plain_text l -> plain_text (join_text sep l).
Proof.
  intros Hs. induction 1 as [|x l Hx Hl IH]; [constructor|]. cbn.
  destruct l; [done|]. plain_parts.
Qed.

#[export] Hint Resolve quoted_plain join_text_plain : plain_db.

Definition name_like (s : string) : Prop := Forall (fun c => name_char c = true) (txt s).

Lemma FormatInt_name z : name_like (str (FormatInt z)).
Proof.
  assert (Hd : forall z, 0 <= z -> Forall (fun c => name_char c = true) (FormatUint z)).
  { intros n Hn. eapply Forall_impl; [by apply FormatUint_digits|]. intros c.
    destruct c as [[] [] [] [] [] [] [] []]; vm_compute; congruence. }
  unfold name_like. rewrite txt_str. unfold FormatInt.
  destruct (z <? 0) eqn:E; zbool; [constructor; [done|]|]; apply Hd; lia.
Qed.

Lemma forallb_Forall {A} (f : A -> bool) (P : A -> Prop) l :
  (forall x, f x = true -> P x) -> forallb f l = true -> Forall P l.
Proof. intros HP H. rewrite forallb_forall in H. apply Forall_forall. intros x Hx. apply HP, H. by apply list_elem_of_In. Qed.

Lemma split_on_cons c l t cur : c ∉ l -> split_on c (l ++ c :: t) cur = (rev cur ++ l) :: split_on c t [].
Proof.
  revert cur. induction l as [|x l IH]; intros cur Hl.
  - simpl. by rewrite Ascii.eqb_refl, app_nil_r.
  - apply not_elem_of_cons in Hl as [Hc Hl]. simpl.
    destruct (Ascii.eqb_spec x c) as [->|_]; [done|]. rewrite IH by done. simpl. by rewrite <- app_assoc.
Qed.

Lemma split_on_last c l cur : c ∉ l -> split_on c l cur = [rev cur ++ l].
Proof.
  revert cur. induction l as [|x l IH]; intros cur Hl; [simpl; by rewrite app_nil_r|].
  apply not_elem_of_cons in Hl as [Hc Hl]. simpl.
  destruct (Ascii.eqb_spec x c) as [->|_]; [done|]. rewrite IH by done. simpl. by rewrite <- app_assoc.
Qed.

(** Splitting what was joined gives the pieces back. *)
Lemma split_on_join c ls : ls <> [] -> Forall (fun l => c ∉ l) ls -> split_on c (join_text [c] ls) [] = ls.
Proof.
  intros Hne Hls. induction Hls as [|l ls Hl Hls IH]; [done|]. cbn [join_text].
  destruct ls as [|l' ls]; [by apply split_on_last|].
  cbn [app]. rewrite split_on_cons by done. cbn [rev app]. by rewrite IH.
Qed.
