(* ===== verification/Compose.v ===== *)
(** * Compose: clusters on docker compose (core/provision/compose)

    The project rendered for a topology, its bring-up, tear-down and node
    resolution, and target-supplied bundles.  [Docker] states what the docker
    command promises; the compose file is related to what docker starts by a
    reader of the file format ([read_compose]), so the theorems also say that
    the rendered file means what the model means. *)

From Stdlib Require Import Ascii String.
From S2P Require Import Prelude Domain Strconv Driver Expect Targets Provision.

Local Open Scope Z_scope.

(** ** render.go: the model *)

Record kv := { K : string; V : string }.

Record health := {
  Test : list string;
  Interval : string;
  Timeout : string;
  Retries : Z;
  StartPeriod : string
}.

Record serviceModel := {
  Key : string;
  Image : string;
  ContainerName : string;
  Role : NodeRole;
  HostPort : Z;
  ContainerPort : Z;
  Env : list kv;
  Health : option health;
  Volume : string;
  VolumePath : string;
  CPULimit : string;
  MemLimit : string
}.

Record projectModel := {
  Project : string;
  Services : list serviceModel;
  Volumes : list string
}.

(** ** hooks.go *)

Record targetHook := {
  known : bool;
  defaultImage : string;
  containerPort : Z;
  basePort : Z;
  env : list kv;
  hook_health : option health;
  volumePath : string
}.

Definition genericHook : targetHook := {|
  known := false; defaultImage := ""; containerPort := 8080; basePort := 18080;
  env := []; hook_health := None; volumePath := ""
|}.

Definition hooks : gmap string targetHook := list_to_map [
  ("postgresql"%string, {|
    known := true; defaultImage := "postgres"; containerPort := 5432; basePort := 15432;
    env := [ {| K := "POSTGRES_PASSWORD"; V := "proofload" |};
             {| K := "POSTGRES_USER"; V := "proofload" |};
             {| K := "POSTGRES_DB"; V := "proofload" |} ];
    hook_health := Some {| Test := ["CMD-SHELL"; "pg_isready -U proofload"]%string; Interval := "5s";
                      Timeout := "5s"; Retries := 10; StartPeriod := "10s" |};
    volumePath := "/var/lib/postgresql/data" |});
  ("redis"%string, {|
    known := true; defaultImage := "redis"; containerPort := 6379; basePort := 16379;
    env := [];
    hook_health := Some {| Test := ["CMD"; "redis-cli"; "ping"]%string; Interval := "5s";
                      Timeout := "3s"; Retries := 10; StartPeriod := "5s" |};
    volumePath := "/data" |})
].

Definition hookFor (target : string) : targetHook := default genericHook (hooks !! target).

Definition projectName (t : Topology) : string := "proofload-" +:+ topo_Name t.

Definition resolveImage (t : Topology) (hook : targetHook) : string :=
  let img := topo_Image t in
  let img := if String.eqb img "" then defaultImage hook else img in
  let img := if String.eqb img "" then topo_Target t else img in
  if negb (String.eqb (topo_Version t) "") then img +:+ ":" +:+ topo_Version t else img.

Definition roleFor (hook : targetHook) (i : Z) : NodeRole :=
  if negb (known hook) then RoleGeneric else if i =? 0 then RolePrimary else RoleReplica.

(** [sort.Slice] by key; the keys of a hook are distinct. *)
Definition sortedEnv (env : list kv) : list kv :=
  sort_by (le_of_less (fun a b => String.ltb (K a) (K b))) env.

Definition node_name (t : Topology) (i : Z) : string := topo_Name t +:+ "-" +:+ str (FormatInt i).

Definition buildService (t : Topology) (hook : targetHook) (i : Z) : serviceModel :=
  let name := node_name t i in
  let persists := negb (String.eqb (volumePath hook) "") in
  {| Key := name;
     Image := resolveImage t hook;
     ContainerName := name;
     Role := roleFor hook i;
     HostPort := wrap64 (basePort hook + i);
     ContainerPort := containerPort hook;
     Env := sortedEnv (env hook);
     Health := hook_health hook;
     Volume := if persists then name +:+ "-data" else "";
     VolumePath := if persists then volumePath hook else "";
     CPULimit := rs_CPU (topo_Resources t);
     MemLimit := rs_Memory (topo_Resources t) |}.

Definition node_count (t : Topology) : Z := if topo_Nodes t <=? 0 then 1 else topo_Nodes t.

Definition buildModel (t : Topology) : projectModel :=
  let hook := hookFor (topo_Target t) in
  let services := buildService t hook <$> seqZ 0 (node_count t) in
  {| Project := projectName t;
     Services := services;
     Volumes := List.filter (fun v => negb (String.eqb v "")) (Volume <$> services) |}.

(** ** render.go: the template *)

Definition service_head (s : serviceModel) : list text := [
  txt "  " ++ txt (Key s) ++ txt ":";
  txt "    image: " ++ txt (Image s);
  txt "    container_name: " ++ txt (ContainerName s);
  txt "    ports:";
  txt "      - " ++ quoted (FormatInt (HostPort s) ++ txt ":" ++ FormatInt (ContainerPort s))
].

Definition env_lines (l : list kv) : list text :=
  match l with
  | [] => []
  | _ => txt "    environment:" :: ((fun e => txt "      " ++ txt (K e) ++ txt ": " ++ quoted (txt (V e))) <$> l)
  end.

Definition health_lines (h : option health) : list text :=
  match h with
  | None => []
  | Some h => [
      txt "    healthcheck:";
      txt "      test: [" ++ join_text (txt ", ") ((fun e => quoted (txt e)) <$> Test h) ++ txt "]";
      txt "      interval: " ++ txt (Interval h);
      txt "      timeout: " ++ txt (Timeout h);
      txt "      retries: " ++ FormatInt (Retries h);
      txt "      start_period: " ++ txt (StartPeriod h)
    ]
  end.

Definition volume_lines (s : serviceModel) : list text :=
  if nonempty (Volume s) then
    [txt "    volumes:"; txt "      - " ++ txt (Volume s) ++ txt ":" ++ txt (VolumePath s)]
  else [].

Definition limit_lines (s : serviceModel) : list text :=
  if nonempty (CPULimit s) || nonempty (MemLimit s) then
    [txt "    deploy:"; txt "      resources:"; txt "        limits:"] ++
    (if nonempty (CPULimit s) then [txt "          cpus: " ++ quoted (txt (CPULimit s))] else []) ++
    (if nonempty (MemLimit s) then [txt "          memory: " ++ txt (MemLimit s)] else [])
  else [].

Definition service_lines (s : serviceModel) : list text :=
  service_head s ++ env_lines (Env s) ++ health_lines (Health s) ++ volume_lines s ++ limit_lines s.

Definition project_lines (m : projectModel) : list text :=
  [txt "name: " ++ txt (Project m); txt "services:"] ++
  mjoin (service_lines <$> Services m) ++
  match Volumes m with
  | [] => []
  | _ => txt "volumes:" :: ((fun v => txt "  " ++ txt v ++ txt ":") <$> Volumes m)
  end.

(** Executing the template cannot fail on this model. *)
Definition render (m : projectModel) : string := str (unlines (project_lines m)).

(** ** The compose file format, as far as it names containers and ports *)

(** A service of a compose file: its key, the container's name and the published
    port mapping, host port first. *)
Record cservice := { cs_key : text; cs_container : text; cs_port : option (Z * Z) }.

#[export] Instance cservice_eq_dec : EqDecision cservice.
Proof. solve_decision. Defined.

(** Indentation and content of a line. *)
Fixpoint indent (t : text) : nat * text :=
  match t with
  | c :: t' => if Ascii.eqb c " "%char then let '(n, b) := indent t' in (S n, b) else (O, t)
  | [] => (O, [])
  end.

(** Where the reader is: the top-level key, the service's current key, the
    service being read and those read, last first. *)
Record reader := { rd_top : text; rd_sub : text; rd_cur : option cservice; rd_done : list cservice }.

Definition flush (r : reader) : list cservice :=
  match rd_cur r with Some s => s :: rd_done r | None => rd_done r end.

Definition read_mapping (t : text) : option (Z * Z) :=
  match strip (txt "- " ++ [dquote]) t with
  | None => None
  | Some t =>
      match split_last ":"%char (removelast t) with
      | Some (h, c) => h ← ParseInt h; c ← ParseInt c; Some (h, c)
      | None => None
      end
  end.

Definition read_line (r : reader) (line : text) : reader :=
  let '(n, body) := indent line in
  let in_services := bool_decide (rd_top r = txt "services:") in
  match n with
  | 0%nat => {| rd_top := body; rd_sub := []; rd_cur := None; rd_done := flush r |}
  | 2%nat =>
      if in_services then
        {| rd_top := rd_top r; rd_sub := [];
           rd_cur := Some {| cs_key := removelast body; cs_container := []; cs_port := None |};
           rd_done := flush r |}
      else r
  | 4%nat =>
      {| rd_top := rd_top r; rd_sub := body;
         rd_cur := match rd_cur r, strip (txt "container_name: ") body with
                   | Some s, Some name => Some {| cs_key := cs_key s; cs_container := name; cs_port := cs_port s |}
                   | c, _ => c
                   end;
         rd_done := rd_done r |}
  | 6%nat =>
      if bool_decide (rd_sub r = txt "ports:") then
        {| rd_top := rd_top r; rd_sub := rd_sub r;
           rd_cur := (fun s => {| cs_key := cs_key s; cs_container := cs_container s; cs_port := read_mapping body |}) <$> rd_cur r;
           rd_done := rd_done r |}
      else r
  | _ => r
  end.

Definition reader_zero : reader := {| rd_top := []; rd_sub := []; rd_cur := None; rd_done := [] |}.

Definition read_compose (file : string) : list cservice :=
  rev (flush (foldl read_line reader_zero (split_lines (txt file) []))).

Definition cservice_of (s : serviceModel) : cservice :=
  {| cs_key := txt (Key s); cs_container := txt (ContainerName s);
     cs_port := Some (HostPort s, ContainerPort s) |}.

(** ** The rendered file says what the model says *)

(** Lines that leave the reader on the same service with the same facts. *)
Definition same_service (r r' : reader) : Prop :=
  rd_top r' = rd_top r /\ rd_cur r' = rd_cur r /\ rd_done r' = rd_done r.

Lemma same_service_trans r1 r2 r3 : same_service r1 r2 -> same_service r2 r3 -> same_service r1 r3.
Proof. unfold same_service. intuition congruence. Qed.

(** A line indented by six outside [ports:] says nothing. *)
Lemma read_line_six r x : rd_sub r <> txt "ports:" -> read_line r (txt "      " ++ x) = r.
Proof.
  intros Hs. unfold read_line. cbn. destruct (indent x) as [[|k] b]; cbn; [|done].
  by rewrite bool_decide_false.
Qed.

Lemma read_six_lines {A} (f : A -> text) (l : list A) r :
  rd_sub r <> txt "ports:" -> foldl read_line r ((fun e => txt "      " ++ f e) <$> l) = r.
Proof. intros Hs. induction l as [|e l IH]; [done|]. rewrite fmap_cons. cbn [foldl]. by rewrite read_line_six. Qed.

Lemma read_env l r : same_service r (foldl read_line r (env_lines l)).
Proof.
  destruct l as [|e l]; [done|]. unfold env_lines. cbn [foldl].
  rewrite read_six_lines by done. unfold same_service, read_line. cbn. by destruct (rd_cur r).
Qed.

(** A fixed line of four blanks and a key that is not a container's name. *)
Lemma read_line_four r k :
  indent k = (0%nat, k) -> strip (txt "container_name: ") k = None ->
  same_service r (read_line r (txt "    " ++ k)) /\ rd_sub (read_line r (txt "    " ++ k)) = k.
Proof. intros H1 H2. unfold same_service, read_line. cbn. rewrite H1. cbn in H2 |- *. rewrite H2. by destruct (rd_cur r). Qed.

Lemma read_block r k (ls : list text) :
  indent k = (0%nat, k) -> strip (txt "container_name: ") k = None -> k <> txt "ports:" ->
  Forall (fun l => exists x, l = txt "      " ++ x) ls ->
  same_service r (foldl read_line r ((txt "    " ++ k) :: ls)).
Proof.
  intros H1 H2 H3 Hl. cbn [foldl]. destruct (read_line_four r k H1 H2) as [Hs Hk].
  set (r' := read_line r (txt "    " ++ k)) in *.
  assert (foldl read_line r' ls = r') as ->; [|done].
  induction Hl as [|l ls [x ->] _ IH]; [done|]. cbn [foldl]. by rewrite read_line_six by congruence.
Qed.

Lemma read_health h r : same_service r (foldl read_line r (health_lines h)).
Proof.
  destruct h as [h|]; [|done]. unfold health_lines. apply (read_block r (txt "healthcheck:")); [done..|].
  repeat apply Forall_cons_2; [..|done]; (eexists; reflexivity).
Qed.

Lemma read_volume s r : same_service r (foldl read_line r (volume_lines s)).
Proof.
  unfold volume_lines. destruct (nonempty _); [|done]. apply (read_block r (txt "volumes:")); [done..|].
  repeat apply Forall_cons_2; [..|done]; (eexists; reflexivity).
Qed.

Lemma read_limit s r : same_service r (foldl read_line r (limit_lines s)).
Proof.
  unfold limit_lines. destruct (nonempty _ || _); [|done].
  apply (read_block r (txt "deploy:")); [done..|].
  destruct (nonempty (CPULimit s)), (nonempty (MemLimit s)); cbn [app];
    repeat apply Forall_cons_2; try constructor; (eexists; reflexivity).
Qed.

Lemma FormatInt_no_colon z : ":"%char ∉ FormatInt z.
Proof.
  assert (Hu : forall n, 0 <= n -> ":"%char ∉ FormatUint n).
  { intros n Hn Hin. pose proof (FormatUint_digits n Hn) as Hd. rewrite Forall_forall in Hd.
    by specialize (Hd _ Hin). }
  unfold FormatInt. destruct (z <? 0) eqn:E; zbool; [|by apply Hu].
  rewrite elem_of_cons. intros [|H]; [done|]. eapply Hu; [|done]. lia.
Qed.

Lemma read_mapping_port h c :
  is_i64 h -> is_i64 c -> read_mapping (txt "- " ++ quoted (FormatInt h ++ txt ":" ++ FormatInt c)) = Some (h, c).
Proof.
  intros Hh Hc. unfold read_mapping, quoted.
  change (txt "- " ++ dquote :: (FormatInt h ++ txt ":" ++ FormatInt c) ++ [dquote])
    with ((txt "- " ++ [dquote]) ++ (FormatInt h ++ txt ":" ++ FormatInt c) ++ [dquote]).
  rewrite strip_app, removelast_last.
  rewrite (proj2 (split_last_spec ":"%char _ (FormatInt h) (FormatInt c))) by (split; [done|apply FormatInt_no_colon]).
  by rewrite !ParseInt_FormatInt.
Qed.

Lemma read_head s r :
  rd_top r = txt "services:" -> indent (txt (Key s) ++ txt ":") = (0%nat, txt (Key s) ++ txt ":") ->
  is_i64 (HostPort s) -> is_i64 (ContainerPort s) ->
  let r' := foldl read_line r (service_head s) in
  rd_top r' = txt "services:" /\ rd_cur r' = Some (cservice_of s) /\ rd_done r' = flush r.
Proof.
  intros Ht Hk Hh Hc. unfold service_head. cbn [foldl].
  set (r1 := read_line r _).
  assert (H1 : rd_top r1 = txt "services:" /\
    rd_cur r1 = Some {| cs_key := txt (Key s); cs_container := []; cs_port := None |} /\ rd_done r1 = flush r).
  { subst r1. unfold read_line. cbn -[txt]. change (txt "  ") with [" "%char; " "%char]. cbn -[txt].
    rewrite Hk. rewrite Ht. cbn -[txt]. rewrite bool_decide_true by done. cbn -[txt].
    change (txt ":") with [":"%char]. by rewrite removelast_last. }
  clearbody r1. destruct H1 as (Ht1 & Hc1 & Hd1).
  destruct (read_line_four r1 (txt "image: " ++ txt (Image s))) as [(Ht2 & Hc2 & Hd2) _]; [done..|].
  rewrite app_assoc in Ht2, Hc2, Hd2. change (txt "    " ++ txt "image: ") with (txt "    image: ") in *.
  set (r2 := read_line r1 _) in *. clearbody r2.
  set (r3 := read_line r2 _).
  assert (H3 : rd_top r3 = txt "services:" /\
    rd_cur r3 = Some {| cs_key := txt (Key s); cs_container := txt (ContainerName s); cs_port := None |} /\
    rd_done r3 = flush r).
  { subst r3. unfold read_line. cbn. rewrite Ht2, Hc2, Hc1, Hd2. done. }
  clearbody r3. destruct H3 as (Ht3 & Hc3 & Hd3).
  destruct (read_line_four r3 (txt "ports:")) as [(Ht4 & Hc4 & Hd4) Hs4]; [done..|].
  change (txt "    " ++ txt "ports:") with (txt "    ports:") in *.
  set (r4 := read_line r3 _) in *. clearbody r4.
  unfold read_line. cbn -[read_mapping quoted bool_decide flush]. rewrite Hs4, bool_decide_true by done.
  cbn -[read_mapping quoted flush]. rewrite Hc4, Hc3. split_and!; [by rewrite Ht4, Ht3| |by rewrite Hd4, Hd3].
  unfold cservice_of. by rewrite <- (read_mapping_port _ _ Hh Hc).
Qed.

(** A service of the rendered file is read as the service of the model. *)
Definition service_ok (s : serviceModel) : Prop :=
  indent (txt (Key s) ++ txt ":") = (0%nat, txt (Key s) ++ txt ":") /\
  is_i64 (HostPort s) /\ is_i64 (ContainerPort s) /\ Forall plain_text (service_lines s).

Lemma read_service s r :
  rd_top r = txt "services:" -> service_ok s ->
  let r' := foldl read_line r (service_lines s) in
  rd_top r' = txt "services:" /\ flush r' = cservice_of s :: flush r.
Proof.
  intros Ht (Hk & Hh & Hc & _). unfold service_lines. rewrite !foldl_app.
  destruct (read_head s r Ht Hk Hh Hc) as (Ht1 & Hc1 & Hd1).
  set (r1 := foldl read_line r (service_head s)) in *. clearbody r1.
  cbn zeta. match goal with |- rd_top ?x = _ /\ _ => assert (Hs : same_service r1 x) end.
  { eapply same_service_trans; [apply read_env|]. eapply same_service_trans; [apply read_health|].
    eapply same_service_trans; [apply read_volume|]. apply read_limit. }
  destruct Hs as (Ht2 & Hc2 & Hd2). split; [congruence|].
  unfold flush at 1. by rewrite Hc2, Hc1, Hd2, Hd1.
Qed.

Lemma read_services l r :
  rd_top r = txt "services:" -> Forall service_ok l ->
  let r' := foldl read_line r (mjoin (service_lines <$> l)) in
  rd_top r' = txt "services:" /\ flush r' = rev (cservice_of <$> l) ++ flush r.
Proof.
  intros Ht Hl. revert r Ht. induction Hl as [|s l Hs _ IH]; intros r Ht; [done|].
  change (mjoin (service_lines <$> s :: l)) with (service_lines s ++ mjoin (service_lines <$> l)).
  cbn zeta. rewrite foldl_app.
  destruct (read_service s r Ht Hs) as [Ht' Hf]. destruct (IH _ Ht') as [? Hf']. split; [done|].
  rewrite Hf', Hf, fmap_cons. cbn [rev]. by rewrite <- app_assoc.
Qed.

(** The volumes section comes last and starts a new top-level key. *)
Definition in_volumes (r : reader) (read : list cservice) : Prop :=
  rd_top r = txt "volumes:" /\ rd_cur r = None /\ rd_done r = read.

Lemma read_volume_line r y read : in_volumes r read -> in_volumes (read_line r (txt "  " ++ y)) read.
Proof.
  intros (Ht & Hc & Hd). unfold read_line.
  change (indent (txt "  " ++ y)) with (let '(n, b) := (let '(n, b) := indent y in (S n, b)) in (S n, b)).
  destruct (indent y) as [n b]. cbv iota beta. rewrite Ht, Hc. rewrite bool_decide_false by done.
  destruct n as [|[|[|[|[|n]]]]]; try done. case_bool_decide; done.
Qed.

Lemma read_volumes {A} (vols : list A) (f : A -> text) r :
  flush (foldl read_line r (match vols with [] => [] | _ => txt "volumes:" :: ((fun v => txt "  " ++ f v) <$> vols) end))
  = flush r.
Proof.
  destruct vols as [|v vols]; [done|]. cbn [foldl].
  assert (H1 : in_volumes (read_line r (txt "volumes:")) (flush r)) by done.
  revert H1. generalize (read_line r (txt "volumes:")).
  induction (v :: vols) as [|x l IH]; intros r1 H1.
  - destruct H1 as (_ & Hc & Hd). change (flush r1 = flush r). unfold flush at 1. by rewrite Hc.
  - rewrite fmap_cons. cbn [foldl]. apply IH. by apply read_volume_line.
Qed.

(** ** Topologies docker can be asked for *)

Definition topology_ok (t : Topology) : Prop :=
  Forall (fun c => name_char c = true) (txt (topo_Name t)) /\
  plain_text (txt (topo_Target t)) /\ plain_text (txt (topo_Image t)) /\ plain_text (txt (topo_Version t)) /\
  plain_text (txt (rs_CPU (topo_Resources t))) /\ plain_text (txt (rs_Memory (topo_Resources t))) /\
  topo_Nodes t <= 2^32.

(** Every hook is made of one-line strings and of real ports. *)
Definition hook_ok (h : targetHook) : bool :=
  plain_string (defaultImage h) && (0 <? containerPort h) && (containerPort h <? 65536) &&
  (0 <? basePort h) && (basePort h <? 65536) &&
  forallb (fun e => plain_string (K e) && plain_string (V e)) (env h) &&
  match hook_health h with
  | None => true
  | Some h => forallb plain_string (Test h) && plain_string (Interval h) && plain_string (Timeout h) && plain_string (StartPeriod h)
  end && plain_string (volumePath h).

Lemma hookFor_ok target : hook_ok (hookFor target) = true.
Proof.
  assert (H : map_Forall (fun _ h => hook_ok h = true) hooks) by (apply (bool_decide_unpack _); vm_compute; exact I).
  unfold hookFor. destruct (hooks !! target) as [h|] eqn:E; [exact (H _ _ E)|done].
Qed.

Definition health_plain (h : health) : Prop :=
  Forall (fun e => plain_text (txt e)) (Test h) /\ plain_text (txt (Interval h)) /\
  plain_text (txt (Timeout h)) /\ plain_text (txt (StartPeriod h)).

Definition hook_plain (h : targetHook) : Prop :=
  plain_text (txt (defaultImage h)) /\
  Forall (fun e => plain_text (txt (K e)) /\ plain_text (txt (V e))) (env h) /\
  (forall hc, hook_health h = Some hc -> health_plain hc) /\ plain_text (txt (volumePath h)).

Lemma hookFor_spec target :
  hook_plain (hookFor target) /\ 0 < containerPort (hookFor target) < 65536 /\ 0 < basePort (hookFor target) < 65536.
Proof.
  pose proof (hookFor_ok target) as H. unfold hook_ok in H.
  repeat match goal with H : (_ && _)%bool = true |- _ => apply andb_prop in H as [H ?] end. zbool.
  split; [|lia]. split_and!; eauto with plain_db.
  - eapply forallb_Forall; [|eassumption]. intros e [??]%andb_prop. eauto with plain_db.
  - intros hc E. rewrite E in *.
    repeat match goal with H : (_ && _)%bool = true |- _ => apply andb_prop in H as [H ?] end.
    split_and!; eauto using forallb_Forall with plain_db.
Qed.

Lemma node_name_txt t i : txt (node_name t i) = txt (topo_Name t) ++ txt "-" ++ FormatInt i.
Proof. unfold node_name. by rewrite !txt_app, txt_str. Qed.

Section service.
Variable t : Topology.
Hypothesis t_ok : topology_ok t.
Let hook := hookFor (topo_Target t).

Lemma node_name_plain i : plain_text (txt (node_name t i)).
Proof.
  rewrite node_name_txt. destruct t_ok as (Hn & _). plain_parts.
  eapply Forall_impl; [exact Hn|]. exact name_char_plain.
Qed.

Lemma resolveImage_plain : plain_text (txt (resolveImage t hook)).
Proof.
  destruct t_ok as (_ & Ht & Hi & Hv & _). destruct (hookFor_spec (topo_Target t)) as [(Hd & _) _].
  unfold resolveImage. fold hook in Hd.
  destruct (String.eqb (topo_Image t) ""), (String.eqb (defaultImage hook) ""), (String.eqb (topo_Image t) "");
    destruct (negb _); rewrite ?txt_app; plain_parts.
Qed.

Lemma sortedEnv_Forall (P : kv -> Prop) l : Forall P l -> Forall P (sortedEnv l).
Proof. unfold sortedEnv. by rewrite sort_by_perm. Qed.

Lemma env_lines_plain l :
  Forall (fun e => plain_text (txt (K e)) /\ plain_text (txt (V e))) l -> Forall plain_text (env_lines l).
Proof.
  intros Hl. destruct l as [|e l]; [constructor|]. unfold env_lines. constructor; [eauto with plain_db|].
  apply Forall_fmap. eapply Forall_impl; [exact Hl|]. cbn -[txt]. intros e' [? ?]. plain_parts.
Qed.

Lemma health_lines_plain h : (forall hc, h = Some hc -> health_plain hc) -> Forall plain_text (health_lines h).
Proof.
  destruct h as [h|]; [|constructor]. intros H. destruct (H h eq_refl) as (Ht & Hi & Ho & Hs).
  unfold health_lines. plain_lines.
  apply join_text_plain; [by apply plain_const|]. apply Forall_fmap. eapply Forall_impl; [exact Ht|].
  intros e He. by apply quoted_plain.
Qed.

Lemma HostPort_range i : 0 <= i < node_count t -> wrap64 (basePort hook + i) = basePort hook + i.
Proof.
  intros Hi. destruct (hookFor_spec (topo_Target t)) as (_ & _ & Hb). destruct t_ok as (_ & _ & _ & _ & _ & _ & Hn).
  fold hook in Hb. apply wrap64_id. unfold is_i64. revert Hi. unfold node_count. destruct (_ <=? 0); lia.
Qed.

Lemma buildService_ok i : 0 <= i < node_count t -> service_ok (buildService t hook i).
Proof.
  intros Hi. destruct (hookFor_spec (topo_Target t)) as ((Hd & He & Hh & Hv) & Hc & Hb). fold hook in Hd, He, Hh, Hv, Hc, Hb.
  split_and!.
  - cbn [Key buildService]. rewrite node_name_txt. destruct t_ok as (Hn & _).
    destruct Hn as [|c n Hc' Hn]; [done|]. cbn. by destruct c as [[] [] [] [] [] [] [] []].
  - apply wrap64_range.
  - cbn. unfold is_i64. lia.
  - unfold service_lines. rewrite !Forall_app. pose proof (node_name_plain i). pose proof resolveImage_plain.
    destruct t_ok as (_ & _ & _ & _ & Hcpu & Hmem & _). split_and!.
    + unfold service_head, buildService. cbn -[txt app]. plain_lines.
    + apply env_lines_plain. by apply sortedEnv_Forall.
    + by apply health_lines_plain.
    + unfold volume_lines. destruct (nonempty _); [|constructor]. unfold buildService. cbn -[txt app].
      destruct (negb _); rewrite ?txt_app; plain_lines.
    + unfold limit_lines, buildService. cbn -[txt].
      destruct (nonempty (rs_CPU _)), (nonempty (rs_Memory _)); cbn [app]; plain_lines.
Qed.

Lemma services_ok : Forall service_ok (Services (buildModel t)).
Proof.
  cbn. apply Forall_fmap, Forall_forall. intros i Hi%elem_of_seqZ. apply buildService_ok. lia.
Qed.
End service.

Lemma project_lines_plain t : topology_ok t -> Forall plain_text (project_lines (buildModel t)).
Proof.
  intros Hok. pose proof (services_ok t Hok) as Hs. unfold project_lines. rewrite !Forall_app. split_and!.
  - destruct Hok as (Hn & _). plain_lines.
    eapply Forall_impl; [exact Hn|]. exact name_char_plain.
  - apply Forall_forall. intros l Hl. apply list_elem_of_join in Hl as (ls & Hl & (s & -> & Hin)%list_elem_of_fmap).
    rewrite Forall_forall in Hs. destruct (Hs s Hin) as (_ & _ & _ & Hp). rewrite Forall_forall in Hp. by apply Hp.
  - assert (Hv : Forall (fun v => plain_text (txt v)) (Volumes (buildModel t))).
    { apply Forall_forall. intros v Hv%list_elem_of_In%filter_In. destruct Hv as [Hv%list_elem_of_In _].
      apply list_elem_of_fmap in Hv as (s & -> & (i & -> & _)%list_elem_of_fmap). cbn -[txt].
      destruct (negb _); [|constructor]. rewrite txt_app. pose proof (node_name_plain t Hok i). plain_parts. }
    destruct (Volumes _) as [|v vols]; [constructor|]. constructor; [by apply plain_const|].
    apply Forall_fmap. eapply Forall_impl; [exact Hv|]. cbn -[txt]. intros v' ?. plain_parts.
Qed.

(** The file docker reads names exactly the containers and ports of the model,
    whatever images, versions and limits the topology asks for. *)
Lemma read_render t :
  topology_ok t -> read_compose (render (buildModel t)) = cservice_of <$> Services (buildModel t).
Proof.
  intros Hok. unfold read_compose, render. rewrite txt_str, split_unlines by (by apply project_lines_plain).
  unfold project_lines. rewrite !foldl_app.
  etransitivity; [apply f_equal, (read_volumes (Volumes (buildModel t)) (fun v => txt v ++ txt ":"))|].
  assert (Hr : rd_top (foldl read_line reader_zero [txt "name: " ++ txt (Project (buildModel t)); txt "services:"]) = txt "services:").
  { reflexivity. }
  destruct (read_services _ _ Hr (services_ok t Hok)) as [_ Hf]. rewrite Hf.
  rewrite rev_app_distr, rev_involutive. reflexivity.
Qed.

(** The nodes of a model have distinct names, and distinct ports. *)
Lemma node_name_inj t i j : 0 <= i -> 0 <= j -> is_i64 i -> is_i64 j -> node_name t i = node_name t j -> i = j.
Proof.
  intros Hi Hj Hi' Hj' H. apply (f_equal txt) in H. rewrite !node_name_txt in H.
  do 2 apply app_inv_head in H. apply (f_equal ParseInt) in H. rewrite !ParseInt_FormatInt in H by done. congruence.
Qed.

Lemma services_distinct t :
  topology_ok t ->
  NoDup (ContainerName <$> Services (buildModel t)) /\ NoDup (HostPort <$> Services (buildModel t)).
Proof.
  intros Hok. assert (Hn : node_count t <= 2^32).
  { destruct Hok as (_ & _ & _ & _ & _ & _ & Hn). unfold node_count. destruct (_ <=? 0); lia. }
  cbn. rewrite <- !list_fmap_compose. split; apply NoDup_fmap_2_strong; try apply NoDup_seqZ.
  - intros i j Hi%elem_of_seqZ Hj%elem_of_seqZ. cbn. apply node_name_inj; unfold is_i64; lia.
  - intros i j Hi%elem_of_seqZ Hj%elem_of_seqZ. cbn.
    rewrite !HostPort_range by (done || lia). lia.
Qed.

(** ** docker.go *)

Definition runDocker {W} {Sh : Shell W} (args : list string) (w : W) : W * result error string :=
  run_command "docker" args w.

Definition composeArgs (project file : string) (rest : list string) : list string :=
  ["compose"; "-p"; project; "-f"; file]%string ++ rest.

Record psEntry := { pe_Name : string; pe_Service : string; pe_State : string; pe_Health : string }.

(** bundle.go: an entry of a bundle's manifest. *)
Record bundleNode := { bn_Service : string; bn_Role : string; bn_ClientPort : Z }.

(** [json.Unmarshal] into one entry, an array of them, and a bundle's manifest. *)
Class PsJson := {
  unmarshal_entry : string -> result error psEntry;
  unmarshal_entries : string -> result error (list psEntry);
  unmarshal_manifest : string -> result error (list bundleNode)
}.

Section docker.
Context {W : Type} {Sh : Shell W} {Clk : Clock W} {PJ : PsJson}.

Definition inspect_format : string :=
  "{{if .State.Health}}{{.State.Health.Status}}{{else}}{{.State.Status}}{{end}}".

Definition containerReady (name : string) (w : W) : W * result error bool :=
  match runDocker ["inspect"; "--format"; inspect_format; name]%string w with
  | (w, Err e) => (w, Err e)
  | (w, Ok out) => (w, Ok (String.eqb out "healthy" || String.eqb out "running"))
  end.

(** The containers not ready, in order; an inspection that fails counts as not ready. *)
Definition unhealthy (m : projectModel) (w : W) : W * result error (list string) :=
  let '(w, states) := for_each (fun s w => let '(w, r) := containerReady (ContainerName s) w in
                                           (w, (ContainerName s, r))) (Services m) w in
  (w, Ok (fst <$> List.filter (fun s => match s.2 with Ok true => false | _ => true end) states)).

Definition waitHealthy (m : projectModel) (timeout : Z) (w : W) : W * option error :=
  poll_until (unhealthy m) second
    (fun pending => "timed out after " +:+ str (duration_text timeout) +:+ " waiting for: " +:+ String.concat ", " pending)
    timeout w.

(** The port after the last colon of what [docker compose port] prints. *)
Definition printed_port (out : string) (fallback : Z) : Z :=
  match split_last ":"%char (txt out) with
  | Some (_, p) => let p := parsePort (str p) in if 0 <? p then p else fallback
  | None => fallback
  end.

Definition resolvePort (project file : string) (s : serviceModel) (w : W) : W * Z :=
  match runDocker (composeArgs project file ["port"; Key s; str (FormatInt (ContainerPort s))])%string w with
  | (w, Err _) => (w, HostPort s)
  | (w, Ok out) => (w, printed_port out (HostPort s))
  end.

Fixpoint decode_lines (lines : list string) : result error (list psEntry) :=
  match lines with
  | [] => Ok []
  | line :: lines =>
      let line := TrimSpace line in
      if String.eqb line "" then decode_lines lines
      else match unmarshal_entry line with
           | Err e => Err e
           | Ok e => match decode_lines lines with Ok es => Ok (e :: es) | Err err => Err err end
           end
  end.

Definition parsePS (raw : string) : result error (list psEntry) :=
  let raw := TrimSpace raw in
  if String.eqb raw "" then Ok []
  else match txt raw with
       | c :: _ => if Ascii.eqb c "["%char then unmarshal_entries raw
                   else decode_lines (str <$> split_on newline (txt raw) [])
       | [] => Ok []
       end.

(** ** compose.go *)

Definition healthTimeout : Z := 6 * minute.

Definition docker_control (name : string) : ControlEndpoint :=
  {| ce_Method := ControlDocker; ce_Ref := name; ce_Namespace := ""; ce_Extra := ∅ |}.

Definition local_endpoint (port : Z) : string := "127.0.0.1:" +:+ str (FormatInt port).

Definition workDir (t : Topology) : string := Join [".proofload"; "compose"; topo_Name t]%string.

Definition writeProject (t : Topology) (m : projectModel) (w : W) : W * result error string :=
  let dir := workDir t in
  match sh_MkdirAll dir w with
  | (w, Some e) => (w, Err ("create work dir " +:+ dir +:+ ": " +:+ e))
  | (w, None) =>
      let file := Join [dir; "docker-compose.yml"]%string in
      match sh_WriteFile file (render m) w with
      | (w, Some e) => (w, Err ("write " +:+ file +:+ ": " +:+ e))
      | (w, None) => (w, Ok file)
      end
  end.

(** A node of the model with the container and the port docker reports. *)
Definition node_of (s : serviceModel) (name : string) (port : Z) : Node :=
  {| node_ID := name; node_Role := Role s; node_Client := local_endpoint port; node_Control := docker_control name |}.

Definition spec (t : Topology) (m : projectModel) (file : string) (w : W) : W * ClusterSpec :=
  let rf := if topo_ReplicationFactor t =? 0 then Z.of_nat (length (Services m)) else topo_ReplicationFactor t in
  let '(w, nodes) := for_each (fun s w =>
    let '(w, port) := resolvePort (Project m) file s w in (w, node_of s (ContainerName s) port)) (Services m) w in
  (w, {| cs_Nodes := nodes; cs_ReplicationFactor := rf; cs_Consistency := [] |}).

(** The last entry of a service wins. *)
Definition byService (entries : list psEntry) : gmap string psEntry :=
  foldl (fun acc e => <[pe_Service e := e]> acc) ∅ entries.

Definition nodesFromPS (m : projectModel) (file : string) (entries : list psEntry) (w : W) : W * list Node :=
  let known := omap (fun s => (fun e => (s, e)) <$> byService entries !! Key s) (Services m) in
  for_each (fun '(s, e) w =>
    let '(w, port) := resolvePort (Project m) file s w in (w, node_of s (pe_Name e) port)) known w.

(** ** bundle.go *)

Definition bundleProject (t : Topology) : string := "proofload-" +:+ topo_Name t.
Definition bundleFile (t : Topology) : string := Join [topo_Bundle t; "docker-compose.yml"]%string.

Definition readBundleManifest (dir : string) (w : W) : W * result error (list bundleNode) :=
  match sh_ReadFile (Join [dir; "proofload-cluster.json"]%string) w with
  | (w, Err e) => (w, Err ("read bundle manifest: " +:+ e))
  | (w, Ok b) =>
      match unmarshal_manifest b with
      | Err e => (w, Err ("parse bundle manifest: " +:+ e))
      | Ok [] => (w, Err ("bundle manifest " +:+ dir +:+ " has no nodes"))
      | Ok nodes => (w, Ok nodes)
      end
  end.

Definition resolveNamedPort (proj file service : string) (port : Z) (w : W) : W * Z :=
  match runDocker (composeArgs proj file ["port"; service; str (FormatInt port)])%string w with
  | (w, Err _) => (w, port)
  | (w, Ok out) => (w, printed_port out port)
  end.

(** [docker compose ps], decoded. *)
Definition composePS (proj file : string) (w : W) : W * result error (list psEntry) :=
  match runDocker (composeArgs proj file ["ps"; "--format"; "json"])%string w with
  | (w, Err e) => (w, Err e)
  | (w, Ok raw) =>
      match parsePS raw with
      | Err e => (w, Err ("parse compose ps: " +:+ e))
      | Ok entries => (w, Ok entries)
      end
  end.

Definition bundle_node (proj file : string) (entries : list psEntry) (n : bundleNode) (w : W) : W * Node :=
  let name := match byService entries !! bn_Service n with
              | Some e => if nonempty (pe_Name e) then pe_Name e else bn_Service n
              | None => bn_Service n
              end in
  let mk client := {| node_ID := name; node_Role := bn_Role n; node_Client := client; node_Control := docker_control name |} in
  if 0 <? bn_ClientPort n then
    let '(w, port) := resolveNamedPort proj file (bn_Service n) (bn_ClientPort n) w in
    (w, mk (local_endpoint port))
  else (w, mk ""%string).

Definition nodesBundle (t : Topology) (man : list bundleNode) (w : W) : W * result error (list Node) :=
  match composePS (bundleProject t) (bundleFile t) w with
  | (w, Err e) => (w, Err e)
  | (w, Ok entries) =>
      let '(w, nodes) := for_each (bundle_node (bundleProject t) (bundleFile t) entries) man w in (w, Ok nodes)
  end.

Definition entryReady (e : psEntry) : bool :=
  if nonempty (pe_Health e) then String.eqb (pe_Health e) "healthy" else String.eqb (pe_State e) "running".

(** Here the errors of [ps] and of its decoding are not wrapped; they only keep
    the loop polling. *)
Definition bundlePending (proj file : string) (man : list bundleNode) (w : W) : W * result error (list string) :=
  match composePS proj file w with
  | (w, Err e) => (w, Err e)
  | (w, Ok entries) =>
      (w, Ok (bn_Service <$> List.filter (fun n =>
        match byService entries !! bn_Service n with Some e => negb (entryReady e) | None => true end) man))
  end.

Definition waitHealthyBundle (proj file : string) (man : list bundleNode) (timeout : Z) (w : W) : W * option error :=
  poll_until (bundlePending proj file man) (2 * second)
    (fun pending => "timed out after " +:+ str (duration_text timeout) +:+ " waiting for: [" +:+ String.concat " " pending +:+ "]")
    timeout w.

(** Unlike [Up], the error of the second attempt is returned. *)
Definition upBundle (t : Topology) (w : W) : W * result error ClusterSpec :=
  match readBundleManifest (topo_Bundle t) w with
  | (w, Err e) => (w, Err e)
  | (w, Ok man) =>
      let proj := bundleProject t in
      let file := bundleFile t in
      let '(w, started) :=
        match runDocker (composeArgs proj file ["up"; "-d"; "--wait"])%string w with
        | (w, Ok _) => (w, Ok tt)
        | (w, Err _) =>
            match runDocker (composeArgs proj file ["up"; "-d"])%string w with
            | (w, Ok _) => (w, Ok tt)
            | (w, Err e) => (w, Err e)
            end
        end in
      match started with
      | Err e => (w, Err e)
      | Ok _ =>
          match waitHealthyBundle proj file man healthTimeout w with
          | (w, Some e) => (w, Err e)
          | (w, None) =>
              match nodesBundle t man w with
              | (w, Err e) => (w, Err e)
              | (w, Ok nodes) =>
                  let rf := if topo_ReplicationFactor t =? 0 then Z.of_nat (length nodes) else topo_ReplicationFactor t in
                  (w, Ok {| cs_Nodes := nodes; cs_ReplicationFactor := rf; cs_Consistency := [] |})
              end
          end
      end
  end.

Definition downBundle (t : Topology) (w : W) : W * option error :=
  match runDocker (composeArgs (bundleProject t) (bundleFile t) ["down"; "-v"])%string w with
  | (w, Ok _) => (w, None)
  | (w, Err e) => (w, Some e)
  end.

(** ** compose.go: the port's operations *)

Definition Up (t : Topology) (w : W) : W * result error ClusterSpec :=
  if nonempty (topo_Bundle t) then upBundle t w
  else
    let m := buildModel t in
    match writeProject t m w with
    | (w, Err e) => (w, Err e)
    | (w, Ok file) =>
        let w := match runDocker (composeArgs (Project m) file ["up"; "-d"; "--wait"])%string w with
                 | (w, Ok _) => w
                 | (w, Err _) => (runDocker (composeArgs (Project m) file ["up"; "-d"])%string w).1
                 end in
        match waitHealthy m healthTimeout w with
        | (w, Some e) => (w, Err e)
        | (w, None) => let '(w, sp) := spec t m file w in (w, Ok sp)
        end
    end.

Definition Down (t : Topology) (w : W) : W * option error :=
  if nonempty (topo_Bundle t) then downBundle t w
  else
    let m := buildModel t in
    match writeProject t m w with
    | (w, Err e) => (w, Some e)
    | (w, Ok file) =>
        match runDocker (composeArgs (Project m) file ["down"; "-v"])%string w with
        | (w, Ok _) => (w, None)
        | (w, Err e) => (w, Some e)
        end
    end.

Definition Nodes (t : Topology) (w : W) : W * result error (list Node) :=
  if nonempty (topo_Bundle t) then
    match readBundleManifest (topo_Bundle t) w with
    | (w, Err e) => (w, Err e)
    | (w, Ok man) => nodesBundle t man w
    end
  else
    let m := buildModel t in
    match writeProject t m w with
    | (w, Err e) => (w, Err e)
    | (w, Ok file) =>
        match composePS (Project m) file w with
        | (w, Err e) => (w, Err e)
        | (w, Ok entries) => let '(w, nodes) := nodesFromPS m file entries w in (w, Ok nodes)
        end
    end.

Definition provisioner : Provisioner W := {|
  prov_Backend := BackendCompose; prov_Up := Up; prov_Down := Down; prov_Nodes := Nodes
|}.
End docker.

(** ** What docker and its output promise *)

Definition entry_plain (e : psEntry) : Prop :=
  name_like (pe_Name e) /\ name_like (pe_Service e) /\ name_like (pe_State e) /\ name_like (pe_Health e).

(** An entry of such names is printed as an object on one line, which decodes to it. *)
Class PsJsonLaws {PJ : PsJson} := {
  entry_json : psEntry -> text;
  entry_object e : exists body, entry_json e = "{"%char :: body ++ ["}"%char];
  entry_line e : entry_plain e -> plain_text (entry_json e);
  entry_decodes e : entry_plain e -> unmarshal_entry (str (entry_json e)) = Ok e
}.

(** The two forms of [docker compose ps --format json]. *)
Definition listing {PJ : PsJson} {PL : PsJsonLaws} (es : list psEntry) (out : string) : Prop :=
  out = str (unlines (entry_json <$> es)) \/
  (exists rest, txt (TrimSpace out) = "["%char :: rest) /\ unmarshal_entries (TrimSpace out) = Ok es.

(** [files] are the contents of files, [project] the services running under a
    project name.  Reading commands change neither; [up], when it succeeds, runs
    what the file says and leaves a project that already does so alone. *)
Class Docker (W : Type) {Sh : Shell W} {Clk : Clock W} {WC : WorldClock W} {PJ : PsJson} {PL : PsJsonLaws} := {
  files : W -> gmap string string;
  project : W -> string -> list cservice;
  exec_forward prog args w : time_of w <= time_of (exec prog args w).1;
  mkdir_keeps dir w : files (sh_MkdirAll dir w).1 = files w /\ project (sh_MkdirAll dir w).1 = project w;
  write_stores path content w w' :
    sh_WriteFile path content w = (w', None) -> files w' = <[path := content]> (files w) /\ project w' = project w;
  now_keeps w : files (now w).1 = files w /\ project (now w).1 = project w;
  wait_keeps d w : files (wait d w).1 = files w /\ project (wait d w).1 = project w;
  inspect_keeps args w :
    let w' := (exec "docker" ("inspect" :: args)%string w).1 in files w' = files w /\ project w' = project w;
  compose_reads p file cmd args w :
    cmd = "ps"%string \/ cmd = "port"%string ->
    let w' := (exec "docker" (composeArgs p file (cmd :: args)) w).1 in files w' = files w /\ project w' = project w;
  up_keeps_files p file args w : files (exec "docker" (composeArgs p file ("up" :: args)%string) w).1 = files w;
  up_starts p file args w w' out content :
    exec "docker" (composeArgs p file ("up" :: args)%string) w = (w', (out, None)) ->
    files w !! file = Some content -> project w' p = read_compose content;
  up_reconciles p file args w content :
    files w !! file = Some content -> project w p = read_compose content ->
    project (exec "docker" (composeArgs p file ("up" :: args)%string) w).1 p = read_compose content;
  ps_lists p file w w' out :
    exec "docker" (composeArgs p file ["ps"; "--format"; "json"]%string) w = (w', (out, None)) ->
    exists es, listing es out /\
      (fun e => (txt (pe_Service e), txt (pe_Name e))) <$> es ≡ₚ (fun s => (cs_key s, cs_container s)) <$> project w p /\
      Forall (fun e => name_like (pe_State e) /\ name_like (pe_Health e)) es;
  port_published p file s h c w w' out :
    exec "docker" (composeArgs p file ["port"; str (cs_key s); str (FormatInt c)]%string) w = (w', (out, None)) ->
    NoDup (cs_key <$> project w p) -> s ∈ project w p -> cs_port s = Some (h, c) ->
    exists host, txt (TrimSpace out) = host ++ txt ":" ++ FormatInt h
}.

(** ** Decoding the listing *)

Section listing.
Context {PJ : PsJson} {PL : PsJsonLaws}.

Lemma entry_trim e : TrimSpace (str (entry_json e)) = str (entry_json e).
Proof. destruct (entry_object e) as [body ->]. apply (TrimSpace_bracketed _ _ _ []); auto. Qed.

Lemma entry_nonempty e : String.eqb (str (entry_json e)) "" = false.
Proof. by destruct (entry_object e) as [body ->]. Qed.

Lemma unlines_join ls : ls <> [] -> unlines ls = join_text [newline] ls ++ [newline].
Proof.
  induction ls as [|l ls IH]; [done|]. intros _. destruct ls as [|l' ls]; [by cbn; rewrite app_nil_r|].
  change (unlines (l :: l' :: ls)) with ((l ++ [newline]) ++ unlines (l' :: ls)). rewrite IH by done.
  cbn [join_text]. by rewrite <- !app_assoc.
Qed.

Lemma join_objects es : es <> [] -> exists body, join_text [newline] (entry_json <$> es) = "{"%char :: body ++ ["}"%char].
Proof.
  induction es as [|e es IH]; [done|]. intros _. destruct es as [|e' es]; [exact (entry_object e)|].
  destruct (entry_object e) as [b Hb]. destruct IH as [b' Hb']; [done|].
  change (entry_json <$> e :: e' :: es) with (entry_json e :: (entry_json <$> e' :: es)).
  change (join_text [newline] (entry_json e :: (entry_json <$> e' :: es)))
    with (entry_json e ++ [newline] ++ join_text [newline] (entry_json <$> e' :: es)).
  rewrite Hb, Hb'. exists (b ++ ["}"%char; newline; "{"%char] ++ b'). cbn. f_equal. by rewrite <- !app_assoc.
Qed.

Lemma decode_lines_entries es :
  Forall entry_plain es -> decode_lines (str <$> (entry_json <$> es)) = Ok es.
Proof.
  induction 1 as [|e es He _ IH]; [done|]. cbn. by rewrite entry_trim, entry_nonempty, entry_decodes, IH.
Qed.

(** Either form of the listing is decoded to the entries listed. *)
Lemma parsePS_listing es out : listing es out -> Forall entry_plain es -> parsePS (TrimSpace out) = Ok es.
Proof.
  intros Hl Hes. unfold parsePS. rewrite TrimSpace_idem. destruct Hl as [-> | [[rest Hr] Hu]].
  - destruct (decide (es = [])) as [->|Hne]; [done|].
    rewrite unlines_join by (by destruct es). destruct (join_objects es Hne) as [body Hb].
    assert (Ht : TrimSpace (str (join_text [newline] (entry_json <$> es) ++ [newline]))
                 = str (join_text [newline] (entry_json <$> es))).
    { rewrite Hb. cbn [app]. rewrite <- app_assoc. apply (TrimSpace_bracketed _ _ _ [newline]); auto. }
    rewrite Ht, txt_str. destruct (String.eqb_spec (str (join_text [newline] (entry_json <$> es))) "") as [E|_].
    { apply (f_equal txt) in E. by rewrite txt_str, Hb in E. }
    rewrite Hb at 1. cbn match. change (Ascii.eqb "{" "[") with false. cbn match.
    rewrite split_on_join; [by apply decode_lines_entries|by destruct es|].
    apply Forall_fmap. eapply Forall_impl; [exact Hes|]. intros e He. by apply plain_no_newline, entry_line.
  - rewrite Hr. destruct (String.eqb_spec (TrimSpace out) "") as [E|_]; [by rewrite E in Hr|]. done.
Qed.
End listing.

(** ** Bring-up and node resolution *)

Section docker_laws.
Context {W : Type} {Sh : Shell W} {Clk : Clock W} {WC : WorldClock W} {PJ : PsJson} {PL : PsJsonLaws} {Dk : Docker W}.

Section topology.
Variable t : Topology.
Hypothesis t_ok : topology_ok t.
Hypothesis no_bundle : topo_Bundle t = ""%string.

Definition compose_file : string := Join [workDir t; "docker-compose.yml"]%string.

Definition written (w : W) : Prop := files w !! compose_file = Some (render (buildModel t)).

(** The topology's project runs: its file is in place and docker runs what it says. *)
Definition running (w : W) : Prop := written w /\ project w (projectName t) = cservice_of <$> Services (buildModel t).

Definition same (w w' : W) : Prop := files w' = files w /\ project w' = project w.

Lemma same_running w w' : same w w' -> running w -> running w'.
Proof. intros [Hf Hp] [H1 H2]. unfold running, written. by rewrite Hf, Hp. Qed.

Lemma writeProject_spec w w' f :
  writeProject t (buildModel t) w = (w', Ok f) -> f = compose_file /\ written w' /\ project w' = project w.
Proof.
  unfold writeProject. pose proof (mkdir_keeps (workDir t) w) as [Hf Hp].
  destruct (sh_MkdirAll (workDir t) w) as [w1 [e|]]; [done|].
  fold compose_file. destruct (sh_WriteFile _ _ w1) as [w2 [e|]] eqn:E; [done|]. intros [= <- <-].
  apply write_stores in E as [Hf' Hp']. cbn in *. split_and!; [done| |congruence].
  unfold written. by rewrite Hf', lookup_insert_eq.
Qed.

Lemma inspect_same name w : same w (containerReady name w).1.
Proof.
  unfold containerReady, runDocker. pose proof (inspect_keeps ["--format"; inspect_format; name]%string w) as H.
  pose proof (run_command_world "docker" ["inspect"; "--format"; inspect_format; name]%string w) as E.
  destruct (run_command _ _ w) as [w1 []]; cbn in *; subst w1; exact H.
Qed.

Lemma unhealthy_world m w : exists l, unhealthy m w = (l.1, Ok l.2).
Proof. unfold unhealthy. destruct (for_each _ _ w) as [w1 s]. by eexists (_, _). Qed.

Lemma unhealthy_same m (Inv : W -> Prop) w :
  (forall w name, Inv w -> Inv (containerReady name w).1) -> Inv w -> Inv (unhealthy m w).1.
Proof.
  intros HI Hw. unfold unhealthy.
  set (f := fun s w => let '(w, r) := containerReady (ContainerName s) w in (w, (ContainerName s, r))).
  enough (H : forall l w, Inv w -> Inv (for_each f l w).1).
  { specialize (H (Services m) w Hw). by destruct (for_each f _ w). }
  induction l as [|s l IH]; intros w0 H0; [done|]. cbn. subst f. cbn beta.
  specialize (HI w0 (ContainerName s) H0). destruct (containerReady _ w0) as [w1 r].
  specialize (IH w1 HI). by destruct (for_each _ l w1).
Qed.

Lemma unhealthy_running m w : running w -> running (unhealthy m w).1.
Proof. apply unhealthy_same. intros w' name. apply same_running, inspect_same. Qed.

Lemma now_running w : running w -> running (now w).1.
Proof. apply same_running, now_keeps. Qed.

Lemma wait_running d w : running w -> running (wait d w).1.
Proof. apply same_running, wait_keeps. Qed.

Lemma waitHealthy_running w : running w -> running (waitHealthy (buildModel t) healthTimeout w).1.
Proof.
  intros H. unfold waitHealthy. apply (poll_until_keeps _ _ _ running);
    auto using unhealthy_running, now_running, wait_running.
Qed.

Lemma node_name_like i : name_like (node_name t i).
Proof.
  unfold name_like. rewrite node_name_txt. destruct t_ok as (Hn & _). rewrite !Forall_app.
  split_and!; [done|by repeat constructor|]. pose proof (FormatInt_name i) as H. unfold name_like in H. by rewrite txt_str in H.
Qed.

Lemma service_in s :
  s ∈ Services (buildModel t) -> Key s = ContainerName s /\ 0 < HostPort s /\ is_i64 (HostPort s) /\ name_like (Key s).
Proof.
  cbn. intros (i & -> & Hi%elem_of_seqZ)%list_elem_of_fmap. cbn -[txt].
  destruct (hookFor_spec (topo_Target t)) as (_ & _ & Hb). pose proof (HostPort_range t t_ok i ltac:(lia)) as Hr.
  rewrite Hr. split_and!; [done|lia| |by apply node_name_like]. rewrite <- Hr. apply wrap64_range.
Qed.

Lemma NoDup_keys : NoDup (cs_key ∘ cservice_of <$> Services (buildModel t)).
Proof.
  destruct (services_distinct t t_ok) as [H _]. apply (NoDup_fmap_2_strong txt) in H.
  2: { intros a b _ _ E. apply (f_equal str) in E. by rewrite !str_txt in E. }
  rewrite <- list_fmap_compose in H. erewrite list_fmap_ext; [exact H|].
  intros i s Hs. apply list_elem_of_lookup_2 in Hs. cbn. by destruct (service_in s Hs) as (-> & _).
Qed.

(** Whether the query for the port succeeds or not, the port is the model's. *)
Lemma resolvePort_running s w :
  s ∈ Services (buildModel t) -> running w ->
  running (resolvePort (projectName t) compose_file s w).1 /\
  (resolvePort (projectName t) compose_file s w).2 = HostPort s.
Proof.
  intros Hs Hw. destruct (service_in s Hs) as (_ & Hpos & Hr & _). unfold resolvePort, runDocker.
  set (args := composeArgs _ _ _).
  pose proof (compose_reads (projectName t) compose_file "port" [Key s; str (FormatInt (ContainerPort s))] w (or_intror eq_refl)) as Hk.
  fold args in Hk. cbn zeta in Hk.
  pose proof (run_command_world "docker" args w) as Ew.
  destruct (run_command "docker" args w) as [w1 [out|e]] eqn:E; cbn in Ew |- *; subst w1;
    (split; [by apply (same_running w)|]); [|done].
  apply run_command_ok in E as (raw & E & ->). unfold args in E. rewrite <- (str_txt (Key s)) in E.
  destruct (port_published (projectName t) compose_file (cservice_of s) (HostPort s) (ContainerPort s) _ _ _ E)
    as [host Hh]; [| |done|].
  { destruct Hw as [_ ->]. rewrite <- list_fmap_compose. apply NoDup_keys. }
  { destruct Hw as [_ ->]. by apply list_elem_of_fmap_2. }
  unfold printed_port. rewrite Hh.
  rewrite (proj2 (split_last_spec ":"%char _ host (FormatInt (HostPort s)))) by (split; [done|apply FormatInt_no_colon]).
  assert (FormatInt (HostPort s) = FormatUint (HostPort s)) as ->.
  { unfold FormatInt. destruct (HostPort s <? 0) eqn:?; zbool; [lia|done]. }
  unfold is_i64 in Hr. rewrite parsePort_FormatUint by lia.
  destruct (0 <? HostPort s) eqn:?; zbool; [done|lia].
Qed.

(** The cluster the topology stands for. *)
Definition cluster_of : ClusterSpec := {|
  cs_Nodes := (fun s => node_of s (ContainerName s) (HostPort s)) <$> Services (buildModel t);
  cs_ReplicationFactor := if topo_ReplicationFactor t =? 0 then node_count t else topo_ReplicationFactor t;
  cs_Consistency := []
|}.

Lemma spec_running w :
  running w -> running (spec t (buildModel t) compose_file w).1 /\ (spec t (buildModel t) compose_file w).2 = cluster_of.
Proof.
  intros Hw. unfold spec.
  set (f := fun s w => let '(w, port) := resolvePort (Project (buildModel t)) compose_file s w in
                        (w, node_of s (ContainerName s) port)).
  destruct (for_each_spec f running (fun s => node_of s (ContainerName s) (HostPort s)) (Services (buildModel t)) w)
    as [H1 H2]; [|done|].
  { intros s w' Hs Hw'. subst f. cbn beta. destruct (resolvePort_running s w' Hs Hw') as [H1 H2].
    cbn [Project buildModel]. destruct (resolvePort _ _ s w'); cbn in *. by subst. }
  destruct (for_each f _ w) as [w1 ns]; cbn [fst snd] in *. subst ns. split; [done|].
  unfold cluster_of. f_equal. destruct (_ =? 0); [|done].
  cbn. rewrite length_fmap, length_seqZ. unfold node_count. destruct (topo_Nodes t <=? 0) eqn:?; zbool; lia.
Qed.

Lemma byService_spec es k :
  (forall e, byService es !! k = Some e -> e ∈ es /\ pe_Service e = k) /\
  (k ∈ (pe_Service <$> es) -> is_Some (byService es !! k)).
Proof.
  unfold byService. induction es as [|e es [IH1 IH2]] using rev_ind; [split; [done|intros H; by apply elem_of_nil in H]|].
  rewrite foldl_snoc. destruct (decide (pe_Service e = k)) as [<-|Hk].
  - rewrite lookup_insert_eq. split; [|by eexists]. intros e' [= <-]. split; [apply elem_of_app; right; by left|done].
  - rewrite lookup_insert_ne by done. split.
    + intros e' He'. destruct (IH1 e' He'). split; [apply elem_of_app; by left|done].
    + rewrite fmap_app, elem_of_app. intros [H|H]; [by apply IH2|]. apply list_elem_of_singleton in H. congruence.
Qed.

(** The entries [ps] lists, by service, name the model's containers. *)
Lemma ps_running w w' es :
  running w -> composePS (projectName t) compose_file w = (w', Ok es) ->
  running w' /\ forall s, s ∈ Services (buildModel t) -> exists e, byService es !! Key s = Some e /\ pe_Name e = ContainerName s.
Proof.
  intros Hw. unfold composePS, runDocker. set (args := composeArgs _ _ _).
  pose proof (compose_reads (projectName t) compose_file "ps" ["--format"; "json"]%string w (or_introl eq_refl)) as Hk.
  fold args in Hk. cbn zeta in Hk. pose proof (run_command_world "docker" args w) as Ew.
  destruct (run_command "docker" args w) as [w1 [out|e]] eqn:E; [|done]. cbn in Ew. subst w1.
  apply run_command_ok in E as (raw & E & ->).
  apply ps_lists in E as (es' & Hl & Hp & Hst).
  assert (Hin : forall e, e ∈ es' -> exists s, s ∈ Services (buildModel t) /\ Key s = pe_Service e /\ ContainerName s = pe_Name e).
  { intros e He. apply (list_elem_of_fmap_2 (fun e => (txt (pe_Service e), txt (pe_Name e)))) in He.
    rewrite Hp, (proj2 Hw), <- list_fmap_compose in He.
    apply list_elem_of_fmap in He as (s & [= H1 H2] & Hs). exists s.
    apply (f_equal str) in H1, H2. cbn -[txt str] in H1, H2. by rewrite !str_txt in H1, H2. }
  rewrite (parsePS_listing es' raw Hl).
  2: { apply Forall_forall. intros e He. rewrite Forall_forall in Hst. destruct (Hst e He).
       destruct (Hin e He) as (s & Hs & Hk1 & Hk2). destruct (service_in s Hs) as (Hkc & _ & _ & Hpl).
       unfold entry_plain. rewrite <- Hk1, <- Hk2, <- Hkc. done. }
  intros [= <- <-]. split; [by apply (same_running w)|].
  intros s Hs. destruct (byService_spec es' (Key s)) as [H1 H2].
  destruct H2 as [e He].
  { assert (H : (txt (Key s), txt (ContainerName s)) ∈ (fun e => (txt (pe_Service e), txt (pe_Name e))) <$> es').
    { rewrite Hp. destruct Hw as [_ ->]. rewrite <- list_fmap_compose.
      by apply (list_elem_of_fmap_2 (fun s => (txt (Key s), txt (ContainerName s)))). }
    apply list_elem_of_fmap in H as (e & [= Hek _] & He). apply list_elem_of_fmap. exists e. split; [|done].
    apply (f_equal str) in Hek. by rewrite !str_txt in Hek. }
  exists e. split; [done|]. destruct (H1 e He) as [Hie Hke]. destruct (Hin e Hie) as (s' & Hs' & Hk1 & Hk2).
  destruct (service_in s Hs) as (Hc & _), (service_in s' Hs') as (Hc' & _). congruence.
Qed.

Lemma nodesFromPS_running w es :
  running w ->
  (forall s, s ∈ Services (buildModel t) -> exists e, byService es !! Key s = Some e /\ pe_Name e = ContainerName s) ->
  running (nodesFromPS (buildModel t) compose_file es w).1 /\
  (nodesFromPS (buildModel t) compose_file es w).2 = cs_Nodes cluster_of.
Proof.
  intros Hw Hes. unfold nodesFromPS. set (known := omap _ _).
  assert (Hknown : (forall p, p ∈ known -> p.1 ∈ Services (buildModel t)) /\
    (fun p : serviceModel * psEntry => node_of p.1 (pe_Name p.2) (HostPort p.1)) <$> known = cs_Nodes cluster_of).
  { subst known. unfold cluster_of. cbn [cs_Nodes]. induction (Services (buildModel t)) as [|s l IH].
    { split; [|done]. intros p Hp. by apply elem_of_nil in Hp. }
    destruct (Hes s) as (e & He & Hn); [by left|].
    cbn [omap list_omap]. rewrite He. cbn [option_fmap fmap option_map]. rewrite !fmap_cons. cbn [fst snd].
    destruct IH as [IH1 IH2]; [intros s' Hs'; apply Hes; by right|]. split.
    - intros p [->|Hp%IH1]%elem_of_cons; [by left|by right].
    - rewrite Hn. f_equal. exact IH2. }
  destruct Hknown as [Hk1 Hk2]. rewrite <- Hk2. apply for_each_spec; [|done].
  intros [s e] w' Hp Hw'. destruct (resolvePort_running s w' (Hk1 _ Hp) Hw') as [H1 H2].
  cbn [Project buildModel]. destruct (resolvePort _ _ s w'); cbn in *. by subst.
Qed.

(** The world [Up] waits in: after the first command, and after the second when
    the first failed. *)
Definition brought_up (w : W) : W :=
  match runDocker (composeArgs (projectName t) compose_file ["up"; "-d"; "--wait"]%string) w with
  | (w, Ok _) => w
  | (w, Err _) => (runDocker (composeArgs (projectName t) compose_file ["up"; "-d"]%string) w).1
  end.

Lemma Up_eq w :
  Up t w = match writeProject t (buildModel t) w with
           | (w, Err e) => (w, Err e)
           | (w, Ok _) =>
               match waitHealthy (buildModel t) healthTimeout (brought_up w) with
               | (w, Some e) => (w, Err e)
               | (w, None) => let '(w, sp) := spec t (buildModel t) compose_file w in (w, Ok sp)
               end
           end.
Proof.
  unfold Up. rewrite no_bundle. cbn [nonempty String.eqb negb].
  destruct (writeProject t (buildModel t) w) as [w1 [f|e]] eqn:E; [|done].
  by apply writeProject_spec in E as (-> & _).
Qed.

(** [up] keeps a running project running. *)
Lemma up_running args w :
  running w -> running (runDocker (composeArgs (projectName t) compose_file ("up" :: args)%string) w).1.
Proof.
  intros [Hf Hp]. unfold runDocker. rewrite run_command_world. split.
  - unfold written. by rewrite up_keeps_files.
  - rewrite <- (read_render t t_ok). apply up_reconciles; [done|]. by rewrite read_render.
Qed.

Lemma brought_up_running w : running w -> running (brought_up w).
Proof.
  intros Hw. unfold brought_up. pose proof (up_running ["-d"; "--wait"]%string w Hw) as H.
  destruct (runDocker _ w) as [w1 []]; [done|]. by apply (up_running ["-d"]%string).
Qed.

(** A first command that succeeds starts the project. *)
Definition starts (w : W) : Prop :=
  exists w' out, runDocker (composeArgs (projectName t) compose_file ["up"; "-d"; "--wait"]%string) w = (w', Ok out).

Lemma starts_running w : written w -> starts w -> running (brought_up w).
Proof.
  intros Hw (w' & out & E). unfold brought_up. rewrite E.
  apply run_command_ok in E as (raw & E & _). split.
  - unfold written. pose proof (up_keeps_files (projectName t) compose_file ["-d"; "--wait"]%string w) as Hf.
    rewrite E in Hf. cbn in Hf. by rewrite Hf.
  - rewrite <- (read_render t t_ok). eapply up_starts; [exact E|exact Hw].
Qed.

Lemma Up_running w w' sp :
  running w \/ (forall w1 f, writeProject t (buildModel t) w = (w1, Ok f) -> starts w1) ->
  Up t w = (w', Ok sp) -> running w' /\ sp = cluster_of.
Proof.
  intros Hw. rewrite Up_eq. destruct (writeProject _ _ w) as [w1 [f|e]] eqn:E; [|done].
  pose proof (writeProject_spec _ _ _ E) as (_ & Hwr & Hp).
  assert (Hb : running (brought_up w1)).
  { destruct Hw as [[_ Hr]|Hs]; [|by eapply starts_running, Hs].
    apply brought_up_running. split; [done|]. congruence. }
  pose proof (waitHealthy_running _ Hb) as Hh. destruct (waitHealthy _ _ _) as [w2 [e|]]; [done|]. cbn in Hh.
  destruct (spec_running w2 Hh) as [H1 H2]. destruct (spec _ _ _ w2) as [w3 sp']; cbn in *.
  intros [= <- <-]. done.
Qed.

Lemma Nodes_running w w' ns : running w -> Nodes t w = (w', Ok ns) -> running w' /\ ns = cs_Nodes cluster_of.
Proof.
  intros Hw. unfold Nodes. rewrite no_bundle. cbn [nonempty String.eqb negb].
  destruct (writeProject _ _ w) as [w1 [f|e]] eqn:E; [|done].
  apply writeProject_spec in E as (-> & Hwr & Hp). cbn [Project buildModel].
  assert (Hw1 : running w1). { split; [done|]. rewrite Hp. apply Hw. }
  destruct (composePS _ _ w1) as [w2 [es|e]] eqn:E; [|done].
  destruct (ps_running _ _ _ Hw1 E) as [Hw2 Hes]. destruct (nodesFromPS_running w2 es Hw2 Hes) as [H1 H2].
  fold (buildModel t). destruct (nodesFromPS _ _ es w2) as [w3 ns']; cbn in *. intros [= <- <-]. by subst.
Qed.

(** ** Liveness of the bring-up *)

Section live.
Variables ready_at lag : Z.
Hypothesis lag_nonneg : 0 <= lag.
Hypothesis inspect_ready : forall s w,
  running w -> s ∈ Services (buildModel t) -> ready_at <= time_of w -> (containerReady (ContainerName s) w).2 = Ok true.
Hypothesis command_lag : forall args w, time_of (exec "docker" args w).1 <= time_of w + lag.
Hypothesis clock_lag : forall w, time_of (now w).1 <= time_of w + lag.
Hypothesis no_cancel : forall w, (wait second w).2 = None.

Lemma containerReady_time name w : time_of w <= time_of (containerReady name w).1 <= time_of w + lag.
Proof.
  unfold containerReady, runDocker. set (args := [_; _; _; _]).
  pose proof (exec_forward "docker" args w). pose proof (command_lag args w).
  pose proof (run_command_world "docker" args w) as E. destruct (run_command _ args w) as [w1 []]; cbn in *; subst w1; lia.
Qed.

Definition inspect_all (l : list serviceModel) (w : W) : W * list (string * result error bool) :=
  for_each (fun s w => let '(w, r) := containerReady (ContainerName s) w in (w, (ContainerName s, r))) l w.

Lemma containerReady_running name w : running w -> running (containerReady name w).1.
Proof. apply same_running, inspect_same. Qed.

Lemma inspect_all_time l w :
  time_of w <= time_of (inspect_all l w).1 <= time_of w + Z.of_nat (length l) * lag /\
  (running w -> l ⊆ Services (buildModel t) -> ready_at <= time_of w -> (inspect_all l w).2 = (fun s => (ContainerName s, Ok true)) <$> l).
Proof.
  revert w. induction l as [|s l IH]; intros w; [cbn; split; [lia|done]|].
  unfold inspect_all in *. cbn [for_each]. pose proof (containerReady_time (ContainerName s) w) as Ht.
  pose proof (inspect_ready s w) as Hr. pose proof (containerReady_running (ContainerName s) w) as Hw.
  destruct (containerReady _ w) as [w1 r]; cbn in Ht, Hr, Hw.
  specialize (IH w1). destruct (for_each _ l w1) as [w2 rs]; cbn [fst snd length] in *. destruct IH as [IH1 IH2].
  split; [lia|]. intros Hrun Hl Ha. rewrite (Hr Hrun (Hl s ltac:(by left)) Ha), fmap_cons. f_equal.
  apply IH2; [by apply Hw| |lia]. intros s' Hs'. apply Hl. by right.
Qed.

Lemma unhealthy_time w :
  time_of w <= time_of (unhealthy (buildModel t) w).1 <= time_of w + Z.of_nat (length (Services (buildModel t))) * lag /\
  (running w -> ready_at <= time_of w -> (unhealthy (buildModel t) w).2 = Ok []).
Proof.
  destruct (inspect_all_time (Services (buildModel t)) w) as [H1 H2]. unfold unhealthy, inspect_all in *.
  destruct (for_each _ _ w) as [w1 rs]; cbn [fst snd] in *. split; [done|]. intros Hr Ha.
  rewrite (H2 Hr ltac:(done) Ha). clear. do 2 f_equal. by induction (Services (buildModel t)).
Qed.

Lemma waitHealthy_live w :
  running w -> ready_at + (Z.of_nat (length (Services (buildModel t))) + 1) * lag <= time_of w + healthTimeout ->
  (waitHealthy (buildModel t) healthTimeout w).2 = None.
Proof.
  intros Hr H. unfold waitHealthy.
  eapply (poll_until_live (unhealthy (buildModel t)) second) with (Inv := running) (ready_at := ready_at)
    (lag := (Z.of_nat (length (Services (buildModel t))) + 1) * lag); auto using unhealthy_running, now_running, wait_running.
  - done.
  - intros w'. apply unhealthy_time.
  - intros w' Hw'. by apply unhealthy_time.
  - intros w'. pose proof (unhealthy_time w') as [? _]. pose proof (clock_lag (unhealthy (buildModel t) w').1). lia.
Qed.

Lemma brought_up_time w : time_of w <= time_of (brought_up w).
Proof.
  unfold brought_up, runDocker.
  generalize (composeArgs (projectName t) compose_file ["up"; "-d"; "--wait"]%string) as a1.
  generalize (composeArgs (projectName t) compose_file ["up"; "-d"]%string) as a2. intros a2 a1.
  pose proof (exec_forward "docker" a1 w). pose proof (run_command_world "docker" a1 w) as E.
  destruct (run_command _ a1 w) as [w1 []]; cbn [fst] in E; subst w1; [done|].
  rewrite run_command_world. pose proof (exec_forward "docker" a2 (exec "docker" a1 w).1). lia.
Qed.
End live.
End topology.
End docker_laws.

(** ** Correctness *)

(** C7: for every topology docker can be asked for, the rendered compose file
    declares exactly the containers of the model, one per requested node, under
    pairwise distinct names and host ports; the file format is read by
    [read_compose]. *)
Theorem compose_file_faithful t :
  topology_ok t ->
  read_compose (render (buildModel t)) = cservice_of <$> Services (buildModel t) /\
  length (Services (buildModel t)) = Z.to_nat (node_count t) /\
  NoDup (ContainerName <$> Services (buildModel t)) /\ NoDup (HostPort <$> Services (buildModel t)).
Proof.
  intros Hok. split; [by apply read_render|]. split; [|by apply services_distinct].
  cbn. by rewrite length_fmap, length_seqZ.
Qed.

(** C5: once docker has accepted the project, or runs it already, a bring-up that
    succeeds resolves the cluster the topology stands for whatever the port
    queries answer, a later [Nodes] that succeeds returns its nodes, and a later
    bring-up that succeeds the same cluster. *)
Theorem compose_up_resolves {W} {Sh : Shell W} {Clk : Clock W} {WC : WorldClock W} {PJ : PsJson} {PL : PsJsonLaws}
    {Dk : Docker W} t (w w' : W) sp :
  topology_ok t -> topo_Bundle t = ""%string ->
  running t w \/ (forall w1 f, writeProject t (buildModel t) w = (w1, Ok f) -> starts t w1) ->
  Up t w = (w', Ok sp) ->
  sp = cluster_of t /\
  (forall w2 ns, Nodes t w' = (w2, Ok ns) -> ns = cs_Nodes sp) /\
  (forall w2 sp2, Up t w' = (w2, Ok sp2) -> sp2 = sp).
Proof.
  intros Hok Hb Hw E. destruct (Up_running t Hok Hb _ _ _ Hw E) as [Hr ->]. split_and!; [done|..].
  - intros w2 ns E2. by apply (Nodes_running t Hok Hb) in E2 as [_ ->].
  - intros w2 sp2 E2. apply (Up_running t Hok Hb _ _ _ (or_introl Hr)) in E2 as [_ ->]. done.
Qed.

(** C6: the bring-up is live: when docker accepts the project, every container
    of it reports ready from some moment on, a command or a look at the clock
    takes at most [lag], nobody cancels, and that moment leaves the six minutes
    one round of inspections, [Up] returns the cluster. *)
Theorem compose_up_live {W} {Sh : Shell W} {Clk : Clock W} {WC : WorldClock W} {PJ : PsJson} {PL : PsJsonLaws}
    {Dk : Docker W} t (w w1 : W) ready_at lag :
  topology_ok t -> topo_Bundle t = ""%string -> 0 <= lag ->
  writeProject t (buildModel t) w = (w1, Ok (compose_file t)) -> starts t w1 ->
  (forall s w, running t w -> s ∈ Services (buildModel t) -> ready_at <= time_of w -> (containerReady (ContainerName s) w).2 = Ok true) ->
  (forall args w, time_of (exec "docker" args w).1 <= time_of w + lag) ->
  (forall w, time_of (now w).1 <= time_of w + lag) ->
  (forall w, (wait second w).2 = None) ->
  ready_at + (node_count t + 1) * lag <= time_of w1 + healthTimeout ->
  exists w', Up t w = (w', Ok (cluster_of t)).
Proof.
  intros Hok Hb Hlag Hw Hst Hready Hcmd Hclk Hwait Htime.
  destruct (writeProject_spec t _ _ _ Hw) as (_ & Hwr & _).
  pose proof (starts_running t Hok _ Hwr Hst) as Hrun.
  assert (Hlen : Z.of_nat (length (Services (buildModel t))) = node_count t).
  { cbn. rewrite length_fmap, length_seqZ. unfold node_count. destruct (_ <=? 0) eqn:?; zbool; lia. }
  assert (Hlive : (waitHealthy (buildModel t) healthTimeout (brought_up t w1)).2 = None).
  { eapply (waitHealthy_live t); eauto. rewrite Hlen. pose proof (brought_up_time t w1). lia. }
  rewrite Up_eq, Hw by done. pose proof (waitHealthy_running t _ Hrun) as Hr2.
  destruct (waitHealthy _ _ _) as [w2 e]; cbn in Hlive, Hr2. subst e.
  destruct (spec_running t Hok w2 Hr2) as [_ Hsp]. destruct (spec _ _ _ w2) as [w3 sp]; cbn in Hsp. subst sp. by eexists.
Qed.

(** ** A docker *)

Record host := { h_files : gmap string string; h_projects : gmap string (list cservice); h_time : Z }.

Definition spend (d : Z) (w : host) : host :=
  {| h_files := h_files w; h_projects := h_projects w; h_time := h_time w + Z.max 0 d |}.

Definition project_services (w : host) (p : string) : list cservice := default [] (h_projects w !! p).

Definition printed_entry (s : cservice) : psEntry :=
  {| pe_Name := str (cs_container s); pe_Service := str (cs_key s); pe_State := "running"; pe_Health := "healthy" |}.

(** The fields in the order docker prints them. *)
Definition show_entry (e : psEntry) : text :=
  txt "{" ++ (json_field "Name" ++ quoted (txt (pe_Name e)) ++ txt "," ++
               json_field "Service" ++ quoted (txt (pe_Service e)) ++ txt "," ++
               json_field "State" ++ quoted (txt (pe_State e)) ++ txt "," ++
               json_field "Health" ++ quoted (txt (pe_Health e))) ++ ["}"%char].

(** A field and its quoted value in front of a text. *)
Fixpoint until_quote (t : text) : text * text :=
  match t with
  | [] => ([], [])
  | c :: t' => if Ascii.eqb c dquote then ([], t') else let '(a, b) := until_quote t' in (c :: a, b)
  end.

Definition take_field (lead name : string) (t : text) : option (string * text) :=
  t ← strip (txt lead ++ json_field name ++ [dquote]) t;
  let '(v, rest) := until_quote t in Some (str v, rest).

Definition read_entry (s : string) : result error psEntry :=
  match (n ← take_field "{" "Name" (txt s);
         v ← take_field "," "Service" n.2;
         st ← take_field "," "State" v.2;
         h ← take_field "," "Health" st.2;
         Some {| pe_Name := n.1; pe_Service := v.1; pe_State := st.1; pe_Health := h.1 |}) with
  | Some e => Ok e
  | None => Err "invalid character"%string
  end.

#[export] Instance host_json : PsJson := {|
  unmarshal_entry := read_entry;
  unmarshal_entries := fun _ => Err "not an array"%string;
  unmarshal_manifest := fun _ => Err "not a manifest"%string
|}.

(** Containers are healthy from second five on. *)
Definition host_inspect (name : string) (w : host) : string * option error :=
  if existsb (fun p => existsb (fun s => bool_decide (cs_container s = txt name)) p.2) (map_to_list (h_projects w)) then
    ((if 5 * second <=? h_time w then "healthy"%string else "starting"%string), None)
  else ("no such object"%string, Some "exit status 1"%string).

Definition host_port (p key port : string) (w : host) : string * option error :=
  match List.find (fun s => bool_decide (cs_key s = txt key)) (project_services w p) with
  | Some s => match cs_port s with
              | Some (h, _) => (str (txt "0.0.0.0:" ++ FormatInt h), None)
              | None => (""%string, Some "no port"%string)
              end
  | None => (""%string, Some "no service"%string)
  end.

Definition host_exec (prog : string) (args : list string) (w : host) : host * (string * option error) :=
  let w := spend (10 * millisecond) w in
  match args with
  | cmd :: rest =>
      if String.eqb cmd "inspect" then
        match rest with [_; _; name] => (w, host_inspect name w) | _ => (w, ("usage"%string, Some "exit status 1"%string)) end
      else match rest with
      | _ :: p :: _ :: file :: sub :: more =>
          if String.eqb sub "up" then
            match h_files w !! file with
            | Some c => ({| h_files := h_files w; h_projects := <[p := read_compose c]> (h_projects w); h_time := h_time w |},
                         ("started"%string, None))
            | None => (w, ("no such file"%string, Some "exit status 14"%string))
            end
          else if String.eqb sub "ps" then
            (w, (str (unlines (show_entry <$> (printed_entry <$> project_services w p))), None))
          else match more with
               | [key; port] => (w, host_port p key port w)
               | _ => (w, ("usage"%string, Some "exit status 1"%string))
               end
      | _ => (w, ("usage"%string, Some "exit status 1"%string))
      end
  | [] => (w, ("usage"%string, Some "exit status 1"%string))
  end.

#[export] Instance host_shell : Shell host := {|
  exec := host_exec;
  sh_MkdirAll := fun _ w => (spend 1 w, None);
  sh_WriteFile := fun path c w =>
    ({| h_files := <[path := c]> (h_files w); h_projects := h_projects w; h_time := h_time w |}, None);
  sh_ReadFile := fun path w => (w, match h_files w !! path with Some c => Ok c | None => Err "no such file"%string end)
|}.

#[export] Instance host_clock : Clock host := {|
  now := fun w => (w, h_time w); wait := fun d w => (spend d w, None); ctx_Err := fun _ => None
|}.

#[export] Instance host_time : WorldClock host.
Proof.
  refine {| time_of := h_time |}.
  - intros w w' t [= <- <-]. lia.
  - intros d w w' [= <-]. cbn. lia.
Defined.

Lemma until_quote_app t r : dquote ∉ t -> until_quote (t ++ dquote :: r) = (t, r).
Proof.
  induction t as [|c t IH]; intros H; [done|]. apply not_elem_of_cons in H as [Hc H]. cbn.
  destruct (Ascii.eqb_spec c dquote) as [->|_]; [done|]. by rewrite IH.
Qed.

Lemma take_field_app lead name v r :
  name_like v -> take_field lead name (txt lead ++ json_field name ++ quoted (txt v) ++ r) = Some (v, r).
Proof.
  intros Hv. unfold take_field, quoted.
  replace (txt lead ++ json_field name ++ (dquote :: txt v ++ [dquote]) ++ r)
    with ((txt lead ++ json_field name ++ [dquote]) ++ txt v ++ dquote :: r) by (rewrite <- !app_assoc; do 2 f_equal; cbn [app]; by rewrite <- app_assoc).
  rewrite strip_app. cbn -[until_quote]. rewrite until_quote_app; [by rewrite str_txt|].
  intros H. unfold name_like in Hv. rewrite Forall_forall in Hv. by specialize (Hv _ H).
Qed.

#[export] Instance host_json_laws : PsJsonLaws.
Proof.
  refine {| entry_json := show_entry |}.
  - intros e. by eexists.
  - intros e (H1 & H2 & H3 & H4). unfold show_entry.
    assert (Hp : forall s, name_like s -> plain_text (quoted (txt s))).
    { intros s Hs. apply quoted_plain. eapply Forall_impl; [exact Hs|]. exact name_char_plain. }
    repeat apply plain_text_app; auto; apply plain_const; reflexivity.
  - intros e (H1 & H2 & H3 & H4). cbn [unmarshal_entry host_json]. unfold read_entry. rewrite txt_str.
    unfold show_entry. rewrite <- !app_assoc.
    rewrite take_field_app by done. cbn [mbind option_bind fst snd].
    do 3 (rewrite take_field_app by done; cbn [mbind option_bind fst snd]). by destruct e.
Defined.

Lemma host_exec_cost prog args w : h_time (host_exec prog args w).1 = h_time w + 10 * millisecond.
Proof. unfold host_exec. repeat case_match; simplify_eq; reflexivity. Qed.

#[export] Instance host_docker : Docker host.
Proof.
  refine {| files := h_files; project := project_services |}.
  - intros prog args w. cbn. rewrite host_exec_cost. unfold millisecond. lia.
  - done.
  - by intros path content w w' [= <-].
  - done.
  - done.
  - intros args w. cbn -[host_inspect]. unfold host_exec. cbn -[host_inspect]. repeat case_match; simplify_eq; done.
  - intros p file cmd args w Hcmd. unfold host_exec. cbn -[host_port unlines decide].
    destruct Hcmd as [-> | ->]; cbn -[host_port unlines]; repeat case_match; simplify_eq; done.
  - intros p file args w. unfold host_exec. cbn -[read_compose]. case_match; done.
  - intros p file args w w' out content. unfold host_exec. cbn -[read_compose]. case_match; [|done].
    intros [= <- _] [= ->]. unfold project_services. cbn. by rewrite lookup_insert_eq.
  - intros p file args w content Hf Hp. unfold host_exec. cbn -[read_compose]. rewrite Hf.
    unfold project_services. cbn. by rewrite lookup_insert_eq.
  - intros p file w w' out. unfold host_exec. cbn -[unlines]. intros [= <- <-].
    exists (printed_entry <$> project_services w p). split_and!; [by left| |].
    + rewrite <- list_fmap_compose. cbn. erewrite list_fmap_ext; [done|]. intros i s _. cbn. by rewrite !txt_str.
    + apply Forall_fmap, Forall_forall. intros s _. cbn. by split; repeat constructor.
  - intros p file s h c w w' out. unfold host_exec. cbn -[host_port]. intros [= _ E] Hnd Hs Hport.
    unfold host_port in E. rewrite txt_str in E.
    change (project_services (spend (10 * millisecond) w) p) with (project_services w p) in E.
    destruct (List.find _ _) as [s'|] eqn:Ef; [|done].
    apply find_some in Ef as [Hin Hk%bool_decide_eq_true]. apply list_elem_of_In in Hin.
    assert (s' = s) as ->.
    { apply list_elem_of_lookup in Hin as [i Hi], Hs as [j Hj].
      assert (i = j) as <-; [|congruence].
      eapply (NoDup_lookup _ _ _ (cs_key s) Hnd); rewrite list_lookup_fmap, ?Hi, ?Hj; cbn; congruence. }
    rewrite Hport in E. injection E as <-. exists (txt "0.0.0.0").
    assert (Ht : TrimSpace (str (txt "0.0.0.0:" ++ FormatInt h)) = str (txt "0.0.0.0:" ++ FormatInt h)).
    { apply TrimSpace_id; rewrite txt_str; [done|]. rewrite rev_app_distr.
      destruct (rev (FormatInt h)) as [|d r] eqn:Er; [done|].
      assert (Hc : d ∈ FormatInt h) by (apply list_elem_of_In, in_rev; rewrite Er; by left).
      pose proof (FormatInt_name h) as Hn. unfold name_like in Hn. rewrite txt_str, Forall_forall in Hn.
      apply Hn in Hc. by destruct d as [[] [] [] [] [] [] [] []]. }
    etransitivity; [exact (f_equal txt Ht)|]. rewrite txt_str. reflexivity.
Defined.

(** A three-node postgresql cluster. *)
Definition pg_topology : Topology := {|
  topo_Name := "pg"; topo_Backend := "compose"; topo_Target := "postgresql"; topo_Image := ""; topo_Version := "16";
  topo_Nodes := 3; topo_ReplicationFactor := 0; topo_Resources := {| rs_CPU := "2"; rs_Memory := "1g" |};
  topo_Bundle := ""; topo_Extra := ∅
|}.

Definition host_zero : host := {| h_files := ∅; h_projects := ∅; h_time := 0 |}.

Lemma pg_topology_ok : topology_ok pg_topology.
Proof. split_and!; try (apply plain_const; reflexivity); [by repeat constructor|done]. Qed.

Lemma host_starts t w : written t w -> starts t w.
Proof.
  intros Hw. unfold starts, runDocker, run_command. cbn -[read_compose compose_file projectName TrimSpace].
  rewrite (Hw : h_files w !! compose_file t = Some _). by do 2 eexists.
Qed.

Lemma compose_file_faithful_witness :
  length (read_compose (render (buildModel pg_topology))) = 3%nat /\
  ContainerName <$> Services (buildModel pg_topology) = ["pg-0"; "pg-1"; "pg-2"]%string.
Proof.
  split; [|reflexivity]. rewrite (proj1 (compose_file_faithful pg_topology pg_topology_ok)). reflexivity.
Defined.

Lemma compose_up_resolves_witness :
  node_Client <$> cs_Nodes (cluster_of pg_topology) = ["127.0.0.1:15432"; "127.0.0.1:15433"; "127.0.0.1:15434"]%string /\
  exists w' sp, Up pg_topology host_zero = (w', Ok sp) /\ sp = cluster_of pg_topology.
Proof.
  split; [vm_compute; reflexivity|].
  destruct (Up pg_topology host_zero) as [w' [sp|e]] eqn:E; [|vm_compute in E; discriminate E].
  exists w', sp. split; [reflexivity|].
  refine (proj1 (compose_up_resolves pg_topology host_zero w' sp pg_topology_ok eq_refl _ E)).
  right. intros w1 f Hw. apply host_starts. by apply (writeProject_spec _ _ _ _ Hw).
Defined.

Lemma compose_up_live_witness : exists w', Up pg_topology host_zero = (w', Ok (cluster_of pg_topology)).
Proof.
  destruct (writeProject pg_topology (buildModel pg_topology) host_zero) as [w1 r] eqn:E.
  assert (Hr : r = Ok (compose_file pg_topology)) by (vm_compute in E; by simplify_eq). subst r.
  apply (compose_up_live pg_topology host_zero w1 (5 * second) (10 * millisecond) pg_topology_ok eq_refl); try done.
  - apply host_starts. by apply (writeProject_spec _ _ _ _ E).
  - intros s w [_ Hr] Hs Hw. unfold containerReady, runDocker, run_command. cbn -[TrimSpace host_inspect].
    assert (Hi : host_inspect (ContainerName s) (spend (10 * millisecond) w) = ("healthy"%string, None)).
    { unfold host_inspect. cbn [h_projects spend]. rewrite (proj2 (existsb_exists _ _)).
      - destruct (5 * second <=? h_time (spend (10 * millisecond) w)) eqn:Et; [done|]. zbool. cbn in Et, Hw. lia.
      - unfold project, host_docker, project_services in Hr.
        destruct (h_projects w !! projectName pg_topology) as [l|] eqn:El; cbn in Hr; [|by vm_compute in Hr].
        exists (projectName pg_topology, l). split; [by apply list_elem_of_In, elem_of_map_to_list|].
        apply existsb_exists. exists (cservice_of s). split; [|by apply bool_decide_eq_true].
        cbn. rewrite Hr. by apply list_elem_of_In, list_elem_of_fmap_2. }
    by rewrite Hi.
  - intros args w. cbn. by rewrite host_exec_cost.
  - intros w. cbn. unfold millisecond. lia.
  - vm_compute in E. simplify_eq. vm_compute. discriminate.
Defined.
