(* ===== verification/K8s.v ===== *)
(** * K8s: clusters on kubernetes (core/provision/k8s)

    The manifests rendered for a topology, their application and the nodes they
    resolve to.  [Kubectl] states what the kubectl command promises; the
    manifest is related to what it creates by a reader of the StatefulSet
    document ([read_manifest]). *)

From Stdlib Require Import Ascii String.
From S2P Require Import Prelude Domain Strconv Driver Expect Targets Provision.

Local Open Scope Z_scope.

(** ** render.go *)

Record kv := { K : string; V : string }.

Record probe := { Exec : list string; TCPPort : Z; InitialDelay : Z; Period : Z }.

Record manifestModel := {
  Name : string;
  Namespace : string;
  Container : string;
  Image : string;
  Replicas : Z;
  PortName : string;
  ContainerPort : Z;
  Env : list kv;
  Readiness : option probe;
  CPULimit : string;
  MemLimit : string;
  Roles : list NodeRole
}.

(** ** hooks.go *)

Record targetHook := {
  known : bool;
  defaultImage : string;
  portName : string;
  containerPort : Z;
  env : list kv;
  readiness : option probe
}.

Definition genericHook : targetHook := {|
  known := false; defaultImage := ""; portName := "tcp"; containerPort := 8080; env := [];
  readiness := Some {| Exec := []; TCPPort := 8080; InitialDelay := 5; Period := 5 |}
|}.

Definition hooks : gmap string targetHook := list_to_map [
  ("postgresql"%string, {|
    known := true; defaultImage := "postgres"; portName := "postgres"; containerPort := 5432;
    env := [ {| K := "POSTGRES_PASSWORD"; V := "proofload" |};
             {| K := "POSTGRES_USER"; V := "proofload" |};
             {| K := "POSTGRES_DB"; V := "proofload" |} ];
    readiness := Some {| Exec := ["pg_isready"; "-U"; "proofload"]%string; TCPPort := 0; InitialDelay := 10; Period := 5 |} |});
  ("redis"%string, {|
    known := true; defaultImage := "redis"; portName := "redis"; containerPort := 6379; env := [];
    readiness := Some {| Exec := ["redis-cli"; "ping"]%string; TCPPort := 0; InitialDelay := 5; Period := 5 |} |});
  ("cassandra"%string, {|
    known := true; defaultImage := "cassandra"; portName := "cql"; containerPort := 9042; env := [];
    readiness := Some {| Exec := ["cqlsh"; "-e"; "describe cluster"]%string; TCPPort := 0; InitialDelay := 30; Period := 10 |} |});
  ("kafka"%string, {|
    known := true; defaultImage := "kafka"; portName := "kafka"; containerPort := 9092; env := [];
    readiness := Some {| Exec := []; TCPPort := 9092; InitialDelay := 15; Period := 10 |} |})
].

Definition hookFor (target : string) : targetHook := default genericHook (hooks !! target).

Definition namespaceFor (t : Topology) : string := "proofload-" +:+ topo_Name t.

Definition resolveImage (t : Topology) (hook : targetHook) : string :=
  let img := topo_Image t in
  let img := if String.eqb img "" then defaultImage hook else img in
  let img := if String.eqb img "" then topo_Target t else img in
  if negb (String.eqb (topo_Version t) "") then img +:+ ":" +:+ topo_Version t else img.

Definition roleFor (hook : targetHook) (i : Z) : NodeRole :=
  if negb (known hook) then RoleGeneric else if i =? 0 then RolePrimary else RoleReplica.

(** [sort.Slice] by key; the keys of a hook are distinct. *)
Definition sortedEnv (env : list kv) : list kv :=
  sort_by (le_of_less (fun a b => String.ltb (K a) (K b))) env.

Definition node_count (t : Topology) : Z := if topo_Nodes t <=? 0 then 1 else topo_Nodes t.

Definition buildModel (t : Topology) : manifestModel :=
  let hook := hookFor (topo_Target t) in
  {| Name := topo_Name t;
     Namespace := namespaceFor t;
     Container := topo_Name t;
     Image := resolveImage t hook;
     Replicas := node_count t;
     PortName := portName hook;
     ContainerPort := containerPort hook;
     Env := sortedEnv (env hook);
     Readiness := readiness hook;
     CPULimit := rs_CPU (topo_Resources t);
     MemLimit := rs_Memory (topo_Resources t);
     Roles := roleFor hook <$> seqZ 0 (node_count t) |}.

Definition podName (m : manifestModel) (i : Z) : string := Name m +:+ "-" +:+ str (FormatInt i).

Definition resolveClient (m : manifestModel) (pod : string) : string :=
  pod +:+ "." +:+ Name m +:+ "." +:+ Namespace m +:+ ".svc.cluster.local:" +:+ str (FormatInt (ContainerPort m)).

Definition controlFor (m : manifestModel) (pod : string) : ControlEndpoint :=
  {| ce_Method := ControlK8s; ce_Ref := pod; ce_Namespace := Namespace m; ce_Extra := ∅ |}.

Definition roleAt (m : manifestModel) (ordinal : Z) : NodeRole :=
  if (0 <=? ordinal) && (ordinal <? Z.of_nat (length (Roles m))) then default RoleGeneric (Roles m !! Z.to_nat ordinal)
  else RoleGeneric.

Definition nodes (m : manifestModel) : list Node :=
  (fun i => let pod := podName m i in
            {| node_ID := pod; node_Role := roleAt m i; node_Client := resolveClient m pod; node_Control := controlFor m pod |})
  <$> seqZ 0 (Replicas m).

(** ** template.go *)

Definition namespace_lines (m : manifestModel) : list text := [
  txt "apiVersion: v1";
  txt "kind: Namespace";
  txt "metadata:";
  txt "  name: " ++ txt (Namespace m);
  txt "  labels:";
  txt "    app.kubernetes.io/managed-by: proofload"
].

Definition service_lines (m : manifestModel) : list text := [
  txt "apiVersion: v1";
  txt "kind: Service";
  txt "metadata:";
  txt "  name: " ++ txt (Name m);
  txt "  namespace: " ++ txt (Namespace m);
  txt "  labels:";
  txt "    app: " ++ txt (Name m);
  txt "spec:";
  txt "  clusterIP: None";
  txt "  selector:";
  txt "    app: " ++ txt (Name m);
  txt "  ports:";
  txt "    - name: " ++ txt (PortName m);
  txt "      port: " ++ FormatInt (ContainerPort m);
  txt "      targetPort: " ++ FormatInt (ContainerPort m)
].

Definition set_head (m : manifestModel) : list text := [
  txt "apiVersion: apps/v1";
  txt "kind: StatefulSet";
  txt "metadata:";
  txt "  name: " ++ txt (Name m);
  txt "  namespace: " ++ txt (Namespace m);
  txt "  labels:";
  txt "    app: " ++ txt (Name m);
  txt "spec:";
  txt "  serviceName: " ++ txt (Name m);
  txt "  replicas: " ++ FormatInt (Replicas m);
  txt "  selector:";
  txt "    matchLabels:";
  txt "      app: " ++ txt (Name m);
  txt "  template:";
  txt "    metadata:";
  txt "      labels:";
  txt "        app: " ++ txt (Name m);
  txt "    spec:";
  txt "      containers:";
  txt "        - name: " ++ txt (Container m);
  txt "          image: " ++ txt (Image m);
  txt "          ports:";
  txt "            - name: " ++ txt (PortName m);
  txt "              containerPort: " ++ FormatInt (ContainerPort m)
].

Definition env_lines (l : list kv) : list text :=
  match l with
  | [] => []
  | _ => txt "          env:" ::
         mjoin ((fun e => [txt "            - name: " ++ txt (K e); txt "              value: " ++ quoted (txt (V e))]) <$> l)
  end.

Definition probe_lines (p : option probe) : list text :=
  match p with
  | None => []
  | Some p =>
      [txt "          readinessProbe:"] ++
      (match Exec p with
       | [] => [txt "            tcpSocket:"; txt "              port: " ++ FormatInt (TCPPort p)]
       | cmd => [txt "            exec:"; txt "              command: [" ++ join_text (txt ", ") ((fun e => quoted (txt e)) <$> cmd) ++ txt "]"]
       end) ++
      [txt "            initialDelaySeconds: " ++ FormatInt (InitialDelay p);
       txt "            periodSeconds: " ++ FormatInt (Period p)]
  end.

Definition limit_lines (m : manifestModel) : list text :=
  if nonempty (CPULimit m) || nonempty (MemLimit m) then
    [txt "          resources:"; txt "            limits:"] ++
    (if nonempty (CPULimit m) then [txt "              cpu: " ++ quoted (txt (CPULimit m))] else []) ++
    (if nonempty (MemLimit m) then [txt "              memory: " ++ txt (MemLimit m)] else [])
  else [].

Definition manifest_lines (m : manifestModel) : list text :=
  namespace_lines m ++ [txt "---"] ++ service_lines m ++ [txt "---"] ++
  set_head m ++ env_lines (Env m) ++ probe_lines (Readiness m) ++ limit_lines m.

(** Executing the template cannot fail on this model. *)
Definition render (m : manifestModel) : string := str (unlines (manifest_lines m)).

(** ** kubectl.go *)

Definition runKubectl {W} {Sh : Shell W} (args : list string) (w : W) : W * result error string :=
  run_command "kubectl" args w.

(** A pod of the list; only its name and phase are decoded. *)
Record podItem := { pod_Name : string; pod_Phase : string }.

(** [json.Unmarshal] of a pod list. *)
Class PodJson := { unmarshal_pods : string -> result error (list podItem) }.

Definition podOrdinal (name : string) : Z :=
  match split_last "-"%char (txt name) with
  | None => -1
  | Some (_, []) => -1
  | Some (_, n) => match ParseInt n with Some n => n | None => -1 end
  end.

Section kubectl.
Context {W : Type} {Sh : Shell W} {PJ : PodJson}.

Definition rolloutTimeout : Z := 3 * minute.

Definition rolloutStatus (m : manifestModel) (timeout : Z) (w : W) : W * option error :=
  match runKubectl ["rollout"; "status"; "statefulset/" +:+ Name m; "-n"; Namespace m;
                    "--timeout=" +:+ str (duration_text timeout)]%string w with
  | (w, Ok _) => (w, None)
  | (w, Err e) => (w, Some ("rollout status: " +:+ e))
  end.

Definition parsePods (raw : string) : result error (list podItem) :=
  let raw := TrimSpace raw in
  if String.eqb raw "" then Ok [] else unmarshal_pods raw.

(** ** k8s.go *)

Definition workDir (t : Topology) : string := Join [".proofload"; "k8s"; topo_Name t]%string.

Definition writeManifest (t : Topology) (m : manifestModel) (w : W) : W * result error string :=
  let dir := workDir t in
  match sh_MkdirAll dir w with
  | (w, Some e) => (w, Err ("create work dir " +:+ dir +:+ ": " +:+ e))
  | (w, None) =>
      let file := Join [dir; "manifest.yaml"]%string in
      match sh_WriteFile file (render m) w with
      | (w, Some e) => (w, Err ("write " +:+ file +:+ ": " +:+ e))
      | (w, None) => (w, Ok file)
      end
  end.

Definition spec (t : Topology) (m : manifestModel) : ClusterSpec := {|
  cs_Nodes := nodes m;
  cs_ReplicationFactor := if topo_ReplicationFactor t =? 0 then Replicas m else topo_ReplicationFactor t;
  cs_Consistency := []
|}.

Definition Up (t : Topology) (w : W) : W * result error ClusterSpec :=
  let m := buildModel t in
  match writeManifest t m w with
  | (w, Err e) => (w, Err e)
  | (w, Ok file) =>
      match runKubectl ["apply"; "-f"; file]%string w with
      | (w, Err e) => (w, Err e)
      | (w, Ok _) =>
          match rolloutStatus m rolloutTimeout w with
          | (w, Some e) => (w, Err e)
          | (w, None) => (w, Ok (spec t m))
          end
      end
  end.

Definition Down (t : Topology) (w : W) : W * option error :=
  match runKubectl ["delete"; "namespace"; namespaceFor t; "--ignore-not-found"]%string w with
  | (w, Ok _) => (w, None)
  | (w, Err e) => (w, Some e)
  end.

Definition nodesFromPods (m : manifestModel) (items : list podItem) : list Node :=
  (fun it => let pod := pod_Name it in
             {| node_ID := pod; node_Role := roleAt m (podOrdinal pod); node_Client := resolveClient m pod;
                node_Control := controlFor m pod |}) <$> items.

Definition Nodes (t : Topology) (w : W) : W * result error (list Node) :=
  let m := buildModel t in
  match runKubectl ["get"; "pods"; "-n"; Namespace m; "-l"; "app=" +:+ Name m; "-o"; "json"]%string w with
  | (w, Err e) => (w, Err e)
  | (w, Ok raw) =>
      match parsePods raw with
      | Err e => (w, Err ("parse pods: " +:+ e))
      | Ok items => (w, Ok (nodesFromPods m items))
      end
  end.

Definition provisioner : Provisioner W := {|
  prov_Backend := BackendKubernetes; prov_Up := Up; prov_Down := Down; prov_Nodes := Nodes
|}.
End kubectl.

(** ** The manifest format, as far as it declares StatefulSets *)

Record sset := { ss_namespace : text; ss_name : text; ss_replicas : Z }.

Definition separator : text := txt "---".

Fixpoint split_docs (lines cur : list text) : list (list text) :=
  match lines with
  | [] => [rev cur]
  | l :: lines => if decide (l = separator) then rev cur :: split_docs lines [] else split_docs lines (l :: cur)
  end.

(** The value of the first line that starts with a key at its indentation. *)
Fixpoint field (key : text) (doc : list text) : option text :=
  match doc with
  | [] => None
  | l :: doc => match strip key l with Some v => Some v | None => field key doc end
  end.

Definition read_set (doc : list text) : option sset :=
  kind ← field (txt "kind: ") doc;
  if decide (kind = txt "StatefulSet") then
    name ← field (txt "  name: ") doc;
    ns ← field (txt "  namespace: ") doc;
    n ← field (txt "  replicas: ") doc;
    n ← ParseInt n;
    Some {| ss_namespace := ns; ss_name := name; ss_replicas := n |}
  else None.

Definition read_manifest (file : string) : list sset :=
  omap read_set (split_docs (split_lines (txt file) []) []).

Definition sset_of (m : manifestModel) : sset :=
  {| ss_namespace := txt (Namespace m); ss_name := txt (Name m); ss_replicas := Replicas m |}.

Lemma split_docs_cons doc cur rest :
  Forall (fun l => l <> separator) doc -> split_docs (doc ++ separator :: rest) cur = (rev cur ++ doc) :: split_docs rest [].
Proof.
  intros H. revert cur. induction H as [|l doc Hl _ IH]; intros cur; cbn.
  - by rewrite app_nil_r.
  - rewrite decide_False by done. rewrite IH. cbn. by rewrite <- app_assoc.
Qed.

Lemma split_docs_last doc cur : Forall (fun l => l <> separator) doc -> split_docs doc cur = [rev cur ++ doc].
Proof.
  intros H. revert cur. induction H as [|l doc Hl _ IH]; intros cur; cbn.
  - by rewrite app_nil_r.
  - rewrite decide_False by done. rewrite IH. cbn. by rewrite <- app_assoc.
Qed.

(** A line whose first character is not a dash is no separator. *)
Ltac not_separator := repeat first [apply Forall_nil_2 | apply Forall_cons_2]; cbn; discriminate.

Lemma set_tail_not_separator m :
  Forall (fun l => l <> separator) (env_lines (Env m) ++ probe_lines (Readiness m) ++ limit_lines m).
Proof.
  rewrite !Forall_app. split_and!.
  - destruct (Env m) as [|e l]; [constructor|]. unfold env_lines. constructor; [discriminate|].
    induction (e :: l) as [|e' l' IH]; [constructor|]. do 2 (constructor; [discriminate|]). exact IH.
  - destruct (Readiness m) as [p|]; [|constructor]. unfold probe_lines.
    destruct (Exec p); not_separator.
  - unfold limit_lines. destruct (nonempty (CPULimit m)), (nonempty (MemLimit m)); not_separator.
Qed.

(** The characters of a resource name; a topology kubectl can be asked for. *)
Definition topology_ok (t : Topology) : Prop :=
  name_like (topo_Name t) /\
  plain_text (txt (topo_Target t)) /\ plain_text (txt (topo_Image t)) /\ plain_text (txt (topo_Version t)) /\
  plain_text (txt (rs_CPU (topo_Resources t))) /\ plain_text (txt (rs_Memory (topo_Resources t))) /\
  topo_Nodes t <= 2^32.

Definition hook_ok (h : targetHook) : bool :=
  plain_string (defaultImage h) && plain_string (portName h) &&
  forallb (fun e => plain_string (K e) && plain_string (V e)) (env h) &&
  match readiness h with None => true | Some p => forallb plain_string (Exec p) end.

Lemma k8s_hookFor_ok target : hook_ok (hookFor target) = true.
Proof.
  assert (H : map_Forall (fun _ h => hook_ok h = true) hooks) by (apply (bool_decide_unpack _); vm_compute; exact I).
  unfold hookFor. destruct (hooks !! target) as [h|] eqn:E; [exact (H _ _ E)|done].
Qed.

Section topology.
Variable t : Topology.
Hypothesis t_ok : topology_ok t.
Let m := buildModel t.

Lemma node_count_range : 1 <= node_count t <= 2^32.
Proof. destruct t_ok as (_ & _ & _ & _ & _ & _ & Hn). unfold node_count. destruct (_ <=? 0) eqn:?; zbool; lia. Qed.

Lemma name_plain s : name_like s -> plain_text (txt s).
Proof. intros H. eapply Forall_impl; [exact H|]. exact name_char_plain. Qed.

Lemma k8s_resolveImage_plain : plain_text (txt (resolveImage t (hookFor (topo_Target t)))).
Proof.
  destruct t_ok as (_ & Ht & Hi & Hv & _). pose proof (k8s_hookFor_ok (topo_Target t)) as H. unfold hook_ok in H.
  repeat match goal with H : (_ && _)%bool = true |- _ => apply andb_prop in H as [H ?] end.
  set (hook := hookFor _) in *. unfold resolveImage.
  destruct (String.eqb (topo_Image t) ""), (String.eqb (defaultImage hook) ""), (String.eqb (topo_Image t) "");
    destruct (negb _); rewrite ?txt_app; plain_parts.
Qed.

Lemma manifest_lines_plain : Forall plain_text (manifest_lines m).
Proof.
  pose proof k8s_resolveImage_plain as Himg. pose proof (k8s_hookFor_ok (topo_Target t)) as H. unfold hook_ok in H.
  repeat match goal with H : (_ && _)%bool = true |- _ => apply andb_prop in H as [H ?] end.
  destruct t_ok as (Hn%name_plain & _ & _ & _ & Hcpu & Hmem & _).
  assert (Hns : plain_text (txt (namespaceFor t))) by (unfold namespaceFor; rewrite txt_app; plain_parts).
  assert (Hport : plain_text (txt (portName (hookFor (topo_Target t))))) by eauto with plain_db.
  unfold manifest_lines. rewrite !Forall_app. split_and!.
  - unfold namespace_lines, m, buildModel. cbn [Namespace]. plain_lines.
  - plain_lines.
  - unfold service_lines, m, buildModel. cbn [Namespace Name PortName ContainerPort]. plain_lines.
  - plain_lines.
  - unfold set_head, m, buildModel. cbn [Namespace Name PortName ContainerPort Replicas Container Image]. plain_lines.
  - unfold m, buildModel. cbn [Env].
    assert (He : Forall (fun e => plain_text (txt (K e)) /\ plain_text (txt (V e))) (sortedEnv (env (hookFor (topo_Target t))))).
    { unfold sortedEnv. rewrite sort_by_perm. eapply forallb_Forall; [|eassumption].
      intros e [??]%andb_prop. eauto with plain_db. }
    destruct (sortedEnv _) as [|e l]; [constructor|]. unfold env_lines. constructor; [by apply plain_const|].
    induction He as [|e' l' [Hk Hv] _ IH]; [constructor|]. do 2 (constructor; [plain_parts|]). exact IH.
  - unfold m, buildModel. cbn [Readiness]. destruct (readiness _) as [p|]; [|constructor].
    assert (Hx : Forall (fun e => plain_text (txt e)) (Exec p)) by (eapply forallb_Forall; [|eassumption]; eauto with plain_db).
    unfold probe_lines. destruct (Exec p) as [|e l] eqn:E; [plain_lines|]. rewrite <- E in *. cbn [app]. plain_lines.
    apply join_text_plain; [by apply plain_const|]. apply Forall_fmap. eapply Forall_impl; [exact Hx|].
    intros x Hx'. by apply quoted_plain.
  - unfold limit_lines, m, buildModel. cbn [CPULimit MemLimit].
    destruct (nonempty (rs_CPU _)), (nonempty (rs_Memory _)); cbn [app]; plain_lines.
Qed.

(** The manifest declares one StatefulSet, the model's. *)
Lemma k8s_read_render : read_manifest (render m) = [sset_of m].
Proof.
  unfold read_manifest, render. rewrite txt_str, split_unlines by apply manifest_lines_plain.
  unfold manifest_lines. change [txt "---"] with [separator]. cbn [app].
  rewrite split_docs_cons by (unfold namespace_lines; not_separator).
  rewrite split_docs_cons by (unfold service_lines; not_separator).
  rewrite split_docs_last.
  2: { apply Forall_app_2; [unfold set_head; not_separator|apply set_tail_not_separator]. }
  cbn -[ParseInt FormatInt]. rewrite ParseInt_FormatInt; [done|].
  pose proof node_count_range. unfold is_i64. lia.
Qed.
End topology.

(** ** What kubectl promises *)

(** The pods a StatefulSet of [n] replicas runs. *)
Definition set_pods (name : string) (n : Z) : list string :=
  (fun i => name +:+ "-" +:+ str (FormatInt i)) <$> seqZ 0 n.

(** Applying a manifest declares its StatefulSets in order. *)
Definition declare (sets : gmap (text * text) Z) (l : list sset) : gmap (text * text) Z :=
  foldl (fun acc s => <[(ss_namespace s, ss_name s) := ss_replicas s]> acc) sets l.

(** [kc_sets] are the replicas of the StatefulSets declared, by namespace and
    name, [kc_pods] the pods of a namespace with a label [app].  A finished
    rollout runs exactly the pods named after the ordinals; a pod list has them
    in some order. *)
Class Kubectl (W : Type) {Sh : Shell W} {PJ : PodJson} := {
  kc_files : W -> gmap string string;
  kc_sets : W -> gmap (text * text) Z;
  kc_pods : W -> string -> string -> list string;
  kc_write path content w w' : sh_WriteFile path content w = (w', None) -> kc_files w' !! path = Some content;
  kc_apply file w w' out content :
    exec "kubectl" ["apply"; "-f"; file]%string w = (w', (out, None)) ->
    kc_files w !! file = Some content -> kc_sets w' = declare (kc_sets w) (read_manifest content);
  kc_rollout ns name timeout n w w' out :
    exec "kubectl" ["rollout"; "status"; "statefulset/" +:+ name; "-n"; ns; timeout]%string w = (w', (out, None)) ->
    kc_sets w !! (txt ns, txt name) = Some n -> kc_pods w' ns name ≡ₚ set_pods name n;
  kc_get ns name w w' out :
    exec "kubectl" ["get"; "pods"; "-n"; ns; "-l"; "app=" +:+ name; "-o"; "json"]%string w = (w', (out, None)) ->
    Forall name_like (kc_pods w ns name) ->
    exists items, TrimSpace out <> ""%string /\ unmarshal_pods (TrimSpace out) = Ok items /\
      pod_Name <$> items ≡ₚ kc_pods w ns name
}.

(** ** Pod names and ordinals *)

(** The ordinal of a pod is read back from its name, whatever dashes the set's
    name has. *)
Lemma podOrdinal_podName m i : 0 <= i < 2^63 -> podOrdinal (podName m i) = i.
Proof.
  intros Hi. unfold podOrdinal, podName. rewrite !txt_app, txt_str.
  assert (Hdash : "-"%char ∉ FormatInt i).
  { unfold FormatInt. destruct (i <? 0) eqn:E; zbool; [lia|]. intros Hin.
    pose proof (FormatUint_digits i ltac:(lia)) as Hd. rewrite Forall_forall in Hd. by specialize (Hd _ Hin). }
  rewrite (proj2 (split_last_spec "-"%char _ (txt (Name m)) (FormatInt i))) by done.
  pose proof (ParseInt_FormatInt i ltac:(unfold is_i64; lia)) as Hp.
  destruct (FormatInt i); [done|]. by rewrite Hp.
Qed.

Lemma podName_inj m i j : is_i64 i -> is_i64 j -> podName m i = podName m j -> i = j.
Proof.
  intros Hi Hj H. apply (f_equal txt) in H. unfold podName in H. rewrite !txt_app, !txt_str in H.
  do 2 apply app_inv_head in H. apply (f_equal ParseInt) in H. rewrite !ParseInt_FormatInt in H by done. congruence.
Qed.

Section nodes.
Context {W : Type} {Sh : Shell W} {PJ : PodJson} {Kc : Kubectl W}.
Variable t : Topology.
Hypothesis t_ok : topology_ok t.
Let m := buildModel t.

(** The pods of the finished rollout are the model's nodes, in any order. *)
Lemma nodesFromPods_perm items :
  pod_Name <$> items ≡ₚ set_pods (Name m) (Replicas m) -> nodesFromPods m items ≡ₚ nodes m.
Proof.
  intros Hp. unfold nodesFromPods.
  set (f := fun pod => {| node_ID := pod; node_Role := roleAt m (podOrdinal pod);
                          node_Client := resolveClient m pod; node_Control := controlFor m pod |}).
  change (f ∘ pod_Name <$> items ≡ₚ nodes m). rewrite list_fmap_compose, Hp. unfold set_pods, nodes.
  rewrite <- list_fmap_compose. erewrite list_fmap_ext; [done|].
  intros k i Hi. apply list_elem_of_lookup_2, elem_of_seqZ in Hi. pose proof (node_count_range t t_ok).
  unfold m in Hi. cbn [Replicas buildModel] in Hi. unfold compose. subst f. cbn beta zeta.
  change (Name m +:+ "-" +:+ str (FormatInt i)) with (podName m i). rewrite podOrdinal_podName by lia. done.
Qed.

Lemma Up_pods w w' sp : Up t w = (w', Ok sp) ->
  sp = spec t m /\ kc_pods w' (Namespace m) (Name m) ≡ₚ set_pods (Name m) (Replicas m).
Proof.
  unfold Up. fold m. unfold writeManifest.
  destruct (sh_MkdirAll _ w) as [w1 [e|]]; [done|].
  destruct (sh_WriteFile _ _ w1) as [w2 [e|]] eqn:Ew; [done|]. apply kc_write in Ew. unfold runKubectl.
  destruct (run_command _ _ w2) as [w3 [out|e]] eqn:Ea; [|done]. apply run_command_ok in Ea as (raw & Ea & _).
  pose proof (kc_apply _ _ _ _ _ Ea Ew) as Hsets. rewrite (k8s_read_render t t_ok : read_manifest (render m) = _) in Hsets.
  unfold rolloutStatus, runKubectl. destruct (run_command _ _ w3) as [w4 [out'|e]] eqn:Er; [|done].
  apply run_command_ok in Er as (raw' & Er & _). intros [= <- <-]. split; [done|].
  eapply kc_rollout; [exact Er|]. rewrite Hsets. apply lookup_insert_eq.
Qed.
End nodes.

(** ** Correctness *)

(** C8: after a successful bring-up the live pods, in whatever order kubectl lists
    them, resolve to the nodes [Up] returned: same names, roles by ordinal,
    endpoints and control handles; the names are pairwise distinct and there is
    one node per requested replica. *)
Theorem k8s_nodes_agree {W} {Sh : Shell W} {PJ : PodJson} {Kc : Kubectl W} t (w w' w'' : W) sp ns :
  topology_ok t -> Up t w = (w', Ok sp) -> Nodes t w' = (w'', Ok ns) ->
  ns ≡ₚ cs_Nodes sp /\ NoDup (node_ID <$> cs_Nodes sp) /\ Z.of_nat (length (cs_Nodes sp)) = node_count t /\
  exists n rest, cs_Nodes sp = n :: rest /\
    node_Role n = (if known (hookFor (topo_Target t)) then RolePrimary else RoleGeneric) /\
    Forall (fun n => node_Role n = (if known (hookFor (topo_Target t)) then RoleReplica else RoleGeneric)) rest.
Proof.
  intros Hok Hup Hn. destruct (Up_pods t Hok _ _ _ Hup) as [-> Hpods].
  pose proof (node_count_range t Hok) as Hc. set (m := buildModel t) in *. split_and!.
  - unfold Nodes in Hn. fold m in Hn. unfold runKubectl in Hn.
    destruct (run_command _ _ w') as [w2 [out|e]] eqn:E; [|done]. apply run_command_ok in E as (raw & E & ->).
    destruct (kc_get _ _ _ _ _ E) as (items & Hne & Hu & Hp).
    { rewrite Hpods. unfold set_pods. apply Forall_fmap, Forall_forall. intros i _. cbn. unfold name_like.
      rewrite !txt_app. destruct Hok as (Hname & _). pose proof (FormatInt_name i) as Hi. unfold name_like in Hi.
      rewrite !Forall_app. split_and!; [done|by repeat constructor|done]. }
    unfold parsePods in Hn. rewrite TrimSpace_idem in Hn.
    destruct (String.eqb_spec (TrimSpace raw) ""); [done|]. rewrite Hu in Hn. simplify_eq.
    apply nodesFromPods_perm; [done|]. by rewrite Hp.
  - cbn. unfold nodes. rewrite <- list_fmap_compose. apply NoDup_fmap_2_strong; [|apply NoDup_seqZ].
    change (Replicas m) with (node_count t).
    intros i j Hi%elem_of_seqZ Hj%elem_of_seqZ. apply podName_inj; unfold is_i64; lia.
  - cbn. unfold nodes. rewrite length_fmap, length_seqZ. change (Replicas m) with (node_count t). lia.
  - assert (Hrole : forall i, 0 <= i < node_count t -> roleAt m i = roleFor (hookFor (topo_Target t)) i).
    { intros i Hi. unfold roleAt, m. cbn [Roles buildModel]. rewrite length_fmap, length_seqZ.
      assert ((0 <=? i) && (i <? Z.of_nat (Z.to_nat (node_count t))) = true) as ->.
      { apply andb_true_iff. split; [apply Z.leb_le|apply Z.ltb_lt]; lia. }
      rewrite list_lookup_fmap, (proj2 (lookup_seqZ _ _ _ i)) by lia. done. }
    cbn. unfold nodes. change (Replicas m) with (node_count t). rewrite seqZ_cons by lia.
    rewrite fmap_cons. do 2 eexists. split; [reflexivity|]. cbn [node_Role]. split.
    + rewrite Hrole by lia. unfold roleFor. by destruct (known _).
    + apply Forall_fmap, Forall_forall. intros i Hi%elem_of_seqZ. cbn [node_Role compose]. rewrite Hrole by lia.
      unfold roleFor. destruct (known _); [|done]. cbn. destruct (i =? 0) eqn:?; zbool; [lia|done].
Qed.

(** ** A kubectl *)

Record cluster := { c_files : gmap string string; c_sets : gmap (text * text) Z }.

Definition cluster_pods (w : cluster) (ns name : string) : list string :=
  match c_sets w !! (txt ns, txt name) with Some n => set_pods name n | None => [] end.

(** A pod list in a format of its own: the names between brackets, a comma after
    each. *)
Definition comma : ascii := ","%char.

Definition show_pods (names : list string) : string :=
  str ("["%char :: mjoin ((fun n => txt n ++ [comma]) <$> names) ++ ["]"%char]).

#[export] Instance cluster_json : PodJson := {|
  unmarshal_pods s :=
    match txt s with
    | _ :: t => Ok ((fun n => {| pod_Name := str n; pod_Phase := "Running" |}) <$> removelast (split_on comma (removelast t) []))
    | [] => Err "unexpected end of JSON input"%string
    end
|}.

Definition cluster_exec (prog : string) (args : list string) (w : cluster) : cluster * (string * option error) :=
  match args with
  | [cmd; _; file] =>
      if String.eqb cmd "apply" then
        match c_files w !! file with
        | Some c => ({| c_files := c_files w; c_sets := declare (c_sets w) (read_manifest c) |}, ("configured"%string, None))
        | None => (w, ("no such file"%string, Some "exit status 1"%string))
        end
      else (w, ("unknown command"%string, Some "exit status 1"%string))
  | [cmd; _; _; ns; _; label; _; _] =>
      (* kubectl get pods -n ns -l app=name -o json *)
      match strip (txt "app=") (txt label) with
      | Some name => (w, (show_pods (cluster_pods w ns (str name)), None))
      | None => (w, ("bad selector"%string, Some "exit status 1"%string))
      end
  | _ => (w, ("rolled out"%string, None))
  end.

#[export] Instance cluster_shell : Shell cluster := {|
  exec := cluster_exec;
  sh_MkdirAll _ w := (w, None);
  sh_WriteFile path c w := ({| c_files := <[path := c]> (c_files w); c_sets := c_sets w |}, None);
  sh_ReadFile path w := (w, match c_files w !! path with Some c => Ok c | None => Err "no such file"%string end)
|}.

Lemma show_pods_read names :
  Forall name_like names ->
  TrimSpace (show_pods names) = show_pods names /\ show_pods names <> ""%string /\
  exists items, unmarshal_pods (show_pods names) = Ok items /\ pod_Name <$> items = names.
Proof.
  intros Hn. split_and!; [by apply (TrimSpace_bracketed _ _ _ []); auto|done|].
  cbn [unmarshal_pods cluster_json]. unfold show_pods. rewrite txt_str, removelast_last.
  eexists. split; [reflexivity|].
  assert (Hs : split_on comma (mjoin ((fun n => txt n ++ [comma]) <$> names)) [] = (txt <$> names) ++ [[]]).
  { induction Hn as [|n names Hx _ IH]; [done|].
    change (mjoin ((fun n => txt n ++ [comma]) <$> n :: names))
      with ((txt n ++ [comma]) ++ mjoin ((fun n => txt n ++ [comma]) <$> names)).
    rewrite <- app_assoc. cbn [app]. rewrite split_on_cons; [by rewrite IH|].
    intros Hin. unfold name_like in Hx. rewrite Forall_forall in Hx. by specialize (Hx _ Hin). }
  rewrite Hs, removelast_last, <- !list_fmap_compose.
  clear. induction names as [|n names IH]; [done|]. rewrite fmap_cons, IH. cbn. by rewrite str_txt.
Qed.

#[export] Instance cluster_kubectl : Kubectl cluster.
Proof.
  refine {| kc_files := c_files; kc_sets := c_sets; kc_pods := cluster_pods |}.
  - intros path content w w' [= <-]. apply lookup_insert_eq.
  - intros file w w' out content. cbn. intros E Hf. rewrite Hf in E. by simplify_eq.
  - intros ns name timeout n w w' out [= <- _] Hs. unfold cluster_pods. by rewrite Hs.
  - intros ns name w w' out E Hn. cbn [exec cluster_shell cluster_exec] in E.
    rewrite txt_app, strip_app, str_txt in E. injection E as _ <-.
    destruct (show_pods_read _ Hn) as (Ht & Hne & items & Hu & Hi). exists items. rewrite Ht. split_and!; [done..|].
    by rewrite Hi.
Defined.

(** A twelve-replica redis set whose name has a dash. *)
Definition redis_topology : Topology := {|
  topo_Name := "cache-a"; topo_Backend := "kubernetes"; topo_Target := "redis"; topo_Image := ""; topo_Version := "7";
  topo_Nodes := 12; topo_ReplicationFactor := 0; topo_Resources := {| rs_CPU := ""; rs_Memory := "512Mi" |};
  topo_Bundle := ""; topo_Extra := ∅
|}.

Definition cluster_zero : cluster := {| c_files := ∅; c_sets := ∅ |}.

Lemma redis_topology_ok : topology_ok redis_topology.
Proof. split_and!; try (apply plain_const; reflexivity); [by repeat constructor|done]. Qed.

Lemma cluster_Up t : exists w, Up t cluster_zero = (w, Ok (spec t (buildModel t))).
Proof.
  unfold Up, writeManifest. cbn [sh_MkdirAll sh_WriteFile cluster_shell].
  unfold runKubectl, run_command, rolloutStatus. cbn -[render declare read_manifest spec TrimSpace].
  rewrite lookup_insert_eq. by eexists.
Qed.

Lemma cluster_Nodes t w : exists ns, Nodes t w = (w, Ok ns).
Proof.
  unfold Nodes, runKubectl, run_command. set (args := [_; _; _; _; _; _; _; _]).
  assert (exists names, exec "kubectl" args w = (w, (show_pods names, None))) as [names ->].
  { subst args. cbn [exec cluster_shell cluster_exec]. rewrite txt_app, strip_app. by eexists. }
  unfold parsePods. destruct (String.eqb _ _); [by eexists|]. cbn [unmarshal_pods cluster_json].
  destruct (txt (TrimSpace (TrimSpace (show_pods names)))) as [|c t'] eqn:E; [|by eexists].
  exfalso. unfold show_pods in E. rewrite !TrimSpace_idem, (TrimSpace_bracketed _ _ _ []), txt_str in E by auto. done.
Qed.

Lemma k8s_nodes_agree_witness :
  exists w sp ns, Up redis_topology cluster_zero = (w, Ok sp) /\ Nodes redis_topology w = (w, Ok ns) /\
    ns ≡ₚ cs_Nodes sp /\ length ns = 12%nat.
Proof.
  destruct (cluster_Up redis_topology) as [w E]. destruct (cluster_Nodes redis_topology w) as [ns En].
  destruct (k8s_nodes_agree redis_topology _ _ _ _ _ redis_topology_ok E En) as (Hp & _ & Hl & _).
  do 3 eexists. split_and!; [done..|]. rewrite (Permutation_length Hp).
  change (node_count redis_topology) with 12 in Hl. lia.
Defined.
