(* ===== verification/Emit.v ===== *)
(** * Emit: the run's artifacts on disk (core/emit)

    Layout of a run directory, atomic writes, and the readers and writers of the
    artifacts.  The file system keeps, next to the current directory entries,
    those a crash can bring back: a crash picks any earlier set of entries and
    keeps only file contents that were synced.  Every system call can fail. *)

From Stdlib Require Import Ascii String.
From S2P Require Import Prelude Domain Strconv Targets Provision.

Local Open Scope Z_scope.

(** ** layout.go *)

Record Paths := {
  Dir : string;
  Manifest_json : string;
  Summary : string;
  TimeseriesNDJSON : string;
  TimeseriesParquet : string;
  HLog : string;
  VerifyJSON : string;
  ServerStats : string
}.

Definition Layout (base target : string) (id : RunID) : Paths :=
  let dir := Join [base; "results"; target; (id : string)]%string in
  {| Dir := dir;
     Manifest_json := Join [dir; "manifest.json"]%string;
     Summary := Join [dir; "summary.json"]%string;
     TimeseriesNDJSON := Join [dir; "timeseries.ndjson"]%string;
     TimeseriesParquet := Join [dir; "timeseries.parquet"]%string;
     HLog := Join [dir; "latency.hlog"]%string;
     VerifyJSON := Join [dir; "verify.json"]%string;
     ServerStats := Join [dir; "server_stats.json"]%string |}.

Definition artifact_paths (p : Paths) : list string :=
  [Manifest_json p; Summary p; TimeseriesNDJSON p; TimeseriesParquet p; HLog p; VerifyJSON p; ServerStats p].

(** The part of a path after its last slash. *)
Definition last_component (p : string) : text :=
  match split_last slash (txt p) with Some (_, b) => b | None => txt p end.

(** A file name: no slash, not empty, not a dot entry. *)
Definition file_name (t : text) : Prop := (slash ∉ t) /\ t <> [] /\ t <> txt "." /\ t <> txt "..".

Lemma clean_step_name rooted stack e : file_name e -> clean_step rooted stack e = e :: stack.
Proof.
  intros (_ & H1 & H2 & H3). unfold clean_step.
  rewrite decide_False by (intros [?|?]; done). by rewrite decide_False.
Qed.

Lemma split_on_name d f cur : file_name f -> exists ls, split_on slash (d ++ slash :: f) cur = ls ++ [f].
Proof.
  intros (Hf & _). revert cur. induction d as [|c d IH]; intros cur; cbn.
  - exists [rev cur]. by rewrite split_on_last.
  - destruct (Ascii.eqb c slash); [|apply IH].
    destruct (IH []) as [ls Hls]. exists (rev cur :: ls). by rewrite Hls.
Qed.

Lemma last_of_join ls f : slash ∉ f -> f <> [] ->
  let t := join_text [slash] (ls ++ [f]) in
  t <> [] /\ match split_last slash t with Some (_, b) => b = f | None => t = f end.
Proof.
  intros Hf Hne. induction ls as [|l ls [IH1 IH2]]; cbn zeta in *.
  - cbn. split; [done|]. destruct (split_last slash f) as [[a b]|] eqn:E; [|done].
    apply split_last_spec in E as [-> _]. destruct Hf. apply elem_of_app. right. by left.
  - change ((l :: ls) ++ [f]) with (l :: (ls ++ [f])).
    assert (Ht : join_text [slash] (l :: (ls ++ [f])) = l ++ [slash] ++ join_text [slash] (ls ++ [f])).
    { cbn. by destruct (ls ++ [f]) eqn:E; [destruct ls|]. }
    rewrite Ht. split; [by destruct l|]. set (t := join_text [slash] (ls ++ [f])) in *.
    destruct (split_last slash t) as [[a b]|] eqn:E.
    + subst b. apply split_last_spec in E as [Et Hb].
      rewrite (proj2 (split_last_spec slash (l ++ [slash] ++ t) (l ++ [slash] ++ a) f)); [done|].
      split; [|done]. rewrite Et. cbn. by rewrite <- app_assoc.
    + rewrite (proj2 (split_last_spec slash (l ++ [slash] ++ t) l f)); [done|]. by rewrite IH2.
Qed.

(** Joining a file name to a directory ends in that name. *)
Lemma Join_last dir f : dir <> ""%string -> file_name (txt f) -> last_component (Join [dir; f]) = txt f.
Proof.
  intros Hd Hf. cbn [Join]. destruct (String.eqb_spec dir ""); [done|].
  unfold Clean. change (String.concat "/" [dir; f]) with (dir +:+ ("/" +:+ f)).
  rewrite !txt_app. change (txt "/") with [slash]. cbn [app].
  destruct (split_on_name (txt dir) (txt f) [] Hf) as [ls Hls]. rewrite Hls, foldl_snoc.
  set (rooted := match _ with [] => _ | _ => _ end). rewrite clean_step_name by done. cbn [rev].
  set (front := rev _). destruct Hf as (Hs & Hne & _).
  destruct (last_of_join front (txt f) Hs Hne) as [Hn Hl]. set (body := join_text _ _) in *.
  assert (Hbody : match split_last slash body with Some (_, b) => b | None => body end = txt f) by (destruct (split_last slash body) as [[??]|]; exact Hl).
  unfold last_component. destruct rooted.
  - rewrite txt_str. cbn [split_last]. destruct (split_last slash body) as [[a b]|]; [done|].
    by rewrite Ascii.eqb_refl.
  - rewrite decide_False by done. by rewrite txt_str.
Qed.

Lemma Clean_nonempty p : Clean p <> ""%string.
Proof.
  unfold Clean. set (rooted := match txt p with [] => _ | _ => _ end).
  destruct rooted; [done|]. destruct (decide _) as [|Hb]; [done|].
  intros H. apply (f_equal txt) in H. rewrite txt_str in H. by destruct Hb.
Qed.

Lemma Layout_dir base target id : Dir (Layout base target id) <> ""%string.
Proof. cbn [Dir Layout Join]. destruct (String.eqb base ""); apply Clean_nonempty. Qed.

Definition artifact_names : list string :=
  ["manifest.json"; "summary.json"; "timeseries.ndjson"; "timeseries.parquet"; "latency.hlog"; "verify.json"; "server_stats.json"]%string.

Lemma Layout_components base target id :
  let p := Layout base target id in
  last_component (Manifest_json p) = txt "manifest.json" /\ last_component (Summary p) = txt "summary.json" /\
  last_component (TimeseriesNDJSON p) = txt "timeseries.ndjson" /\
  last_component (TimeseriesParquet p) = txt "timeseries.parquet" /\ last_component (HLog p) = txt "latency.hlog" /\
  last_component (VerifyJSON p) = txt "verify.json" /\ last_component (ServerStats p) = txt "server_stats.json".
Proof.
  intros p. pose proof (Layout_dir base target id) as Hd.
  split_and!; apply Join_last; try exact Hd;
    (split; [apply (bool_decide_unpack _); vm_compute; exact I|done]).
Qed.

(** The artifacts of a run are different files. *)
Lemma Layout_names base target id :
  last_component <$> artifact_paths (Layout base target id) = txt <$> artifact_names.
Proof.
  destruct (Layout_components base target id) as (Nm & Ns & Nn & Np & Nh & Nv & Nt).
  unfold artifact_paths, artifact_names. rewrite !fmap_cons. by rewrite Nm, Ns, Nn, Np, Nh, Nv, Nt.
Qed.

Lemma Layout_distinct base target id : NoDup (artifact_paths (Layout base target id)).
Proof.
  apply (NoDup_fmap_1 last_component). rewrite Layout_names. apply (bool_decide_unpack _). vm_compute. exact I.
Qed.

(** ** The file system *)

Record inode := { i_data : bytes; i_synced : bool }.

(** Directory entries by path, file contents by number; [fs_past] holds the
    entries of earlier moments. *)
Record fs := {
  fs_names : gmap string Z;
  fs_inodes : gmap Z inode;
  fs_next : Z;
  fs_past : list (gmap string Z)
}.

Definition content (s : fs) (path : string) : option bytes := i ← fs_names s !! path; i_data <$> fs_inodes s !! i.

(** After a crash the entries are those of some moment, and only synced contents
    are what they were. *)
Definition crash (s s' : fs) : Prop :=
  fs_names s' ∈ fs_names s :: fs_past s /\
  forall i n, fs_inodes s !! i = Some n -> i_synced n = true -> fs_inodes s' !! i = Some n.

Definition set_names (s : fs) (names : gmap string Z) : fs :=
  {| fs_names := names; fs_inodes := fs_inodes s; fs_next := fs_next s; fs_past := fs_names s :: fs_past s |}.

Definition set_inode (s : fs) (i : Z) (n : inode) : fs :=
  {| fs_names := fs_names s; fs_inodes := <[i := n]> (fs_inodes s); fs_next := fs_next s; fs_past := fs_past s |}.

(** A world of the code: the file system, how the coming system calls fare
    ([Some n] fails after [n] bytes) and every file system passed through. *)
Record world := { w_fs : fs; w_faults : list (option nat); w_trace : list fs }.

Definition next_fault (w : world) : option nat * world :=
  match w_faults w with
  | [] => (None, w)
  | f :: rest => (f, {| w_fs := w_fs w; w_faults := rest; w_trace := w_trace w |})
  end.

Definition enter (s : fs) (w : world) : world :=
  {| w_fs := s; w_faults := w_faults w; w_trace := s :: w_trace w |}.

Definition EIO : error := "input/output error".

(** ** The system calls *)

Definition MkdirAll (dir : string) (w : world) : world * option error :=
  let '(f, w) := next_fault w in (w, match f with Some _ => Some EIO | None => None end).

(** layout.go: the run directory, created if absent. *)
Definition EnsureDir (p : Paths) (w : world) : world * option error := MkdirAll (Dir p) w.

(** [os.CreateTemp] with the random part [suffix]: the file is opened exclusively. *)
Definition CreateTemp (name : string) (w : world) : world * result error (string * Z) :=
  let '(f, w) := next_fault w in
  let s := w_fs w in
  match f, fs_names s !! name with
  | Some _, _ => (w, Err EIO)
  | None, Some _ => (w, Err "file exists"%string)
  | None, None =>
      let i := fs_next s in
      let s := {| fs_names := <[name := i]> (fs_names s);
                  fs_inodes := <[i := {| i_data := []; i_synced := false |}]> (fs_inodes s);
                  fs_next := i + 1;
                  fs_past := fs_names s :: fs_past s |} in
      (enter s w, Ok (name, i))
  end.

Definition f_Write (i : Z) (data : bytes) (w : world) : world * option error :=
  let '(f, w) := next_fault w in
  let s := w_fs w in
  let old := default [] (i_data <$> fs_inodes s !! i) in
  let put b := enter (set_inode s i {| i_data := old ++ b; i_synced := false |}) w in
  match f with
  | Some n => (put (take n data), Some EIO)
  | None => (put data, None)
  end.

Definition f_Sync (i : Z) (w : world) : world * option error :=
  let '(f, w) := next_fault w in
  match f, fs_inodes (w_fs w) !! i with
  | Some _, _ => (w, Some EIO)
  | None, Some n => (enter (set_inode (w_fs w) i {| i_data := i_data n; i_synced := true |}) w, None)
  | None, None => (w, Some EIO)
  end.

Definition f_Close (i : Z) (w : world) : world * option error :=
  let '(f, w) := next_fault w in (w, match f with Some _ => Some EIO | None => None end).

Definition Remove (name : string) (w : world) : world :=
  let '(f, w) := next_fault w in
  match f with
  | Some _ => w
  | None => enter (set_names (w_fs w) (delete name (fs_names (w_fs w)))) w
  end.

Definition Rename (from to : string) (w : world) : world * option error :=
  let '(f, w) := next_fault w in
  match f, fs_names (w_fs w) !! from with
  | Some _, _ => (w, Some EIO)
  | None, Some i => (enter (set_names (w_fs w) (<[to := i]> (delete from (fs_names (w_fs w))))) w, None)
  | None, None => (w, Some "no such file"%string)
  end.

Definition ReadFile (path : string) (w : world) : world * result error bytes :=
  let '(f, w) := next_fault w in
  match f, content (w_fs w) path with
  | Some _, _ => (w, Err EIO)
  | None, Some b => (w, Ok b)
  | None, None => (w, Err "no such file"%string)
  end.

(** [os.Stat] without an error. *)
Definition Stat (path : string) (w : world) : world * bool :=
  let '(f, w) := next_fault w in
  (w, match f, fs_names (w_fs w) !! path with None, Some _ => true | _, _ => false end).

(** [os.Create]: an existing file is truncated in place. *)
Definition Create (path : string) (w : world) : world * result error Z :=
  let '(f, w) := next_fault w in
  let s := w_fs w in
  match f, fs_names s !! path with
  | Some _, _ => (w, Err EIO)
  | None, Some i => (enter (set_inode s i {| i_data := []; i_synced := false |}) w, Ok i)
  | None, None =>
      let i := fs_next s in
      (enter {| fs_names := <[path := i]> (fs_names s);
                fs_inodes := <[i := {| i_data := []; i_synced := false |}]> (fs_inodes s);
                fs_next := i + 1;
                fs_past := fs_names s :: fs_past s |} w, Ok i)
  end.

(** [os.WriteFile]: neither atomic nor flushed. *)
Definition WriteFile (path : string) (data : bytes) (w : world) : world * option error :=
  match Create path w with
  | (w, Err e) => (w, Some e)
  | (w, Ok i) =>
      match f_Write i data w with
      | (w, Some e) => ((f_Close i w).1, Some e)
      | (w, None) => f_Close i w
      end
  end.

(** ** atomic.go *)

Definition writeAndSync (i : Z) (data : bytes) (w : world) : world * option error :=
  match f_Write i data w with
  | (w, Some e) => ((f_Close i w).1, Some e)
  | (w, None) =>
      match f_Sync i w with
      | (w, Some e) => ((f_Close i w).1, Some e)
      | (w, None) => f_Close i w
      end
  end.

(** [filepath.Dir]: everything before the last slash, cleaned. *)
Definition dir_of (path : string) : string :=
  match split_last slash (txt path) with Some (d, _) => Clean (str (d ++ [slash])) | None => "." end.

(** The name [os.CreateTemp] makes of its pattern. *)
Definition temp_name (path suffix : string) : string :=
  dir_of path +:+ "/" +:+ "." +:+ str (last_component path) +:+ ".tmp-" +:+ suffix.

Definition writeAtomic (suffix path : string) (data : bytes) (w : world) : world * option error :=
  match MkdirAll (dir_of path) w with
  | (w, Some e) => (w, Some e)
  | (w, None) =>
      match CreateTemp (temp_name path suffix) w with
      | (w, Err e) => (w, Some e)
      | (w, Ok (tmpName, tmp)) =>
          match writeAndSync tmp data w with
          | (w, Some e) => (Remove tmpName w, Some e)
          | (w, None) =>
              match Rename tmpName path w with
              | (w, Some e) => (Remove tmpName w, Some e)
              | (w, None) => (w, None)
              end
          end
      end
  end.

(** ** What a file keeps through crashes *)

Definition entries (s : fs) : list (gmap string Z) := fs_names s :: fs_past s.

(** Whatever moment's entries are brought back, the path holds a synced content
    among those allowed. *)
Definition durable (A : option bytes -> Prop) (s : fs) (q : string) : Prop :=
  forall names, names ∈ entries s ->
    match names !! q with
    | None => A None
    | Some i => exists d, fs_inodes s !! i = Some {| i_data := d; i_synced := true |} /\ A (Some d)
    end.

Definition fs_wf (s : fs) : Prop := forall names q i, names ∈ entries s -> names !! q = Some i -> i < fs_next s.

(** No moment's entries lead from the path to the file. *)
Definition apart (s : fs) (i : Z) (q : string) : Prop := forall names, names ∈ entries s -> names !! q <> Some i.

Lemma durable_crash A s s' q : durable A s q -> crash s s' -> A (content s' q).
Proof.
  intros Hd [Hn Hi]. specialize (Hd _ Hn). unfold content. destruct (fs_names s' !! q) as [i|]; [|done].
  destruct Hd as (d & Hd & Ha). cbn. by rewrite (Hi _ _ Hd eq_refl).
Qed.

Lemma crash_refl s : crash s s.
Proof. split; [by left|done]. Qed.

Lemma durable_weaken (A B : option bytes -> Prop) s q : (forall o, A o -> B o) -> durable A s q -> durable B s q.
Proof.
  intros HAB Hd names Hn. specialize (Hd names Hn). destruct (names !! q); [|by apply HAB].
  destruct Hd as (d & Hd & Ha). exists d. auto.
Qed.

(** What the calls of an atomic write to [path] through the temporary file [tmp]
    keep: the world, for a path [q] other than [tmp]. *)
Section keeps.
Variables (A : option bytes -> Prop) (q : string).

Definition kept (w w' : world) : Prop :=
  exists l, w_trace w' = l ++ w_trace w /\ Forall (fun s => durable A s q) l /\
    fs_wf (w_fs w') /\ durable A (w_fs w') q /\ content (w_fs w') q = content (w_fs w) q.

Lemma kept_same w w' :
  w_fs w' = w_fs w -> w_trace w' = w_trace w -> fs_wf (w_fs w) -> durable A (w_fs w) q -> kept w w'.
Proof. intros Ef Et Hw Hd. exists []. rewrite Ef. split_and!; done || constructor. Qed.

Lemma kept_trans w1 w2 w3 : kept w1 w2 -> kept w2 w3 -> kept w1 w3.
Proof.
  intros (l1 & E1 & F1 & _ & _ & C1) (l2 & E2 & F2 & W & D & C2). exists (l2 ++ l1).
  split_and!; [by rewrite E2, E1, app_assoc|by apply Forall_app|done..|congruence].
Qed.

(** One new file system. *)
Lemma kept_enter s w :
  fs_wf s -> durable A s q -> content s q = content (w_fs w) q -> kept w (enter s w).
Proof. intros. exists [s]. split_and!; try done. by constructor. Qed.

Lemma durable_same_file s i n :
  durable A s q -> apart s i q -> durable A (set_inode s i n) q /\ content (set_inode s i n) q = content s q.
Proof.
  intros Hd Ha. split.
  - intros names Hn. specialize (Hd names Hn). specialize (Ha names Hn).
    destruct (names !! q) as [j|]; [|done]. destruct Hd as (d & Hd & HA). exists d. cbn.
    rewrite lookup_insert_ne by congruence. done.
  - unfold content. cbn. specialize (Ha _ (list_elem_of_here _ _)). destruct (fs_names s !! q) as [j|]; [|done].
    cbn. by rewrite lookup_insert_ne by congruence.
Qed.

(** New entries that agree on [q]. *)
Lemma durable_same_entry s names :
  durable A s q -> names !! q = fs_names s !! q -> durable A (set_names s names) q /\ content (set_names s names) q = content s q.
Proof.
  intros Hd Hn. split; [|unfold content; cbn; by rewrite Hn].
  intros names' Hin. change (names' ∈ names :: entries s) in Hin.
  apply elem_of_cons in Hin as [->|Hin]; [|by apply Hd]. rewrite Hn. apply (Hd (fs_names s)). by left.
Qed.
End keeps.

Lemma wf_set_names s names :
  fs_wf s -> (forall p i, names !! p = Some i -> exists p', fs_names s !! p' = Some i) -> fs_wf (set_names s names).
Proof.
  intros Hw Hn names' p i Hin Hp. change (names' ∈ names :: entries s) in Hin.
  apply elem_of_cons in Hin as [->|Hin]; [|by eapply Hw].
  destruct (Hn p i Hp) as [p' Hp']. eapply Hw; [|exact Hp']. by left.
Qed.

Lemma next_fault_same w : w_fs (next_fault w).2 = w_fs w /\ w_trace (next_fault w).2 = w_trace w.
Proof. unfold next_fault. by destruct (w_faults w). Qed.

(** Opens a call: the fault it meets and the world it acts on. *)
Ltac open_call w :=
  pose proof (next_fault_same w) as [? ?]; destruct (next_fault w) as [? ?]; cbn [fst snd] in *.

Lemma next_fault_kept A q w :
  fs_wf (w_fs w) -> durable A (w_fs w) q -> kept A q w (next_fault w).2.
Proof. intros Hw Hd. open_call w. by apply kept_same. Qed.

(** ** The calls of an atomic write *)

Section calls.
Variables (A : option bytes -> Prop) (q : string).

(** The temporary file: entered under [name] only, away from [q]. *)
Definition temporary (s : fs) (name : string) (i : Z) : Prop :=
  fs_names s !! name = Some i /\ apart s i q /\ is_Some (fs_inodes s !! i).

Lemma create_spec name w w' r :
  name <> q -> fs_wf (w_fs w) -> durable A (w_fs w) q -> CreateTemp name w = (w', r) ->
  kept A q w w' /\ forall n i, r = Ok (n, i) ->
    n = name /\ temporary (w_fs w') name i /\ fs_inodes (w_fs w') !! i = Some {| i_data := []; i_synced := false |} /\
    (forall p, p <> name -> fs_names (w_fs w') !! p = fs_names (w_fs w) !! p) /\ fs_names (w_fs w) !! name = None.
Proof.
  intros Hne Hw Hd. unfold CreateTemp. open_call w. pose proof (kept_same A q w w0 H H0 Hw Hd) as Hk.
  rewrite <- H in Hw, Hd.
  destruct o as [n|]; [by intros [= <- <-]|].
  destruct (fs_names (w_fs w0) !! name) eqn:En; [by intros [= <- <-]|].
  intros [= <- <-]. set (s := w_fs w0) in *. set (s' := {| fs_names := _ |}).
  assert (Hap : apart s (fs_next s) q).
  { intros names Hin Hq. specialize (Hw _ _ _ Hin Hq). lia. }
  assert (Hd' : durable A s' q).
  { intros names Hin. change (names ∈ <[name:=fs_next s]> (fs_names s) :: entries s) in Hin.
    assert (Hin' : exists m, m ∈ entries s /\ names !! q = m !! q).
    { apply elem_of_cons in Hin as [->|Hin]; [|by exists names].
      exists (fs_names s). split; [by left|]. by rewrite lookup_insert_ne. }
    destruct Hin' as (m & Hm & Eq). specialize (Hd m Hm). specialize (Hap m Hm). rewrite Eq.
    destruct (m !! q) as [j|]; [|done]. destruct Hd as (d & Hd & HA). exists d. cbn.
    rewrite lookup_insert_ne by congruence. done. }
  split.
  - exists [s']. split_and!.
    + cbn. by rewrite H0.
    + by constructor.
    + intros names p i Hin Hp. change (names ∈ <[name:=fs_next s]> (fs_names s) :: entries s) in Hin. cbn.
      apply elem_of_cons in Hin as [->|Hin]; [|specialize (Hw _ _ _ Hin Hp); lia].
      apply lookup_insert_Some in Hp as [[_ <-]|[_ Hp]]; [lia|].
      assert (i < fs_next s) by (eapply Hw; [|exact Hp]; by left). lia.
    + done.
    + rewrite <- H. unfold content. cbn. rewrite lookup_insert_ne by done.
      specialize (Hap _ (list_elem_of_here _ _)). destruct (fs_names s !! q) as [j|] eqn:Ej; [|done].
      cbn. rewrite lookup_insert_ne; [done|]. congruence.
  - intros n i [= <- <-]. split; [done|]. split; [|split; [apply lookup_insert_eq|split]].
    + split; [apply lookup_insert_eq|]. split; [|cbn; rewrite lookup_insert_eq; by eexists].
      intros names Hin. change (names ∈ <[name:=fs_next s]> (fs_names s) :: entries s) in Hin.
      apply elem_of_cons in Hin as [->|Hin]; [|by apply Hap]. rewrite lookup_insert_ne by done. apply Hap. by left.
    + intros p Hp. cbn. rewrite lookup_insert_ne by done. by rewrite <- H.
    + by rewrite <- H.
Qed.

(** Writing, syncing and closing the temporary file. *)
Lemma set_file_spec s name i n :
  fs_wf s -> durable A s q -> temporary s name i ->
  fs_wf (set_inode s i n) /\ durable A (set_inode s i n) q /\ content (set_inode s i n) q = content s q /\
  temporary (set_inode s i n) name i.
Proof.
  intros Hw Hd (Hn & Ha & Hi). destruct (durable_same_file A q s i n Hd Ha). split_and!; try done.
  split_and!; [done..|]. cbn. rewrite lookup_insert_eq. by eexists.
Qed.

Lemma writeAndSync_spec name i data w w' r :
  fs_wf (w_fs w) -> durable A (w_fs w) q -> temporary (w_fs w) name i ->
  fs_inodes (w_fs w) !! i = Some {| i_data := []; i_synced := false |} ->
  writeAndSync i data w = (w', r) ->
  kept A q w w' /\ temporary (w_fs w') name i /\ fs_names (w_fs w') = fs_names (w_fs w) /\
  (r = None -> fs_inodes (w_fs w') !! i = Some {| i_data := data; i_synced := true |}).
Proof.
  intros Hw Hd Ht Hi E.
  assert (Hwrite : let '(w1, r1) := f_Write i data w in
    kept A q w w1 /\ temporary (w_fs w1) name i /\ fs_names (w_fs w1) = fs_names (w_fs w) /\
    (r1 = None -> i_data <$> fs_inodes (w_fs w1) !! i = Some data)).
  { unfold f_Write. open_call w. rewrite H. rewrite Hi. cbn.
    assert (Hput : forall b, let w1 := enter (set_inode (w_fs w) i {| i_data := b; i_synced := false |}) w0 in
      kept A q w w1 /\ temporary (w_fs w1) name i /\ fs_names (w_fs w1) = fs_names (w_fs w)).
    { intros b. destruct (set_file_spec (w_fs w) name i {| i_data := b; i_synced := false |} Hw Hd Ht) as (W & D & C & T).
      split_and!; [|done..]. exists [set_inode (w_fs w) i {| i_data := b; i_synced := false |}].
      split_and!; try done; [by cbn; rewrite H0|by constructor]. }
    destruct o as [n|]; cbn in Hput |- *.
    - destruct (Hput (take n data)) as (K & T & N). by split_and!.
    - destruct (Hput data) as (K & T & N). split_and!; try done. intros _. by rewrite lookup_insert_eq. }
  unfold writeAndSync in E. destruct (f_Write i data w) as [w1 r1]. destruct Hwrite as (K1 & T1 & N1 & D1).
  assert (Hclose : forall w, w_fs (f_Close i w).1 = w_fs w /\ w_trace (f_Close i w).1 = w_trace w).
  { intros v. unfold f_Close. by open_call v. }
  assert (Hk : forall w2 w3, kept A q w w2 -> w_fs w3 = w_fs w2 -> w_trace w3 = w_trace w2 -> kept A q w w3).
  { intros w2 w3 (l & El & ?) E1 E2. exists l. rewrite E1, E2. done. }
  destruct r1 as [e|].
  { injection E as <- <-. destruct (Hclose w1) as [E1 E2]. rewrite E1. split_and!; [by eapply Hk|done..]. }
  specialize (D1 eq_refl).
  assert (Hsync : let '(w2, r2) := f_Sync i w1 in
    kept A q w1 w2 /\ temporary (w_fs w2) name i /\ fs_names (w_fs w2) = fs_names (w_fs w1) /\
    (r2 = None -> fs_inodes (w_fs w2) !! i = Some {| i_data := data; i_synced := true |})).
  { assert (W1 : fs_wf (w_fs w1)) by (by destruct K1 as (?&?&?&?&?&?)).
    assert (Q1 : durable A (w_fs w1) q) by (by destruct K1 as (?&?&?&?&?&?)).
    unfold f_Sync. open_call w1. rewrite H.
    pose proof (kept_same A q w1 w0 H H0 W1 Q1) as Ksame.
    destruct o; [by rewrite H|]. destruct (fs_inodes (w_fs w1) !! i) as [n|] eqn:En; [|by rewrite H].
    injection D1 as <-.
    destruct (set_file_spec (w_fs w1) name i {| i_data := i_data n; i_synced := true |} W1 Q1 T1) as (W & D & C & T).
    split_and!; [|done..|].
    - exists [set_inode (w_fs w1) i {| i_data := i_data n; i_synced := true |}].
      split_and!; try done; [by cbn; rewrite H0|by constructor].
    - intros _. cbn. by rewrite lookup_insert_eq. }
  destruct (f_Sync i w1) as [w2 r2]. destruct Hsync as (K2 & T2 & N2 & D2).
  pose proof (kept_trans _ _ _ _ _ K1 K2) as K. destruct (Hclose w2) as [E1 E2].
  destruct r2 as [e|].
  - injection E as <- <-. rewrite E1. split_and!; [by eapply Hk|done|congruence|done].
  - destruct (f_Close i w2) as [w3 r3]; cbn in E1, E2. injection E as <- <-. rewrite E1.
    split_and!; [by eapply Hk|done|congruence|intros _; by apply D2].
Qed.
End calls.

Lemma Remove_spec A q name w :
  name <> q -> fs_wf (w_fs w) -> durable A (w_fs w) q -> kept A q w (Remove name w).
Proof.
  intros Hne Hw Hd. unfold Remove. open_call w. pose proof (kept_same A q w w0 H H0 Hw Hd) as Hk.
  destruct o; [done|]. eapply kept_trans; [exact Hk|]. rewrite <- H in Hw, Hd.
  destruct (durable_same_entry A q (w_fs w0) (delete name (fs_names (w_fs w0))) Hd) as [D C];
    [by rewrite lookup_delete_ne|].
  apply kept_enter; [|done..]. apply wf_set_names; [done|]. intros p i [_ Hp]%lookup_delete_Some. by exists p.
Qed.

(** Renaming the synced temporary file onto [path]: the paths apart from both keep
    what they have, [path] gets the new content, or nothing happens. *)
Lemma Rename_spec A q name path i data w w' r :
  name <> q -> fs_wf (w_fs w) -> durable A (w_fs w) q ->
  fs_names (w_fs w) !! name = Some i -> fs_inodes (w_fs w) !! i = Some {| i_data := data; i_synced := true |} ->
  (q = path -> A (Some data)) ->
  Rename name path w = (w', r) ->
  exists l, w_trace w' = l ++ w_trace w /\ Forall (fun s => durable A s q) l /\ fs_wf (w_fs w') /\ durable A (w_fs w') q /\
    (r = None -> content (w_fs w') path = Some data) /\
    (r <> None \/ q <> path -> content (w_fs w') q = content (w_fs w) q).
Proof.
  intros Hne Hw Hd Hn Hi HA. unfold Rename. open_call w. rewrite H.
  pose proof (kept_same A q w w0 H H0 Hw Hd) as (l & E & F & W & D & C).
  destruct o as [n|]; [intros [= <- <-]; exists l; by split_and!|].
  rewrite Hn. intros [= <- <-]. set (s := w_fs w) in *. set (s' := set_names s _).
  assert (Hq : fs_names s' !! q = if decide (q = path) then Some i else fs_names s !! q).
  { subst s'. cbn. destruct (decide (q = path)) as [->|]; [apply lookup_insert_eq|].
    by rewrite lookup_insert_ne, lookup_delete_ne by done. }
  assert (D' : durable A s' q).
  { intros names Hin. change (names ∈ fs_names s' :: entries s) in Hin.
    apply elem_of_cons in Hin as [->|Hin]; [|by apply Hd]. rewrite Hq. destruct (decide (q = path)).
    - exists data. split; [exact Hi|]. by apply HA.
    - apply (Hd (fs_names s)). by left. }
  exists [s']. split_and!.
  - cbn. by rewrite H0.
  - by constructor.
  - apply wf_set_names; [done|]. intros p j [[_ <-]|[_ Hp]]%lookup_insert_Some; [by exists name|].
    apply lookup_delete_Some in Hp as [_ Hp]. by exists p.
  - done.
  - intros _. unfold content. cbn. rewrite lookup_insert_eq. cbn. by rewrite Hi.
  - intros [?|Hqp]; [done|]. unfold content. cbn [w_fs enter]. rewrite Hq, decide_False by done. done.
Qed.

(** The whole write, seen from a path other than its temporary file. *)
Lemma writeAtomic_spec A q suffix path data w w' r :
  q <> temp_name path suffix -> fs_wf (w_fs w) -> durable A (w_fs w) q -> (q = path -> A (Some data)) ->
  writeAtomic suffix path data w = (w', r) ->
  exists l, w_trace w' = l ++ w_trace w /\ Forall (fun s => durable A s q) l /\ fs_wf (w_fs w') /\ durable A (w_fs w') q /\
    (r = None -> temp_name path suffix <> path -> content (w_fs w') path = Some data) /\
    (r <> None \/ q <> path -> content (w_fs w') q = content (w_fs w) q).
Proof.
  intros Hne Hw Hd HA. unfold writeAtomic.
  assert (Hfin : forall w1 w2 e, kept A q w w1 -> kept A q w1 w2 ->
    exists l, w_trace w2 = l ++ w_trace w /\ Forall (fun s => durable A s q) l /\ fs_wf (w_fs w2) /\ durable A (w_fs w2) q /\
      (Some e = None -> temp_name path suffix <> path -> content (w_fs w2) path = Some data) /\
      (Some e <> @None error \/ q <> path -> content (w_fs w2) q = content (w_fs w) q)).
  { intros w1 w2 e H1 H2. destruct (kept_trans _ _ _ _ _ H1 H2) as (l & E & F & W & D & C).
    exists l. by split_and!. }
  assert (Hkw : forall w1, kept A q w w1 -> fs_wf (w_fs w1) /\ durable A (w_fs w1) q) by (intros w1 (l & ? & ? & ? & ? & ?); done).
  assert (Hk0 : kept A q w (MkdirAll (dir_of path) w).1).
  { unfold MkdirAll. open_call w. by apply kept_same. }
  assert (Hrefl : forall w1, kept A q w w1 -> kept A q w1 w1) by (intros w1 H1; apply Hkw in H1 as [? ?]; by apply kept_same).
  destruct (MkdirAll (dir_of path) w) as [w0 [e|]]; cbn in Hk0; [intros [= <- <-]; eapply Hfin; eauto|].
  destruct (CreateTemp _ w0) as [w1 [[n i]|e]] eqn:Ec.
  2: { intros [= <- <-]. destruct (Hkw _ Hk0). eapply create_spec in Ec as [Hk1 _]; eauto. }
  destruct (Hkw _ Hk0) as [W0 D0]. eapply create_spec in Ec as [Hk1 Hc]; eauto.
  destruct (Hc n i eq_refl) as (-> & Ht & Hi & _ & _). pose proof (kept_trans _ _ _ _ _ Hk0 Hk1) as Hk2.
  destruct (Hkw _ Hk2) as [W1 D1].
  destruct (writeAndSync i data w1) as [w2 r2] eqn:Es.
  destruct (writeAndSync_spec A q _ i data w1 w2 r2 W1 D1 Ht Hi Es) as (Hk3 & Ht2 & Hn2 & Hdata).
  pose proof (kept_trans _ _ _ _ _ Hk2 Hk3) as Hk4. destruct (Hkw _ Hk4) as [W2 D2].
  destruct r2 as [e|]; [intros [= <- <-]; eapply Hfin; [exact Hk4|]; by apply Remove_spec|].
  destruct (Rename _ path w2) as [w3 r3] eqn:Er.
  destruct (Rename_spec A q _ path i data w2 w3 r3 (not_eq_sym Hne) W2 D2 (proj1 Ht2) (Hdata eq_refl) HA Er)
    as (l & El & Fl & W3 & D3 & C3 & C3').
  destruct Hk4 as (l4 & E4 & F4 & _ & _ & C4).
  destruct r3 as [e|]; intros [= <- <-].
  - assert (Hk5 : kept A q w w3).
    { exists (l ++ l4). split_and!; [by rewrite El, E4, app_assoc|by apply Forall_app|done..|].
      rewrite C3' by (by left). exact C4. }
    eapply Hfin; [exact Hk5|]. by apply Remove_spec.
  - exists (l ++ l4). split_and!; [by rewrite El, E4, app_assoc|by apply Forall_app|done..| |].
    + intros _ _. by apply C3.
    + intros Hor. rewrite C3' by exact Hor. exact C4.
Qed.

Lemma split_last_none c t : split_last c t = None -> c ∉ t.
Proof.
  induction t as [|x t IH]; intros E; [by apply not_elem_of_nil|]. cbn in E.
  destruct (split_last c t) as [[]|]; [done|]. destruct (Ascii.eqb_spec x c); [done|].
  apply not_elem_of_cons. split; [congruence|by apply IH].
Qed.

(** The temporary file's name is longer than the destination's. *)
Lemma last_component_temp path suffix :
  slash ∉ txt suffix ->
  last_component (temp_name path suffix) = txt "." ++ last_component path ++ txt ".tmp-" ++ txt suffix.
Proof.
  intros Hs. unfold last_component at 1, temp_name. rewrite !txt_app, txt_str.
  assert (Hl : slash ∉ last_component path).
  { unfold last_component. destruct (split_last slash (txt path)) as [[a b]|] eqn:E.
    - by apply split_last_spec in E as [_ E].
    - by apply split_last_none. }
  rewrite (proj2 (split_last_spec slash _ (txt (dir_of path)) (txt "." ++ last_component path ++ txt ".tmp-" ++ txt suffix))); [done|].
  split; [done|]. rewrite !elem_of_app. intros [H|[H|[H|H]]]; [|done| |done].
  - by repeat (apply elem_of_cons in H as [H|H]; [done|]); apply elem_of_nil in H.
  - by repeat (apply elem_of_cons in H as [H|H]; [done|]); apply elem_of_nil in H.
Qed.

Lemma temp_name_other path suffix q :
  slash ∉ txt suffix -> (length (last_component q) < length (last_component path) + 6)%nat -> q <> temp_name path suffix.
Proof.
  intros Hs Hl ->. rewrite last_component_temp in Hl by done. rewrite !length_app in Hl. cbn in Hl. lia.
Qed.

(** ** store.go and timeseries.go *)

(** [json.MarshalIndent] and [json.Unmarshal] of a type, or the parquet writer and
    reader of a row type. *)
Record codec (T : Type) := {
  marshal : T -> result error bytes;
  unmarshal : bytes -> result error T
}.
Arguments marshal {T} _ _.
Arguments unmarshal {T} _ _.

(** What the value is marshalled to is read back as it (JSON replaces text that is
    not valid UTF-8, and refuses floats that are not numbers). *)
Definition codec_ok {T} (c : codec T) (x : T) : Prop := forall b, marshal c x = Ok b -> unmarshal c b = Ok x.

Definition writeJSON {T} (c : codec T) (suffix path : string) (v : T) (w : world) : world * option error :=
  match marshal c v with
  | Err e => (w, Some e)
  | Ok data => writeAtomic suffix path data w
  end.

Definition readJSON {T} (c : codec T) (path : string) (w : world) : world * result error T :=
  match ReadFile path w with
  | (w, Err e) => (w, Err e)
  | (w, Ok data) => (w, unmarshal c data)
  end.

Record tsRow := {
  TUnixMicros : Z;
  Op : string;
  Throughput : float64;
  InFlight : Z;
  row_Errors : Z;
  Count : Z;
  MeanMs : float64;
  P50Ms : float64;
  P90Ms : float64;
  P95Ms : float64;
  P99Ms : float64;
  P999Ms : float64;
  P9999Ms : float64;
  MaxMs : float64
}.

(** [Time.UnixMicro]: seconds and nanoseconds to microseconds, rounding down. *)
Definition UnixMicro (t : Z) : Z := t / 1000.

Definition toRow (s : LatencySnapshot) : tsRow :=
  let p := ls_Pct s in
  {| TUnixMicros := UnixMicro (ls_T s); Op := ls_OpType s; Throughput := ls_Throughput s; InFlight := ls_InFlight s;
     row_Errors := ls_Errors s; Count := pct_Count p; MeanMs := pct_Mean p; P50Ms := pct_P50 p; P90Ms := pct_P90 p;
     P95Ms := pct_P95 p; P99Ms := pct_P99 p; P999Ms := pct_P999 p; P9999Ms := pct_P9999 p; MaxMs := pct_Max p |}.

Definition fromRow (r : tsRow) : LatencySnapshot :=
  {| ls_T := TUnixMicros r * 1000; ls_OpType := Op r; ls_Throughput := Throughput r; ls_InFlight := InFlight r;
     ls_Errors := row_Errors r;
     ls_Pct := {| pct_Count := Count r; pct_Mean := MeanMs r; pct_P50 := P50Ms r; pct_P90 := P90Ms r; pct_P95 := P95Ms r;
                  pct_P99 := P99Ms r; pct_P999 := P999Ms r; pct_P9999 := P9999Ms r; pct_Max := MaxMs r |} |}.

(** The encoders of a run's artifacts. *)
Record codecs := {
  c_manifest : codec Manifest;
  c_summary : codec RunResult;
  c_verify : codec VerifyReport;
  c_snapshot : codec LatencySnapshot;
  c_rows : codec (list tsRow)
}.

Section store.
Variable cs : codecs.
Variable suffix : string.

Definition WriteManifest (p : Paths) (m : Manifest) := writeJSON (c_manifest cs) suffix (Manifest_json p) m.
Definition ReadManifest (p : Paths) := readJSON (c_manifest cs) (Manifest_json p).
Definition WriteSummary (p : Paths) (r : RunResult) := writeJSON (c_summary cs) suffix (Summary p) r.
Definition ReadSummary (p : Paths) := readJSON (c_summary cs) (Summary p).
Definition WriteVerify (p : Paths) (v : VerifyReport) := writeJSON (c_verify cs) suffix (VerifyJSON p) v.
Definition ReadVerify (p : Paths) := readJSON (c_verify cs) (VerifyJSON p).

(** [Encoder.Encode] appends a newline to each object. *)
Fixpoint encode_lines (snaps : list LatencySnapshot) (buf : bytes) : result error bytes :=
  match snaps with
  | [] => Ok buf
  | s :: snaps => match marshal (c_snapshot cs) s with
                  | Err e => Err e
                  | Ok b => encode_lines snaps (buf ++ b ++ [Byte.x0a])
                  end
  end.

Definition WriteTimeseriesNDJSON (p : Paths) (snaps : list LatencySnapshot) (w : world) : world * option error :=
  match encode_lines snaps [] with
  | Err e => (w, Some e)
  | Ok data => writeAtomic suffix (TimeseriesNDJSON p) data w
  end.

Definition WriteTimeseriesParquet (p : Paths) (snaps : list LatencySnapshot) (w : world) : world * option error :=
  writeJSON (c_rows cs) suffix (TimeseriesParquet p) (toRow <$> snaps) w.

Definition ReadTimeseriesParquet (p : Paths) (w : world) : world * result error (list LatencySnapshot) :=
  match readJSON (c_rows cs) (TimeseriesParquet p) w with
  | (w, Err e) => (w, Err e)
  | (w, Ok rows) => (w, Ok (fromRow <$> rows))
  end.
End store.

(** A snapshot with its time rounded down to a microsecond. *)
Definition to_micros (s : LatencySnapshot) : LatencySnapshot :=
  {| ls_T := ls_T s - ls_T s mod 1000; ls_OpType := ls_OpType s; ls_Throughput := ls_Throughput s;
     ls_InFlight := ls_InFlight s; ls_Errors := ls_Errors s; ls_Pct := ls_Pct s |}.

Lemma fromRow_toRow s : fromRow (toRow s) = to_micros s.
Proof.
  destruct s as [T op thr inf errs []]. unfold fromRow, toRow, to_micros, UnixMicro. cbn -[Z.mul]. f_equal.
  pose proof (Z.div_mod T 1000). lia.
Qed.

Lemma temp_name_hidden path suffix q :
  slash ∉ txt suffix -> (forall t, last_component q <> "."%char :: t) -> q <> temp_name path suffix.
Proof. intros Hs Hl ->. rewrite last_component_temp in Hl by done. by eapply Hl. Qed.

(** ** Correctness *)

(** C9: an atomic write is all or nothing: in every file system it passes
    through, whatever calls fail, a crash leaves at the destination a content
    that was there before or the new one in full; success means the new content
    is there, a failed write leaves the destination untouched. *)
Theorem writeAtomic_crash_safe A suffix path data w w' r :
  slash ∉ txt suffix -> fs_wf (w_fs w) -> durable A (w_fs w) path -> w_trace w = [] ->
  writeAtomic suffix path data w = (w', r) ->
  (forall s s', s ∈ w_fs w' :: w_trace w' -> crash s s' -> A (content s' path) \/ content s' path = Some data) /\
  (r = None -> content (w_fs w') path = Some data) /\
  (r <> None -> content (w_fs w') path = content (w_fs w) path).
Proof.
  intros Hs Hw Hd Ht E. assert (Hne : path <> temp_name path suffix) by (apply temp_name_other; [done|lia]).
  set (B := fun o => A o \/ o = Some data).
  assert (HB : durable B (w_fs w) path) by (eapply durable_weaken; [|exact Hd]; by left).
  destruct (writeAtomic_spec B path suffix path data w w' r Hne Hw HB ltac:(by right) E) as (l & El & Fl & _ & D & C & C').
  split_and!; [|intros ->; apply C; [done|by apply not_eq_sym]|intros Hr; apply C'; by left].
  intros s s' Hin Hc. rewrite El, Ht, app_nil_r in Hin. apply (durable_crash B s); [|done].
  apply elem_of_cons in Hin as [->|Hin]; [done|]. rewrite Forall_forall in Fl. by apply Fl.
Qed.

Section run_directory.
Variables (base target : string) (id : RunID) (suffix : string).
Hypothesis suffix_ok : slash ∉ txt suffix.
Let p := Layout base target id.

(** A run directory nobody else writes to. *)
Definition owned (w : world) : Prop := fs_wf (w_fs w) /\ forall q, q ∈ artifact_paths p -> durable (fun _ => True) (w_fs w) q.

Lemma artifact_not_temp q path : q ∈ artifact_paths p -> q <> temp_name path suffix.
Proof.
  intros Hq. apply temp_name_hidden; [done|]. apply (list_elem_of_fmap_2 last_component) in Hq.
  unfold p in Hq. rewrite Layout_names in Hq.
  intros t E. rewrite E in Hq.
  repeat (apply elem_of_cons in Hq as [Hq|Hq]; [discriminate Hq|]). by apply elem_of_nil in Hq.
Qed.

Lemma writeAtomic_owned path data w w' :
  path ∈ artifact_paths p -> owned w -> writeAtomic suffix path data w = (w', None) ->
  owned w' /\ content (w_fs w') path = Some data /\
  forall q, q ∈ artifact_paths p -> q <> path -> content (w_fs w') q = content (w_fs w) q.
Proof.
  intros Hp [Hw Ho] E.
  assert (Hs : forall q, q ∈ artifact_paths p -> _) by
    (intros q Hq; exact (writeAtomic_spec (fun _ => True) q suffix path data w w' None (artifact_not_temp q path Hq) Hw (Ho q Hq) (fun _ => I) E)).
  destruct (Hs path Hp) as (l & _ & _ & W & _ & C & _).
  split; [split; [done|]|split; [apply C; [done|]; by apply not_eq_sym, artifact_not_temp|]].
  - intros q Hq. by destruct (Hs q Hq) as (? & _ & _ & _ & D & _).
  - intros q Hq Hne. destruct (Hs q Hq) as (? & _ & _ & _ & _ & _ & C'). apply C'. by right.
Qed.

(** A file holding a marshalled value. *)
Definition holds {T} (c : codec T) (q : string) (x : T) (w : world) : Prop :=
  exists b, marshal c x = Ok b /\ content (w_fs w) q = Some b.

Lemma writeJSON_owned {T} (c : codec T) path x w w' :
  path ∈ artifact_paths p -> owned w -> writeJSON c suffix path x w = (w', None) ->
  owned w' /\ holds c path x w' /\
  forall q, q ∈ artifact_paths p -> q <> path -> content (w_fs w') q = content (w_fs w) q.
Proof.
  intros Hp Ho. unfold writeJSON. destruct (marshal c x) as [b|e] eqn:Em; [|done]. intros E.
  destruct (writeAtomic_owned path b w w' Hp Ho E) as (H1 & H2 & H3). split; [done|]. split; [by exists b|done].
Qed.

Lemma holds_kept {T} (c : codec T) q x w w' :
  content (w_fs w') q = content (w_fs w) q -> holds c q x w -> holds c q x w'.
Proof. intros E (b & Hb & Hc). exists b. by rewrite E. Qed.

Lemma readJSON_holds {T} (c : codec T) q x w :
  codec_ok c x -> w_faults w = [] -> holds c q x w -> (readJSON c q w).2 = Ok x.
Proof.
  intros Hc Hf (b & Hb & Hq). unfold readJSON, ReadFile, next_fault. rewrite Hf, Hq. cbn. by apply Hc.
Qed.
End run_directory.

Ltac in_artifacts := unfold artifact_paths; repeat first [left | right].

(** C10: when the five writers of a run's results report success, whatever was
    written in between, the readers return what was written: the manifest, the
    summary, the verification report, and the time series with its times rounded
    down to microseconds. *)
Theorem artifacts_roundtrip cs base target id suffix m s snaps v w0 w1 w2 w3 w4 w5 :
  codec_ok (c_manifest cs) m -> codec_ok (c_summary cs) s -> codec_ok (c_rows cs) (toRow <$> snaps) ->
  codec_ok (c_verify cs) v ->
  slash ∉ txt suffix -> owned base target id w0 ->
  let p := Layout base target id in
  WriteManifest cs suffix p m w0 = (w1, None) ->
  WriteSummary cs suffix p s w1 = (w2, None) ->
  WriteTimeseriesNDJSON cs suffix p snaps w2 = (w3, None) ->
  WriteTimeseriesParquet cs suffix p snaps w3 = (w4, None) ->
  WriteVerify cs suffix p v w4 = (w5, None) ->
  w_faults w5 = [] ->
  (ReadManifest cs p w5).2 = Ok m /\ (ReadSummary cs p w5).2 = Ok s /\
  (ReadTimeseriesParquet cs p w5).2 = Ok (to_micros <$> snaps) /\ (ReadVerify cs p w5).2 = Ok v.
Proof.
  intros Cm Cs Cr Cv Hs Ho p E1 E2 E3 E4 E5 Hf.
  assert (Im : Manifest_json p ∈ artifact_paths p) by in_artifacts.
  assert (Is : Summary p ∈ artifact_paths p) by in_artifacts.
  assert (In : TimeseriesNDJSON p ∈ artifact_paths p) by in_artifacts.
  assert (Ip : TimeseriesParquet p ∈ artifact_paths p) by in_artifacts.
  assert (Iv : VerifyJSON p ∈ artifact_paths p) by in_artifacts.
  destruct (Layout_components base target id) as (Nm & Ns & Nn & Np & _ & Nv & _). fold p in Nm, Ns, Nn, Np, Nv.
  assert (Hne : forall q q', last_component q <> last_component q' -> q <> q') by congruence.
  destruct (writeJSON_owned base target id suffix Hs _ _ _ _ _ Im Ho E1) as (O1 & M1 & K1).
  destruct (writeJSON_owned base target id suffix Hs _ _ _ _ _ Is O1 E2) as (O2 & M2 & K2).
  unfold WriteTimeseriesNDJSON in E3. destruct (encode_lines cs snaps []) as [nd|e]; [|done].
  destruct (writeAtomic_owned base target id suffix Hs _ _ _ _ In O2 E3) as (O3 & _ & K3).
  destruct (writeJSON_owned base target id suffix Hs _ _ _ _ _ Ip O3 E4) as (O4 & M4 & K4).
  destruct (writeJSON_owned base target id suffix Hs _ _ _ _ _ Iv O4 E5) as (O5 & M5 & K5).
  fold p in K1, K2, K3, K4, K5.
  split_and!.
  - apply readJSON_holds; [done..|]. eapply holds_kept; [|exact M1].
    by rewrite K5, K4, K3, K2 by (done || (apply Hne; rewrite ?Nm, ?Ns, ?Nn, ?Np, ?Nv; discriminate)).
  - apply readJSON_holds; [done..|]. eapply holds_kept; [|exact M2].
    by rewrite K5, K4, K3 by (done || (apply Hne; rewrite ?Nm, ?Ns, ?Nn, ?Np, ?Nv; discriminate)).
  - assert (Hr : (readJSON (c_rows cs) (TimeseriesParquet p) w5).2 = Ok (toRow <$> snaps)).
    { apply readJSON_holds; [done..|]. eapply holds_kept; [|exact M4]. by rewrite K5 by (done || (apply Hne; rewrite ?Nm, ?Ns, ?Nn, ?Np, ?Nv; discriminate)). }
    unfold ReadTimeseriesParquet. destruct (readJSON _ _ w5) as [w6 r]; cbn in Hr |- *. subst r. cbn. f_equal.
    rewrite <- list_fmap_compose. apply list_fmap_ext. intros i x _. apply fromRow_toRow.
  - by apply readJSON_holds.
Qed.

(** ** Witnesses *)

#[local] Instance spec_float_eq_dec : EqDecision float64.
Proof. solve_decision. Defined.
#[local] Instance any_eq_dec : EqDecision any.
Proof. solve_decision. Defined.
#[local] Instance ClusterSpec_eq_dec : EqDecision ClusterSpec.
Proof. solve_decision. Defined.
#[local] Instance RateSpec_eq_dec : EqDecision RateSpec.
Proof. solve_decision. Defined.
#[local] Instance Fault_eq_dec : EqDecision Fault.
Proof. solve_decision. Defined.
#[local] Instance FaultSpec_eq_dec : EqDecision FaultSpec.
Proof. solve_decision. Defined.
#[local] Instance ClientInfo_eq_dec : EqDecision ClientInfo.
Proof. solve_decision. Defined.
#[local] Instance Manifest_eq_dec : EqDecision Manifest.
Proof. solve_decision. Defined.
#[local] Instance Percentiles_eq_dec : EqDecision Percentiles.
Proof. solve_decision. Defined.
#[local] Instance RunResult_eq_dec : EqDecision RunResult.
Proof. solve_decision. Defined.
#[local] Instance Anomaly_eq_dec : EqDecision Anomaly.
Proof. solve_decision. Defined.
#[local] Instance VerifyReport_eq_dec : EqDecision VerifyReport.
Proof. solve_decision. Defined.
#[local] Instance LatencySnapshot_eq_dec : EqDecision LatencySnapshot.
Proof. solve_decision. Defined.
#[local] Instance tsRow_eq_dec : EqDecision tsRow.
Proof. solve_decision. Defined.

(** An encoder that knows a list of values and writes a value's position. *)
Definition table_codec {T} `{EqDecision T} (known : list T) : codec T := {|
  marshal x := match list_find (eq x) known with
               | Some (i, _) => Ok (replicate i Byte.x01)
               | None => Err "unsupported value"%string
               end;
  unmarshal b := match known !! length b with Some x => Ok x | None => Err "unexpected end"%string end
|}.

Lemma table_codec_ok {T} `{EqDecision T} (known : list T) x : codec_ok (table_codec known) x.
Proof.
  intros b. cbn. destruct (list_find (eq x) known) as [[i y]|] eqn:E; [|done]. intros [= <-].
  apply list_find_Some in E as (Hi & -> & _). by rewrite length_replicate, Hi.
Qed.

(** A results directory with a file of an earlier run. *)
Definition old_fs : fs := {|
  fs_names := {[ "results/latest.json"%string := 0 ]};
  fs_inodes := {[ 0 := {| i_data := [Byte.x61]; i_synced := true |} ]};
  fs_next := 1;
  fs_past := []
|}.

Definition world_of (faults : list (option nat)) : world := {| w_fs := old_fs; w_faults := faults; w_trace := [] |}.

Lemma old_fs_entries names : names ∈ entries old_fs -> names = {[ "results/latest.json"%string := 0 ]}.
Proof. intros [->|H]%elem_of_cons; [done|by apply elem_of_nil in H]. Qed.

Lemma old_fs_wf : fs_wf old_fs.
Proof. intros names q i ->%old_fs_entries [_ <-]%lookup_singleton_Some. cbn. lia. Qed.

(** A short write after five bytes leaves the old file, a good one replaces it. *)
Lemma writeAtomic_crash_safe_witness :
  (content (w_fs (writeAtomic "7" "results/latest.json" [Byte.x62; Byte.x63] (world_of [None; None; Some 1%nat])).1)
     "results/latest.json" = Some [Byte.x61]) /\
  (content (w_fs (writeAtomic "7" "results/latest.json" [Byte.x62; Byte.x63] (world_of [])).1)
     "results/latest.json" = Some [Byte.x62; Byte.x63]).
Proof.
  assert (Hd : durable (eq (Some [Byte.x61])) old_fs "results/latest.json").
  { intros names ->%old_fs_entries. rewrite lookup_singleton_eq. by exists [Byte.x61]. }
  assert (Hs : slash ∉ txt "7") by (apply (bool_decide_unpack _); vm_compute; exact I).
  split.
  - destruct (writeAtomic "7" "results/latest.json" [Byte.x62; Byte.x63] (world_of [None; None; Some 1%nat])) as [w' r] eqn:E.
    destruct (writeAtomic_crash_safe (eq (Some [Byte.x61])) _ _ _ (world_of _) _ _ Hs old_fs_wf Hd eq_refl E) as (_ & _ & H).
    assert (Hr : r <> None) by (vm_compute in E; injection E as _ <-; discriminate). exact (H Hr).
  - destruct (writeAtomic "7" "results/latest.json" [Byte.x62; Byte.x63] (world_of [])) as [w' r] eqn:E.
    destruct (writeAtomic_crash_safe (eq (Some [Byte.x61])) _ _ _ (world_of _) _ _ Hs old_fs_wf Hd eq_refl E) as (_ & H & _).
    assert (Hr : r = None) by (vm_compute in E; injection E as _ <-; reflexivity). exact (H Hr).
Defined.

Definition some_percentiles : Percentiles := {|
  pct_Count := 3; pct_Mean := float_of_int 2; pct_P50 := float_of_int 2; pct_P90 := float_of_int 3; pct_P95 := float_of_int 3;
  pct_P99 := float_of_int 3; pct_P999 := float_of_int 3; pct_P9999 := float_of_int 3; pct_Max := float_of_int 3
|}.

Definition some_manifest : Manifest := {|
  mf_RunID := "redis-1"; mf_Target := "redis"; mf_TargetVersion := "7"; mf_Workload := "mixed"; mf_TestType := TestLoad;
  mf_Mode := ModePerformance; mf_Rate := {| rate_Mode := RateFixed; rate_OpsPerSec := 5000 |}; mf_Duration := 60 * second;
  mf_Warmup := 0; mf_Connections := 8; mf_Seed := 42; mf_Trials := 1; mf_Consistency := "";
  mf_Cluster := {| cs_Nodes := []; cs_ReplicationFactor := 1; cs_Consistency := [] |}; mf_Faults := [];
  mf_EngineVersion := "0.1.0-dev"; mf_GitSHA := ""; mf_Client := ClientInfo_zero; mf_Labels := ∅; mf_CreatedAt := 1700000000 * second
|}.

Definition some_summary : RunResult := {|
  rr_RunID := "redis-1"; rr_Phase := PhaseMeasure; rr_Total := 3; rr_Errors := 0; rr_Duration := 60 * second;
  rr_Throughput := float_of_int 1; rr_Overall := some_percentiles; rr_ByOp := ∅; rr_ClientBound := false
|}.

Definition some_report : VerifyReport := {|
  vr_Model := VerifyReconciliation; vr_Verdict := VerdictPass; vr_Anomalies := []; vr_Checked := 3; vr_Lost := 0;
  vr_Duplicated := 0; vr_OrderingViol := 0; vr_ConvergedIn := 0; vr_MaxStaleness := 0; vr_Extra := ∅
|}.

Definition some_snapshots : list LatencySnapshot :=
  [ {| ls_T := 1700000000 * second + 123456789; ls_OpType := "get"; ls_Throughput := float_of_int 3; ls_InFlight := 1;
       ls_Errors := 0; ls_Pct := some_percentiles |} ].

Definition some_codecs : codecs := {|
  c_manifest := table_codec [some_manifest];
  c_summary := table_codec [some_summary];
  c_verify := table_codec [some_report];
  c_snapshot := table_codec some_snapshots;
  c_rows := table_codec [toRow <$> some_snapshots]
|}.

Lemma world_owned : owned "." "redis" "redis-1" (world_of []).
Proof.
  split; [exact old_fs_wf|]. intros q Hq names ->%old_fs_entries.
  destruct ({[ "results/latest.json"%string := 0 ]} !! q) as [i|] eqn:E; [|done].
  apply lookup_singleton_Some in E as [<- <-]. by exists [Byte.x61].
Qed.

Lemma artifacts_roundtrip_witness :
  exists w, (ReadManifest some_codecs (Layout "." "redis" "redis-1") w).2 = Ok some_manifest /\
    (ReadTimeseriesParquet some_codecs (Layout "." "redis" "redis-1") w).2 = Ok (to_micros <$> some_snapshots).
Proof.
  set (p := Layout "." "redis" "redis-1").
  assert (Hok : forall o : world * option error, o.2 = None -> o = (o.1, None)) by (intros [o1 o2] H; cbn in H; by subst).
  pose proof (Hok (WriteManifest some_codecs "7" p some_manifest (world_of [])) ltac:(vm_compute; reflexivity)) as E1.
  set (w1 := (WriteManifest _ _ _ _ _).1) in E1.
  pose proof (Hok (WriteSummary some_codecs "7" p some_summary w1) ltac:(vm_compute; reflexivity)) as E2.
  set (w2 := (WriteSummary _ _ _ _ _).1) in E2.
  pose proof (Hok (WriteTimeseriesNDJSON some_codecs "7" p some_snapshots w2) ltac:(vm_compute; reflexivity)) as E3.
  set (w3 := (WriteTimeseriesNDJSON _ _ _ _ _).1) in E3.
  pose proof (Hok (WriteTimeseriesParquet some_codecs "7" p some_snapshots w3) ltac:(vm_compute; reflexivity)) as E4.
  set (w4 := (WriteTimeseriesParquet _ _ _ _ _).1) in E4.
  pose proof (Hok (WriteVerify some_codecs "7" p some_report w4) ltac:(vm_compute; reflexivity)) as E5.
  set (w5 := (WriteVerify _ _ _ _ _).1) in E5.
  assert (Hf : w_faults w5 = []) by (vm_compute; reflexivity). exists w5.
  assert (Hs : slash ∉ txt "7") by (apply (bool_decide_unpack _); vm_compute; exact I).
  destruct (artifacts_roundtrip some_codecs "." "redis" "redis-1" "7" some_manifest some_summary some_snapshots some_report
    _ _ _ _ _ _ (table_codec_ok _ _) (table_codec_ok _ _) (table_codec_ok _ _) (table_codec_ok _ _) Hs world_owned E1 E2 E3 E4 E5 Hf)
    as (H1 & _ & H3 & _). exact (conj H1 H3).
Defined.
