(* ===== verification/Export.v ===== *)
(** * Export: pushing snapshots to a time-series database (core/export)

    The InfluxDB line protocol and the Prometheus text exposition the exporters
    write, and readers of both formats by their rules, against which what is
    written is checked.  Sending the body is a class. *)

From Stdlib Require Import Ascii String.
From S2P Require Import Prelude Domain Strconv Ftoa Expect Metrics Targets Provision.

Local Open Scope Z_scope.

Definition backslash : ascii := ascii_of_nat 92.

(** [strings.NewReplacer] on single characters. *)
Definition replace (f : ascii -> text) (t : text) : text := t ≫= f.

(** ** influx.go *)

Definition measurement : string := "proofload_latency".

Definition sortedKeys (m : gmap string string) : list string := sorted_ops m.

Definition escapeInfluxTag (s : string) : text :=
  replace (fun c => if existsb (Ascii.eqb c) (txt ",= ") then [backslash; c] else [c]) (txt s).

Definition f (v : float64) : text := FormatFloat_g v.
Definition i (v : Z) : text := FormatInt v ++ txt "i".

(** The caller's labels over the operation's. *)
Definition op_tags (op : string) (labels : gmap string string) : gmap string string := labels ∪ {[ "op"%string := op ]}.

Definition writeInfluxTags (op : string) (labels : gmap string string) : text :=
  let tags := op_tags op labels in
  mjoin ((fun k => txt "," ++ escapeInfluxTag k ++ txt "=" ++ escapeInfluxTag (default ""%string (tags !! k))) <$> sortedKeys tags).

Definition influx_fields (s : LatencySnapshot) : list (string * text) :=
  let p := ls_Pct s in
  [("p50", f (pct_P50 p)); ("p90", f (pct_P90 p)); ("p95", f (pct_P95 p)); ("p99", f (pct_P99 p));
   ("p999", f (pct_P999 p)); ("p9999", f (pct_P9999 p)); ("mean", f (pct_Mean p)); ("max", f (pct_Max p));
   ("throughput", f (ls_Throughput s)); ("count", i (pct_Count p)); ("in_flight", i (ls_InFlight s));
   ("errors", i (ls_Errors s))]%string.

Definition writeInfluxFields (s : LatencySnapshot) : text :=
  join_text (txt ",") ((fun '(n, v) => txt n ++ txt "=" ++ v) <$> influx_fields s).

(** [Time.UnixNano] wraps around outside the years 1678 to 2262. *)
Definition writeInfluxLine (s : LatencySnapshot) (labels : gmap string string) : text :=
  txt measurement ++ writeInfluxTags (ls_OpType s) labels ++ txt " " ++ writeInfluxFields s ++ txt " " ++
  FormatInt (wrap64 (ls_T s)) ++ [newline].

Definition influx_body (snaps : list LatencySnapshot) (labels : gmap string string) : text :=
  mjoin ((fun s => writeInfluxLine s labels) <$> snaps).

(** ** pushgateway.go *)

Definition metricLatency : string := "proofload_latency_ms".
Definition metricLatencyMax : string := "proofload_latency_max_ms".
Definition metricThroughput : string := "proofload_throughput".
Definition metricInFlight : string := "proofload_in_flight".
Definition metricErrors : string := "proofload_errors".

Definition quantiles : list (string * (Percentiles -> float64)) :=
  [("0.5", pct_P50); ("0.9", pct_P90); ("0.95", pct_P95); ("0.99", pct_P99); ("0.999", pct_P999); ("0.9999", pct_P9999)]%string.

Definition byOp (snaps : list LatencySnapshot) : gmap OpType LatencySnapshot :=
  foldl (fun m s => <[ls_OpType s := s]> m) ∅ snaps.

Definition latestPerOp (snaps : list LatencySnapshot) : list LatencySnapshot :=
  omap (fun op => byOp snaps !! op) (sorted_ops (byOp snaps)).

Definition escapePromLabelValue (s : string) : text :=
  replace (fun c => if Ascii.eqb c backslash then [backslash; backslash]
                    else if Ascii.eqb c dquote then [backslash; dquote]
                    else if Ascii.eqb c newline then [backslash; "n"%char] else [c]) (txt s).

Definition label_set (op : string) (labels : gmap string string) (quantile : string) : gmap string string :=
  let set := op_tags op labels in
  if nonempty quantile then <["quantile"%string := quantile]> set else set.

Definition promLabels (op : string) (labels : gmap string string) (quantile : string) : text :=
  let set := label_set op labels quantile in
  txt "{" ++
  join_text (txt ",")
    ((fun k => txt k ++ txt "=" ++ [dquote] ++ escapePromLabelValue (default ""%string (set !! k)) ++ [dquote]) <$> sortedKeys set) ++
  txt "}".

Definition sample_line (name : string) (labels value : text) : text := txt name ++ labels ++ txt " " ++ value ++ [newline].
Definition type_line (name : string) : text := txt "# TYPE " ++ txt name ++ txt " gauge" ++ [newline].

Definition writeQuantileFamily (snaps : list LatencySnapshot) (labels : gmap string string) : text :=
  type_line metricLatency ++
  mjoin ((fun s => mjoin ((fun '(q, value) => sample_line metricLatency (promLabels (ls_OpType s) labels q) (f (value (ls_Pct s)))) <$> quantiles)) <$> snaps).

Definition writeScalarFamily (name : string) (snaps : list LatencySnapshot) (labels : gmap string string)
    (val : LatencySnapshot -> text) : text :=
  type_line name ++ mjoin ((fun s => sample_line name (promLabels (ls_OpType s) labels "") (val s)) <$> snaps).

Definition buildExposition (snaps : list LatencySnapshot) (labels : gmap string string) : text :=
  writeQuantileFamily snaps labels ++
  writeScalarFamily metricLatencyMax snaps labels (fun s => f (pct_Max (ls_Pct s))) ++
  writeScalarFamily metricThroughput snaps labels (fun s => f (ls_Throughput s)) ++
  writeScalarFamily metricInFlight snaps labels (fun s => FormatInt (ls_InFlight s)) ++
  writeScalarFamily metricErrors snaps labels (fun s => FormatInt (ls_Errors s)).

(** ** export.go *)

(** [http.NewRequestWithContext] checks the URL; [client.Do] answers a status code
    with its text. *)
Class Http (W : Type) := {
  new_request : string -> option error;
  do_post : string -> string -> text -> W -> W * result error (Z * string);
  close_idle : W -> W
}.

Record Exporter (W : Type) := {
  Export : list LatencySnapshot -> gmap string string -> W -> W * option error;
  exporter_Close : W -> W * option error
}.
Arguments Export {W} _ _ _ _.
Arguments exporter_Close {W} _ _.

Section exporters.
Context {W : Type} {H : Http W}.

Definition postBody (url contentType : string) (body : text) (w : W) : W * option error :=
  match new_request url with
  | Some e => (w, Some ("export: build request: " +:+ e))
  | None =>
      match do_post url contentType body w with
      | (w, Err e) => (w, Some ("export: post to " +:+ url +:+ ": " +:+ e))
      | (w, Ok (code, status)) =>
          (w, if (code <? 200) || (300 <=? code) then Some ("export: " +:+ url +:+ " returned " +:+ status) else None)
      end
  end.

Definition close_exporter (w : W) : W * option error := (close_idle w, None).

Definition NewInflux (writeURL : string) : Exporter W := {|
  Export snaps labels w :=
    match snaps with
    | [] => (w, None)
    | _ => postBody writeURL "text/plain; charset=utf-8" (influx_body snaps labels) w
    end;
  exporter_Close := close_exporter
|}.

(** [strings.TrimRight(s, "/")]. *)
Fixpoint drop_slashes (t : text) : text :=
  match t with
  | c :: t' => if Ascii.eqb c slash then drop_slashes t' else t
  | [] => []
  end.

Definition pushURL (baseURL job : string) : string :=
  str (rev (drop_slashes (rev (txt baseURL)))) +:+ "/metrics/job/" +:+ job.

Definition NewPushgateway (baseURL job : string) : Exporter W := {|
  Export snaps labels w :=
    match snaps with
    | [] => (w, None)
    | _ => postBody (pushURL baseURL job) "text/plain; version=0.0.4" (buildExposition (latestPerOp snaps) labels) w
    end;
  exporter_Close := close_exporter
|}.

Definition defaultJob : string := "proofload".

Definition New (kind url : string) : result error (Exporter W) :=
  if String.eqb kind "influx" then Ok (NewInflux url)
  else if String.eqb kind "pushgateway" then Ok (NewPushgateway url defaultJob)
  else Err ("export: unknown kind " +:+ str (quoted (txt kind)) +:+ " (want " +:+ str (quoted (txt "influx")) +:+ " or " +:+
            str (quoted (txt "pushgateway")) +:+ ")").
End exporters.

(** ** Readers *)

(** [strings.Cut] at a character. *)
Fixpoint cut (c : ascii) (t : text) : option (text * text) :=
  match t with
  | [] => None
  | x :: t' => if Ascii.eqb x c then Some ([], t') else '(a, b) ← cut c t'; Some (x :: a, b)
  end.

Definition special (c : ascii) : bool := existsb (Ascii.eqb c) (txt ",= ").

(** A measurement, tag key or tag value of the line protocol ends at an unescaped
    comma, equals sign or space; a backslash escapes only those. *)
Fixpoint take_tag (t : text) : text * text :=
  match t with
  | [] => ([], [])
  | c :: t1 =>
      if special c then ([], t)
      else
        match t1 with
        | d :: t2 =>
            if Ascii.eqb c backslash && special d then let '(a, b) := take_tag t2 in (d :: a, b)
            else let '(a, b) := take_tag t1 in (c :: a, b)
        | [] => ([c], [])
        end
  end.

Fixpoint read_tags (fuel : nat) (t : text) : option (list (string * string) * text) :=
  match fuel with
  | O => None
  | S fuel =>
      match strip (txt ",") t with
      | None => Some ([], t)
      | Some t1 =>
          let '(k, t2) := take_tag t1 in
          t3 ← strip (txt "=") t2;
          let '(v, t4) := take_tag t3 in
          '(l, t5) ← read_tags fuel t4;
          Some ((str k, str v) :: l, t5)
      end
  end.

Record point := { pt_name : string; pt_tags : gmap string string; pt_fields : list (text * text); pt_time : Z }.

Definition read_line (t : text) : option point :=
  let '(m, t1) := take_tag t in
  '(tags, t2) ← read_tags (S (length t)) t1;
  t3 ← strip (txt " ") t2;
  '(fields, t4) ← cut " " t3;
  fs ← mapM (cut "=") (split_on "," fields []);
  time ← ParseInt t4;
  Some {| pt_name := str m; pt_tags := list_to_map tags; pt_fields := fs; pt_time := time |}.

(** The lines of a body, each ended by a newline. *)
Definition body_lines (t : text) : list text := removelast (split_on newline t []).

Definition read_points (t : text) : option (list point) := mapM read_line (body_lines t).

(** A quoted label value of the exposition format. *)
Fixpoint take_value (t : text) : option (text * text) :=
  match t with
  | [] => None
  | c :: t1 =>
      if Ascii.eqb c dquote then Some ([], t1)
      else if Ascii.eqb c backslash then
        match t1 with
        | d :: t2 => '(a, b) ← take_value t2; Some ((if Ascii.eqb d "n" then newline else d) :: a, b)
        | [] => None
        end
      else '(a, b) ← take_value t1; Some (c :: a, b)
  end.

Definition word_char (c : ascii) : bool :=
  let n := nat_of_ascii c in
  ((48 <=? n) && (n <=? 57) || (65 <=? n) && (n <=? 90) || (97 <=? n) && (n <=? 122) || (n =? 95))%nat.

(** A label's name: letters, digits and underscores, no digit first. *)
Definition label_name (t : text) : bool :=
  match t with c :: _ => negb (is_digit c) && forallb word_char t | [] => false end.

Fixpoint read_labels (fuel : nat) (t : text) : option (list (string * string) * text) :=
  match fuel with
  | O => None
  | S fuel =>
      '(k, t1) ← cut "=" t;
      _ ← (if label_name k then Some tt else None);
      t2 ← strip [dquote] t1;
      '(v, t3) ← take_value t2;
      match strip (txt ",") t3 with
      | Some t4 => '(l, t5) ← read_labels fuel t4; Some ((str k, str v) :: l, t5)
      | None => t4 ← strip (txt "}") t3; Some ([(str k, str v)], t4)
      end
  end.

Record sample := { sm_name : string; sm_labels : gmap string string; sm_value : text }.

Definition read_sample (t : text) : option sample :=
  '(name, t1) ← cut "{" t;
  '(l, t2) ← read_labels (length t) t1;
  v ← strip (txt " ") t2;
  Some {| sm_name := str name; sm_labels := list_to_map l; sm_value := v |}.

Definition is_comment (t : text) : bool := match t with c :: _ => Ascii.eqb c "#" | [] => false end.

Definition read_exposition (t : text) : option (list sample) :=
  mapM read_sample (List.filter (fun l => negb (is_comment l)) (body_lines t)).

(** ** Reading back what is written *)

Lemma sorted_keys_map (m : gmap string string) :
  list_to_map ((fun k => (k, default ""%string (m !! k))) <$> sortedKeys m) = m.
Proof.
  assert (Hp : (fun k => (k, default ""%string (m !! k))) <$> sortedKeys m ≡ₚ map_to_list m).
  { unfold sortedKeys, sorted_ops. rewrite (sort_by_perm String.leb). change (map fst (map_to_list m)) with (fst <$> map_to_list m).
    rewrite <- list_fmap_compose. etrans; [|apply reflexive_eq, list_fmap_id]. apply reflexive_eq, list_fmap_ext.
    intros j [k v] Hj. cbn. apply list_elem_of_lookup_2, elem_of_map_to_list in Hj. by rewrite Hj. }
  etrans; [apply list_to_map_proper; [|exact Hp]|apply list_to_map_to_list].
  rewrite Hp. apply NoDup_fst_map_to_list.
Qed.

Lemma sorted_keys_dom (m : gmap string string) k : k ∈ sortedKeys m <-> is_Some (m !! k).
Proof. apply sorted_ops_spec. Qed.

(** A tag the line protocol can carry: the writer leaves newlines alone, and a
    backslash at the end would escape the separator that follows. *)
Definition tag_ok (s : string) : Prop := (newline ∉ txt s) /\ last (txt s) <> Some backslash.

Lemma special_not_backslash c : special c = true -> Ascii.eqb c backslash = false.
Proof. destruct c as [[] [] [] [] [] [] [] []]; vm_compute; congruence. Qed.

Definition tag_char (c : ascii) : text := if special c then [backslash; c] else [c].

Lemma take_tag_escaped d r : special d = true -> take_tag (backslash :: d :: r) = (d :: (take_tag r).1, (take_tag r).2).
Proof. intros H. cbn -[special]. change (special backslash) with false. rewrite H. by destruct (take_tag r). Qed.

Lemma take_tag_literal c d r :
  special c = false -> Ascii.eqb c backslash = false \/ special d = false ->
  take_tag (c :: d :: r) = (c :: (take_tag (d :: r)).1, (take_tag (d :: r)).2).
Proof.
  intros Hc Hd. assert (E : Ascii.eqb c backslash && special d = false) by (destruct Hd as [-> | ->]; [done|apply andb_false_r]).
  cbn [take_tag]. rewrite Hc, E. by destruct (if special d then _ else _).
Qed.

Lemma take_tag_escape t c rest :
  last t <> Some backslash -> special c = true -> take_tag (replace tag_char t ++ c :: rest) = (t, c :: rest).
Proof.
  intros Hl Hc. induction t as [|x t IH].
  { change (take_tag (c :: rest) = ([], c :: rest)). cbn [take_tag]. by rewrite Hc. }
  assert (Hlt : last t <> Some backslash).
  { destruct t; [done|]. intros H. apply Hl. by rewrite last_cons_cons. }
  specialize (IH Hlt). change (replace tag_char (x :: t)) with (tag_char x ++ replace tag_char t).
  unfold tag_char at 1. destruct (special x) eqn:Ex.
  - cbn [app]. by rewrite take_tag_escaped, IH.
  - cbn [app]. destruct (replace tag_char t ++ c :: rest) as [|d r] eqn:Er; [by destruct (replace tag_char t)|].
    rewrite take_tag_literal; [by rewrite IH|done|].
    destruct (Ascii.eqb_spec x backslash) as [->|Hx]; [right|by left].
    destruct t as [|y t]; [done|]. change (replace tag_char (y :: t)) with (tag_char y ++ replace tag_char t) in Er.
    unfold tag_char in Er at 1. destruct (special y) eqn:Ey; cbn in Er; by injection Er as <- _.
Qed.

Lemma escapeInfluxTag_eq s : escapeInfluxTag s = replace tag_char (txt s).
Proof. done. Qed.

Lemma take_escaped s c rest : tag_ok s -> special c = true -> take_tag (escapeInfluxTag s ++ c :: rest) = (txt s, c :: rest).
Proof. intros [_ Hl]. by apply take_tag_escape. Qed.

Definition tag_text (kv : string * string) : text := txt "," ++ escapeInfluxTag kv.1 ++ txt "=" ++ escapeInfluxTag kv.2.

Lemma read_tags_written l fuel rest :
  Forall (fun kv => tag_ok kv.1 /\ tag_ok kv.2) l -> (length l < fuel)%nat ->
  read_tags fuel (mjoin (tag_text <$> l) ++ txt " " ++ rest) = Some (l, txt " " ++ rest).
Proof.
  intros Hl. revert fuel. induction Hl as [|[k v] l [Hk Hv] Hl IH]; intros fuel Hf; (destruct fuel as [|fuel]; [cbn in Hf; lia|]).
  - done.
  - cbn [fmap list_fmap mjoin list_join]. unfold tag_text at 1. cbn [fst snd].
    set (tail := mjoin (tag_text <$> l) ++ txt " " ++ rest).
    replace ((txt "," ++ escapeInfluxTag k ++ txt "=" ++ escapeInfluxTag v) ++ mjoin (tag_text <$> l)) with
      (txt "," ++ (escapeInfluxTag k ++ txt "=" ++ escapeInfluxTag v ++ mjoin (tag_text <$> l))) by (by rewrite !app_assoc).
    cbn [read_tags]. rewrite <- app_assoc, strip_app. rewrite <- !app_assoc. fold tail.
    change (txt "=" ++ ?r) with ("="%char :: r). rewrite take_escaped by done.
    change ("="%char :: ?r) with (txt "=" ++ r). rewrite strip_app. cbn [mbind option_bind].
    assert (Ht : exists c r, tail = c :: r /\ special c = true).
    { subst tail. destruct l as [|[k' v'] l]; [by eexists _, _|]. by eexists _, _. }
    destruct Ht as (c & r & Et & Ec). rewrite Et, take_escaped by done. rewrite <- Et. subst tail.
    rewrite IH by (cbn in Hf; lia). cbn [mbind option_bind]. by rewrite !str_txt.
Qed.

Lemma join_lines_split ls : Forall (fun l => newline ∉ l) ls -> split_on newline (unlines ls) [] = ls ++ [[]].
Proof.
  induction 1 as [|l ls Hl _ IH]; [done|]. unfold unlines. cbn [fmap list_fmap mjoin list_join].
  rewrite <- app_assoc. cbn [app]. rewrite split_on_cons by done. cbn [rev app]. by rewrite <- IH.
Qed.

Lemma body_lines_unlines ls : Forall (fun l => newline ∉ l) ls -> body_lines (unlines ls) = ls.
Proof. intros H. unfold body_lines. rewrite join_lines_split by done. apply removelast_last. Qed.

Lemma cut_at c a b : c ∉ a -> cut c (a ++ c :: b) = Some (a, b).
Proof.
  induction a as [|x a IH]; intros Ha; cbn; [by rewrite Ascii.eqb_refl|].
  apply not_elem_of_cons in Ha as [Hx Ha]. destruct (Ascii.eqb_spec x c); [congruence|]. by rewrite IH.
Qed.

(** What a numeral is free of. *)
Lemma float_free v c : float_char c = false -> c ∉ f v.
Proof.
  intros Hc Hin. pose proof (FormatFloat_g_float v) as H. unfold float_text in H. rewrite Forall_forall in H.
  specialize (H c Hin). cbn in H. congruence.
Qed.

Lemma FormatInt_free z c : is_digit c = false -> c <> "-"%char -> c ∉ FormatInt z.
Proof.
  intros Hd Hm. assert (H : forall n, 0 <= n -> c ∉ FormatUint n).
  { intros n Hn Hin. pose proof (FormatUint_digits n Hn) as F. rewrite Forall_forall in F. specialize (F c Hin). cbn in F. congruence. }
  unfold FormatInt. destruct (z <? 0) eqn:E; zbool; [apply not_elem_of_cons; split; [done|]|]; apply H; lia.
Qed.

Lemma i_free z c : is_digit c = false -> c <> "-"%char -> c <> "i"%char -> c ∉ i z.
Proof.
  intros H1 H2 H3. unfold i. rewrite elem_of_app. intros [H|H]; [by apply FormatInt_free in H|].
  apply elem_of_cons in H as [->|H]; [done|by apply elem_of_nil in H].
Qed.

(** *** Line protocol *)

(** The fields of a point: the statistics by their names. *)
Definition point_fields (s : LatencySnapshot) : list (text * text) :=
  let p := ls_Pct s in
  [(txt "p50", f (pct_P50 p)); (txt "p90", f (pct_P90 p)); (txt "p95", f (pct_P95 p)); (txt "p99", f (pct_P99 p));
   (txt "p999", f (pct_P999 p)); (txt "p9999", f (pct_P9999 p)); (txt "mean", f (pct_Mean p)); (txt "max", f (pct_Max p));
   (txt "throughput", f (ls_Throughput s)); (txt "count", i (pct_Count p)); (txt "in_flight", i (ls_InFlight s));
   (txt "errors", i (ls_Errors s))].

Definition point_of (labels : gmap string string) (s : LatencySnapshot) : point := {|
  pt_name := measurement;
  pt_tags := op_tags (ls_OpType s) labels;
  pt_fields := point_fields s;
  pt_time := wrap64 (ls_T s)
|}.

Definition labels_ok (labels : gmap string string) : Prop := forall k v, labels !! k = Some v -> tag_ok k /\ tag_ok v.

Lemma tag_ok_const s : bool_decide (newline ∉ txt s) && bool_decide (last (txt s) <> Some backslash) = true -> tag_ok s.
Proof. intros [?%bool_decide_eq_true ?%bool_decide_eq_true]%andb_true_iff. by split. Qed.

Lemma op_tags_ok op labels : tag_ok op -> labels_ok labels -> labels_ok (op_tags op labels).
Proof.
  intros Ho Hl k v. unfold op_tags. rewrite lookup_union_Some_raw. intros [H|[_ H]]; [by apply Hl|].
  apply lookup_singleton_Some in H as [<- <-]. split; [|done]. by apply tag_ok_const.
Qed.

Lemma tags_ok op labels :
  tag_ok op -> labels_ok labels ->
  Forall (fun kv => tag_ok kv.1 /\ tag_ok kv.2) ((fun k => (k, default ""%string (op_tags op labels !! k))) <$> sortedKeys (op_tags op labels)).
Proof.
  intros Ho Hl. apply Forall_fmap, Forall_forall. intros k Hk. apply sorted_keys_dom in Hk as [v Hv]. cbn. rewrite Hv.
  by apply (op_tags_ok op labels Ho Hl).
Qed.

Lemma writeInfluxTags_eq op labels :
  writeInfluxTags op labels = mjoin (tag_text <$> ((fun k => (k, default ""%string (op_tags op labels !! k))) <$> sortedKeys (op_tags op labels))).
Proof. unfold writeInfluxTags. by rewrite <- list_fmap_compose. Qed.

Lemma elem_of_replace (g : ascii -> text) c t : (forall x, c ∈ g x -> x = c) -> (c ∉ t) -> c ∉ replace g t.
Proof.
  intros Hg Ht Hin. unfold replace in Hin. apply list_elem_of_bind in Hin as (x & Hx & Hxt). by rewrite (Hg _ Hx) in Hxt.
Qed.

Lemma escaped_no_newline s : newline ∉ txt s -> newline ∉ escapeInfluxTag s.
Proof.
  apply elem_of_replace. intros x. destruct (existsb _ _); intros H; repeat (apply elem_of_cons in H as [H|H]; [done|]);
    by apply elem_of_nil in H.
Qed.

Lemma fields_text s : Forall (fun '(n, v) => forall c, c ∈ [newline; ","; " "; "="]%char -> (c ∉ txt n) /\ (c ∉ v)) (influx_fields s).
Proof.
  assert (Hc : forall c, c ∈ [newline; ","; " "; "="]%char ->
    float_char c = false /\ is_digit c = false /\ c <> "-"%char /\ c <> "i"%char).
  { intros c Hin. repeat (apply elem_of_cons in Hin as [->|Hin]; [by vm_compute|]). by apply elem_of_nil in Hin. }
  assert (Hk : forall n, forallb (fun c => negb (existsb (Ascii.eqb c) [newline; ","; " "; "="]%char)) (txt n) = true ->
    forall c, c ∈ [newline; ","; " "; "="]%char -> c ∉ txt n).
  { intros n Hn c Hin Hcn. rewrite forallb_forall in Hn. apply list_elem_of_In, Hn, negb_true_iff in Hcn.
    apply not_true_iff_false in Hcn. apply Hcn, existsb_exists. exists c. split; [by apply list_elem_of_In|apply Ascii.eqb_refl]. }
  unfold influx_fields. repeat (apply Forall_cons; split); [..|apply Forall_nil; done];
    intros c Hin; destruct (Hc c Hin) as (H1 & H2 & H3 & H4);
    (split; [by apply Hk|first [by apply float_free | by apply i_free]]).
Qed.

Lemma not_in_app {A} (x : A) a b : x ∉ a -> x ∉ b -> x ∉ a ++ b.
Proof. intros Ha Hb. rewrite elem_of_app. tauto. Qed.

Lemma not_in_const c t : forallb (fun x => negb (Ascii.eqb x c)) t = true -> c ∉ t.
Proof.
  intros H Hin. rewrite forallb_forall in H. apply list_elem_of_In, H in Hin. by rewrite Ascii.eqb_refl in Hin.
Qed.

(** Takes an append apart and closes the parts that are constants or known. *)
Ltac free_parts := repeat match goal with |- _ ∉ _ ++ _ => apply not_in_app end; try first [done | by apply not_in_const].

Lemma not_in_join_text c sep ls : c ∉ sep -> Forall (fun l => c ∉ l) ls -> c ∉ join_text sep ls.
Proof.
  intros Hs. induction 1 as [|l ls Hl Hls IH]; [by apply not_elem_of_nil|]. cbn.
  destruct ls; [done|]. free_parts.
Qed.

Lemma not_in_mjoin {A} (c : A) ls : Forall (fun l => c ∉ l) ls -> c ∉ mjoin ls.
Proof. induction 1; [by apply not_elem_of_nil|]. by apply not_in_app. Qed.

Lemma field_pieces s : Forall (fun l => forall c, c ∈ [newline; ","; " "]%char -> c ∉ l) ((fun '(n, v) => txt n ++ txt "=" ++ v) <$> influx_fields s).
Proof.
  apply Forall_fmap. eapply Forall_impl; [apply fields_text|]. intros [n v] H c Hc. cbv beta iota.
  assert (Hc' : c ∈ [newline; ","; " "; "="]%char) by (rewrite !elem_of_cons in *; tauto).
  destruct (H c Hc') as [H1 H2]. rewrite !elem_of_cons in Hc.
  destruct Hc as [->|[->|[->|Hc]]]; [free_parts..|by apply elem_of_nil in Hc].
Qed.

Lemma writeInfluxFields_free s c : c ∈ [newline; " "]%char -> c ∉ writeInfluxFields s.
Proof.
  intros Hc. apply not_in_join_text.
  - rewrite !elem_of_cons in Hc. destruct Hc as [->|[->|Hc]]; [by apply not_in_const..|by apply elem_of_nil in Hc].
  - eapply Forall_impl; [apply field_pieces|]. intros l H. apply H. rewrite !elem_of_cons in *. tauto.
Qed.

Lemma read_fields s :
  mapM (cut "="%char) (split_on ","%char (writeInfluxFields s) []) = Some ((fun '(n, v) => (txt n, v)) <$> influx_fields s).
Proof.
  unfold writeInfluxFields. change (txt ",") with [","%char]. rewrite split_on_join; [|done|].
  2: { eapply Forall_impl; [apply field_pieces|]. intros l H. apply H. rewrite !elem_of_cons. tauto. }
  pose proof (fields_text s) as Hf. induction Hf as [|[n v] fs Hf Hfs IH]; [done|].
  rewrite !fmap_cons. cbn [mapM]. change (txt "=" ++ v) with ("="%char :: v).
  rewrite cut_at by (apply Hf; rewrite !elem_of_cons; tauto). cbn [mbind option_bind]. by rewrite IH.
Qed.

Definition influx_content (s : LatencySnapshot) (labels : gmap string string) : text :=
  txt measurement ++ writeInfluxTags (ls_OpType s) labels ++ txt " " ++ writeInfluxFields s ++ txt " " ++ FormatInt (wrap64 (ls_T s)).

Lemma tags_length l : (length l <= length (mjoin (tag_text <$> l)))%nat.
Proof.
  induction l as [|kv l IH]; [done|]. rewrite fmap_cons. change (mjoin (?x :: ?r)) with (x ++ mjoin r).
  unfold tag_text at 1. rewrite !length_app. change (length (txt ",")) with 1%nat. cbn [length]. lia.
Qed.

Lemma read_line_written s labels :
  tag_ok (ls_OpType s) -> labels_ok labels -> read_line (influx_content s labels) = Some (point_of labels s).
Proof.
  intros Ho Hl. unfold read_line, influx_content. rewrite writeInfluxTags_eq.
  pose proof (tags_ok (ls_OpType s) labels Ho Hl) as Htags. set (tags := _ <$> sortedKeys _) in *.
  set (rest := writeInfluxFields s ++ txt " " ++ FormatInt (wrap64 (ls_T s))).
  assert (Hm : take_tag (txt measurement ++ mjoin (tag_text <$> tags) ++ txt " " ++ rest) = (txt measurement, mjoin (tag_text <$> tags) ++ txt " " ++ rest)).
  { assert (Ht : exists c r, mjoin (tag_text <$> tags) ++ txt " " ++ rest = c :: r /\ special c = true).
    { destruct tags as [|kv tags']; by eexists _, _. }
    destruct Ht as (c & r & -> & Hc). apply (take_tag_escape (txt measurement) c r); [done|exact Hc]. }
  rewrite Hm, read_tags_written; [|done|].
  2: { rewrite !length_app. pose proof (tags_length tags). lia. }
  cbn [mbind option_bind]. rewrite strip_app. cbn [mbind option_bind]. subst rest. change (txt " " ++ ?r) with (" "%char :: r).
  rewrite cut_at by (apply writeInfluxFields_free; rewrite !elem_of_cons; tauto). cbn [mbind option_bind].
  rewrite read_fields. cbn [mbind option_bind]. rewrite ParseInt_FormatInt by apply wrap64_range. cbn [mbind option_bind].
  subst tags. by rewrite sorted_keys_map.
Qed.

Lemma influx_content_line s labels : tag_ok (ls_OpType s) -> labels_ok labels -> newline ∉ influx_content s labels.
Proof.
  intros Ho Hl. unfold influx_content. rewrite writeInfluxTags_eq.
  free_parts.
  - apply not_in_mjoin, Forall_fmap. eapply Forall_impl; [by apply tags_ok|]. intros [k v] [[Hk _] [Hv _]].
    change (newline ∉ tag_text (k, v)). unfold tag_text. cbn [fst snd] in *.
    free_parts; by apply escaped_no_newline.
  - apply writeInfluxFields_free. by left.
  - by apply FormatInt_free.
Qed.

Lemma mapM_ok {A B} (g : A -> option B) (h : A -> B) l : Forall (fun x => g x = Some (h x)) l -> mapM g l = Some (h <$> l).
Proof. induction 1 as [|x l Hx _ IH]; [done|]. cbn. by rewrite Hx, IH. Qed.

Lemma influx_body_read snaps labels :
  Forall (fun s => tag_ok (ls_OpType s)) snaps -> labels_ok labels ->
  read_points (influx_body snaps labels) = Some (point_of labels <$> snaps).
Proof.
  intros Ho Hl. assert (E : influx_body snaps labels = unlines ((fun s => influx_content s labels) <$> snaps)).
  { unfold influx_body, unlines. rewrite <- list_fmap_compose. f_equal. apply list_fmap_ext. intros j s _.
    unfold compose, writeInfluxLine, influx_content. by rewrite <- !app_assoc. }
  unfold read_points. rewrite E, body_lines_unlines.
  - clear E. induction Ho as [|s snaps Hs _ IH]; [done|]. rewrite !fmap_cons. cbn [mapM]. rewrite read_line_written by done.
    cbn [mbind option_bind]. by rewrite IH.
  - apply Forall_fmap. eapply Forall_impl; [exact Ho|]. intros s Hs.
    change (newline ∉ influx_content s labels). by apply influx_content_line.
Qed.

(** *** Exposition *)

Definition value_char (c : ascii) : text :=
  if Ascii.eqb c backslash then [backslash; backslash]
  else if Ascii.eqb c dquote then [backslash; dquote]
  else if Ascii.eqb c newline then [backslash; "n"%char] else [c].

Lemma take_value_escape t rest : take_value (replace value_char t ++ dquote :: rest) = Some (t, rest).
Proof.
  induction t as [|x t IH]; [done|]. change (replace value_char (x :: t)) with (value_char x ++ replace value_char t).
  unfold value_char at 1. destruct (Ascii.eqb_spec x backslash) as [->|Hb]; [|destruct (Ascii.eqb_spec x dquote) as [->|Hd]].
  - cbn [app]. change (take_value (backslash :: backslash :: ?r)) with ('(a, b) ← take_value r; Some (backslash :: a, b)). by rewrite IH.
  - cbn [app]. change (take_value (backslash :: dquote :: ?r)) with ('(a, b) ← take_value r; Some (dquote :: a, b)). by rewrite IH.
  - destruct (Ascii.eqb_spec x newline) as [->|Hn].
    + cbn [app]. change (take_value (backslash :: "n"%char :: ?r)) with ('(a, b) ← take_value r; Some (newline :: a, b)). by rewrite IH.
    + cbn [app take_value]. rewrite (proj2 (Ascii.eqb_neq x dquote) Hd), (proj2 (Ascii.eqb_neq x backslash) Hb). by rewrite IH.
Qed.

Lemma escaped_value_line s : newline ∉ escapePromLabelValue s.
Proof.
  unfold escapePromLabelValue, replace. rewrite list_elem_of_bind. intros (x & Hx & _).
  destruct (Ascii.eqb x backslash); [by repeat (apply elem_of_cons in Hx as [Hx|Hx]; [done|]); apply elem_of_nil in Hx|].
  destruct (Ascii.eqb x dquote); [by repeat (apply elem_of_cons in Hx as [Hx|Hx]; [done|]); apply elem_of_nil in Hx|].
  destruct (Ascii.eqb_spec x newline); [by repeat (apply elem_of_cons in Hx as [Hx|Hx]; [done|]); apply elem_of_nil in Hx|].
  apply elem_of_cons in Hx as [Hx|Hx]; [congruence|by apply elem_of_nil in Hx].
Qed.

Definition keys_ok (labels : gmap string string) : Prop := forall k, is_Some (labels !! k) -> label_name (txt k) = true.

Lemma label_name_free k c : label_name k = true -> word_char c = false -> c ∉ k.
Proof.
  intros Hk Hc Hin. destruct k as [|d k]; [by apply elem_of_nil in Hin|]. cbn [label_name] in Hk.
  apply andb_true_iff in Hk as [_ Hk]. rewrite forallb_forall in Hk. apply list_elem_of_In, Hk in Hin. congruence.
Qed.

Lemma label_set_keys op labels q : keys_ok labels -> keys_ok (label_set op labels q).
Proof.
  intros Hk k. assert (Ht : is_Some (op_tags op labels !! k) -> label_name (txt k) = true).
  { unfold op_tags. rewrite lookup_union_is_Some. intros [H|H]; [by apply Hk|].
    destruct H as [v H]. by apply lookup_singleton_Some in H as [<- _]. }
  unfold label_set. destruct (nonempty q); [|exact Ht]. rewrite lookup_insert_is_Some'. intros [<-|H]; [done|by apply Ht].
Qed.

Definition label_text (kv : string * string) : text := txt kv.1 ++ txt "=" ++ [dquote] ++ escapePromLabelValue kv.2 ++ [dquote].

Lemma join_text_cons sep (x : text) l : l <> [] -> join_text sep (x :: l) = x ++ sep ++ join_text sep l.
Proof. by destruct l. Qed.

Lemma read_labels_written l fuel rest :
  l <> [] -> Forall (fun kv : string * string => label_name (txt kv.1) = true) l -> (length l <= fuel)%nat ->
  read_labels fuel (join_text (txt ",") (label_text <$> l) ++ txt "}" ++ rest) = Some (l, rest).
Proof.
  intros Hne Hl. revert fuel. induction Hl as [|[k v] l Hk Hl IH]; intros fuel Hf; [done|].
  destruct fuel as [|fuel]; [cbn in Hf; lia|]. cbn [fst] in Hk.
  assert (Hread : forall tail, read_labels (S fuel) (label_text (k, v) ++ tail) =
    match strip (txt ",") tail with
    | Some t4 => '(l, t5) ← read_labels fuel t4; Some ((k, v) :: l, t5)
    | None => t4 ← strip (txt "}") tail; Some ([(k, v)], t4)
    end).
  { intros tail. unfold label_text. cbn [fst snd read_labels]. rewrite <- !app_assoc.
    change (txt "=" ++ ?r) with ("="%char :: r). rewrite cut_at by (by apply label_name_free).
    cbn [mbind option_bind]. rewrite Hk. cbn [mbind option_bind]. rewrite strip_app. cbn [mbind option_bind].
    change ([dquote] ++ tail) with (dquote :: tail).
    change (escapePromLabelValue v) with (replace value_char (txt v)). rewrite take_value_escape. cbn [mbind option_bind].
    by rewrite !str_txt. }
  destruct (decide (l = [])) as [->|Hln].
  - cbn [fmap list_fmap join_text]. rewrite Hread. change (strip (txt ",") (txt "}" ++ rest)) with (@None text).
    by rewrite strip_app.
  - rewrite fmap_cons, join_text_cons by (by destruct l). rewrite <- !app_assoc, Hread, strip_app.
    rewrite IH by (done || (cbn in Hf; lia)). done.
Qed.

Lemma promLabels_eq op labels q :
  promLabels op labels q = txt "{" ++
    join_text (txt ",") (label_text <$> ((fun k => (k, default ""%string (label_set op labels q !! k))) <$> sortedKeys (label_set op labels q))) ++ txt "}".
Proof. unfold promLabels. by rewrite <- list_fmap_compose. Qed.

Lemma label_set_nonempty op labels q : sortedKeys (label_set op labels q) <> [].
Proof.
  intros E. assert (H : "op"%string ∈ sortedKeys (label_set op labels q)); [|rewrite E in H; by apply elem_of_nil in H].
  apply sorted_keys_dom. assert (Ht : is_Some (op_tags op labels !! "op"%string)).
  { unfold op_tags. rewrite lookup_union_is_Some. right. rewrite lookup_singleton_eq. by eexists. }
  unfold label_set. destruct (nonempty q); [rewrite lookup_insert_ne by done|]; done.
Qed.

Definition sample_content (name : string) (op : string) (labels : gmap string string) (q : string) (value : text) : text :=
  txt name ++ promLabels op labels q ++ txt " " ++ value.

Lemma labels_length l : (length l <= length (join_text (txt ",") (label_text <$> l)))%nat.
Proof.
  induction l as [|kv l IH]; [done|]. rewrite fmap_cons. destruct (decide (l = [])) as [->|Hl].
  - cbn [fmap list_fmap join_text]. unfold label_text. rewrite !length_app. change (length (txt "=")) with 1%nat. cbn [length]. lia.
  - rewrite join_text_cons by (by destruct l). rewrite !length_app. change (length (txt ",")) with 1%nat. cbn [length]. lia.
Qed.

Lemma read_sample_written name op labels q value :
  ("{"%char ∉ txt name) -> keys_ok labels ->
  read_sample (sample_content name op labels q value) = Some {| sm_name := name; sm_labels := label_set op labels q; sm_value := value |}.
Proof.
  intros Hn Hk. unfold read_sample, sample_content. rewrite promLabels_eq. rewrite <- !app_assoc.
  change (txt "{" ++ ?r) with ("{"%char :: r). rewrite cut_at by done. cbn [mbind option_bind].
  set (l := _ <$> sortedKeys _). rewrite read_labels_written.
  - cbn [mbind option_bind]. rewrite strip_app. cbn [mbind option_bind]. rewrite str_txt. subst l. by rewrite sorted_keys_map.
  - intros E. apply fmap_nil_inv in E. by apply label_set_nonempty in E.
  - apply Forall_fmap, Forall_forall. intros k Hin. apply sorted_keys_dom in Hin. by apply (label_set_keys op labels q Hk).
  - rewrite length_app. cbn [length]. rewrite !length_app. pose proof (labels_length l). lia.
Qed.

(** The samples of an exposition, family by family. *)
Definition quantile_samples (labels : gmap string string) (s : LatencySnapshot) : list sample :=
  (fun '(q, value) => {| sm_name := metricLatency; sm_labels := label_set (ls_OpType s) labels q; sm_value := f (value (ls_Pct s)) |})
    <$> quantiles.

Definition scalar_sample (name : string) (val : LatencySnapshot -> text) (labels : gmap string string) (s : LatencySnapshot) : sample :=
  {| sm_name := name; sm_labels := op_tags (ls_OpType s) labels; sm_value := val s |}.

Definition scalar_families : list (string * (LatencySnapshot -> text)) :=
  [(metricLatencyMax, fun s => f (pct_Max (ls_Pct s))); (metricThroughput, fun s => f (ls_Throughput s));
   (metricInFlight, fun s => FormatInt (ls_InFlight s)); (metricErrors, fun s => FormatInt (ls_Errors s))].

Definition exposition_samples (snaps : list LatencySnapshot) (labels : gmap string string) : list sample :=
  (snaps ≫= quantile_samples labels) ++
  (scalar_families ≫= fun '(name, val) => scalar_sample name val labels <$> snaps).

(** A body line by line. *)
Definition type_content (name : string) : text := txt "# TYPE " ++ txt name ++ txt " gauge".

Definition quantile_contents (snaps : list LatencySnapshot) (labels : gmap string string) : list text :=
  snaps ≫= fun s => (fun '(q, value) => sample_content metricLatency (ls_OpType s) labels q (f (value (ls_Pct s)))) <$> quantiles.

Definition scalar_contents (name : string) (val : LatencySnapshot -> text) (snaps : list LatencySnapshot) (labels : gmap string string) : list text :=
  (fun s => sample_content name (ls_OpType s) labels "" (val s)) <$> snaps.

Lemma unlines_app a b : unlines (a ++ b) = unlines a ++ unlines b.
Proof. unfold unlines. by rewrite fmap_app, join_app. Qed.

Lemma unlines_cons a b : unlines (a :: b) = a ++ [newline] ++ unlines b.
Proof. unfold unlines. rewrite fmap_cons. change (mjoin (?x :: ?r)) with (x ++ mjoin r). by rewrite <- app_assoc. Qed.

Lemma sample_line_content name op labels q value : sample_line name (promLabels op labels q) value = sample_content name op labels q value ++ [newline].
Proof. unfold sample_line, sample_content. by rewrite <- !app_assoc. Qed.

Lemma type_line_content name : type_line name = type_content name ++ [newline].
Proof. unfold type_line, type_content. by rewrite <- !app_assoc. Qed.

Lemma quantile_family_lines snaps labels : writeQuantileFamily snaps labels = unlines (type_content metricLatency :: quantile_contents snaps labels).
Proof.
  unfold writeQuantileFamily. rewrite type_line_content, unlines_cons, <- app_assoc. do 2 f_equal.
  induction snaps as [|s snaps IH]; [done|]. rewrite fmap_cons. change (mjoin (?x :: ?r)) with (x ++ mjoin r). rewrite IH.
  unfold quantile_contents. rewrite bind_cons, unlines_app. f_equal. unfold unlines. f_equal. rewrite <- list_fmap_compose.
  apply list_fmap_ext. intros j [q value] _. apply sample_line_content.
Qed.

Lemma scalar_family_lines name snaps labels val :
  writeScalarFamily name snaps labels val = unlines (type_content name :: scalar_contents name val snaps labels).
Proof.
  unfold writeScalarFamily. rewrite type_line_content, unlines_cons, <- app_assoc. do 2 f_equal.
  unfold scalar_contents, unlines. rewrite <- list_fmap_compose. f_equal. apply list_fmap_ext. intros j s _. apply sample_line_content.
Qed.

Definition exposition_lines (snaps : list LatencySnapshot) (labels : gmap string string) : list text :=
  (type_content metricLatency :: quantile_contents snaps labels) ++
  (scalar_families ≫= fun '(name, val) => type_content name :: scalar_contents name val snaps labels).

Lemma buildExposition_lines snaps labels : buildExposition snaps labels = unlines (exposition_lines snaps labels).
Proof.
  unfold buildExposition, exposition_lines, scalar_families. rewrite quantile_family_lines, !scalar_family_lines.
  rewrite !bind_cons. change ([] ≫= ?g) with (@nil text). by rewrite app_nil_r, !unlines_app.
Qed.

Lemma promLabels_line op labels q : keys_ok labels -> newline ∉ promLabels op labels q.
Proof.
  intros Hk. rewrite promLabels_eq. free_parts. apply not_in_join_text; [by apply not_in_const|].
  apply Forall_fmap, Forall_fmap, Forall_forall. intros k Hin. apply sorted_keys_dom, (label_set_keys op labels q Hk) in Hin.
  change (newline ∉ label_text (k, default ""%string (label_set op labels q !! k))). unfold label_text. cbn [fst snd].
  free_parts; [by apply label_name_free|by apply escaped_value_line].
Qed.

Lemma sample_content_line name op labels q value :
  keys_ok labels -> (newline ∉ txt name) -> (newline ∉ value) -> newline ∉ sample_content name op labels q value.
Proof. intros Hk Hn Hv. unfold sample_content. free_parts. by apply promLabels_line. Qed.

Lemma scalar_families_ok : Forall (fun '(name, val) => (newline ∉ txt name) /\ ("{"%char ∉ txt name) /\
    (forall s, newline ∉ val s) /\ is_comment (txt name) = false /\ txt name <> []) scalar_families.
Proof.
  unfold scalar_families. repeat apply Forall_cons_2; [..|by apply Forall_nil_2];
    (split_and!; [by apply not_in_const|by apply not_in_const|intros s; first [by apply float_free|by apply FormatInt_free]|done..]).
Qed.

Lemma exposition_line_ok snaps labels : keys_ok labels -> Forall (fun l => newline ∉ l) (exposition_lines snaps labels).
Proof.
  intros Hk. unfold exposition_lines. apply Forall_app. split.
  - constructor; [by apply not_in_const|]. unfold quantile_contents. apply Forall_bind, Forall_forall. intros s _. apply Forall_fmap, Forall_forall.
    intros [q value] _. apply sample_content_line; [done|by apply not_in_const|by apply float_free].
  - apply Forall_bind. eapply Forall_impl; [apply scalar_families_ok|]. intros [name val] (H1 & H2 & H3 & _). constructor.
    + unfold type_content. free_parts.
    + apply Forall_fmap, Forall_forall. intros s _.
      change (newline ∉ sample_content name (ls_OpType s) labels "" (val s)). by apply sample_content_line.
Qed.

Lemma sample_not_comment name op labels q value :
  is_comment (txt name) = false -> txt name <> [] -> is_comment (sample_content name op labels q value) = false.
Proof. unfold sample_content. by destruct (txt name). Qed.

Lemma filter_comments_bind {A} (g : A -> list text) l :
  List.filter (fun t => negb (is_comment t)) (l ≫= g) = l ≫= fun x => List.filter (fun t => negb (is_comment t)) (g x).
Proof. induction l as [|x l IH]; [done|]. by rewrite !bind_cons, List.filter_app, IH. Qed.

Lemma filter_no_comments l : Forall (fun t => is_comment t = false) l -> List.filter (fun t => negb (is_comment t)) l = l.
Proof. induction 1 as [|t l Ht _ IH]; [done|]. cbn. rewrite Ht. cbn. by rewrite IH. Qed.

Lemma mapM_app_ok {A B} (g : A -> option B) l k l' k' : mapM g l = Some l' -> mapM g k = Some k' -> mapM g (l ++ k) = Some (l' ++ k').
Proof.
  revert l'. induction l as [|x l IH]; intros l' Hl Hk; [by injection Hl as <-|]. cbn in *.
  destruct (g x); [|done]. cbn in *. destruct (mapM g l) as [l1|]; [|done]. injection Hl as <-. by rewrite (IH l1 eq_refl Hk).
Qed.

Lemma mapM_bind_ok {X A B} (g : A -> option B) (c : X -> list A) (d : X -> list B) l :
  Forall (fun x => mapM g (c x) = Some (d x)) l -> mapM g (l ≫= c) = Some (l ≫= d).
Proof. induction 1 as [|x l Hx _ IH]; [done|]. rewrite !bind_cons. by apply mapM_app_ok. Qed.

Lemma read_scalars name val snaps labels :
  ("{"%char ∉ txt name) -> keys_ok labels ->
  mapM read_sample (scalar_contents name val snaps labels) = Some (scalar_sample name val labels <$> snaps).
Proof.
  intros Hn Hk. unfold scalar_contents. induction snaps as [|s snaps IH]; [done|]. rewrite !fmap_cons. cbn [mapM].
  rewrite read_sample_written by done. cbn [mbind option_bind]. by rewrite IH.
Qed.

Lemma exposition_read snaps labels :
  keys_ok labels -> read_exposition (buildExposition snaps labels) = Some (exposition_samples snaps labels).
Proof.
  intros Hk. unfold read_exposition. rewrite buildExposition_lines, body_lines_unlines by (by apply exposition_line_ok).
  unfold exposition_lines, exposition_samples. rewrite List.filter_app, filter_comments_bind. apply mapM_app_ok.
  - cbn [List.filter]. change (negb (is_comment (type_content metricLatency))) with false. cbn [List.filter].
    unfold quantile_contents. rewrite filter_no_comments.
    + apply mapM_bind_ok, Forall_forall. intros s _. unfold quantile_samples, quantiles. rewrite !fmap_cons. cbn [mapM fmap list_fmap].
      rewrite !read_sample_written by (done || by apply not_in_const). done.
    + apply Forall_bind, Forall_forall. intros s _. apply Forall_fmap, Forall_forall. intros [q value] _. by apply sample_not_comment.
  - apply mapM_bind_ok. eapply Forall_impl; [apply scalar_families_ok|]. intros [name val] (_ & H2 & _ & H4 & H5).
    cbn [List.filter]. change (negb (is_comment (type_content name))) with false. cbn [List.filter].
    rewrite filter_no_comments; [by apply read_scalars|]. apply Forall_fmap, Forall_forall. intros s _.
    change (is_comment (sample_content name (ls_OpType s) labels "" (val s)) = false). by apply sample_not_comment.
Qed.

(** ** The latest snapshots *)

Definition last_of (op : OpType) (snaps : list LatencySnapshot) : option LatencySnapshot :=
  last (List.filter (fun s => String.eqb (ls_OpType s) op) snaps).

Lemma byOp_spec snaps op : byOp snaps !! op = last_of op snaps.
Proof.
  unfold byOp, last_of. induction snaps as [|s snaps IH] using rev_ind; [done|].
  rewrite foldl_snoc, List.filter_app. cbn [List.filter].
  destruct (String.eqb_spec (ls_OpType s) op) as [<-|Hne].
  - by rewrite lookup_insert_eq, last_snoc.
  - by rewrite lookup_insert_ne, app_nil_r.
Qed.

Lemma last_of_op op snaps s : last_of op snaps = Some s -> ls_OpType s = op /\ s ∈ snaps.
Proof.
  unfold last_of. intros H%last_Some_elem_of. apply list_elem_of_In, List.filter_In in H as [Hin Hop].
  split; [by apply String.eqb_eq|by apply list_elem_of_In].
Qed.

Lemma latestPerOp_ops snaps : ls_OpType <$> latestPerOp snaps = sorted_ops (byOp snaps).
Proof.
  unfold latestPerOp. assert (H : Forall (fun op => is_Some (byOp snaps !! op)) (sorted_ops (byOp snaps))).
  { apply Forall_forall. intros op. apply sorted_ops_spec. }
  induction H as [|op ops [s Hs] _ IH]; [done|]. cbn [omap list_omap]. rewrite Hs, fmap_cons. f_equal; [|exact IH].
  rewrite byOp_spec in Hs. by apply last_of_op in Hs as [].
Qed.

Lemma latestPerOp_elem snaps s : s ∈ latestPerOp snaps <-> last_of (ls_OpType s) snaps = Some s.
Proof.
  unfold latestPerOp. rewrite list_elem_of_omap. split.
  - intros (op & _ & H). rewrite byOp_spec in H. by destruct (last_of_op _ _ _ H) as [-> _].
  - intros H. exists (ls_OpType s). rewrite byOp_spec. split; [|done]. apply sorted_ops_spec. rewrite byOp_spec. by eexists.
Qed.

Lemma latestPerOp_NoDup snaps : NoDup (ls_OpType <$> latestPerOp snaps).
Proof. rewrite latestPerOp_ops. apply sorted_ops_spec. Qed.

(** A series: the metric's name and its labels. *)
Definition series (sm : sample) : string * gmap string string := (sm_name sm, sm_labels sm).

Lemma op_tags_op op labels : labels !! "op"%string = None -> op_tags op labels !! "op"%string = Some op.
Proof. intros H. unfold op_tags. by rewrite lookup_union_r, lookup_singleton_eq. Qed.

Lemma label_set_op op labels q : labels !! "op"%string = None -> label_set op labels q !! "op"%string = Some op.
Proof. intros H. unfold label_set. destruct (nonempty q); [rewrite lookup_insert_ne by done|]; by apply op_tags_op. Qed.

Lemma quantile_series s labels x :
  labels !! "op"%string = None -> x ∈ series <$> quantile_samples labels s ->
  x.1 = metricLatency /\ x.2 !! "op"%string = Some (ls_OpType s).
Proof.
  intros Ho. rewrite list_elem_of_fmap. intros (sm & -> & Hs). unfold quantile_samples in Hs.
  apply list_elem_of_fmap in Hs as ([q value] & -> & _). cbn [series fst snd sm_name sm_labels]. split; [done|]. by apply label_set_op.
Qed.

Lemma label_set_quantile op labels q : nonempty q = true -> label_set op labels q !! "quantile"%string = Some q.
Proof. intros H. unfold label_set. rewrite H. apply lookup_insert_eq. Qed.

Lemma quantile_series_NoDup s labels : NoDup (series <$> quantile_samples labels s).
Proof.
  apply (NoDup_fmap_1 (fun x => x.2 !! "quantile"%string)).
  assert (E : (fun x => x.2 !! "quantile"%string) <$> (series <$> quantile_samples labels s) = (fun q => Some q) <$> quantiles.*1).
  { unfold quantile_samples, quantiles. cbn [fmap list_fmap series snd sm_labels].
    by rewrite !label_set_quantile. }
  rewrite E. apply (bool_decide_unpack _). vm_compute. exact I.
Qed.

Lemma scalar_names : NoDup (metricLatency :: scalar_families.*1).
Proof. apply (bool_decide_unpack _). vm_compute. exact I. Qed.

Lemma fmap_of_bind {A B C} (h : B -> C) (g : A -> list B) l : h <$> (l ≫= g) = l ≫= fun x => h <$> g x.
Proof. induction l as [|x l IH]; [done|]. by rewrite !bind_cons, fmap_app, IH. Qed.

Lemma series_NoDup snaps labels :
  labels !! "op"%string = None -> NoDup (ls_OpType <$> snaps) -> NoDup (series <$> exposition_samples snaps labels).
Proof.
  intros Ho Hnd. unfold exposition_samples. rewrite fmap_app, !fmap_of_bind. 
  pose proof (proj1 (NoDup_cons _ _) scalar_names) as [Hlat Hnames].
  assert (Hscalar : forall name val x, x ∈ series <$> (scalar_sample name val labels <$> snaps) ->
    x.1 = name /\ exists s, s ∈ snaps /\ x.2 = op_tags (ls_OpType s) labels).
  { intros name val x. rewrite <- list_fmap_compose, list_elem_of_fmap. intros (s & -> & Hs). cbn. by eauto. }
  assert (Hsnaps : forall s1 s2, s1 ∈ snaps -> s2 ∈ snaps -> ls_OpType s1 = ls_OpType s2 -> s1 = s2).
  { intros s1 s2 H1 H2 E. apply list_elem_of_lookup in H1 as [j1 H1]. apply list_elem_of_lookup in H2 as [j2 H2].
    assert (j1 = j2); [|congruence]. eapply NoDup_lookup; [exact Hnd| |]; rewrite list_lookup_fmap; [by rewrite H1|by rewrite H2, E]. }
  apply NoDup_app. split_and!.
  - apply NoDup_bind; [|intros s _; apply quantile_series_NoDup|by apply NoDup_fmap_1 in Hnd].
    intros s1 s2 x H1 H2 Hx1 Hx2. destruct (quantile_series s1 labels x Ho Hx1) as [_ E1], (quantile_series s2 labels x Ho Hx2) as [_ E2].
    apply Hsnaps; [done..|congruence].
  - intros x Hx Hx'. apply list_elem_of_bind in Hx as (s & Hx & _). apply (quantile_series s labels x Ho) in Hx as [Hx _].
    apply list_elem_of_bind in Hx' as ([name val] & Hx' & Hin). apply Hscalar in Hx' as [Hx' _].
    apply Hlat. rewrite <- Hx, Hx'. by apply (list_elem_of_fmap_2 fst) in Hin.
  - apply NoDup_bind; [| |by apply NoDup_fmap_1 in Hnames].
    + intros [n1 v1] [n2 v2] x H1 H2 Hx1 Hx2. apply Hscalar in Hx1 as [Hx1 _], Hx2 as [Hx2 _].
      apply list_elem_of_lookup in H1 as [j1 H1]. apply list_elem_of_lookup in H2 as [j2 H2].
      assert (j1 = j2); [|congruence].
      eapply NoDup_lookup; [exact Hnames| |]; rewrite list_lookup_fmap; [by rewrite H1|rewrite H2; cbn; congruence].
    + intros [name val] _. rewrite <- list_fmap_compose. apply NoDup_fmap_2_strong; [|by apply NoDup_fmap_1 in Hnd].
      intros s1 s2 H1 H2 E. apply Hsnaps; [done..|]. unfold compose, series, scalar_sample in E. cbn in E.
      injection E as E. apply (f_equal (fun m => m !! "op"%string)) in E. rewrite !op_tags_op in E by done. by injection E.
Qed.

(** Ten samples for every snapshot. *)
Lemma exposition_size snaps labels : length (exposition_samples snaps labels) = (10 * length snaps)%nat.
Proof.
  unfold exposition_samples, scalar_families. rewrite !bind_cons, !length_app, !length_fmap. cbn [mbind list_bind length].
  assert (E : length (snaps ≫= quantile_samples labels) = (6 * length snaps)%nat); [|lia].
  induction snaps as [|s snaps IH]; [done|]. rewrite bind_cons, length_app, IH. unfold quantile_samples. rewrite length_fmap. cbn. lia.
Qed.

(** ** Correctness *)

Section correctness.
Context {W : Type} {H : Http W}.

(** C11: the body sent to an InfluxDB endpoint, read by the rules of the line
    protocol, holds exactly one point per snapshot, in order, with the snapshot's
    operation under the caller's labels as tags, every statistic as a field and
    the snapshot's time to the nanosecond; nothing is sent for no snapshots. *)
Theorem influx_export_faithful url snaps labels (w : W) :
  Forall (fun s => tag_ok (ls_OpType s)) snaps -> labels_ok labels ->
  exists body, read_points body = Some (point_of labels <$> snaps) /\
    Export (NewInflux url) snaps labels w =
      if decide (snaps = []) then (w, None) else postBody url "text/plain; charset=utf-8" body w.
Proof.
  intros Ho Hl. exists (influx_body snaps labels). split; [by apply influx_body_read|]. by destruct snaps.
Qed.

(** C12: the body sent to a Pushgateway, read by the rules of the exposition
    format, holds for every operation the statistics of its latest snapshot and
    no others, under the caller's labels whatever characters they contain, and no
    series twice. *)
Theorem pushgateway_export_summary url job snaps labels (w : W) :
  keys_ok labels -> labels !! "op"%string = None ->
  exists body samples latest, read_exposition body = Some samples /\ NoDup (series <$> samples) /\
    samples = exposition_samples latest labels /\
    (forall s, s ∈ latest <-> last_of (ls_OpType s) snaps = Some s) /\ NoDup (ls_OpType <$> latest) /\
    Export (NewPushgateway url job) snaps labels w =
      if decide (snaps = []) then (w, None) else postBody (pushURL url job) "text/plain; version=0.0.4" body w.
Proof.
  intros Hk Ho. exists (buildExposition (latestPerOp snaps) labels), (exposition_samples (latestPerOp snaps) labels), (latestPerOp snaps).
  split_and!; [by apply exposition_read|apply series_NoDup; [done|apply latestPerOp_NoDup]|done|apply latestPerOp_elem|
    apply latestPerOp_NoDup|by destruct snaps].
Qed.
End correctness.

(** ** Witnesses *)

(** A server that records what it is sent and answers 204. *)
Record server := { requests : list (string * text) }.

#[export] Instance recording_http : Http server := {|
  new_request _ := None;
  do_post url _ body w := ({| requests := requests w ++ [(url, body)] |}, Ok (204, "204 No Content"%string));
  close_idle w := w
|}.

Definition zero_pct : Percentiles := {|
  pct_Count := 2; pct_Mean := float_of_int 0; pct_P50 := float_of_int 0; pct_P90 := float_of_int 0; pct_P95 := float_of_int 0;
  pct_P99 := float_of_int 0; pct_P999 := float_of_int 0; pct_P9999 := float_of_int 0; pct_Max := float_of_int 0
|}.

Definition snap (t : Z) (op : string) : LatencySnapshot := {|
  ls_T := t; ls_OpType := op; ls_Throughput := float_of_int 2; ls_InFlight := 0; ls_Errors := 0; ls_Pct := zero_pct
|}.

Definition run_labels : gmap string string := {[ "target" := "redis"; "run_id" := "redis a,b" ]}%string.

(** Every binding of a concrete map satisfies a decidable property. *)
Lemma map_Forall_check (P : string -> string -> Prop) (m : gmap string string) :
  Forall (fun kv => P kv.1 kv.2) (map_to_list m) -> forall k v, m !! k = Some v -> P k v.
Proof. intros HF k v Hkv. rewrite Forall_forall in HF. by apply (HF (k, v)), elem_of_map_to_list. Qed.

Lemma influx_export_faithful_witness :
  exists body, read_points body = Some (point_of run_labels <$> [snap second "get"; snap second "set"]) /\
    (Export (NewInflux "http://host/write") [snap second "get"; snap second "set"] run_labels {| requests := [] |}).1
      = {| requests := [("http://host/write"%string, body)] |}.
Proof.
  assert (Ho : Forall (fun s => tag_ok (ls_OpType s)) [snap second "get"; snap second "set"]).
  { repeat (constructor; [by apply tag_ok_const|]). constructor. }
  assert (Hl : labels_ok run_labels).
  { unfold labels_ok. apply (map_Forall_check (fun k v => tag_ok k /\ tag_ok v)). change (map_to_list run_labels) with [("run_id", "redis a,b"); ("target", "redis")]%string.
    repeat (constructor; [split; by apply tag_ok_const|]). constructor. }
  destruct (influx_export_faithful "http://host/write" [snap second "get"; snap second "set"] run_labels {| requests := [] |} Ho Hl)
    as (body & Hr & He). exists body. split; [exact Hr|]. rewrite He. reflexivity.
Defined.

Lemma pushgateway_export_summary_witness :
  exists body samples, read_exposition body = Some samples /\ NoDup (series <$> samples) /\ length samples = 20%nat /\
    (Export (NewPushgateway "http://host/" "proofload") [snap 1 "get"; snap 1 "set"; snap 2 "get"] run_labels {| requests := [] |}).1
      = {| requests := [("http://host/metrics/job/proofload"%string, body)] |}.
Proof.
  assert (Hk : keys_ok run_labels).
  { intros k [v Hv]. revert k v Hv. apply (map_Forall_check (fun k _ => label_name (txt k) = true)).
    change (map_to_list run_labels) with [("run_id", "redis a,b"); ("target", "redis")]%string.
    repeat (constructor; [reflexivity|]). constructor. }
  destruct (pushgateway_export_summary "http://host/" "proofload" [snap 1 "get"; snap 1 "set"; snap 2 "get"] run_labels {| requests := [] |} Hk eq_refl)
    as (body & samples & latest & Hr & Hn & Hs & Hl & Hd & He).
  exists body, samples. split; [exact Hr|]. split; [exact Hn|]. split; [|rewrite He; reflexivity].
  assert (Hp : latest ≡ₚ [snap 2 "get"; snap 1 "set"]).
  { apply NoDup_Permutation; [by apply NoDup_fmap_1 in Hd| |].
    - apply (NoDup_fmap_1 ls_OpType). apply (bool_decide_unpack _). vm_compute. exact I.
    - intros s. rewrite Hl. unfold last_of. cbn [List.filter]. cbn [snap ls_OpType].
      destruct (String.eqb_spec "get" (ls_OpType s)) as [Eg|Ng]; destruct (String.eqb_spec "set" (ls_OpType s)) as [Es|Ns];
        rewrite !elem_of_cons, elem_of_nil; cbn [last]; split.
      all: try (intros [= <-]; tauto).
      all: try (intros [->|[->|[]]]; done || congruence).
      all: congruence. }
  subst samples. rewrite exposition_size, (Permutation_length Hp). reflexivity.
Defined.

(** ** Where the exporters fall short *)

(** A label that ends in a backslash escapes the separator after it: the line
    cannot be read. *)
Lemma trailing_backslash_unreadable :
  read_line (influx_content (snap second "get") {[ "dir"%string := str (txt "C:" ++ [backslash]) ]}) = None.
Proof. vm_compute. reflexivity. Qed.

(** A label of the caller named like the operation's hides it, and the series of
    all operations become one. *)
Lemma op_label_collides :
  ~ NoDup (series <$> exposition_samples (latestPerOp [snap 1 "get"; snap 1 "set"]) {[ "op"%string := "mine"%string ]}).
Proof.
  intros Hn. assert (E : exists sm, (series <$> exposition_samples (latestPerOp [snap 1 "get"; snap 1 "set"]) {[ "op"%string := "mine"%string ]}) !! 0%nat = Some sm /\
    (series <$> exposition_samples (latestPerOp [snap 1 "get"; snap 1 "set"]) {[ "op"%string := "mine"%string ]}) !! 6%nat = Some sm)
    by (eexists; split; vm_compute; reflexivity).
  destruct E as (sm & E1 & E2). pose proof (NoDup_lookup _ _ _ _ Hn E1 E2). done.
Qed.
