(* ===== verification/Rundir.v ===== *)
(** * Rundir: the directory of a run, taken apart again (path/filepath)

    [filepath.Base] and the lemmas on cleaned paths by which the readers of a run
    directory (core/report, core/warehouse) find the layout it was written in. *)

From Stdlib Require Import Ascii String.
From S2P Require Import Prelude Domain Strconv Targets Provision Emit.

(** [filepath.Base] of a cleaned path. *)
Definition Base (p : string) : string :=
  match txt p with
  | [] => "."
  | _ => match last_component p with [] => "/" | b => str b end
  end.

(** ** Cleaned paths *)

Definition is_rooted (t : text) : bool := match t with c :: _ => Ascii.eqb c slash | [] => false end.

(** A cleaned path of its elements, last first. *)
Definition nf_text (rooted : bool) (stack : list text) : text :=
  let body := join_text [slash] (rev stack) in
  if rooted then slash :: body else if decide (body = []) then txt "." else body.

Definition nf (rooted : bool) (stack : list text) : string := str (nf_text rooted stack).

Definition clean_pieces (rooted : bool) (stack ls : list text) : list text := foldl (clean_step rooted) stack ls.

(** The elements cleaning keeps: names, under them the steps up out of an
    unrooted path. *)
Definition stacked (rooted : bool) (stack : list text) : Prop :=
  exists names n, stack = names ++ replicate n (txt "..") /\ Forall file_name names /\ (rooted = true -> n = O).

Lemma Clean_eq p : Clean p = nf (is_rooted (txt p)) (clean_pieces (is_rooted (txt p)) [] (split_on slash (txt p) [])).
Proof.
  unfold Clean, nf, nf_text, clean_pieces, is_rooted. cbv zeta.
  destruct (match txt p with [] => false | c :: _ => Ascii.eqb c slash end); [done|].
  by destruct (decide _).
Qed.

Lemma stacked_nil r : stacked r [].
Proof. by exists [], O. Qed.

Lemma stacked_cons r f s : file_name f -> stacked r s -> stacked r (f :: s).
Proof. intros Hf (names & n & -> & Hn & Hr). exists (f :: names), n. split; [done|]. by split; [constructor|]. Qed.

Lemma clean_step_stacked r s e : slash ∉ e -> stacked r s -> stacked r (clean_step r s e).
Proof.
  intros He (names & n & -> & Hn & Hr). unfold clean_step.
  destruct (decide _) as [|Hdot]; [by exists names, n|]. destruct (decide (e = txt "..")) as [->|Hup].
  - destruct names as [|x names]; cbn [app].
    + destruct n as [|n]; cbn [replicate].
      * destruct r; [apply stacked_nil|]. by exists [], 1%nat.
      * rewrite decide_True by done. exists [], (S (S n)). split; [done|]. split; [constructor|].
        intros H. by specialize (Hr H).
    + apply Forall_cons in Hn as [(_ & _ & _ & Hx) Hn]. rewrite decide_False by done. by exists names, n.
  - exists (e :: names), n. split; [done|]. split; [|done]. constructor; [|done]. unfold file_name. tauto.
Qed.

Lemma clean_pieces_stacked r s ls : Forall (fun l => slash ∉ l) ls -> stacked r s -> stacked r (clean_pieces r s ls).
Proof.
  intros Hl. revert s. induction Hl as [|l ls Hl _ IH]; intros s Hs; [done|]. by apply IH, clean_step_stacked.
Qed.

Lemma split_on_free t cur : slash ∉ cur -> Forall (fun l => slash ∉ l) (split_on slash t cur).
Proof.
  assert (Hrev : forall l : text, slash ∉ l -> slash ∉ rev l) by (intros l; by rewrite !list_elem_of_In, <- in_rev).
  revert cur. induction t as [|c t IH]; intros cur Hc; cbn [split_on]; [by constructor; [apply Hrev|]|].
  destruct (Ascii.eqb_spec c slash) as [->|Hne].
  - constructor; [by apply Hrev|]. apply IH, not_elem_of_nil.
  - apply IH. apply not_elem_of_cons. by split; [apply not_eq_sym|].
Qed.

Lemma split_on_app a b cur : split_on slash (a ++ slash :: b) cur = split_on slash a cur ++ split_on slash b [].
Proof.
  revert cur. induction a as [|c a IH]; intros cur; cbn [app split_on]; [by rewrite Ascii.eqb_refl|].
  destruct (Ascii.eqb c slash); [|apply IH]. by rewrite IH.
Qed.

Lemma clean_names r s names : Forall file_name names -> clean_pieces r s names = rev names ++ s.
Proof.
  intros Hn. revert s. induction Hn as [|f names Hf _ IH]; intros s; [done|].
  change (clean_pieces r (clean_step r s f) names = (rev names ++ [f]) ++ s).
  by rewrite clean_step_name, IH, <- app_assoc.
Qed.

Lemma clean_ups n m : clean_pieces false (replicate n (txt "..")) (replicate m (txt "..")) = replicate (m + n) (txt "..").
Proof.
  revert n. induction m as [|m IH]; intros n; [done|].
  change (clean_pieces false (clean_step false (replicate n (txt "..")) (txt "..")) (replicate m (txt "..")) = replicate (S m + n) (txt "..")).
  replace (clean_step false (replicate n (txt "..")) (txt "..")) with (replicate (S n) (txt "..")) by (by destruct n).
  rewrite (IH (S n)). f_equal. lia.
Qed.

Lemma clean_stacked r s : stacked r s -> clean_pieces r [] (rev s) = s.
Proof.
  intros (names & n & -> & Hn & Hr). rewrite rev_app_distr.
  assert (Hrep : rev (replicate n (txt "..")) = replicate n (txt "..")) by (by rewrite rev_alt; apply reverse_replicate).
  rewrite Hrep. unfold clean_pieces. rewrite foldl_app. fold (clean_pieces r [] (replicate n (txt ".."))).
  assert (Hups : clean_pieces r [] (replicate n (txt "..")) = replicate n (txt "..")).
  { destruct r; [by rewrite (Hr eq_refl)|]. exact (eq_trans (clean_ups 0 n) (f_equal (fun k => replicate k (txt "..")) (Nat.add_0_r n))). }
  rewrite Hups. change (clean_pieces r (replicate n (txt "..")) (rev names) = names ++ replicate n (txt "..")).
  rewrite clean_names by by apply Forall_rev. by rewrite rev_involutive.
Qed.

Lemma stacked_pieces r s : stacked r s -> Forall (fun l => (slash ∉ l) /\ l <> []) (rev s).
Proof.
  intros (names & n & -> & Hn & _). apply Forall_rev, Forall_app. split.
  - eapply Forall_impl; [exact Hn|]. intros l (? & ? & _). done.
  - apply Forall_replicate. split; [|done]. apply (bool_decide_unpack _). vm_compute. exact I.
Qed.

Lemma join_nonempty ls : ls <> [] -> Forall (fun l => (slash ∉ l) /\ l <> []) ls ->
  match join_text [slash] ls with c :: _ => c <> slash | [] => False end.
Proof.
  intros Hne Hls. destruct Hls as [|l ls [Hl Hl0] _]; [done|]. destruct l as [|c l]; [done|].
  apply not_elem_of_cons in Hl as [Hc _]. cbn. destruct ls; cbn; congruence.
Qed.

Lemma parse_nf r s : stacked r s -> clean_pieces r [] (split_on slash (nf_text r s) []) = s.
Proof.
  intros Hs. pose proof (stacked_pieces r s Hs) as Hp. destruct (decide (s = [])) as [->|Hne].
  { destruct r; reflexivity. }
  assert (Hr : rev s <> []) by (intros E; apply Hne; by rewrite <- (rev_involutive s), E).
  assert (Hsplit : split_on slash (join_text [slash] (rev s)) [] = rev s).
  { apply split_on_join; [done|]. eapply Forall_impl; [exact Hp|]. by intros l [? _]. }
  unfold nf_text. pose proof (join_nonempty _ Hr Hp) as Hj. destruct r.
  - cbn [split_on]. rewrite Ascii.eqb_refl. cbn [rev clean_pieces foldl]. rewrite Hsplit. by apply clean_stacked.
  - rewrite decide_False by (intros E; by rewrite E in Hj). rewrite Hsplit. by apply clean_stacked.
Qed.

Lemma rooted_nf r s t : stacked r s -> is_rooted (nf_text r s ++ t) = r.
Proof.
  intros Hs. unfold nf_text. destruct r; [done|]. destruct (decide _) as [|Hj]; [done|].
  pose proof (join_nonempty (rev s)) as H. destruct (join_text [slash] (rev s)) as [|c l] eqn:E; [done|]. cbn.
  apply Ascii.eqb_neq, H; [by intros E'; rewrite E' in E|by apply (stacked_pieces false)].
Qed.

(** Cleaning a cleaned path with more elements behind it cleans those. *)
Lemma Clean_nf_app r s t : stacked r s ->
  Clean (str (nf_text r s ++ slash :: t)) = nf r (clean_pieces r s (split_on slash t [])).
Proof.
  intros Hs. rewrite Clean_eq, !txt_str, (rooted_nf r s _ Hs), split_on_app. unfold clean_pieces at 1. rewrite foldl_app.
  fold (clean_pieces r [] (split_on slash (nf_text r s) [])). by rewrite parse_nf.
Qed.

Lemma Clean_nf r s : stacked r s -> Clean (nf r s) = nf r s.
Proof.
  intros Hs. unfold nf at 1. rewrite Clean_eq, !txt_str. pose proof (rooted_nf r s [] Hs) as Hr.
  rewrite app_nil_r in Hr. by rewrite Hr, parse_nf.
Qed.

(** ** The directory and the last element of a cleaned path *)

Lemma join_snoc ls f : join_text [slash] (ls ++ [f]) = match ls with [] => f | _ => join_text [slash] ls ++ slash :: f end.
Proof.
  induction ls as [|l ls IH]; [done|]. destruct ls as [|l' ls]; [done|].
  change ((l :: l' :: ls) ++ [f]) with (l :: l' :: (ls ++ [f])).
  change (join_text [slash] (l :: l' :: (ls ++ [f]))) with (l ++ [slash] ++ join_text [slash] ((l' :: ls) ++ [f])).
  rewrite IH. change (join_text [slash] (l :: l' :: ls)) with (l ++ [slash] ++ join_text [slash] (l' :: ls)).
  by rewrite <- !app_assoc.
Qed.

(** A path of one more element: nothing, the root or the path before it, then the
    element. *)
Lemma nf_cons r f s : stacked r s -> f <> [] ->
  nf_text r (f :: s) =
    match s with
    | [] => if r then slash :: f else f
    | _ => nf_text r s ++ slash :: f
    end.
Proof.
  intros Hs Hf. unfold nf_text. cbn [rev]. rewrite join_snoc. destruct s as [|x s].
  - cbn [rev]. destruct r; [done|]. by rewrite decide_False.
  - assert (Hr : rev (x :: s) <> []) by (intros E; apply (f_equal (@length _)) in E; by rewrite length_rev in E).
    pose proof (join_nonempty _ Hr (stacked_pieces r _ Hs)) as Hj. set (ls := rev (x :: s)) in *. destruct ls as [|l ls]; [done|].
    set (body := join_text _ (l :: ls)) in *. destruct r; [done|].
    rewrite !decide_False by (intros E; destruct body; done). done.
Qed.

Lemma split_last_free c t : c ∉ t -> split_last c t = None.
Proof.
  intros Ht. destruct (split_last c t) as [[a b]|] eqn:E; [|done]. apply split_last_spec in E as [-> _].
  destruct Ht. apply elem_of_app. right. by left.
Qed.

Lemma nf_last r f s : file_name f -> stacked r s -> Base (nf r (f :: s)) = str f /\ dir_of (nf r (f :: s)) = nf r s.
Proof.
  intros (Hf & Hne & _) Hs. unfold Base, dir_of, last_component, nf. rewrite !txt_str, (nf_cons r f s Hs Hne).
  assert (Hsl : forall a, split_last slash (a ++ slash :: f) = Some (a, f)) by (intros; by apply split_last_spec).
  assert (Hup : Clean (str (nf_text r s ++ [slash])) = nf r s) by (by rewrite (Clean_nf_app r s [] Hs)).
  destruct s as [|x s]; [destruct r|].
  - pose proof (Hsl []) as H0. cbn [app] in H0. rewrite !H0. split; [by destruct f|]. reflexivity.
  - rewrite (split_last_free _ _ Hf). split; [by destruct f|]. reflexivity.
  - rewrite Hsl, Hup. split; [|done]. destruct (nf_text r (x :: s)); by destruct f.
Qed.

Lemma results_name : file_name (txt "results").
Proof. split; [apply (bool_decide_unpack _); vm_compute; exact I|done]. Qed.

Lemma layout_elements target id : file_name (txt target) -> file_name (txt id) ->
  Forall file_name [txt "results"; txt target; txt id].
Proof. intros Ht Hi. constructor; [apply results_name|]. constructor; [done|]. constructor; [done|constructor]. Qed.

Lemma layout_pieces target id : file_name (txt target) -> file_name (txt id) ->
  split_on slash (txt ("results" +:+ "/" +:+ target +:+ "/" +:+ id)) [] = [txt "results"; txt target; txt id].
Proof.
  intros Ht Hi. rewrite !txt_app. change (txt "/") with [slash]. cbn [app].
  apply (split_on_join slash [txt "results"; txt target; txt id]); [done|].
  eapply Forall_impl; [by apply layout_elements|]. by intros l (? & _).
Qed.

(** The directory a layout makes, as a path: the base, results, the target and the
    run. *)
Lemma Layout_dir_nf base target id : file_name (txt target) -> file_name (txt id) ->
  exists r s, stacked r s /\ Dir (Layout base target id) = nf r (txt id :: txt target :: txt "results" :: s).
Proof.
  intros Ht Hi. pose proof results_name as Hres.
  set (tail := txt ("results" +:+ "/" +:+ target +:+ "/" +:+ id)).
  assert (Htail : split_on slash tail [] = [txt "results"; txt target; txt id]) by by apply layout_pieces.
  assert (Hall : forall r s, clean_pieces r s [txt "results"; txt target; txt id] = txt id :: txt target :: txt "results" :: s).
  { intros r s. by rewrite clean_names by by apply layout_elements. }
  cbn [Dir Layout Join]. destruct (String.eqb_spec base "") as [->|Hb].
  - exists false, []. split; [apply stacked_nil|]. change (Clean ("results" +:+ "/" +:+ target +:+ "/" +:+ id) = nf false [txt id; txt target; txt "results"]).
    rewrite Clean_eq.
    change (nf false (clean_pieces false [] (split_on slash tail [])) = nf false [txt id; txt target; txt "results"]).
    by rewrite Htail, Hall.
  - set (r := is_rooted (txt base)). exists r, (clean_pieces r [] (split_on slash (txt base) [])).
    split; [apply clean_pieces_stacked; [apply split_on_free, not_elem_of_nil|apply stacked_nil]|].
    change (String.concat "/" [base; "results"%string; target; id]) with (base +:+ ("/" +:+ ("results" +:+ "/" +:+ target +:+ "/" +:+ id))).
    rewrite Clean_eq, txt_app, (txt_app "/"). fold tail. change (txt "/") with [slash]. cbn [app].
    assert (Hroot : is_rooted (txt base ++ slash :: tail) = r) by (subst r; by destruct base).
    rewrite Hroot, split_on_app, Htail. unfold clean_pieces at 1. rewrite foldl_app.
    fold (clean_pieces r [] (split_on slash (txt base) [])). by rewrite <- (Hall r).
Qed.

(** The run directory of a layout, taken apart by its last elements, gives the
    layout again. *)
Lemma reread_layout base target id : file_name (txt target) -> file_name (txt id) ->
  let clean := Clean (Dir (Layout base target id)) in
  Layout (dir_of (dir_of (dir_of clean))) (Base (dir_of clean)) (Base clean) = Layout base target id.
Proof.
  intros Ht Hi. destruct (Layout_dir_nf base target id Ht Hi) as (r & s & Hs & Hd). cbv zeta. rewrite Hd.
  pose proof results_name as Hres.
  assert (H1 : stacked r (txt "results" :: s)) by by apply stacked_cons.
  assert (H2 : stacked r (txt target :: txt "results" :: s)) by by apply stacked_cons.
  rewrite Clean_nf by by apply stacked_cons.
  destruct (nf_last r _ _ Hi H2) as [-> ->]. destruct (nf_last r _ _ Ht H1) as [-> ->]. destruct (nf_last r _ _ Hres Hs) as [_ ->].
  rewrite !str_txt.
  assert (Hdir : Join [nf r s; "results"%string; target; id] = Dir (Layout base target id)).
  { rewrite Hd. cbn [Join]. destruct (String.eqb_spec (nf r s) "") as [E|_].
    { exfalso. rewrite <- (Clean_nf r s Hs) in E. by apply Clean_nonempty in E. }
    set (rest := "results" +:+ "/" +:+ target +:+ "/" +:+ id).
    change (String.concat "/" [nf r s; "results"%string; target; id]) with (nf r s +:+ ("/" +:+ rest)).
    rewrite <- (str_txt ("/" +:+ rest)). unfold nf. rewrite <- str_app, txt_app. change (txt "/" ++ txt rest) with (slash :: txt rest).
    rewrite (Clean_nf_app r s _ Hs). unfold rest. rewrite layout_pieces by done.
    by rewrite clean_names by by apply layout_elements. }
  unfold Layout. rewrite Hdir. reflexivity.
Qed.
