(* ===== verification/Report.v ===== *)
(** * Report: the HTML report of a run (core/report)

    Formatting, the SVG charts, the sections and the document, as text.  The
    decimal logarithm and the powers of ten are the class of math's calls. *)

From Stdlib Require Import Ascii String SpecFloat.
From S2P Require Import Prelude Domain Strconv Ftoa Timefmt Expect Metrics Targets Provision Emit Rundir.

Local Open Scope Z_scope.

(** A constant of the source, with a backtick for every double quote. *)
Definition html (s : string) : text := (fun c => if Ascii.eqb c "`" then dquote else c) <$> txt s.

(** ** math *)

Class FloatMath := {
  math_Log10 : float64 -> float64;
  math_Pow10 : float64 -> float64
}.

Definition float_sub (a b : float64) : float64 := SFsub 53 1024 a b.
Definition float_le (a b : float64) : bool := SFleb a b.

Definition math_Max (x y : float64) : float64 :=
  match x, y with
  | S754_infinity false, _ | _, S754_infinity false => S754_infinity false
  | S754_nan, _ | _, S754_nan => S754_nan
  | S754_zero s, S754_zero _ => if s then y else x
  | _, _ => if float_lt y x then x else y
  end.

Definition math_Min (x y : float64) : float64 :=
  match x, y with
  | S754_infinity true, _ | _, S754_infinity true => S754_infinity true
  | S754_nan, _ | _, S754_nan => S754_nan
  | S754_zero s, S754_zero _ => if s then x else y
  | _, _ => if float_lt x y then x else y
  end.

(** [math.Floor] and [math.Ceil] of a number, as integers; an infinity or NaN has
    none. *)
Definition floor_Z (v : float64) : option Z :=
  match v with
  | S754_zero _ => Some 0
  | S754_finite s m e => Some ((if s then - float_num m e else float_num m e) / float_den e)
  | _ => None
  end.

Definition ceil_Z (v : float64) : option Z :=
  match v with
  | S754_zero _ => Some 0
  | S754_finite s m e => Some (- ((if s then float_num m e else - float_num m e) / float_den e))
  | _ => None
  end.

Definition math_Floor (v : float64) : float64 := match floor_Z v with Some z => float_of_int z | None => v end.

(** [int64(math.Round(v))]: halves away from zero. *)
Definition round_int (v : float64) : Z :=
  match v with
  | S754_finite s m e =>
      let a := (2 * float_num m e + float_den e) / (2 * float_den e) in
      let z := if s then - a else a in
      if bool_decide (is_i64 z) then z else - 2^63
  | S754_zero _ => 0
  | _ => - 2^63
  end.

(** ** format.go *)

Definition sortedKeys (m : gmap string string) : list string := sorted_ops m.

(** [html.EscapeString]. *)
Definition esc_char (c : ascii) : text :=
  if Ascii.eqb c "&" then txt "&amp;"
  else if Ascii.eqb c "'" then txt "&#39;"
  else if Ascii.eqb c "<" then txt "&lt;"
  else if Ascii.eqb c ">" then txt "&gt;"
  else if Ascii.eqb c dquote then txt "&#34;"
  else [c].

Definition esc (t : text) : text := t ≫= esc_char.

(** The loop over the digits: a comma before every digit that has a multiple of
    three after it, itself included. *)
Fixpoint group_digits (i len : nat) (t : text) : text :=
  match t with
  | [] => []
  | c :: t => (if (0 <? i)%nat && ((len - i) mod 3 =? 0)%nat then txt "," else []) ++ c :: group_digits (S i) len t
  end.

Definition fmtInt (n : Z) : text :=
  match FormatInt n with
  | c :: t => if Ascii.eqb c "-" then "-"%char :: group_digits 0 (length t) t else group_digits 0 (S (length t)) (c :: t)
  | [] => []
  end.

Definition fmtFloat (v : float64) : text :=
  match v with
  | S754_nan | S754_infinity _ => txt "-"
  | S754_zero _ => txt "0"
  | S754_finite _ _ _ =>
      let a := SFabs v in
      if float_lt a (float_of_int 1) then FormatFloat_f 3 v
      else if float_lt a (float_of_int 100) then FormatFloat_f 2 v
      else if float_lt a (float_of_int 10000) then FormatFloat_f 1 v
      else fmtInt (round_int v)
  end.

Definition fmtMs (v : float64) : text := fmtFloat v ++ txt " ms".
Definition fmtDur (d : Z) : text := if d =? 0 then txt "0s" else duration_text d.
Definition fmtTime (t : Z) : text := if t =? zero_time then txt "-" else format_time t.
Definition coord (v : float64) : text := FormatFloat_f 2 v.

(** ** charts.go *)

Section charts.
Context {FM : FloatMath}.

Record labeledValue := { lv_Label : string; lv_Value : float64 }.

Definition num (z : Z) : float64 := float_of_int z.
Definition inf : float64 := S754_infinity false.
Definition neg_inf : float64 := S754_infinity true.
Definition positive (v : float64) : bool := float_lt (num 0) v.

(** The smallest and the largest positive value. *)
Definition value_range (vals : list labeledValue) : float64 * float64 :=
  foldl (fun '(lo, hi) v => if positive (lv_Value v) then (math_Min lo (lv_Value v), math_Max hi (lv_Value v)) else (lo, hi))
    (inf, neg_inf) vals.

Definition svg_line (x1 y1 x2 y2 : float64) (stroke width : string) : text :=
  html "<line x1=`" ++ coord x1 ++ html "` y1=`" ++ coord y1 ++ html "` x2=`" ++ coord x2 ++ html "` y2=`" ++ coord y2 ++
  html "` stroke=`var(" ++ txt stroke ++ html ")` stroke-width=`" ++ txt width ++ html "`/>".

(** A text element: its attributes after the position, and its content. *)
Definition svg_text (x y : float64) (attrs : string) (content : text) : text :=
  html "<text x=`" ++ coord x ++ html "` y=`" ++ coord y ++ html "` " ++ html attrs ++ txt ">" ++ content ++ txt "</text>".

Definition tick_attrs : string := "fill=`var(--muted)` font-size=`10` text-anchor=`middle`".

(** The powers of ten from [llo] up to [lhi]; [None]: the loop over them does not
    end, as when the upper bound is infinite. *)
Definition decades (llo lhi : float64) : option (list Z) :=
  match ceil_Z llo, floor_Z lhi with
  | Some a, Some b => Some (seqZ a (b - a + 1))
  | _, _ => if float_le llo lhi then None else Some []
  end.

Definition lollipop_x (llo lhi v : float64) : float64 :=
  let left := num 70 in
  let plotW := num 520 in
  if float_le v (num 0) then left
  else float_add left (float_mul (float_div (float_sub (math_Log10 v) llo) (float_sub lhi llo)) plotW).

Definition lollipop_row (llo lhi : float64) (i : nat) (v : labeledValue) : text :=
  let y := float_add (float_add (num 26) (float_mul (num (Z.of_nat i)) (num 30))) (num 15) in
  let px := lollipop_x llo lhi (lv_Value v) in
  svg_text (num 60) y "fill=`var(--ink2)` font-size=`12` text-anchor=`end` dominant-baseline=`middle`" (esc (txt (lv_Label v))) ++
  svg_line (num 70) y px y "--series-1" "2" ++
  html "<circle cx=`" ++ coord px ++ html "` cy=`" ++ coord y ++ html "` r=`4.5` fill=`var(--series-1)`/>" ++
  svg_text (float_add px (num 9)) y "fill=`var(--ink)` font-size=`12` text-anchor=`start` dominant-baseline=`middle`" (esc (fmtMs (lv_Value v))).

Definition lollipop_tick (llo lhi h : float64) (p : Z) : text :=
  let gx := lollipop_x llo lhi (math_Pow10 (num p)) in
  svg_line gx (num 20) gx (float_sub h (num 16)) "--grid" "1" ++
  svg_text gx (float_sub h (num 4)) tick_attrs (esc (fmtFloat (math_Pow10 (num p)))).

(** The drawing over the range from [lo] to [hi]; [None]: the loop over the
    gridlines does not end. *)
Definition lollipop_draw (lo hi : float64) (vals : list labeledValue) : option text :=
  let llo := math_Log10 lo in
  let lhi := math_Log10 hi in
  let h := float_add (float_add (num 26) (float_mul (num (Z.of_nat (length vals))) (num 30))) (num 12) in
  ps ← decades llo lhi;
  Some (html "<svg viewBox=`0 0 " ++ coord (num 680) ++ txt " " ++ coord h ++ html "` role=`img` aria-label=`latency percentiles`>" ++
        mjoin (lollipop_tick llo lhi h <$> ps) ++ mjoin (imap (lollipop_row llo lhi) vals) ++ txt "</svg>").

Definition is_inf (v : float64) : bool := match v with S754_infinity false => true | _ => false end.

Definition lollipopSVG (vals : list labeledValue) : option text :=
  let '(lo, hi) := value_range vals in
  if is_inf lo then Some []
  else if SFeqb lo hi then lollipop_draw (float_div lo (num 10)) (float_mul hi (num 10)) vals
  else lollipop_draw lo hi vals.

Record xy := { xy_X : float64; xy_Y : float64 }.
Record lineSeries := { sr_Name : string; sr_Color : string; sr_Pts : list xy }.

(** [niceMax]: 1, 2 or 5 times a power of ten, or the next power. *)
Definition niceMax (v : float64) : float64 :=
  if float_le v (num 0) then num 1
  else
    let base := math_Pow10 (math_Floor (math_Log10 v)) in
    let f := float_div v base in
    if float_le f (num 1) then base
    else if float_le f (num 2) then float_mul (num 2) base
    else if float_le f (num 5) then float_mul (num 5) base
    else float_mul (num 10) base.

(** The largest coordinates, starting from zero. *)
Definition extent (series : list lineSeries) : float64 * float64 :=
  foldl (fun '(xmax, ymax) p => (math_Max xmax (xy_X p), math_Max ymax (xy_Y p))) (num 0, num 0) (series ≫= sr_Pts).

Definition is_zero (v : float64) : bool := SFeqb v (num 0).

(** The plot area is 604 by 204 at (60, 16). *)
Definition chart_px (xmax v : float64) : float64 := float_add (num 60) (float_mul (float_div v xmax) (num 604)).
Definition chart_py (ymax v : float64) : float64 := float_sub (num 220) (float_mul (float_div v ymax) (num 204)).

Definition y_tick (ymax : float64) (i : Z) : text :=
  let yv := float_div (float_mul ymax (num i)) (num 4) in
  let gy := chart_py ymax yv in
  svg_line (num 60) gy (num 664) gy "--grid" "1" ++
  svg_text (num 52) gy "fill=`var(--muted)` font-size=`10` text-anchor=`end` dominant-baseline=`middle`" (esc (fmtFloat yv)).

Definition x_tick (xmax : float64) (i : Z) : text :=
  let xv := float_div (float_mul xmax (num i)) (num 4) in
  svg_text (chart_px xmax xv) (num 242) tick_attrs (esc (fmtFloat xv) ++ txt "s").

Definition polyline (xmax ymax : float64) (s : lineSeries) : text :=
  match sr_Pts s with
  | [] => []
  | pts =>
      let points := mjoin ((fun p => coord (chart_px xmax (xy_X p)) ++ txt "," ++ coord (chart_py ymax (xy_Y p)) ++ txt " ") <$> pts) in
      html "<polyline fill=`none` stroke=`" ++ txt (sr_Color s) ++
      html "` stroke-width=`2` stroke-linejoin=`round` stroke-linecap=`round` points=`" ++ txt (TrimSpace (str points)) ++ html "`/>"
  end.

Definition lineChartSVG (unit : string) (series : list lineSeries) : text :=
  match series ≫= sr_Pts with
  | [] => []
  | _ =>
      let '(xmax, ymax) := extent series in
      let ymax := niceMax (if is_zero ymax then num 1 else ymax) in
      let xmax := if is_zero xmax then num 1 else xmax in
      html "<svg viewBox=`0 0 " ++ coord (num 680) ++ txt " " ++ coord (num 250) ++ html "` role=`img` aria-label=`time series (" ++
      esc (txt unit) ++ html ")`>" ++
      mjoin (y_tick ymax <$> seqZ 0 5) ++ mjoin (x_tick xmax <$> seqZ 0 5) ++
      svg_line (num 60) (num 220) (num 664) (num 220) "--axis" "1" ++
      mjoin (polyline xmax ymax <$> series) ++ txt "</svg>"
  end.
End charts.

Record tPoint := { tp_T : Z; tp_Throughput : float64; tp_P50 : float64; tp_P99 : float64; tp_P999 : float64 }.
Record acc := { a_tp : tPoint; a_bestCount : Z }.

(** One snapshot into the accumulator of its instant. *)
Definition accumulate (s : LatencySnapshot) (a : acc) : acc :=
  let tp := a_tp a in
  let sum := float_add (tp_Throughput tp) (ls_Throughput s) in
  if a_bestCount a <? pct_Count (ls_Pct s) then
    {| a_tp := {| tp_T := tp_T tp; tp_Throughput := sum; tp_P50 := pct_P50 (ls_Pct s); tp_P99 := pct_P99 (ls_Pct s);
                  tp_P999 := pct_P999 (ls_Pct s) |};
       a_bestCount := pct_Count (ls_Pct s) |}
  else
    {| a_tp := {| tp_T := tp_T tp; tp_Throughput := sum; tp_P50 := tp_P50 tp; tp_P99 := tp_P99 tp; tp_P999 := tp_P999 tp |};
       a_bestCount := a_bestCount a |}.

Definition acc_new (t : Z) : acc :=
  {| a_tp := {| tp_T := t; tp_Throughput := num 0; tp_P50 := num 0; tp_P99 := num 0; tp_P999 := num 0 |}; a_bestCount := -1 |}.

Definition add_snapshot (byT : gmap Z acc) (s : LatencySnapshot) : gmap Z acc :=
  let k := UnixMicro (ls_T s) in
  <[k := accumulate s (default (acc_new (ls_T s)) (byT !! k))]> byT.

(** [order] is the order of the range over the accumulators. *)
Definition aggregate (order : gmap Z acc -> list acc) (snaps : list LatencySnapshot) : list tPoint :=
  sort_by (fun a b => tp_T a <=? tp_T b) (a_tp <$> order (foldl add_snapshot ∅ snaps)).

(** ** css.go *)

Definition styleBlock : text := html "<style>
:root{
  color-scheme:light dark;
  --plane:#f9f9f7; --surface:#fcfcfb;
  --ink:#0b0b0b; --ink2:#52514e; --muted:#898781;
  --grid:#e1e0d9; --axis:#c3c2b7; --border:rgba(11,11,11,0.10);
  --series-1:#2a78d6; --series-2:#eb6834; --series-3:#1baf7a;
  --good:#0ca30c; --good-ink:#006300; --critical:#d03b3b; --warning:#fab219; --unknown:#898781;
}
@media (prefers-color-scheme:dark){
  :root{
    --plane:#0d0d0d; --surface:#1a1a19;
    --ink:#ffffff; --ink2:#c3c2b7; --muted:#898781;
    --grid:#2c2c2a; --axis:#383835; --border:rgba(255,255,255,0.10);
    --series-1:#3987e5; --series-2:#d95926; --series-3:#199e70;
    --good:#0ca30c; --good-ink:#0ca30c; --critical:#d03b3b;
  }
}
*{box-sizing:border-box}
body{margin:0;background:var(--plane);color:var(--ink);
  font-family:system-ui,-apple-system,`Segoe UI`,sans-serif;line-height:1.5;}
.wrap{max-width:900px;margin:0 auto;padding:24px 20px 64px;}
h1{font-size:1.5rem;margin:0 0 4px;}
h2{font-size:1.15rem;margin:32px 0 12px;border-bottom:1px solid var(--border);padding-bottom:6px;}
.sub{color:var(--ink2);margin:0 0 8px;font-size:.95rem;}
.pill{display:inline-block;padding:2px 10px;border:1px solid var(--border);border-radius:999px;
  font-size:.8rem;color:var(--ink2);margin:0 6px 6px 0;background:var(--surface);}
.card{background:var(--surface);border:1px solid var(--border);border-radius:10px;padding:16px 18px;margin:12px 0;}
.stats{display:flex;flex-wrap:wrap;gap:24px;margin:4px 0 16px;}
.stat .k{color:var(--muted);font-size:.8rem;text-transform:uppercase;letter-spacing:.04em;}
.stat .v{font-size:1.7rem;font-weight:600;}
table{border-collapse:collapse;width:100%;font-size:.9rem;}
th,td{text-align:left;padding:7px 10px;border-bottom:1px solid var(--border);}
th{color:var(--muted);font-weight:600;font-size:.8rem;text-transform:uppercase;letter-spacing:.03em;}
td.num,th.num{text-align:right;font-variant-numeric:tabular-nums;}
.tblwrap{overflow-x:auto;}
svg{max-width:100%;height:auto;display:block;}
.legend{display:flex;flex-wrap:wrap;gap:16px;margin:8px 0 0;font-size:.85rem;color:var(--ink2);}
.legend span{display:inline-flex;align-items:center;gap:6px;}
.swatch{width:12px;height:12px;border-radius:3px;display:inline-block;}
.banner{border-radius:10px;padding:12px 16px;margin:12px 0;font-weight:600;border:1px solid var(--border);}
.banner.pass{background:color-mix(in srgb,var(--good) 16%,var(--surface));color:var(--good-ink);}
.banner.fail{background:color-mix(in srgb,var(--critical) 16%,var(--surface));color:var(--critical);}
.banner.warn{background:color-mix(in srgb,var(--warning) 22%,var(--surface));color:var(--ink);}
.banner.unknown{background:var(--surface);color:var(--ink2);}
.muted{color:var(--muted);}
ul.anom{margin:8px 0;padding-left:18px;font-size:.9rem;}
ul.anom code{background:color-mix(in srgb,var(--critical) 10%,var(--surface));padding:1px 4px;border-radius:4px;}
footer{margin-top:40px;color:var(--muted);font-size:.8rem;}
</style>".

(** ** sections.go *)

Section sections.
Context {FM : FloatMath}.

Definition rateLabel (r : RateSpec) : text :=
  if String.eqb (rate_Mode r) RateFixed then txt "fixed " ++ fmtInt (rate_OpsPerSec r) ++ txt " ops/s" else txt (rate_Mode r).

Definition nonblank (row : string * text) : bool := match row.2 with [] => false | _ => true end.

Definition pill (p : string * text) : text := html "<span class=`pill`>" ++ esc (txt p.1) ++ txt ": " ++ esc p.2 ++ txt "</span>".

Definition pills (m : Manifest) : list (string * text) :=
  [("workload", txt (mf_Workload m)); ("mode", txt (mf_Mode m)); ("rate", rateLabel (mf_Rate m)); ("consistency", txt (mf_Consistency m))]%string.

Definition headerHTML (m : Manifest) : text :=
  txt "<h1>" ++ esc (txt (mf_Target m)) ++ txt "</h1>" ++
  html "<p class=`sub`>Run report &middot; " ++ esc (txt (mf_RunID m)) ++ txt "</p>" ++
  mjoin (pill <$> List.filter nonblank (pills m)).

Definition clientLabel (c : ClientInfo) : text :=
  if String.eqb (ci_Hostname c) "" then []
  else txt (ci_Hostname c) ++ txt " (" ++ txt (ci_OS c) ++ txt "/" ++ txt (ci_Arch c) ++ txt ", " ++ fmtInt (ci_CPUs c) ++ txt " CPUs)".

Definition metadata_rows (m : Manifest) : list (string * text) :=
  [("Target", txt (mf_Target m)); ("Target version", txt (mf_TargetVersion m));
   ("Workload", txt (mf_Workload m)); ("Mode", txt (mf_Mode m));
   ("Rate", rateLabel (mf_Rate m)); ("Duration", fmtDur (mf_Duration m));
   ("Warmup", fmtDur (mf_Warmup m)); ("Connections", fmtInt (mf_Connections m));
   ("Seed", fmtInt (mf_Seed m)); ("Trials", fmtInt (mf_Trials m));
   ("Consistency", txt (mf_Consistency m));
   ("Replication factor", fmtInt (cs_ReplicationFactor (mf_Cluster m)));
   ("Cluster nodes", fmtInt (Z.of_nat (length (cs_Nodes (mf_Cluster m)))));
   ("Engine version", txt (mf_EngineVersion m)); ("Git SHA", txt (mf_GitSHA m));
   ("Client", clientLabel (mf_Client m)); ("Created at", fmtTime (mf_CreatedAt m))]%string.

Definition table_row (head : text) (cell : text) : text := txt "<tr><th>" ++ head ++ txt "</th><td>" ++ cell ++ txt "</td></tr>".

Definition metadataHTML (m : Manifest) : text :=
  html "<h2>Run metadata</h2><div class=`card`><div class=`tblwrap`><table><tbody>" ++
  mjoin ((fun r => table_row (esc (txt r.1)) (esc r.2)) <$> List.filter nonblank (metadata_rows m)) ++
  mjoin ((fun k => table_row (txt "label: " ++ esc (txt k)) (esc (txt (default ""%string (mf_Labels m !! k))))) <$> sortedKeys (mf_Labels m)) ++
  txt "</tbody></table></div></div>".

Definition statHTML (k v : text) : text :=
  html "<div class=`stat`><div class=`k`>" ++ esc k ++ html "</div><div class=`v`>" ++ esc v ++ txt "</div></div>".

Definition summary_values (r : RunResult) : list labeledValue :=
  let p := rr_Overall r in
  [{| lv_Label := "p50"; lv_Value := pct_P50 p |}; {| lv_Label := "p90"; lv_Value := pct_P90 p |}; {| lv_Label := "p95"; lv_Value := pct_P95 p |};
   {| lv_Label := "p99"; lv_Value := pct_P99 p |}; {| lv_Label := "p99.9"; lv_Value := pct_P999 p |}; {| lv_Label := "max"; lv_Value := pct_Max p |}].

Definition summaryHTML (r : RunResult) : option text :=
  svg ← lollipopSVG (summary_values r);
  Some (html "<h2>Summary</h2><div class=`card`>" ++ html "<div class=`stats`>" ++
        statHTML (txt "Throughput") (fmtFloat (rr_Throughput r) ++ txt " ops/s") ++
        statHTML (txt "Total ops") (fmtInt (rr_Total r)) ++
        statHTML (txt "Errors") (fmtInt (rr_Errors r)) ++
        statHTML (txt "Duration") (fmtDur (rr_Duration r)) ++
        txt "</div>" ++
        match svg with
        | [] => []
        | _ => html "<p class=`muted` style=`margin:8px 0 2px;font-size:.85rem`>Overall latency (log scale)</p>" ++ svg
        end ++
        txt "</div>").

Definition num_cell (v : float64) : text := html "<td class=`num`>" ++ esc (fmtFloat v) ++ txt "</td>".

Definition op_row (op : string) (p : Percentiles) : text :=
  txt "<tr><td>" ++ esc (txt op) ++ html "</td><td class=`num`>" ++ esc (fmtInt (pct_Count p)) ++ txt "</td>" ++
  mjoin (num_cell <$> [pct_P50 p; pct_P90 p; pct_P95 p; pct_P99 p; pct_P999 p; pct_P9999 p; pct_Max p]) ++ txt "</tr>".

Definition byOp_rows (r : RunResult) : list (string * Percentiles) :=
  omap (fun op => p ← rr_ByOp r !! op; Some (op, p)) (sorted_ops (rr_ByOp r)).

Definition byOpHTML (r : RunResult) : text :=
  html "<h2>Per-operation latency</h2><div class=`card`><div class=`tblwrap`><table>" ++
  html "<thead><tr><th>Op</th><th class=`num`>Count</th><th class=`num`>p50</th>" ++
  html "<th class=`num`>p90</th><th class=`num`>p95</th><th class=`num`>p99</th>" ++
  html "<th class=`num`>p99.9</th><th class=`num`>p99.99</th><th class=`num`>Max</th></tr></thead><tbody>" ++
  mjoin ((fun '(op, p) => op_row op p) <$> byOp_rows r) ++
  html "</tbody></table></div><p class=`muted` style=`font-size:.8rem;margin:8px 0 0`>Latencies in milliseconds.</p></div>".

Definition legend (s : lineSeries) : text :=
  html "<span><span class=`swatch` style=`background:" ++ txt (sr_Color s) ++ html "`></span>" ++ esc (txt (sr_Name s)) ++ txt "</span>".

(** The points of a series over the seconds since the first. *)
Definition plot (start : Z) (f : tPoint -> float64) (pts : list tPoint) : list xy :=
  (fun p => {| xy_X := seconds (time_sub (tp_T p) start); xy_Y := f p |}) <$> pts.

Definition latency_series (start : Z) (pts : list tPoint) : list lineSeries :=
  [{| sr_Name := "p50"; sr_Color := "var(--series-1)"; sr_Pts := plot start tp_P50 pts |};
   {| sr_Name := "p99"; sr_Color := "var(--series-2)"; sr_Pts := plot start tp_P99 pts |};
   {| sr_Name := "p99.9"; sr_Color := "var(--series-3)"; sr_Pts := plot start tp_P999 pts |}].

Definition throughput_series (start : Z) (pts : list tPoint) : list lineSeries :=
  [{| sr_Name := "throughput"; sr_Color := "var(--series-1)"; sr_Pts := plot start tp_Throughput pts |}].

Definition timeseriesHTML (order : gmap Z acc -> list acc) (snaps : list LatencySnapshot) : text :=
  match aggregate order snaps with
  | [] => []
  | (p0 :: _) as pts =>
      html "<h2>Throughput over time</h2><div class=`card`>" ++
      lineChartSVG "ops/s" (throughput_series (tp_T p0) pts) ++
      html "<p class=`muted` style=`font-size:.8rem;margin:8px 0 0`>Completed ops/sec per interval.</p></div>" ++
      html "<h2>Latency over time</h2><div class=`card`>" ++
      lineChartSVG "ms" (latency_series (tp_T p0) pts) ++
      html "<div class=`legend`>" ++ mjoin (legend <$> latency_series (tp_T p0) pts) ++ txt "</div></div>"
  end.

Definition verdict_banner (v : Verdict) : string * string :=
  if String.eqb v VerdictPass then ("pass", "PASS")%string
  else if String.eqb v VerdictFail then ("fail", "FAIL")%string
  else ("unknown", "UNKNOWN")%string.

Definition anomalyHTML (a : Anomaly) : text :=
  txt "<li><strong>" ++ esc (txt (an_Kind a)) ++ txt "</strong>: " ++ esc (txt (an_Detail a)) ++
  match an_Witness a with
  | [] => []
  | l => txt " <code>" ++ esc (join_text (txt ", ") (txt <$> l)) ++ txt "</code>"
  end ++ txt "</li>".

Definition correctnessHTML (v : VerifyReport) : text :=
  let '(cls, label) := verdict_banner (vr_Verdict v) in
  txt "<h2>Correctness</h2>" ++
  html "<div class=`banner " ++ txt cls ++ html "`>Verdict: " ++ esc (txt label) ++ txt " &middot; model " ++ esc (txt (vr_Model v)) ++ txt "</div>" ++
  html "<div class=`card`><div class=`stats`>" ++
  statHTML (txt "Checked") (fmtInt (vr_Checked v)) ++
  statHTML (txt "Lost") (fmtInt (vr_Lost v)) ++
  statHTML (txt "Duplicated") (fmtInt (vr_Duplicated v)) ++
  statHTML (txt "Ordering viol.") (fmtInt (vr_OrderingViol v)) ++
  (if 0 <? vr_ConvergedIn v then statHTML (txt "Converged in") (fmtDur (vr_ConvergedIn v)) else []) ++
  (if 0 <? vr_MaxStaleness v then statHTML (txt "Max staleness") (fmtDur (vr_MaxStaleness v)) else []) ++
  txt "</div>" ++
  match vr_Anomalies v with
  | [] => html "<p class=`muted` style=`font-size:.85rem;margin:4px 0 0`>No anomalies reported.</p>"
  | l => html "<ul class=`anom`>" ++ mjoin (anomalyHTML <$> l) ++ txt "</ul>"
  end ++
  txt "</div>".
End sections.

(** ** report.go *)

Definition pathsFor (runDir : string) : Paths :=
  let clean := Clean runDir in
  Layout (dir_of (dir_of (dir_of clean))) (Base (dir_of clean)) (Base clean).

Definition document (m : Manifest) (body : text) : text :=
  let title := esc (txt (mf_Target m) ++ txt " — proofload run " ++ txt (mf_RunID m)) in
  html "<!DOCTYPE html><html lang=`en`><head><meta charset=`utf-8`>" ++
  html "<meta name=`viewport` content=`width=device-width, initial-scale=1`>" ++
  txt "<title>" ++ title ++ txt "</title>" ++ styleBlock ++ html "</head><body><main class=`wrap`>" ++
  body ++
  html "<footer>Generated by proofload &middot; self-contained offline report.</footer>" ++
  txt "</main></body></html>".

Definition warn_banner : text :=
  html "<div class=`banner warn`>Client-bound: the load client, not the target, was the bottleneck for this run. Throughput and latency numbers do not reflect the target.</div>".

Section render.
Context {FM : FloatMath}.
Variable cs : codecs.
Variable order : gmap Z acc -> list acc.

(** What is shown of a run's artifacts; the parts that are absent are left out. *)
Definition body (m : Manifest) (r : RunResult) (snaps : option (list LatencySnapshot)) (v : option VerifyReport) : option text :=
  summary ← summaryHTML r;
  Some (headerHTML m ++ (if rr_ClientBound r then warn_banner else []) ++ summary ++
        (if decide (rr_ByOp r = ∅) then [] else byOpHTML r) ++
        match snaps with Some snaps => timeseriesHTML order snaps | None => [] end ++
        match v with Some v => correctnessHTML v | None => [] end ++
        metadataHTML m).

Definition readVerifyIfPresent (p : Paths) (w : world) : world * result error (option VerifyReport) :=
  match Stat (VerifyJSON p) w with
  | (w, false) => (w, Ok None)
  | (w, true) =>
      match ReadVerify cs p w with
      | (w, Err e) => (w, Err e)
      | (w, Ok v) => (w, Ok (Some v))
      end
  end.

Definition ok_or_none {A} (r : result error A) : option A := match r with Ok a => Some a | Err _ => None end.

(** [Render]; the outer [None] is a rendering that does not return. *)
Definition Render (runDir : string) (w : world) : option (world * result error text) :=
  let p := pathsFor runDir in
  match ReadManifest cs p w with
  | (w, Err e) => Some (w, Err e)
  | (w, Ok m) =>
      match ReadSummary cs p w with
      | (w, Err e) => Some (w, Err e)
      | (w, Ok r) =>
          let '(w, snaps) := ReadTimeseriesParquet cs p w in
          let '(w, v) := readVerifyIfPresent p w in
          b ← body m r (ok_or_none snaps) (mjoin (ok_or_none v));
          Some (w, Ok (document m b))
      end
  end.

Definition bytes_of_text (t : text) : bytes := byte_of_ascii <$> t.

Definition WriteReport (runDir : string) (w : world) : option (world * result error string) :=
  match Render runDir w with
  | None => None
  | Some (w, Err e) => Some (w, Err e)
  | Some (w, Ok doc) =>
      let out := Join [runDir; "report.html"]%string in
      match WriteFile out (bytes_of_text doc) w with
      | (w, Some e) => Some (w, Err e)
      | (w, None) => Some (w, Ok out)
      end
  end.
End render.

(** ** Markup *)

(** A reader of markup: where it is, and the elements open around it. *)
Inductive mode :=
| Outside
| InTag (name : text) (in_name quote : bool) (prev : ascii).

Definition void_elements : list text := [txt "meta"].

(** The elements of a report: none of them runs code or loads anything. *)
Definition elements : list text := txt <$>
  ["html"; "head"; "meta"; "title"; "style"; "body"; "main"; "footer"; "h1"; "h2"; "p"; "span"; "div"; "strong"; "code"; "ul"; "li";
   "table"; "thead"; "tbody"; "tr"; "th"; "td"; "svg"; "text"; "line"; "circle"; "polyline"]%string.

(** The end of a tag: closing the innermost element, opening one of [elements], or
    neither. *)
Definition end_tag (name : text) (prev : ascii) (stack : list text) : option (list text) :=
  match name with
  | c :: n =>
      if Ascii.eqb c slash then
        match stack with
        | top :: stack => if decide (top = n) then Some stack else None
        | [] => None
        end
      else if Ascii.eqb c "!" then Some stack
      else if negb (bool_decide (name ∈ elements)) then None
      else if Ascii.eqb prev slash || bool_decide (name ∈ void_elements) then Some stack
      else Some (name :: stack)
  | [] => None
  end.

Definition step (s : mode * list text) (c : ascii) : option (mode * list text) :=
  let '(m, stack) := s in
  match m with
  | Outside => Some (if Ascii.eqb c "<" then InTag [] true false " " else Outside, stack)
  | InTag name in_name quote prev =>
      if Ascii.eqb c "<" then None
      else if quote then Some (InTag name in_name (negb (Ascii.eqb c dquote)) c, stack)
      else if Ascii.eqb c dquote then Some (InTag name in_name true c, stack)
      else if Ascii.eqb c ">" then stack ← end_tag name prev stack; Some (Outside, stack)
      else if in_name then Some (if Ascii.eqb c " " then InTag name false false c else InTag (name ++ [c]) true false c, stack)
      else Some (InTag name false false c, stack)
  end.

Fixpoint run (s : mode * list text) (t : text) : option (mode * list text) :=
  match t with
  | [] => Some s
  | c :: t => match step s c with Some s => run s t | None => None end
  end.

Lemma run_app s a b : run s (a ++ b) = s ← run s a; run s b.
Proof. revert s. induction a as [|c a IH]; intros s; [done|]. cbn [app run]. destruct (step s c); [apply IH|done]. Qed.

(** A text that opens and closes the same elements, wherever it stands. *)
Definition balanced (t : text) : Prop := forall stack, run (Outside, stack) t = Some (Outside, stack).

(** A text without markup. *)
Definition calm_char (c : ascii) : bool := negb (existsb (Ascii.eqb c) ["<"%char; ">"%char; dquote]).
Definition calm (t : text) : Prop := Forall (fun c => calm_char c = true) t.

Lemma calm_app a b : calm a -> calm b -> calm (a ++ b).
Proof. intros. by apply Forall_app. Qed.

Lemma calm_const t : forallb calm_char t = true -> calm t.
Proof. intros H. apply Forall_forall. intros c Hc. rewrite forallb_forall in H. apply H. by apply list_elem_of_In. Qed.

Lemma esc_calm t : calm (esc t).
Proof.
  unfold esc. apply Forall_bind, Forall_forall. intros c _. change (calm (esc_char c)). unfold esc_char.
  destruct (Ascii.eqb_spec c "&"); [by apply calm_const|]. destruct (Ascii.eqb_spec c "'"); [by apply calm_const|].
  destruct (Ascii.eqb_spec c "<"); [by apply calm_const|]. destruct (Ascii.eqb_spec c ">"); [by apply calm_const|].
  destruct (Ascii.eqb_spec c dquote); [by apply calm_const|]. constructor; [|constructor].
  unfold calm_char. cbn [existsb]. by rewrite !(proj2 (Ascii.eqb_neq _ _)) by done.
Qed.

Lemma float_calm t : float_text t -> calm t.
Proof. intros H. eapply Forall_impl; [exact H|]. intros c. destruct c as [[] [] [] [] [] [] [] []]; vm_compute; congruence. Qed.

Lemma coord_calm v : calm (coord v).
Proof. apply float_calm, FormatFloat_f_float. Qed.

Lemma calm_char_neq c : calm_char c = true -> Ascii.eqb c "<" = false /\ Ascii.eqb c ">" = false /\ Ascii.eqb c dquote = false.
Proof. unfold calm_char. cbn [existsb]. destruct (Ascii.eqb c "<"), (Ascii.eqb c ">"), (Ascii.eqb c dquote); done. Qed.

Lemma run_calm t stack : calm t -> run (Outside, stack) t = Some (Outside, stack).
Proof.
  induction 1 as [|c t Hc Ht IH]; [done|]. apply calm_char_neq in Hc as (H1 & _). cbn [run step]. by rewrite H1.
Qed.

(** Inside a quoted attribute value. *)
Lemma run_calm_attr t name b prev stack :
  calm t -> exists prev', run (InTag name b true prev, stack) t = Some (InTag name b true prev', stack).
Proof.
  intros Ht. revert prev. induction Ht as [|c t Hc Ht IH]; intros prev; [by exists prev|].
  apply calm_char_neq in Hc as (H1 & _ & H3). cbn [run step]. rewrite H1, H3. apply IH.
Qed.

Lemma calm_balanced t : calm t -> balanced t.
Proof. intros Ht stack. by apply run_calm. Qed.

Lemma balanced_nil : balanced [].
Proof. done. Qed.

Lemma balanced_app a b : balanced a -> balanced b -> balanced (a ++ b).
Proof. intros Ha Hb stack. rewrite run_app, Ha. apply Hb. Qed.

Lemma balanced_mjoin ls : Forall balanced ls -> balanced (mjoin ls).
Proof. induction 1; [apply balanced_nil|]. by apply balanced_app. Qed.

(** The balanced parts a section is put together from; closed by [markup]. *)
Create HintDb markup_db discriminated.
#[export] Hint Constants Opaque : markup_db.

(** Takes a text apart by its form, down to constants and known parts. *)
Ltac markup :=
  lazymatch goal with
  | |- calm (?a ++ ?b) => apply calm_app; markup
  | |- calm (esc _) => apply esc_calm
  | |- calm (coord _) => apply coord_calm
  | |- calm (txt (String _ _)) => apply calm_const; reflexivity
  | |- calm _ => assumption
  | |- balanced (?a ++ ?b) => apply balanced_app; markup
  | |- balanced (esc _) => apply calm_balanced, esc_calm
  | |- balanced (txt (String _ _)) => apply calm_balanced; markup
  | |- balanced [] => apply balanced_nil
  | |- balanced _ => first [assumption | solve [auto 2 with markup_db nocore]]
  end.

(** Reads a text piece by piece: constants are computed, balanced and calm parts
    leave the state as it is. *)
Ltac piece :=
  lazymatch goal with
  | |- run ?s (?a ++ ?b) = ?r =>
      rewrite run_app;
      first
        [ lazymatch s with
          | (Outside, ?st) => let H := fresh in assert (H : balanced a) by markup; rewrite (H st); clear H
          | (InTag ?n ?q true ?p, ?st) =>
              let H := fresh in let p' := fresh "prev" in
              assert (H : calm a) by markup;
              destruct (run_calm_attr a n q p st H) as [p' ->]; clear H
          end
        | lazymatch a with
          | txt _ => let v := eval vm_compute in (run s a) in change (run s a) with v
          | html _ => let v := eval vm_compute in (run s a) in change (run s a) with v
          end ];
      cbn [mbind option_bind]
  end.

Ltac last_piece :=
  lazymatch goal with
  | |- run _ (txt _) = _ => reflexivity
  | |- run _ (html _) = _ => reflexivity
  | |- run (Outside, ?st) ?a = Some (Outside, ?st) => let H := fresh in assert (H : balanced a) by markup; exact (H st)
  | |- Some _ = Some _ => reflexivity
  end.

Ltac read_markup := repeat piece; last_piece.

Lemma svg_line_balanced x1 y1 x2 y2 stroke width :
  calm (txt stroke) -> calm (txt width) -> balanced (svg_line x1 y1 x2 y2 stroke width).
Proof. intros Hs Hw stack. unfold svg_line. read_markup. Qed.

(** The attributes of the charts' texts. *)
Definition text_attrs : list string :=
  [tick_attrs; "fill=`var(--ink2)` font-size=`12` text-anchor=`end` dominant-baseline=`middle`";
   "fill=`var(--ink)` font-size=`12` text-anchor=`start` dominant-baseline=`middle`";
   "fill=`var(--muted)` font-size=`10` text-anchor=`end` dominant-baseline=`middle`"]%string.

Lemma svg_text_balanced x y attrs content : attrs ∈ text_attrs -> balanced content -> balanced (svg_text x y attrs content).
Proof.
  intros Ha Hc stack. unfold svg_text. unfold text_attrs in Ha.
  repeat (apply elem_of_cons in Ha as [->|Ha]; [read_markup|]). by apply elem_of_nil in Ha.
Qed.

Lemma text_attrs_in attrs : existsb (String.eqb attrs) text_attrs = true -> attrs ∈ text_attrs.
Proof. intros (x & Hx & <-%String.eqb_eq)%existsb_exists. by apply list_elem_of_In. Qed.

#[export] Hint Extern 0 (balanced (svg_line _ _ _ _ _ _)) => (apply svg_line_balanced; markup) : markup_db.
#[export] Hint Extern 0 (balanced (svg_text _ _ _ _)) => (apply svg_text_balanced; [apply text_attrs_in; reflexivity|markup]) : markup_db.

Lemma mjoin_balanced {A} (g : A -> text) l : (forall x, balanced (g x)) -> balanced (mjoin (g <$> l)).
Proof. intros H. apply balanced_mjoin, Forall_fmap, Forall_forall. intros x _. apply H. Qed.

Lemma calm_mjoin ls : Forall calm ls -> calm (mjoin ls).
Proof. induction 1; [by apply calm_const|]. by apply calm_app. Qed.

Lemma TrimSpace_calm t : calm t -> calm (txt (TrimSpace (str t))).
Proof.
  assert (Hd : forall t, calm t -> calm (drop_space t)).
  { intros u Hu. destruct (drop_space_suffix u) as [p Hp]. rewrite Hp in Hu. by apply Forall_app in Hu as [_ Hu]. }
  intros Ht. unfold TrimSpace. rewrite !txt_str. apply Forall_rev, Hd, Forall_rev, Hd, Ht.
Qed.

Section charts_balanced.
Context {FM : FloatMath}.

Lemma lollipop_tick_balanced llo lhi h p : balanced (lollipop_tick llo lhi h p).
Proof. unfold lollipop_tick. cbv zeta. markup. Qed.

Lemma lollipop_row_balanced llo lhi i v : balanced (lollipop_row llo lhi i v).
Proof. intros stack. unfold lollipop_row. cbv zeta. read_markup. Qed.

Lemma lollipop_draw_balanced lo hi vals svg : lollipop_draw lo hi vals = Some svg -> balanced svg.
Proof.
  unfold lollipop_draw. cbv zeta. set (llo := math_Log10 lo). set (lhi := math_Log10 hi). set (h := float_add _ _).
  destruct (decades llo lhi) as [ps|]; [|done]. cbn [mbind option_bind]. intros H%(inj Some) stack. rewrite <- H.
  assert (Ht : balanced (mjoin (lollipop_tick llo lhi h <$> ps))) by apply mjoin_balanced, lollipop_tick_balanced.
  assert (Hr : balanced (mjoin (imap (lollipop_row llo lhi) vals))).
  { apply balanced_mjoin, Forall_lookup. intros j t Hj. rewrite list_lookup_imap in Hj.
    destruct (vals !! j); [|done]. injection Hj as <-. apply lollipop_row_balanced. }
  read_markup.
Qed.

Lemma lollipopSVG_balanced vals svg : lollipopSVG vals = Some svg -> balanced svg.
Proof.
  unfold lollipopSVG. destruct (value_range vals) as [lo hi]. destruct (is_inf lo); [by intros [= <-]|].
  destruct (SFeqb lo hi); apply lollipop_draw_balanced.
Qed.

Lemma y_tick_balanced ymax i : balanced (y_tick ymax i).
Proof. unfold y_tick. cbv zeta. markup. Qed.

Lemma x_tick_balanced xmax i : balanced (x_tick xmax i).
Proof. unfold x_tick. cbv zeta. markup. Qed.

Lemma polyline_balanced xmax ymax s : calm (txt (sr_Color s)) -> balanced (polyline xmax ymax s).
Proof.
  intros Hc. unfold polyline. destruct (sr_Pts s) as [|p pts]; [apply balanced_nil|]. cbv zeta.
  set (points := mjoin _).
  assert (Hp : calm (txt (TrimSpace (str points)))).
  { apply TrimSpace_calm, calm_mjoin, Forall_fmap, Forall_forall. intros q _.
    change (calm (coord (chart_px xmax (xy_X q)) ++ txt "," ++ coord (chart_py ymax (xy_Y q)) ++ txt " ")). markup. }
  intros stack. read_markup.
Qed.

Lemma lineChartSVG_balanced unit series : Forall (fun s => calm (txt (sr_Color s))) series -> balanced (lineChartSVG unit series).
Proof.
  intros Hc. unfold lineChartSVG. destruct (series ≫= sr_Pts); [apply balanced_nil|].
  destruct (extent series) as [xmax ymax]. cbv zeta. set (ym := niceMax _). set (xm := if is_zero xmax then _ else _).
  assert (Hy : balanced (mjoin (y_tick ym <$> seqZ 0 5))) by apply mjoin_balanced, y_tick_balanced.
  assert (Hx : balanced (mjoin (x_tick xm <$> seqZ 0 5))) by apply mjoin_balanced, x_tick_balanced.
  assert (Hl : balanced (mjoin (polyline xm ym <$> series))).
  { apply balanced_mjoin, Forall_fmap. eapply Forall_impl; [exact Hc|]. intros s Hs. by apply polyline_balanced. }
  intros stack. read_markup.
Qed.
End charts_balanced.

Section sections_balanced.
Context {FM : FloatMath}.

Lemma pill_balanced p : balanced (pill p).
Proof. intros stack. unfold pill. read_markup. Qed.

Lemma headerHTML_balanced m : balanced (headerHTML m).
Proof.
  assert (Hp : balanced (mjoin (pill <$> List.filter nonblank (pills m)))) by apply mjoin_balanced, pill_balanced.
  intros stack. unfold headerHTML. read_markup.
Qed.

Lemma table_row_balanced a b : balanced a -> balanced b -> balanced (table_row a b).
Proof. intros Ha Hb stack. unfold table_row. read_markup. Qed.

Lemma metadataHTML_balanced m : balanced (metadataHTML m).
Proof.
  intros stack. unfold metadataHTML.
  set (rows := mjoin _). assert (Hr : balanced rows) by (apply mjoin_balanced; intros r; apply table_row_balanced; markup).
  set (labels := mjoin _). assert (Hl : balanced labels) by (apply mjoin_balanced; intros k; apply table_row_balanced; markup).
  read_markup.
Qed.

Lemma statHTML_balanced k v : balanced (statHTML k v).
Proof. intros stack. unfold statHTML. read_markup. Qed.

#[local] Hint Resolve statHTML_balanced : markup_db.

Lemma summaryHTML_balanced r t : summaryHTML r = Some t -> balanced t.
Proof.
  unfold summaryHTML. destruct (lollipopSVG (summary_values r)) as [svg|] eqn:E; [|done].
  apply lollipopSVG_balanced in E. cbn [mbind option_bind]. intros H%(inj Some) stack. rewrite <- H. clear H.
  set (chart := match svg with [] => [] | _ => _ end).
  assert (Hc : balanced chart).
  { subst chart. destruct svg as [|c svg]; [apply balanced_nil|]. set (s := c :: svg) in *. clearbody s. intros st. read_markup. }
  clearbody chart. clear E. read_markup.
Qed.

Lemma op_row_balanced op p : balanced (op_row op p).
Proof.
  intros stack. unfold op_row. set (cells := mjoin _).
  assert (Hc : balanced cells) by (apply mjoin_balanced; intros v st; unfold num_cell; read_markup).
  clearbody cells. read_markup.
Qed.

Lemma byOpHTML_balanced r : balanced (byOpHTML r).
Proof.
  intros stack. unfold byOpHTML. set (rows := mjoin _).
  assert (Hr : balanced rows) by (apply mjoin_balanced; intros [op p]; apply op_row_balanced).
  clearbody rows. read_markup.
Qed.

Lemma legend_balanced s : calm (txt (sr_Color s)) -> balanced (legend s).
Proof. intros Hc stack. unfold legend. read_markup. Qed.

Lemma series_calm start pts :
  Forall (fun s => calm (txt (sr_Color s))) (throughput_series start pts) /\
  Forall (fun s => calm (txt (sr_Color s))) (latency_series start pts).
Proof. split; repeat (constructor; [by apply calm_const|]); constructor. Qed.

Lemma timeseriesHTML_balanced order snaps : balanced (timeseriesHTML order snaps).
Proof.
  unfold timeseriesHTML. destruct (aggregate order snaps) as [|p0 ps]; [apply balanced_nil|].
  destruct (series_calm (tp_T p0) (p0 :: ps)) as [Ht Hl].
  set (tput := throughput_series _ _) in *. set (lat := latency_series _ _) in *.
  pose proof (lineChartSVG_balanced "ops/s" tput Ht) as H1. pose proof (lineChartSVG_balanced "ms" lat Hl) as H2.
  assert (H3 : balanced (mjoin (legend <$> lat))).
  { apply balanced_mjoin, Forall_fmap. eapply Forall_impl; [exact Hl|]. intros s Hs. by apply legend_balanced. }
  clearbody tput lat. intros stack. read_markup.
Qed.

Lemma verdict_class v : calm (txt (verdict_banner v).1).
Proof. unfold verdict_banner. destruct (String.eqb v VerdictPass); [|destruct (String.eqb v VerdictFail)]; by apply calm_const. Qed.

Lemma anomalyHTML_balanced a : balanced (anomalyHTML a).
Proof.
  intros stack. unfold anomalyHTML. set (w := match an_Witness a with [] => [] | _ => _ end).
  assert (Hw : balanced w) by (subst w; destruct (an_Witness a); [apply balanced_nil|]; intros st; read_markup).
  clearbody w. read_markup.
Qed.

Lemma correctnessHTML_balanced v : balanced (correctnessHTML v).
Proof.
  unfold correctnessHTML. pose proof (verdict_class (vr_Verdict v)) as Hc.
  destruct (verdict_banner (vr_Verdict v)) as [cls label]. cbn [fst] in Hc.
  assert (Hs : forall (b : bool) (x y : text), balanced (if b then statHTML x y else [])) by (intros []; intros; markup).
  set (anomalies := match vr_Anomalies v with [] => _ | _ => _ end).
  assert (Ha : balanced anomalies).
  { subst anomalies. destruct (vr_Anomalies v) as [|a l]; [intros st; read_markup|].
    assert (Hl : balanced (mjoin (anomalyHTML <$> a :: l))) by apply mjoin_balanced, anomalyHTML_balanced.
    intros st. read_markup. }
  clearbody anomalies.
  pose proof (Hs (0 <? vr_ConvergedIn v) (txt "Converged in") (fmtDur (vr_ConvergedIn v))) as H1.
  pose proof (Hs (0 <? vr_MaxStaleness v) (txt "Max staleness") (fmtDur (vr_MaxStaleness v))) as H2.
  intros stack. read_markup.
Qed.

Lemma body_balanced order m r snaps v b : body order m r snaps v = Some b -> balanced b.
Proof.
  unfold body. destruct (summaryHTML r) as [summary|] eqn:E; [|done]. apply summaryHTML_balanced in E.
  cbn [mbind option_bind]. intros H%(inj Some). rewrite <- H.
  pose proof (headerHTML_balanced m) as H1. pose proof (metadataHTML_balanced m) as H2.
  repeat lazymatch goal with |- balanced (_ ++ _) => apply balanced_app end; try assumption.
  - destruct (rr_ClientBound r); [|apply balanced_nil]. intros st. unfold warn_banner. read_markup.
  - destruct (decide _); [apply balanced_nil|apply byOpHTML_balanced].
  - destruct snaps; [apply timeseriesHTML_balanced|apply balanced_nil].
  - destruct v; [apply correctnessHTML_balanced|apply balanced_nil].
Qed.

Lemma document_balanced m b : balanced b -> balanced (document m b).
Proof.
  intros Hb stack. unfold document. cbv zeta. unfold styleBlock. read_markup.
Qed.
End sections_balanced.

(** *** The drawing of the percentiles returns *)

Definition finite (v : float64) : bool := match v with S754_zero _ | S754_finite _ _ _ => true | _ => false end.

(** The decimal logarithm of a positive number is a number. *)
Definition log_finite (FM : FloatMath) : Prop := forall v, positive v = true -> finite v = true -> finite (math_Log10 v) = true.

(** A value that can be drawn: if positive it is finite, and a tenth and ten times
    of it are still positive and finite. *)
Definition drawable (v : labeledValue) : bool :=
  negb (positive (lv_Value v)) ||
  finite (lv_Value v) &&
  positive (float_div (lv_Value v) (num 10)) && finite (float_div (lv_Value v) (num 10)) &&
  positive (float_mul (lv_Value v) (num 10)) && finite (float_mul (lv_Value v) (num 10)).

Lemma min_max_finite x y :
  finite x = true -> finite y = true -> (math_Min x y = x \/ math_Min x y = y) /\ (math_Max x y = x \/ math_Max x y = y).
Proof.
  intros Hx Hy. unfold math_Min, math_Max.
  destruct x as [[]|[]| |], y as [[]|[]| |]; try discriminate; repeat case_match; auto.
Qed.

Lemma min_max_first y : finite y = true -> math_Min inf y = y /\ math_Max neg_inf y = y.
Proof. destruct y as [[]|[]| |[] m e]; try discriminate; intros _; split; reflexivity. Qed.

Lemma value_range_spec vals :
  Forall (fun v => drawable v = true) vals ->
  value_range vals = (inf, neg_inf) \/
  exists lo hi, lo ∈ vals /\ hi ∈ vals /\ positive (lv_Value lo) = true /\ positive (lv_Value hi) = true /\
    value_range vals = (lv_Value lo, lv_Value hi).
Proof.
  unfold value_range. induction vals as [|v vals IH] using rev_ind; [by left|].
  intros [Hd Hv]%Forall_app. specialize (IH Hd). apply Forall_cons in Hv as [Hv _]. rewrite foldl_snoc. cbv beta.
  unfold drawable in Hv. destruct (positive (lv_Value v)) eqn:Hp.
  - cbn in Hv. rewrite !andb_true_iff in Hv. destruct Hv as ((((Hf & _) & _) & _) & _). right.
    destruct IH as [->|(lo & hi & Hlo & Hhi & Hpl & Hph & ->)]; rewrite Hp.
    + exists v, v. destruct (min_max_first _ Hf) as [-> ->]. assert (v ∈ vals ++ [v]) by (apply elem_of_app; right; by apply list_elem_of_here). done.
    + assert (Hfin : forall x, x ∈ vals -> positive (lv_Value x) = true -> finite (lv_Value x) = true).
      { intros x Hx Hpx. eapply Forall_forall in Hd; [|exact Hx]. unfold drawable in Hd. rewrite Hpx in Hd. cbn in Hd.
        rewrite !andb_true_iff in Hd. tauto. }
      destruct (min_max_finite _ _ (Hfin lo Hlo Hpl) Hf) as [Hmin _], (min_max_finite _ _ (Hfin hi Hhi Hph) Hf) as [_ Hmax].
      assert (Hv : v ∈ vals ++ [v]) by (apply elem_of_app; right; by apply list_elem_of_here).
      assert (Hw : forall x, x ∈ vals -> x ∈ vals ++ [v]) by (intros; apply elem_of_app; by left).
      destruct Hmin as [-> | ->], Hmax as [-> | ->]; [exists lo, hi|exists lo, v|exists v, hi|exists v, v]; auto 10.
  - destruct IH as [->|(lo & hi & Hlo & Hhi & Hpl & Hph & ->)]; rewrite Hp; [by left|]. right. exists lo, hi.
    rewrite !elem_of_app. split; [by left|]. split; [by left|]. done.
Qed.

Lemma lollipop_draw_returns {FM : FloatMath} lo hi vals :
  finite (math_Log10 lo) = true -> finite (math_Log10 hi) = true -> lollipop_draw lo hi vals <> None.
Proof.
  intros Hl Hh. unfold lollipop_draw. cbv zeta. unfold decades.
  destruct (math_Log10 lo), (math_Log10 hi); discriminate.
Qed.

Lemma lollipop_returns {FM : FloatMath} vals :
  log_finite FM -> Forall (fun v => drawable v = true) vals -> lollipopSVG vals <> None.
Proof.
  intros Hlog Hd. unfold lollipopSVG. destruct (value_range_spec vals Hd) as [->|(lo & hi & Hlo & Hhi & Hpl & Hph & ->)]; [done|].
  eapply Forall_forall in Hlo; [|exact Hd]. eapply Forall_forall in Hhi; [|exact Hd].
  cbv beta in Hlo, Hhi. unfold drawable in Hlo, Hhi. rewrite Hpl in Hlo. rewrite Hph in Hhi. cbn in Hlo, Hhi.
  rewrite !andb_true_iff in Hlo, Hhi.
  destruct (is_inf _); [done|]. destruct (SFeqb _ _); apply lollipop_draw_returns; apply Hlog; tauto.
Qed.

(** C13: whatever the run's artifacts hold (names, labels, anomaly details and
    versions come from targets and checkers), the document a rendering returns is
    well nested from end to end: every element is closed in order, every element is
    one of the source's own list, and no text of the data opens one or leaves a
    quoted attribute.  A rendering that does not return has read a summary with a
    percentile beyond the range of the drawing. *)
Theorem report_well_formed (FM : FloatMath) cs order runDir w :
  log_finite FM ->
  (forall w' doc, Render cs order runDir w = Some (w', Ok doc) -> run (Outside, []) doc = Some (Outside, [])) /\
  (Render cs order runDir w = None ->
   exists w0 r, (ReadSummary cs (pathsFor runDir) w0).2 = Ok r /\ ~ Forall (fun v => drawable v = true) (summary_values r)).
Proof.
  intros Hlog. unfold Render. destruct (ReadManifest _ _ _) as [w1 [m|e]]; [|done].
  destruct (ReadSummary _ _ w1) as [w2 [r|e]] eqn:Es; [|done]. destruct (ReadTimeseriesParquet _ _ _) as [w3 snaps].
  destruct (readVerifyIfPresent _ _ _) as [w4 v].
  destruct (body _ _ _ _ _) as [b|] eqn:E; cbn [mbind option_bind]; (split; [intros w' doc|]); try done.
  - intros H%(inj Some)%(f_equal snd). injection H as <-. by eapply document_balanced, body_balanced.
  - intros _. exists w1, r. rewrite Es. split; [done|]. intros Hd. unfold body, summaryHTML in E.
    pose proof (lollipop_returns _ Hlog Hd). by destruct (lollipopSVG (summary_values r)).
Qed.

(** ** The time series of a report *)

(** The snapshots of one instant, in their order. *)
Definition at_micro (k : Z) (snaps : list LatencySnapshot) : list LatencySnapshot :=
  List.filter (fun s => UnixMicro (ls_T s) =? k) snaps.

Definition accumulated (l : list LatencySnapshot) : option acc :=
  match l with
  | [] => None
  | s :: _ => Some (foldl (fun a s => accumulate s a) (acc_new (ls_T s)) l)
  end.

Lemma add_snapshots snaps k : foldl add_snapshot ∅ snaps !! k = accumulated (at_micro k snaps).
Proof.
  induction snaps as [|s snaps IH] using rev_ind; [apply lookup_empty|].
  rewrite foldl_snoc. unfold at_micro in *. rewrite List.filter_app. cbn [List.filter]. unfold add_snapshot at 1. cbv zeta.
  destruct (Z.eqb_spec (UnixMicro (ls_T s)) k) as [->|Hk].
  - rewrite lookup_insert_eq, IH. destruct (List.filter _ snaps) as [|s0 l]; [done|].
    change (accumulated ((s0 :: l) ++ [s]))
      with (Some (foldl (fun a s => accumulate s a) (acc_new (ls_T s0)) ((s0 :: l) ++ [s]))).
    by rewrite foldl_snoc.
  - by rewrite lookup_insert_ne, app_nil_r.
Qed.

(** [s] is the busiest of the snapshots: the first with the largest count. *)
Definition busiest (l : list LatencySnapshot) (s : LatencySnapshot) : Prop :=
  exists l1 l2, l = l1 ++ s :: l2 /\
    Forall (fun x => pct_Count (ls_Pct x) < pct_Count (ls_Pct s)) l1 /\
    Forall (fun x => pct_Count (ls_Pct x) <= pct_Count (ls_Pct s)) l2.

(** What a point shows of the snapshots of its instant. *)
Definition point_of (l : list LatencySnapshot) (p : tPoint) : Prop :=
  (exists s, head l = Some s /\ tp_T p = ls_T s) /\
  tp_Throughput p = foldl float_add (num 0) (ls_Throughput <$> l) /\
  exists s, busiest l s /\ tp_P50 p = pct_P50 (ls_Pct s) /\ tp_P99 p = pct_P99 (ls_Pct s) /\ tp_P999 p = pct_P999 (ls_Pct s).

Lemma busiest_snoc l s x :
  busiest l s -> busiest (l ++ [x]) (if pct_Count (ls_Pct s) <? pct_Count (ls_Pct x) then x else s).
Proof.
  intros (l1 & l2 & -> & H1 & H2). destruct (Z.ltb_spec (pct_Count (ls_Pct s)) (pct_Count (ls_Pct x))).
  - exists (l1 ++ s :: l2), []. split; [done|]. split; [|constructor].
    apply Forall_app. split; [|constructor; [done|]]; (eapply Forall_impl; [eassumption|]); cbn; lia.
  - exists l1, (l2 ++ [x]). split; [by rewrite <- app_assoc|]. split; [done|]. apply Forall_app. split; [done|]. by constructor.
Qed.

Lemma accumulated_point s l :
  Forall (fun x => 0 <= pct_Count (ls_Pct x)) (s :: l) ->
  exists a, accumulated (s :: l) = Some a /\ point_of (s :: l) (a_tp a).
Proof.
  intros Hc. cbn [accumulated]. eexists. split; [reflexivity|].
  assert (H : let a := foldl (fun a s => accumulate s a) (acc_new (ls_T s)) (s :: l) in
    tp_T (a_tp a) = ls_T s /\ tp_Throughput (a_tp a) = foldl float_add (num 0) (ls_Throughput <$> s :: l) /\
    exists x, busiest (s :: l) x /\ a_bestCount a = pct_Count (ls_Pct x) /\
      tp_P50 (a_tp a) = pct_P50 (ls_Pct x) /\ tp_P99 (a_tp a) = pct_P99 (ls_Pct x) /\ tp_P999 (a_tp a) = pct_P999 (ls_Pct x)).
  { apply Forall_cons in Hc as [Hs _]. cbn zeta. induction l as [|x l IH] using rev_ind.
    - cbn [foldl]. unfold accumulate, acc_new. cbn [a_bestCount a_tp].
      rewrite (proj2 (Z.ltb_lt _ _)) by lia. cbn. split; [done|]. split; [done|]. exists s. split; [by exists [], []|done].
    - rewrite app_comm_cons, foldl_snoc, fmap_app, foldl_app. set (a := foldl (fun a s => accumulate s a) _ _) in *.
      destruct IH as (HT & Htp & y & Hy & Hb & H50 & H99 & H999). rewrite <- Htp.
      apply (busiest_snoc _ _ x) in Hy. unfold accumulate. cbv zeta. rewrite Hb.
      destruct (pct_Count (ls_Pct y) <? pct_Count (ls_Pct x)); cbn; (split; [done|]); (split; [done|]);
        [exists x|exists y]; done. }
  destruct H as (HT & Htp & x & Hx & _ & HP). split; [by exists s|]. split; [done|]. by exists x.
Qed.

Lemma at_micro_in k snaps s : s ∈ at_micro k snaps <-> s ∈ snaps /\ UnixMicro (ls_T s) = k.
Proof. unfold at_micro. rewrite !list_elem_of_In, filter_In. by rewrite Z.eqb_eq. Qed.

Lemma accumulated_all snaps :
  Forall (fun s => 0 <= pct_Count (ls_Pct s)) snaps ->
  map_Forall (fun k a => UnixMicro (tp_T (a_tp a)) = k /\ point_of (at_micro k snaps) (a_tp a)) (foldl add_snapshot ∅ snaps).
Proof.
  intros Hc k a Ha. rewrite add_snapshots in Ha. destruct (at_micro k snaps) as [|s l] eqn:E; [done|].
  destruct (accumulated_point s l) as (b & Hb & Hp).
  { rewrite <- E. apply Forall_forall. intros x [Hx _]%at_micro_in. by eapply Forall_forall in Hc. }
  rewrite Ha in Hb. injection Hb as <-. split; [|done]. destruct Hp as ((s0 & Hs0 & ->) & _). injection Hs0 as <-.
  apply (at_micro_in k snaps s). rewrite E. by apply list_elem_of_here.
Qed.

Lemma sorted_strictly {A} (f : A -> Z) (le : A -> A -> bool) l :
  (forall x y, le x y = true -> f x <= f y) -> StronglySorted le l -> NoDup (f <$> l) -> StronglySorted (fun x y => f x < f y) l.
Proof.
  intros Hle. induction 1 as [|x l Hl IH Hx]; [constructor|]. intros [Hn Hd]%NoDup_cons. constructor; [by apply IH|].
  apply Forall_forall. intros y Hy. eapply Forall_forall in Hx; [|exact Hy]. apply Is_true_true, Hle in Hx.
  assert (f x <> f y) by (intros E; apply Hn; rewrite E; by apply list_elem_of_fmap_2). lia.
Qed.

(** C14: the series a report draws, in whatever order the accumulators are
    iterated: strictly increasing instants, one point for every instant (at
    microseconds) that has a snapshot and none else, whose throughput is the
    sum over all operations' snapshots of the instant and whose percentiles
    are all taken from one of them, the first of those with the most samples. *)
Theorem aggregate_one_point_per_instant order snaps :
  (forall m, order m ≡ₚ (map_to_list m).*2) -> Forall (fun s => 0 <= pct_Count (ls_Pct s)) snaps ->
  let pts := aggregate order snaps in
  StronglySorted (fun a b => UnixMicro (tp_T a) < UnixMicro (tp_T b)) pts /\
  (forall s, s ∈ snaps -> exists p, p ∈ pts /\ UnixMicro (tp_T p) = UnixMicro (ls_T s)) /\
  Forall (fun p => point_of (at_micro (UnixMicro (tp_T p)) snaps) p) pts.
Proof.
  intros Ho Hc pts. pose proof (accumulated_all _ Hc) as Hm. set (m := foldl add_snapshot ∅ snaps) in *.
  assert (Hpts : pts ≡ₚ a_tp <$> (map_to_list m).*2) by (unfold pts, aggregate; by rewrite sort_by_perm, Ho).
  assert (Hin : forall p, p ∈ pts <-> exists k a, m !! k = Some a /\ p = a_tp a).
  { intros p. rewrite Hpts, list_elem_of_fmap. setoid_rewrite list_elem_of_fmap. split.
    - intros (a & -> & [k b] & -> & Hk%elem_of_map_to_list). by exists k, b.
    - intros (k & a & Hk & ->). exists a. split; [done|]. exists (k, a). split; [done|]. by apply elem_of_map_to_list. }
  split; [|split].
  - apply (sorted_strictly (fun p => UnixMicro (tp_T p)) (fun a b => tp_T a <=? tp_T b)).
    + intros x y H%Z.leb_le. apply Z.div_le_mono; lia.
    + apply sort_by_sorted; intros; rewrite ?Z.leb_le in *; lia.
    + rewrite Hpts, <- !list_fmap_compose.
      rewrite (list_fmap_ext _ fst) by (intros i [k a] Hi%list_elem_of_lookup_2%elem_of_map_to_list; by apply (Hm k a)).
      apply NoDup_fst_map_to_list.
  - intros s Hs. destruct (m !! UnixMicro (ls_T s)) as [a|] eqn:E.
    + exists (a_tp a). split; [apply Hin; by exists (UnixMicro (ls_T s)), a|]. by apply (Hm _ a).
    + unfold m in E. rewrite add_snapshots in E. assert (Hs' : s ∈ at_micro (UnixMicro (ls_T s)) snaps) by by apply at_micro_in.
      destruct (at_micro _ snaps); [by apply elem_of_nil in Hs'|done].
  - apply Forall_forall. intros p (k & a & Hk & ->)%Hin. destruct (Hm k a Hk) as [-> Hp]. done.
Qed.

(** ** A report rendered *)

(** The number of decimal digits for the logarithm, exact powers. *)
Definition coarse_math : FloatMath := {|
  math_Log10 := fun v =>
    let digits := float_of_int (match floor_Z v with Some z => Z.of_nat (length (FormatInt z)) | None => 0 end) in
    if finite digits then digits else num 0;
  math_Pow10 := fun p => match floor_Z p with
                         | Some z => if z <? 0 then float_div (num 1) (float_of_int (10 ^ (- z))) else float_of_int (10 ^ z)
                         | None => p
                         end
|}.

Definition in_key_order (m : gmap Z acc) : list acc := (map_to_list m).*2.

(** The world after a run's artifacts were written. *)
Definition written_world : world :=
  let p := Layout "." "redis" "redis-1" in
  let w := (WriteManifest some_codecs "7" p some_manifest (world_of [])).1 in
  let w := (WriteSummary some_codecs "7" p some_summary w).1 in
  let w := (WriteTimeseriesParquet some_codecs "7" p some_snapshots w).1 in
  (WriteVerify some_codecs "7" p some_report w).1.

Definition rendered : option (world * result error text) :=
  Render (FM := coarse_math) some_codecs in_key_order "results/redis/redis-1" written_world.

Definition rendered_text : text := match rendered with Some (_, Ok doc) => doc | _ => [] end.
Definition rendered_world : world := match rendered with Some (w, _) => w | _ => written_world end.

Lemma coarse_log_finite : log_finite coarse_math.
Proof. intros v _ _. cbn [math_Log10 coarse_math]. cbv zeta. by destruct (finite (float_of_int _)) eqn:E. Qed.

Lemma report_well_formed_witness :
  run (Outside, []) rendered_text = Some (Outside, []) /\ (Z.of_nat (length rendered_text) >? 4000) = true.
Proof.
  split; [|vm_compute; reflexivity].
  destruct (report_well_formed coarse_math some_codecs in_key_order "results/redis/redis-1" written_world coarse_log_finite) as [H _].
  apply (H rendered_world). vm_compute. reflexivity.
Defined.

Definition snapshot_at (t : Z) (op : string) (count : Z) (tput : Z) : LatencySnapshot :=
  {| ls_T := t; ls_OpType := op; ls_Throughput := float_of_int tput; ls_InFlight := 1; ls_Errors := 0;
     ls_Pct := {| pct_Mean := num 0; pct_P50 := float_of_int count; pct_P90 := num 0; pct_P95 := num 0; pct_P99 := num 0; pct_P999 := num 0;
                  pct_P9999 := num 0; pct_Max := num 0; pct_Count := count |} |}.

Definition two_instants : list LatencySnapshot :=
  [snapshot_at 2000000 "get" 3 10; snapshot_at 1000000 "get" 5 20; snapshot_at 2000000 "set" 7 30; snapshot_at 1000000 "set" 5 1].

Lemma aggregate_one_point_per_instant_witness :
  let pts := aggregate in_key_order two_instants in
  StronglySorted (fun a b => UnixMicro (tp_T a) < UnixMicro (tp_T b)) pts /\
  (fun p => (tp_T p, tp_Throughput p, tp_P50 p)) <$> pts =
    [(1000000, float_of_int 21, float_of_int 5); (2000000, float_of_int 40, float_of_int 7)].
Proof.
  split; [|vm_compute; reflexivity].
  apply (aggregate_one_point_per_instant in_key_order two_instants); [done|].
  repeat (constructor; [cbn; lia|]). constructor.
Defined.
