(* ===== verification/Sqltext.v ===== *)
(** * Sqltext: the SQL that the warehouse sends (core/warehouse)

    The statements of core/warehouse are texts that a database reads.  This file
    reads them too: their tokens, a parser for the fragment the source uses, and the
    meaning of what it reads over the rows of one table, so that a clause of a text
    means what SQL says it does. *)

From Stdlib Require Import Ascii String SpecFloat.
From S2P Require Import Prelude Domain.

Local Open Scope Z_scope.

(** ** Values *)

(** A value of a column or an argument. *)
Inductive value :=
| VNull
| VString (s : string)
| VFloat (v : float64)
| VInt (n : Z)
| VBool (b : bool)
| VTime (t : Z).

#[local] Instance float_eq_dec : EqDecision float64.
Proof. solve_decision. Defined.
#[export] Instance value_eq_dec : EqDecision value.
Proof. solve_decision. Defined.

Definition row : Type := list value.

(** ** Tokens: words, and any other character that is not blank *)

Definition is_blank (c : ascii) : bool := let n := nat_of_ascii c in (n =? 32)%nat || (9 <=? n)%nat && (n <=? 13)%nat.

Definition is_word_char (c : ascii) : bool :=
  let n := nat_of_ascii c in
  (48 <=? n)%nat && (n <=? 57)%nat || (65 <=? n)%nat && (n <=? 90)%nat || (97 <=? n)%nat && (n <=? 122)%nat || (n =? 95)%nat.

Definition flush (word : string) : list string := if String.eqb word "" then [] else [word].

Fixpoint tokens_from (word s : string) : list string :=
  match s with
  | EmptyString => flush word
  | String c s =>
      if is_word_char c then tokens_from (word +:+ String c "") s
      else flush word ++ (if is_blank c then [] else [String c ""]) ++ tokens_from "" s
  end.

Definition tokens : string -> list string := tokens_from "".

(** ** Statements *)

Record select := {
  sel_columns : list string;
  sel_table : string;
  sel_where : list string;          (* column = ?, all of them *)
  sel_order : list (string * bool); (* column, descending? *)
  sel_limit : bool                  (* LIMIT ? *)
}.

Inductive statement :=
| Select (q : select)
| Delete (table : string) (where_ : list string)
| Insert (table : string) (cols : list string)       (* a parameter for each *)
| Create (table : string) (cols : list (string * string)).

#[export] Instance statement_eq_dec : EqDecision statement.
Proof. assert (EqDecision select) by solve_decision. solve_decision. Defined.

Definition reader (A : Type) : Type := list string -> option (A * list string).

Definition keywords : list string :=
  ["SELECT"; "FROM"; "WHERE"; "AND"; "OR"; "NOT"; "ORDER"; "BY"; "ASC"; "DESC"; "LIMIT"; "DELETE"; "INSERT"; "INTO"; "VALUES";
   "CREATE"; "TABLE"; "IF"; "EXISTS"; "PRIMARY"; "KEY"; "NULL"]%string.

Definition is_name (t : string) : bool :=
  match t with String c _ => is_word_char c | _ => false end && negb (existsb (String.eqb t) keywords).

Definition read_name : reader string := fun ts =>
  match ts with t :: ts => if is_name t then Some (t, ts) else None | [] => None end.

(** The given tokens. *)
Fixpoint expect (l ts : list string) : option (list string) :=
  match l, ts with
  | [], _ => Some ts
  | a :: l, t :: ts => if String.eqb a t then expect l ts else None
  | _ :: _, [] => None
  end.

(** One item or more, apart by [sep]; every item takes a token. *)
Fixpoint read_list {A} (fuel : nat) (item : reader A) (sep : string) : reader (list A) := fun ts =>
  match fuel, item ts with
  | S fuel, Some (a, ts) =>
      match expect [sep] ts with
      | Some ts => '(l, ts) ← read_list fuel item sep ts; Some (a :: l, ts)
      | None => Some ([a], ts)
      end
  | _, _ => None
  end.

Definition read_items {A} (item : reader A) (sep : string) : reader (list A) := fun ts => read_list (length ts) item sep ts.

Definition read_cond : reader string := fun ts => '(c, ts) ← read_name ts; ts ← expect ["="; "?"]%string ts; Some (c, ts).

Definition read_key : reader (string * bool) := fun ts =>
  '(c, ts) ← read_name ts;
  match expect ["DESC"%string] ts, expect ["ASC"%string] ts with
  | Some ts, _ => Some ((c, true), ts)
  | None, Some ts => Some ((c, false), ts)
  | None, None => Some ((c, false), ts)
  end.

Definition read_param : reader unit := fun ts => ts ← expect ["?"]%string ts; Some (tt, ts).

(** A column, its type and what it is constrained to. *)
Definition read_column : reader (string * string) := fun ts =>
  '(c, ts) ← read_name ts; '(ty, ts) ← read_name ts;
  match expect ["PRIMARY"; "KEY"]%string ts, expect ["NOT"; "NULL"]%string ts with
  | Some ts, _ => Some ((c, ty), ts)
  | None, Some ts => Some ((c, ty), ts)
  | None, None => Some ((c, ty), ts)
  end.

(** A clause that is there if its first words are. *)
Definition read_clause {A} (words : list string) (r : reader (list A)) : reader (list A) := fun ts =>
  match expect words ts with Some ts => r ts | None => Some ([], ts) end.

Definition read_where : reader (list string) := read_clause ["WHERE"%string] (read_items read_cond "AND").

Definition read_select : reader statement := fun ts =>
  ts ← expect ["SELECT"%string] ts; '(cols, ts) ← read_items read_name "," ts;
  ts ← expect ["FROM"%string] ts; '(table, ts) ← read_name ts;
  '(conds, ts) ← read_where ts;
  '(keys, ts) ← read_clause ["ORDER"; "BY"]%string (read_items read_key ",") ts;
  let '(limit, ts) := match expect ["LIMIT"; "?"]%string ts with Some ts => (true, ts) | None => (false, ts) end in
  Some (Select {| sel_columns := cols; sel_table := table; sel_where := conds; sel_order := keys; sel_limit := limit |}, ts).

Definition read_delete : reader statement := fun ts =>
  ts ← expect ["DELETE"; "FROM"]%string ts; '(table, ts) ← read_name ts; '(conds, ts) ← read_where ts; Some (Delete table conds, ts).

Definition read_insert : reader statement := fun ts =>
  ts ← expect ["INSERT"; "INTO"]%string ts; '(table, ts) ← read_name ts;
  ts ← expect ["("]%string ts; '(cols, ts) ← read_items read_name "," ts;
  ts ← expect [")"; "VALUES"; "("]%string ts; '(ps, ts) ← read_items read_param "," ts; ts ← expect [")"]%string ts;
  if (length ps =? length cols)%nat then Some (Insert table cols, ts) else None.

Definition read_create : reader statement := fun ts =>
  ts ← expect ["CREATE"; "TABLE"; "IF"; "NOT"; "EXISTS"]%string ts; '(table, ts) ← read_name ts;
  ts ← expect ["("]%string ts; '(cols, ts) ← read_items read_column "," ts; ts ← expect [")"]%string ts;
  Some (Create table cols, ts).

(** The statement a text is, to its end. *)
Definition parse_sql (text : string) : option statement :=
  let ts := tokens text in
  '(st, ts) ← union (read_select ts) (union (read_delete ts) (union (read_insert ts) (read_create ts)));
  match ts with [] | [";"%string] => Some st | _ => None end.

(** ** What they mean

    Over the rows of a table with the given columns and types. *)

Section meaning.
Context (table : list (string * string)).

Definition column (c : string) (v : row) : option value := '(i, _) ← list_find (eq c) table.*1; v !! i.

Definition type_of (c : string) : option string := '(_, d) ← list_find (fun d => c = d.1) table; Some d.2.

(** A value of a column's type, which needs no conversion. *)
Definition fits (ty : string) (v : value) : bool :=
  match v with
  | VNull => true
  | VString _ => String.eqb ty "VARCHAR"
  | VFloat _ => String.eqb ty "DOUBLE"
  | VInt _ => String.eqb ty "BIGINT"
  | VBool _ => String.eqb ty "BOOLEAN"
  | VTime _ => String.eqb ty "TIMESTAMP"
  end.

Definition fitting (c : string) (v : value) : bool := match type_of c with Some ty => fits ty v | None => false end.

(** A comparison of text with text. *)
Definition text_cond (c : string * value) : bool := match c.2 with VString _ => fitting c.1 c.2 | _ => false end.

Definition meets (conds : list (string * value)) (v : row) : bool :=
  forallb (fun c => bool_decide (column c.1 v = Some c.2)) conds.

(** Times by their moment, text by its bytes; of other values nothing is said. *)
Definition compare_values (a b : option value) : option comparison :=
  match a, b with
  | Some (VTime s), Some (VTime t) => Some (s ?= t)
  | Some (VString s), Some (VString t) => Some (String.compare s t)
  | _, _ => None
  end.

(** [a] may stand before [b]. *)
Fixpoint in_order (keys : list (string * bool)) (a b : row) : bool :=
  match keys with
  | [] => true
  | (c, desc) :: keys =>
      match compare_values (column c a) (column c b) with
      | Some Lt => negb desc
      | Some Gt => desc
      | Some Eq => in_order keys a b
      | None => true
      end
  end.

Definition project (cols : list string) (v : row) : row := (fun c => default VNull (column c v)) <$> cols.

(** A value as a column keeps it: a TIMESTAMP to the microsecond. *)
Definition stored (v : value) : value := match v with VTime t => VTime (t / 1000 * 1000) | v => v end.

(** The row of the values of some columns; a column left out is NULL. *)
Definition new_row (cols : list string) (args : list value) : row :=
  (fun c => default VNull ('(i, _) ← list_find (eq c) cols; stored <$> args !! i)) <$> table.*1.

(** What a query for [q] with its arguments answers: the limit comes last. *)
Definition answers (q : select) (args : list value) (rows out : list row) : Prop :=
  forall wargs limit,
    args = wargs ++ (if sel_limit q then [VInt limit] else []) -> (sel_limit q = true -> 0 <= limit) ->
    length wargs = length (sel_where q) -> forallb text_cond (zip (sel_where q) wargs) = true ->
    exists all, all ≡ₚ List.filter (meets (zip (sel_where q) wargs)) rows /\ StronglySorted (in_order (sel_order q)) all /\
      out = project (sel_columns q) <$> (if sel_limit q then take (Z.to_nat limit) all else all).

(** The rows after a statement that succeeded. *)
Definition executed (name : string) (st : statement) (args : list value) (rows rows' : list row) : Prop :=
  match st with
  | Delete t conds =>
      t = name -> length args = length conds -> forallb text_cond (zip conds args) = true ->
      rows' = List.filter (fun v => negb (meets (zip conds args) v)) rows
  | Insert t cols =>
      t = name -> NoDup cols -> length args = length cols -> forallb (fun c => fitting c.1 c.2) (zip cols args) = true ->
      rows' ≡ₚ new_row cols args :: rows
  | _ => True
  end.
End meaning.
