(* ===== verification/Warehouse.v ===== *)
(** * Warehouse: the cross-run store (core/warehouse)

    Opening the database, the upsert of a run's facts and the query over them.  The
    SQL database is a class of database/sql's calls; its laws say that a text does
    to the rows of the table what it means as SQL, as Sqltext reads it. *)

From Stdlib Require Import Ascii String SpecFloat.
From S2P Require Import Prelude Domain Strconv Metrics Targets Provision Emit Rundir Sqltext.

Local Open Scope Z_scope.

(** ** database/sql *)

(** The calls on a database in state [S] with transactions [Tx].  A query gives its
    rows and the error that ended them, if any. *)
Class Sql (S Tx : Type) := {
  sql_Open : string -> S -> S * option error;
  db_Ping : S -> S * option error;
  db_Close : S -> S * option error;
  db_Exec : string -> list value -> S -> S * option error;
  db_Begin : S -> S * result error Tx;
  tx_Exec : string -> list value -> Tx -> Tx * option error;
  tx_Commit : Tx -> S -> S * option error;
  tx_Rollback : Tx -> S -> S;
  db_Query : string -> list value -> S -> S * result error (list row * option error)
}.

(** ** warehouse.go *)

Definition schema : string := "
CREATE TABLE IF NOT EXISTS runs (
	run_id         VARCHAR PRIMARY KEY,
	target         VARCHAR NOT NULL,
	workload       VARCHAR NOT NULL,
	mode           VARCHAR,
	created_at     TIMESTAMP,
	throughput     DOUBLE,
	p50            DOUBLE,
	p99            DOUBLE,
	p999           DOUBLE,
	max            DOUBLE,
	total          BIGINT,
	errors         BIGINT,
	client_bound   BOOLEAN,
	verify_verdict VARCHAR
);".

Section warehouse.
Context {S Tx : Type} {DB : Sql S Tx}.
Variable cs : codecs.

Definition Open (path : string) (d : S) : S * option error :=
  match sql_Open path d with
  | (d, Some e) => (d, Some e)
  | (d, None) =>
      match db_Ping d with
      | (d, Some e) => ((db_Close d).1, Some e)
      | (d, None) =>
          match db_Exec schema [] d with
          | (d, Some e) => ((db_Close d).1, Some e)
          | (d, None) => (d, None)
          end
      end
  end.

(** [Close]; the handle is absent on a nil warehouse. *)
Definition Close (handle : bool) (d : S) : S * option error := if handle then db_Close d else (d, None).

(** ** ingest.go *)

Definition pathsFor (runDir : string) : Paths :=
  let clean := Clean runDir in
  Layout (dir_of (dir_of (dir_of clean))) (Base (dir_of clean)) (Base clean).

Definition verdictOf (p : Paths) (w : world) : world * value :=
  match Stat (VerifyJSON p) w with
  | (w, false) => (w, VNull)
  | (w, true) =>
      match ReadVerify cs p w with
      | (w, Err _) => (w, VNull)
      | (w, Ok v) => (w, VString (vr_Verdict v))
      end
  end.

Definition delete_text : string := "DELETE FROM runs WHERE run_id = ?".

Definition insert_text : string := "INSERT INTO runs
		(run_id, target, workload, mode, created_at, throughput, p50, p99, p999, max,
		 total, errors, client_bound, verify_verdict)
		VALUES (?, ?, ?, ?, ?, ?, ?, ?, ?, ?, ?, ?, ?, ?)".

Definition insert_args (m : Manifest) (r : RunResult) (verdict : value) : list value :=
  [VString (mf_RunID m); VString (mf_Target m); VString (mf_Workload m); VString (mf_Mode m); VTime (mf_CreatedAt m);
   VFloat (rr_Throughput r); VFloat (pct_P50 (rr_Overall r)); VFloat (pct_P99 (rr_Overall r)); VFloat (pct_P999 (rr_Overall r));
   VFloat (pct_Max (rr_Overall r)); VInt (rr_Total r); VInt (rr_Errors r); VBool (rr_ClientBound r); verdict].

(** The statements of the transaction; the deferred rollback runs on every way
    out. *)
Definition upsert (m : Manifest) (r : RunResult) (verdict : value) (d : S) : S * option error :=
  match db_Begin d with
  | (d, Err e) => (d, Some e)
  | (d, Ok tx) =>
      match tx_Exec delete_text [VString (mf_RunID m)] tx with
      | (tx, Some e) => (tx_Rollback tx d, Some e)
      | (tx, None) =>
          match tx_Exec insert_text (insert_args m r verdict) tx with
          | (tx, Some e) => (tx_Rollback tx d, Some e)
          | (tx, None) => let '(d, e) := tx_Commit tx d in (tx_Rollback tx d, e)
          end
      end
  end.

Definition Ingest (runDir : string) (w : world) (d : S) : world * S * option error :=
  let p := pathsFor runDir in
  match ReadManifest cs p w with
  | (w, Err e) => (w, d, Some e)
  | (w, Ok m) =>
      match ReadSummary cs p w with
      | (w, Err e) => (w, d, Some e)
      | (w, Ok r) =>
          let '(w, verdict) := verdictOf p w in
          let '(d, e) := upsert m r verdict d in
          (w, d, e)
      end
  end.

(** ** query.go *)

Record RunRow := {
  rw_RunID : string;
  rw_Target : string;
  rw_Workload : string;
  rw_Mode : string;
  rw_CreatedAt : Z;
  rw_Throughput : float64;
  rw_P50 : float64;
  rw_P99 : float64;
  rw_P999 : float64;
  rw_Max : float64;
  rw_Total : Z;
  rw_Errors : Z;
  rw_ClientBound : bool;
  rw_VerifyVerdict : string
}.

(** [NullString.String]. *)
Definition null_string (v : value) : option string :=
  match v with VNull => Some ""%string | VString s => Some s | _ => None end.

(** A row of the columns' types; anything else is an error of [Scan]. *)
Definition scanRun (v : row) : result error RunRow :=
  match v with
  | [VString id; VString target; VString workload; VString mode; VTime t; VFloat tput; VFloat p50; VFloat p99; VFloat p999; VFloat mx;
     VInt total; VInt errors; VBool bound; verdict] =>
      match null_string verdict with
      | Some s => Ok {| rw_RunID := id; rw_Target := target; rw_Workload := workload; rw_Mode := mode; rw_CreatedAt := t;
                        rw_Throughput := tput; rw_P50 := p50; rw_P99 := p99; rw_P999 := p999; rw_Max := mx;
                        rw_Total := total; rw_Errors := errors; rw_ClientBound := bound; rw_VerifyVerdict := s |}
      | None => Err "sql: Scan error"%string
      end
  | _ => Err "sql: Scan error"%string
  end.

Definition select_text : string := "SELECT run_id, target, workload, mode, created_at, throughput,
		p50, p99, p999, max, total, errors, client_bound, verify_verdict FROM runs".

(** The query for conditions of the given columns. *)
Definition query_text (conds : list string) (limited : bool) : string :=
  select_text +:+
  match conds with
  | [] => ""
  | _ => " WHERE " +:+ String.concat " AND " ((fun c => c +:+ " = ?") <$> conds)
  end +:+
  " ORDER BY created_at DESC, run_id DESC" +:+ (if limited then " LIMIT ?" else "").

(** The filters in force, with their arguments. *)
Definition filters (target workload : string) : list (string * value) :=
  (if String.eqb target "" then [] else [("target"%string, VString target)]) ++
  (if String.eqb workload "" then [] else [("workload"%string, VString workload)]).

(** The loop over the rows. *)
Fixpoint scan_rows (rows : list row) (out : list RunRow) (e : option error) : list RunRow * option error :=
  match rows with
  | [] => (out, e)
  | v :: rows =>
      match scanRun v with
      | Err e => ([], Some e)
      | Ok r => scan_rows rows (out ++ [r]) e
      end
  end.

Definition Runs (target workload : string) (limit : Z) (d : S) : S * (list RunRow * option error) :=
  let fs := filters target workload in
  let args := fs.*2 ++ (if 0 <? limit then [VInt limit] else []) in
  match db_Query (query_text fs.*1 (0 <? limit)) args d with
  | (d, Err e) => (d, ([], Some e))
  | (d, Ok (rows, e)) => (d, scan_rows rows [] e)
  end.
End warehouse.

(** ** The rows of the database *)

(** The table the schema makes, its columns with their types. *)
Definition runs_table : list (string * string) :=
  match parse_sql schema with Some (Create "runs" cols) => cols | _ => [] end.

Definition columns : list string :=
  ["run_id"; "target"; "workload"; "mode"; "created_at"; "throughput"; "p50"; "p99"; "p999"; "max"; "total"; "errors";
   "client_bound"; "verify_verdict"]%string.

Lemma runs_table_eq : runs_table = zip columns
  ["VARCHAR"; "VARCHAR"; "VARCHAR"; "VARCHAR"; "TIMESTAMP"; "DOUBLE"; "DOUBLE"; "DOUBLE"; "DOUBLE"; "DOUBLE"; "BIGINT"; "BIGINT";
   "BOOLEAN"; "VARCHAR"]%string.
Proof. vm_compute. reflexivity. Qed.

(** What texts do to the rows of [runs]: what they mean as SQL.  A statement that
    fails changes nothing, a transaction shows its own changes, and they are the
    database's when its commit has succeeded; after a failed commit either all of
    them are or none.  Of a text that Sqltext does not read nothing is said. *)
Class SqlLaws (S Tx : Type) {DB : Sql S Tx} := {
  rows_of : S -> list row;
  tx_rows : Tx -> list row;
  begin_rows d d' r : db_Begin d = (d', r) -> rows_of d' = rows_of d /\ (forall tx, r = Ok tx -> tx_rows tx = rows_of d);
  rollback_rows tx d : rows_of (tx_Rollback tx d) = rows_of d;
  commit_rows tx d d' e : tx_Commit tx d = (d', e) -> rows_of d' = tx_rows tx \/ e <> None /\ rows_of d' = rows_of d;
  exec_rows text st args tx tx' : parse_sql text = Some st -> tx_Exec text args tx = (tx', None) ->
    executed runs_table "runs" st args (tx_rows tx) (tx_rows tx');
  query_rows text q args d d' rows e : parse_sql text = Some (Select q) -> sel_table q = "runs"%string ->
    db_Query text args d = (d', Ok (rows, e)) ->
    rows_of d' = rows_of d /\ (e = None -> answers runs_table q args (rows_of d) rows)
}.

(** The rows are those of a table of runs by their identifier. *)
Definition holds_runs {S Tx} {DB : Sql S Tx} {L : SqlLaws S Tx} (d : S) (T : gmap string RunRow) : Prop :=
  exists xs, Forall2 (fun v x => scanRun v = Ok x) (rows_of d) xs /\ xs ≡ₚ (map_to_list T).*2 /\
    map_Forall (fun id x => rw_RunID x = id) T.

(** What the store keeps of a run. *)
Definition facts (m : Manifest) (r : RunResult) (verdict : option Verdict) : RunRow := {|
  rw_RunID := mf_RunID m; rw_Target := mf_Target m; rw_Workload := mf_Workload m; rw_Mode := mf_Mode m;
  rw_CreatedAt := UnixMicro (mf_CreatedAt m) * 1000; rw_Throughput := rr_Throughput r;
  rw_P50 := pct_P50 (rr_Overall r); rw_P99 := pct_P99 (rr_Overall r); rw_P999 := pct_P999 (rr_Overall r);
  rw_Max := pct_Max (rr_Overall r); rw_Total := rr_Total r; rw_Errors := rr_Errors r;
  rw_ClientBound := rr_ClientBound r; rw_VerifyVerdict := default ""%string verdict |}.

(** The statements of the transaction, and the rows they leave. *)
Lemma parse_delete : parse_sql delete_text = Some (Delete "runs" ["run_id"%string]).
Proof. vm_compute. reflexivity. Qed.

Lemma parse_insert : parse_sql insert_text = Some (Insert "runs" columns).
Proof. vm_compute. reflexivity. Qed.

Lemma delete_meaning id rows rows' :
  executed runs_table "runs" (Delete "runs" ["run_id"%string]) [VString id] rows rows' ->
  rows' = List.filter (fun v => negb (bool_decide (column runs_table "run_id" v = Some (VString id)))) rows.
Proof.
  intros H. cbn [executed] in H. rewrite H by (done || (rewrite runs_table_eq; vm_compute; reflexivity)).
  cbn [zip zip_with meets forallb fst snd]. apply filter_ext_in. intros v _. by rewrite andb_true_r.
Qed.

Lemma insert_meaning m r (v : option Verdict) rows rows' :
  executed runs_table "runs" (Insert "runs" columns) (insert_args m r (match v with Some s => VString s | None => VNull end)) rows rows' ->
  exists u, rows' ≡ₚ u :: rows /\ scanRun u = Ok (facts m r v).
Proof.
  intros H. eexists. split; [apply H|].
  - done.
  - apply (bool_decide_unpack _). vm_compute. exact I.
  - done.
  - rewrite runs_table_eq. by destruct v.
  - rewrite runs_table_eq. by destruct v.
Qed.

(** The columns a scanned row came from. *)
Lemma scan_columns v x : scanRun v = Ok x ->
  column runs_table "run_id" v = Some (VString (rw_RunID x)) /\ column runs_table "target" v = Some (VString (rw_Target x)) /\
  column runs_table "workload" v = Some (VString (rw_Workload x)) /\ column runs_table "created_at" v = Some (VTime (rw_CreatedAt x)) /\
  project runs_table columns v = v.
Proof.
  rewrite runs_table_eq. unfold scanRun. intros H. repeat case_match; try done. injection H as <-. done.
Qed.

Section laws.
Context {S Tx : Type} {DB : Sql S Tx} {L : SqlLaws S Tx}.
Variable cs : codecs.

Lemma Forall2_scan_perm rows rows' xs : rows ≡ₚ rows' -> Forall2 (fun v x => scanRun v = Ok x) rows xs ->
  exists xs', xs' ≡ₚ xs /\ Forall2 (fun v x => scanRun v = Ok x) rows' xs'.
Proof.
  intros Hp. revert xs. induction Hp as [|v l l' _ IH|v u l|l1 l2 l3 _ IH1 _ IH2]; intros xs Hx.
  - by exists xs.
  - apply Forall2_cons_inv_l in Hx as (x & ys & Hv & Hl & ->). destruct (IH _ Hl) as (ys' & Hy & Hl').
    exists (x :: ys'). split; [by constructor|]. by constructor.
  - apply Forall2_cons_inv_l in Hx as (x & ys & Hv & Hl & ->). apply Forall2_cons_inv_l in Hl as (y & zs & Hu & Hl & ->).
    exists (y :: x :: zs). split; [constructor|]. constructor; [done|]. by constructor.
  - destruct (IH1 _ Hx) as (ys & Hy & Hl). destruct (IH2 _ Hl) as (zs & Hz & Hl'). exists zs. split; [by etrans|done].
Qed.

Lemma Forall2_scan_filter (P : row -> bool) (Q : RunRow -> bool) rows xs :
  (forall v x, scanRun v = Ok x -> P v = Q x) -> Forall2 (fun v x => scanRun v = Ok x) rows xs ->
  Forall2 (fun v x => scanRun v = Ok x) (List.filter P rows) (List.filter Q xs).
Proof.
  intros HPQ. induction 1 as [|v x rows xs Hv _ IH]; [constructor|]. cbn. rewrite (HPQ v x Hv). by destruct (Q x); [constructor|].
Qed.

(** Without the row of [id], the table is that of the other runs. *)
Lemma keep_others (T : gmap string RunRow) id xs : map_Forall (fun id x => rw_RunID x = id) T -> xs ≡ₚ (map_to_list T).*2 ->
  List.filter (fun x => negb (String.eqb (rw_RunID x) id)) xs ≡ₚ (map_to_list (delete id T)).*2.
Proof.
  intros Hk Hx. set (keep := fun x => _).
  assert (Hothers : List.filter keep (map_to_list (delete id T)).*2 = (map_to_list (delete id T)).*2).
  { apply filter_all. intros x Hx'. apply list_elem_of_fmap in Hx' as ([k y] & -> & (Hne & Hy)%elem_of_map_to_list%lookup_delete_Some).
    unfold keep. cbn. rewrite (Hk k y Hy). apply negb_true_iff. by apply String.eqb_neq. }
  rewrite (filter_perm _ _ _ Hx). destruct (T !! id) as [y|] eqn:E; [|rewrite (delete_id T id E) in Hothers |- *; by rewrite Hothers].
  pose proof (map_to_list_delete T id y E) as Hl. rewrite <- (filter_perm keep _ _ (fmap_Permutation snd _ _ Hl)).
  cbn [fmap list_fmap List.filter snd]. unfold keep at 1. rewrite (Hk id y E), String.eqb_refl. cbn [negb].
  change (List.filter keep (map_to_list (delete id T)).*2 ≡ₚ (map_to_list (delete id T)).*2). by rewrite Hothers.
Qed.

(** Deleting the row of a run and inserting its facts. *)
Lemma upsert_runs d T m r v d' e :
  holds_runs d T -> upsert m r (match v with Some s => VString s | None => VNull end) d = (d', e) ->
  holds_runs d' (<[mf_RunID m := facts m r v]> T) \/ e <> None /\ holds_runs d' T.
Proof.
  intros (xs & Hscan & Hxs & Hkeys). unfold upsert.
  assert (Hkeep : forall d1, rows_of d1 = rows_of d -> holds_runs d1 T) by (intros d1 E; exists xs; by rewrite E).
  destruct (db_Begin d) as [d1 b] eqn:Eb. apply begin_rows in Eb as [Hd1 Hb].
  destruct b as [tx|eb]; [|intros [= <- <-]; right; auto]. specialize (Hb tx eq_refl).
  destruct (tx_Exec delete_text _ tx) as [tx1 e1] eqn:Ed. destruct e1 as [e1|].
  { intros [= <- <-]. right. split; [done|]. apply Hkeep. by rewrite rollback_rows. }
  apply (exec_rows _ _ _ _ _ parse_delete), delete_meaning in Ed. destruct (tx_Exec insert_text _ tx1) as [tx2 e2] eqn:Ei. destruct e2 as [e2|].
  { intros [= <- <-]. right. split; [done|]. apply Hkeep. by rewrite rollback_rows. }
  apply (exec_rows _ _ _ _ _ parse_insert), insert_meaning in Ei as (u & Ei & Hu). destruct (tx_Commit tx2 d1) as [d2 e3] eqn:Ec. intros [= <- <-].
  apply commit_rows in Ec as [Hc|[He Hc]]; [left|right; split; [done|]; apply Hkeep; by rewrite rollback_rows, Hc].
  set (id := mf_RunID m) in *. set (keep := fun x => negb (String.eqb (rw_RunID x) id)).
  assert (Hfil : Forall2 (fun v x => scanRun v = Ok x) (tx_rows tx1) (List.filter keep xs)).
  { rewrite Ed, Hb. apply Forall2_scan_filter; [|done]. intros u' x (Hid & _)%scan_columns. unfold keep. f_equal. rewrite Hid.
    destruct (String.eqb_spec (rw_RunID x) id) as [->|Hne]; [by apply bool_decide_eq_true|].
    apply bool_decide_eq_false. congruence. }
  assert (Hnew : Forall2 (fun v x => scanRun v = Ok x) (u :: tx_rows tx1) (facts m r v :: List.filter keep xs)) by by constructor.
  symmetry in Ei. destruct (Forall2_scan_perm _ _ _ Ei Hnew) as (ys & Hy & Hys).
  exists ys. rewrite rollback_rows, Hc. split; [done|]. split.
  - pose proof (keep_others T id xs Hkeys Hxs) as Hk. fold keep in Hk.
    by rewrite Hy, <- insert_delete_eq, map_to_list_insert, fmap_cons, <- Hk by apply lookup_delete_eq.
  - by apply map_Forall_insert_2.
Qed.

Lemma scan_rows_ok rows acc e out : scan_rows rows acc e = (out, None) ->
  e = None /\ exists ys, out = acc ++ ys /\ Forall2 (fun v x => scanRun v = Ok x) rows ys.
Proof.
  revert acc. induction rows as [|v rows IH]; intros acc; cbn [scan_rows].
  - intros [= -> ->]. split; [done|]. exists []. by rewrite app_nil_r.
  - destruct (scanRun v) as [x|] eqn:E; [|done]. intros (-> & ys & -> & Hs)%IH. split; [done|].
    exists (x :: ys). rewrite <- app_assoc. split; [done|]. by constructor.
Qed.

Lemma scan_unique rows xs ys : Forall2 (fun v x => scanRun v = Ok x) rows xs -> Forall2 (fun v x => scanRun v = Ok x) rows ys -> xs = ys.
Proof.
  intros Hx. revert ys. induction Hx as [|v x rows xs Hv _ IH]; intros ys Hy.
  - by apply Forall2_nil_inv_l in Hy as ->.
  - apply Forall2_cons_inv_l in Hy as (y & zs & Hy & Hz & ->). rewrite (IH _ Hz). congruence.
Qed.

(** The filters on a scanned row. *)
Definition selected (target workload : string) (x : RunRow) : bool :=
  (String.eqb target "" || String.eqb (rw_Target x) target) && (String.eqb workload "" || String.eqb (rw_Workload x) workload).

Lemma selected_spec target workload x :
  selected target workload x = true <->
  (target = ""%string \/ rw_Target x = target) /\ (workload = ""%string \/ rw_Workload x = workload).
Proof. unfold selected. by rewrite andb_true_iff, !orb_true_iff, !String.eqb_eq. Qed.

Lemma meets_selected target workload v x : scanRun v = Ok x -> meets runs_table (filters target workload) v = selected target workload x.
Proof.
  intros (_ & Ht & Hw & _ & _)%scan_columns.
  assert (Heq : forall (a b : string), bool_decide (Some (VString a) = Some (VString b)) = String.eqb a b).
  { intros a b. destruct (String.eqb_spec a b) as [->|Hne]; [by apply bool_decide_eq_true|apply bool_decide_eq_false; congruence]. }
  unfold meets, filters, selected.
  destruct (String.eqb target ""), (String.eqb workload ""); cbn [app forallb fst snd orb andb]; rewrite ?Ht, ?Hw, ?Heq, ?andb_true_r; done.
Qed.

(** Every query of the source, read back. *)
Definition run_query (conds : list string) (limited : bool) : select := {|
  sel_columns := columns; sel_table := "runs"; sel_where := conds;
  sel_order := [("created_at", true); ("run_id", true)]%string; sel_limit := limited |}.

Lemma parse_query target workload limited :
  parse_sql (query_text (filters target workload).*1 limited) = Some (Select (run_query (filters target workload).*1 limited)).
Proof. unfold filters. destruct (String.eqb target ""), (String.eqb workload ""), limited; vm_compute; reflexivity. Qed.

Lemma filters_text target workload : forallb (text_cond runs_table) (filters target workload) = true.
Proof. rewrite runs_table_eq. unfold filters. by destruct (String.eqb target ""), (String.eqb workload ""). Qed.

(** A query of the source, when it succeeds. *)
Lemma query_meaning target workload limit d d' rows e :
  let fs := filters target workload in
  db_Query (query_text fs.*1 (0 <? limit)) (fs.*2 ++ (if 0 <? limit then [VInt limit] else [])) d = (d', Ok (rows, e)) ->
  rows_of d' = rows_of d /\
  (e = None -> exists all, all ≡ₚ List.filter (meets runs_table fs) (rows_of d) /\
     StronglySorted (in_order runs_table [("created_at", true); ("run_id", true)]%string) all /\
     rows = project runs_table columns <$> (if 0 <? limit then take (Z.to_nat limit) all else all)).
Proof.
  intros fs Hq. apply (query_rows _ _ _ _ _ _ _ (parse_query target workload (0 <? limit)) eq_refl) in Hq as [Hd Ha].
  split; [done|]. intros He. specialize (Ha He fs.*2 limit eq_refl). cbn [sel_limit sel_where sel_order sel_columns run_query] in Ha.
  fold fs in Ha. rewrite zip_fst_snd in Ha. apply Ha; [intros ?; zbool; lia|by rewrite !length_fmap|apply filters_text].
Qed.

(** Newest first, and by descending identifier at one moment. *)
Definition newer (a b : RunRow) : Prop :=
  rw_CreatedAt b < rw_CreatedAt a \/ rw_CreatedAt a = rw_CreatedAt b /\ String.ltb (rw_RunID b) (rw_RunID a) = true.

Lemma newest_newer v u x y : scanRun v = Ok x -> scanRun u = Ok y ->
  in_order runs_table [("created_at", true); ("run_id", true)]%string v u = true -> rw_RunID x <> rw_RunID y -> newer x y.
Proof.
  intros (Hi & _ & _ & Hc & _)%scan_columns (Hj & _ & _ & Hd & _)%scan_columns. cbn [in_order]. rewrite Hi, Hc, Hj, Hd.
  cbn [compare_values]. unfold newer, String.ltb. destruct (Z.compare_spec (rw_CreatedAt x) (rw_CreatedAt y)) as [E|?|?]; [|done|by left].
  rewrite (String.compare_antisym (rw_RunID y)). destruct (String.compare (rw_RunID x) (rw_RunID y)) eqn:Ec; [|done|by right].
  apply String.compare_eq_iff in Ec. congruence.
Qed.

Lemma sorted_newer rows xs : Forall2 (fun v x => scanRun v = Ok x) rows xs -> StronglySorted (in_order runs_table [("created_at", true); ("run_id", true)]%string) rows ->
  NoDup (rw_RunID <$> xs) -> StronglySorted newer xs.
Proof.
  induction 1 as [|v x rows xs Hv Hs IH]; intros Hr Hd; [constructor|].
  apply StronglySorted_inv in Hr as [Hr Hall]. apply NoDup_cons in Hd as [Hn Hd]. constructor; [by apply IH|].
  apply Forall_forall. intros y Hy. apply list_elem_of_lookup in Hy as [j Hj].
  destruct (Forall2_lookup_r _ _ _ _ _ Hs Hj) as (u & Hu & Huy). eapply Forall_lookup_1 in Hall; [|exact Hu].
  apply (newest_newer v u); [done..|by apply Is_true_true|]. intros E. apply Hn. rewrite E. apply list_elem_of_fmap_2.
  by eapply list_elem_of_lookup_2.
Qed.

(** The rows that scan are selected as they are. *)
Lemma scan_project rows : Forall (fun v => exists x, scanRun v = Ok x) rows -> project runs_table columns <$> rows = rows.
Proof.
  induction 1 as [|v rows (x & (_ & _ & _ & _ & Hv)%scan_columns) _ IH]; [done|]. by rewrite fmap_cons, Hv, IH.
Qed.

Lemma scanned rows xs : Forall2 (fun v x => scanRun v = Ok x) rows xs -> Forall (fun v => exists x, scanRun v = Ok x) rows.
Proof. induction 1; constructor; eauto. Qed.

Lemma table_member (T : gmap string RunRow) xs x : map_Forall (fun id x => rw_RunID x = id) T -> xs ≡ₚ (map_to_list T).*2 ->
  x ∈ xs <-> T !! rw_RunID x = Some x.
Proof.
  intros Hk Hx. rewrite Hx, list_elem_of_fmap. split.
  - intros ([k y] & -> & Hky%elem_of_map_to_list). cbn. by rewrite (Hk k y Hky).
  - intros H. exists (rw_RunID x, x). split; [done|]. by apply elem_of_map_to_list.
Qed.

(** Reads by which nothing fails leave the world as it is. *)
Lemma readJSON_same {T} (c : codec T) q w : w_faults w = [] -> (readJSON c q w).1 = w.
Proof.
  intros Hf. unfold readJSON, ReadFile, next_fault. rewrite Hf. destruct (content (w_fs w) q) as [b|]; [|done].
  by destruct (unmarshal c b).
Qed.

Lemma Stat_same q w : w_faults w = [] -> (Stat q w).1 = w.
Proof. intros Hf. unfold Stat, next_fault. by rewrite Hf. Qed.
End laws.

(** The verdict a run directory holds, if its report is there and readable. *)
Definition recorded_verdict (cs : codecs) (p : Paths) (w : world) : option Verdict :=
  match (Stat (VerifyJSON p) w).2, (ReadVerify cs p w).2 with true, Ok v => Some (vr_Verdict v) | _, _ => None end.

(** C15: ingesting the run directory of a layout (when no file system call fails) is
    an upsert into the table keyed by run: with a readable manifest and summary the
    table holds the run's facts, with its verdict if it has one, in place of what it
    held for that run, and every other run's as before; an error leaves the table
    as it was (a failed commit leaves one or the other); without manifest or summary
    nothing reaches the database. *)
Theorem Ingest_upserts {S Tx} {DB : Sql S Tx} {L : SqlLaws S Tx} cs base target id w (d : S) T w' d' res :
  file_name (txt target) -> file_name (txt id) -> w_faults w = [] -> holds_runs d T ->
  let p := Layout base target id in
  Ingest cs (Dir p) w d = (w', d', res) ->
  match (ReadManifest cs p w).2, (ReadSummary cs p w).2 with
  | Ok m, Ok r =>
      holds_runs d' (<[mf_RunID m := facts m r (recorded_verdict cs p w)]> T) \/ res <> None /\ holds_runs d' T
  | Err e, _ | Ok _, Err e => res = Some e /\ d' = d
  end.
Proof.
  intros Ht Hi Hf Hd p. unfold Ingest. cbv zeta.
  assert (Hp : pathsFor (Dir p) = p) by by apply reread_layout. rewrite Hp. clear Hp. clearbody p.
  pose proof (readJSON_same (c_manifest cs) (Manifest_json p) w Hf) as Hm.
  pose proof (readJSON_same (c_summary cs) (Summary p) w Hf) as Hr.
  pose proof (readJSON_same (c_verify cs) (VerifyJSON p) w Hf) as Hv. pose proof (Stat_same (VerifyJSON p) w Hf) as Hst.
  unfold ReadManifest, ReadSummary, recorded_verdict, verdictOf, ReadVerify.
  destruct (readJSON (c_manifest cs) _ w) as [w1 [m|e]]; cbn [fst snd] in Hm |- *; subst w1; [|by intros [= _ <- <-]].
  destruct (readJSON (c_summary cs) _ w) as [w2 [r|e]]; cbn [fst snd] in Hr |- *; subst w2; [|by intros [= _ <- <-]].
  destruct (Stat (VerifyJSON p) w) as [w3 b]; cbn [fst snd] in Hst |- *; subst w3.
  destruct (readJSON (c_verify cs) _ w) as [w4 v]; cbn [fst snd] in Hv |- *; subst w4.
  destruct b; [destruct v as [v|e]|]; cbv beta iota;
    (lazymatch goal with |- context [upsert m r ?x d] => destruct (upsert m r x d) as [d1 e1] eqn:Eu end; intros [= _ <- <-]).
  - by apply (upsert_runs d T m r (Some (vr_Verdict v))).
  - by apply (upsert_runs d T m r None).
  - by apply (upsert_runs d T m r None).
Qed.

(** C16: a query over a table of runs gives, of the runs whose target and workload
    are the ones asked for (an empty filter asks for none), each run's row once, the
    newest first and those of one moment by descending identifier; with a positive
    limit the first so many of them; the table stays as it is. *)
Theorem Runs_newest_first {S Tx} {DB : Sql S Tx} {L : SqlLaws S Tx} target workload limit (d : S) T d' out :
  holds_runs d T -> Runs target workload limit d = (d', (out, None)) ->
  holds_runs d' T /\
  exists all,
    (forall x, x ∈ all <-> T !! rw_RunID x = Some x /\ (target = ""%string \/ rw_Target x = target) /\
                          (workload = ""%string \/ rw_Workload x = workload)) /\
    StronglySorted newer all /\
    out = if 0 <? limit then take (Z.to_nat limit) all else all.
Proof.
  intros (xs & Hscan & Hxs & Hkeys). unfold Runs. cbv zeta. set (fs := filters target workload).
  destruct (db_Query _ _ d) as [d1 r] eqn:Eq. destruct r as [[rows e]|e]; [|done]. intros H. injection H as <- Hout.
  apply query_meaning in Eq as [Hd Hq]. apply scan_rows_ok in Hout as (-> & ys & -> & Hys). cbn [app].
  split; [exists xs; by rewrite Hd|]. destruct (Hq eq_refl) as (all & Hall & Hsort & ->).
  assert (Hf : Forall2 (fun v x => scanRun v = Ok x) (List.filter (meets runs_table fs) (rows_of d)) (List.filter (selected target workload) xs)).
  { apply Forall2_scan_filter; [|done]. intros v x. apply meets_selected. }
  symmetry in Hall. destruct (Forall2_scan_perm _ _ _ Hall Hf) as (zs & Hz & Hzs). exists zs.
  assert (Hin : forall x, x ∈ xs <-> T !! rw_RunID x = Some x) by (intros; by apply table_member).
  assert (Hd' : NoDup xs).
  { rewrite Hxs. apply NoDup_fmap_2_strong; [|apply NoDup_map_to_list].
    intros [i x] [j y] Hx%elem_of_map_to_list Hy%elem_of_map_to_list. cbn. intros ->.
    f_equal. by rewrite <- (Hkeys i y Hx), <- (Hkeys j y Hy). }
  assert (Hsel : forall x, x ∈ zs <-> T !! rw_RunID x = Some x /\ selected target workload x = true).
  { intros x. by rewrite Hz, list_elem_of_In, filter_In, <- list_elem_of_In, Hin. }
  split; [|split].
  - intros x. by rewrite Hsel, selected_spec.
  - apply (sorted_newer all); [done..|]. apply NoDup_fmap_2_strong.
    + intros x y [Hx _]%Hsel [Hy _]%Hsel E. rewrite E in Hx. congruence.
    + rewrite Hz. by apply NoDup_ListNoDup, List.NoDup_filter, NoDup_ListNoDup.
  - eapply scan_unique; [exact Hys|]. pose proof (scanned _ _ Hzs) as Hsc.
    rewrite scan_project; (destruct (0 <? limit); [|done]); [by apply Forall2_take|by apply Forall_take].
Qed.

(** ** A database in memory *)

(** A stored run, and whether its verdict is NULL. *)
Definition stored_run : Type := RunRow * bool.

Definition values (x : stored_run) : row :=
  let '(r, null) := x in
  [VString (rw_RunID r); VString (rw_Target r); VString (rw_Workload r); VString (rw_Mode r); VTime (rw_CreatedAt r);
   VFloat (rw_Throughput r); VFloat (rw_P50 r); VFloat (rw_P99 r); VFloat (rw_P999 r); VFloat (rw_Max r);
   VInt (rw_Total r); VInt (rw_Errors r); VBool (rw_ClientBound r); if null then VNull else VString (rw_VerifyVerdict r)].

Definition mem_insert (v : row) (d : list stored_run) : list stored_run * option error :=
  match scanRun v with
  | Err e => (d, Some e)
  | Ok r =>
      let x := (r, bool_decide (last v = Some VNull)) in
      if negb (bool_decide (values x = v)) then (d, Some "type mismatch"%string)
      else if existsb (fun y => String.eqb (rw_RunID y.1) (rw_RunID r)) d then (d, Some "Constraint Error: Duplicate key"%string)
      else (x :: d, None)
  end.

Definition mem_exec (text : string) (args : list value) (d : list stored_run) : list stored_run * option error :=
  match parse_sql text with
  | Some (Delete "runs" conds) => (List.filter (fun x => negb (meets runs_table (zip conds args) (values x))) d, None)
  | Some (Insert "runs" cols) => mem_insert (new_row runs_table cols args) d
  | Some (Create _ _) => (d, None)
  | _ => (d, Some "Parser Error"%string)
  end.

(** It sorts by one order only. *)
Definition mem_order : list (string * bool) := [("created_at", true); ("run_id", true)]%string.

Definition mem_before (a b : stored_run) : bool := in_order runs_table mem_order (values a) (values b).

Definition mem_select (conds : list string) (args : list value) (d : list stored_run) : list row :=
  values <$> sort_by mem_before (List.filter (fun x => meets runs_table (zip conds args) (values x)) d).

Definition mem_query (text : string) (args : list value) (d : list stored_run) : result error (list row * option error) :=
  match parse_sql text with
  | Some (Select q) =>
      if negb (bool_decide (sel_order q = mem_order)) then Err "Parser Error"%string
      else
        let all := mem_select (sel_where q) args d in
        match sel_limit q, last args with
        | false, _ => Ok (project runs_table (sel_columns q) <$> all, None)
        | true, Some (VInt n) => Ok (project runs_table (sel_columns q) <$> take (Z.to_nat n) all, None)
        | true, _ => Err "Conversion Error"%string
        end
  | _ => Err "Parser Error"%string
  end.

#[export] Instance mem_sql : Sql (list stored_run) (list stored_run) := {
  sql_Open _ d := (d, None);
  db_Ping d := (d, None);
  db_Close d := (d, None);
  db_Exec := mem_exec;
  db_Begin d := (d, Ok d);
  tx_Exec := mem_exec;
  tx_Commit tx _ := (tx, None);
  tx_Rollback _ d := d;
  db_Query text args d := (d, mem_query text args d)
}.

Lemma values_columns a :
  column runs_table "created_at" (values a) = Some (VTime (rw_CreatedAt a.1)) /\ column runs_table "run_id" (values a) = Some (VString (rw_RunID a.1)).
Proof. rewrite runs_table_eq. by destruct a. Qed.

Lemma mem_before_spec a b :
  mem_before a b = true <->
  rw_CreatedAt b.1 < rw_CreatedAt a.1 \/ rw_CreatedAt a.1 = rw_CreatedAt b.1 /\ String.leb (rw_RunID b.1) (rw_RunID a.1) = true.
Proof.
  unfold mem_before, mem_order. cbn [in_order]. destruct (values_columns a) as [-> ->], (values_columns b) as [-> ->].
  cbn [compare_values]. unfold String.leb. rewrite (String.compare_antisym (rw_RunID b.1)).
  destruct (Z.compare_spec (rw_CreatedAt a.1) (rw_CreatedAt b.1)) as [E|?|?].
  - destruct (String.compare (rw_RunID a.1) (rw_RunID b.1)); cbn [negb CompOpp]; (split; [intros H|intros [?|[_ H]]]); by auto || lia.
  - split; [done|intros [?|[? _]]; lia].
  - split; [by left|done].
Qed.

Lemma mem_sorted l : StronglySorted (in_order runs_table mem_order) (values <$> sort_by mem_before l).
Proof.
  assert (Hs : StronglySorted mem_before (sort_by mem_before l)).
  { apply sort_by_sorted.
    - intros a b. rewrite !mem_before_spec.
      destruct (String.leb_total (rw_RunID b.1) (rw_RunID a.1)); destruct (Z.lt_total (rw_CreatedAt a.1) (rw_CreatedAt b.1)) as [?|[?|?]]; auto.
    - intros a b c. rewrite !mem_before_spec.
      intros [?|[? H1]] [?|[? H2]]; try (left; lia). right. split; [lia|]. exact (string_leb_trans _ _ _ H2 H1). }
  induction Hs as [|x k Hk IH Hx]; [constructor|]. cbn. constructor; [done|]. by apply Forall_fmap.
Qed.

Lemma filter_values (P : row -> bool) l : List.filter P (values <$> l) = values <$> List.filter (fun x => P (values x)) l.
Proof. induction l as [|x l IH]; [done|]. cbn [fmap list_fmap List.filter]. rewrite IH. by destruct (P (values x)). Qed.

Lemma zip_extra {A B} (l : list A) (k extra : list B) : length k = length l -> zip l (k ++ extra) = zip l k.
Proof.
  revert k. induction l as [|a l IH]; intros [|b k] Hl; try done. cbn. f_equal. apply IH. by injection Hl.
Qed.

Lemma mem_answers text q args d rows e : parse_sql text = Some (Select q) ->
  mem_query text args d = Ok (rows, e) -> answers runs_table q args (values <$> d) rows.
Proof.
  unfold mem_query. intros ->. destruct (bool_decide_reflect (sel_order q = mem_order)) as [Ho|]; [|done]. cbn [negb].
  intros H wargs limit -> _ Hlen _. exists (mem_select (sel_where q) wargs d). rewrite Ho.
  split; [unfold mem_select; by rewrite sort_by_perm, filter_values|]. split; [apply mem_sorted|].
  unfold mem_select in *. rewrite zip_extra in H by done. destruct (sel_limit q); [rewrite last_snoc in H|]; by injection H as <- _.
Qed.

Lemma mem_executed text st args d d' : parse_sql text = Some st -> mem_exec text args d = (d', None) ->
  executed runs_table "runs" st args (values <$> d) (values <$> d').
Proof.
  unfold mem_exec. intros -> H. destruct st as [q|t conds|t cols|t cols]; [done| | |done]; cbn [executed]; intros ->.
  - injection H as <-. intros _ _. by rewrite filter_values.
  - unfold mem_insert in H. destruct (scanRun _) as [r|]; [|done]. cbv zeta in H.
    destruct (bool_decide_reflect (values (r, bool_decide (last (new_row runs_table cols args) = Some VNull)) = new_row runs_table cols args))
      as [Hv|]; [|done]. cbn [negb] in H. destruct (existsb _ _); [done|]. injection H as <-. intros _ _ _.
    apply reflexive_eq. rewrite fmap_cons. f_equal. exact Hv.
Qed.

#[export] Instance mem_laws : SqlLaws (list stored_run) (list stored_run).
Proof.
  refine {| rows_of d := values <$> d; tx_rows d := values <$> d |}.
  - intros d d' r [= <- <-]. split; [done|]. by intros tx [= <-].
  - done.
  - intros tx d d' e [= <- <-]. by left.
  - intros text st args tx tx' Hp H. by apply (mem_executed text st args).
  - intros text q args d d' rows e Hp _ H. cbn [db_Query mem_sql] in H. injection H as <- H. split; [done|]. intros _.
    by eapply mem_answers.
Defined.

(** ** Two runs stored and queried *)

Definition second_manifest : Manifest := {|
  mf_RunID := "redis-2"; mf_Target := mf_Target some_manifest; mf_TargetVersion := ""; mf_Workload := mf_Workload some_manifest;
  mf_TestType := mf_TestType some_manifest; mf_Mode := mf_Mode some_manifest; mf_Rate := mf_Rate some_manifest;
  mf_Duration := 1; mf_Warmup := 0; mf_Connections := 1; mf_Seed := 2; mf_Trials := 1; mf_Consistency := "";
  mf_Cluster := mf_Cluster some_manifest; mf_Faults := []; mf_EngineVersion := ""; mf_GitSHA := ""; mf_Client := mf_Client some_manifest;
  mf_Labels := ∅; mf_CreatedAt := mf_CreatedAt some_manifest + second
|}.

(** A table that holds a later run of the same target. *)
Definition one_stored : list stored_run := [(facts second_manifest some_summary None, true)].
Definition one_table : gmap string RunRow := {[ "redis-2"%string := facts second_manifest some_summary None ]}.

Lemma one_holds : holds_runs one_stored one_table.
Proof.
  exists [facts second_manifest some_summary None]. split; [by repeat constructor|]. split; [unfold one_table; by rewrite map_to_list_singleton|].
  by apply map_Forall_singleton.
Qed.

(** The directory of a run with its manifest, summary and report. *)
Definition run_world : world :=
  let p := Layout "." "redis" "redis-1" in
  let w := (WriteManifest some_codecs "7" p some_manifest (world_of [])).1 in
  let w := (WriteSummary some_codecs "7" p some_summary w).1 in
  (WriteVerify some_codecs "7" p some_report w).1.

Definition run_facts : RunRow := facts some_manifest some_summary (Some VerdictPass).

Lemma name_of s : bool_decide ((slash ∉ txt s)) = true -> txt s <> [] -> txt s <> txt "." -> txt s <> txt ".." -> file_name (txt s).
Proof. intros H%bool_decide_eq_true. done. Qed.

Lemma Ingest_upserts_witness :
  let d' := (Ingest some_codecs "results/redis/redis-1" run_world one_stored).1.2 in
  holds_runs d' (<["redis-1"%string := run_facts]> one_table) /\ length d' = 2%nat.
Proof.
  cbv zeta. split; [|vm_compute; reflexivity].
  destruct (Ingest some_codecs "results/redis/redis-1" run_world one_stored) as [[w' d'] res] eqn:E.
  assert (Hres : res = None) by (transitivity (Ingest some_codecs "results/redis/redis-1" run_world one_stored).2; [by rewrite E|vm_compute; reflexivity]).
  pose proof (Ingest_upserts some_codecs "." "redis" "redis-1" run_world one_stored one_table w' d' res
    ltac:(by apply name_of) ltac:(by apply name_of) ltac:(vm_compute; reflexivity) one_holds E) as H.
  assert (Hm : (ReadManifest some_codecs (Layout "." "redis" "redis-1") run_world).2 = Ok some_manifest) by (vm_compute; reflexivity).
  assert (Hs : (ReadSummary some_codecs (Layout "." "redis" "redis-1") run_world).2 = Ok some_summary) by (vm_compute; reflexivity).
  assert (Hv : recorded_verdict some_codecs (Layout "." "redis" "redis-1") run_world = Some VerdictPass) by (vm_compute; reflexivity).
  cbv zeta in H. rewrite Hm, Hs, Hv in H. destruct H as [H|[H _]]; [exact H|by destruct H].
Defined.

Definition both_stored : list stored_run := (Ingest some_codecs "results/redis/redis-1" run_world one_stored).1.2.

Lemma both_hold : holds_runs both_stored (<["redis-1"%string := run_facts]> one_table).
Proof.
  exists [run_facts; facts second_manifest some_summary None].
  split; [vm_compute; by repeat constructor|]. split.
  - rewrite map_to_list_insert by done. unfold one_table. by rewrite map_to_list_singleton.
  - apply map_Forall_insert_2; [done|]. by apply map_Forall_singleton.
Qed.

Lemma Runs_newest_first_witness :
  rw_RunID <$> (Runs "redis" "" 1 both_stored).2.1 = ["redis-2"%string] /\
  exists all, (Runs "redis" "" 1 both_stored).2.1 = take 1 all /\ StronglySorted newer all.
Proof.
  split; [vm_compute; reflexivity|].
  destruct (Runs "redis" "" 1 both_stored) as [d' [out e]] eqn:E.
  assert (He : e = None) by (transitivity (Runs "redis" "" 1 both_stored).2.2; [by rewrite E|vm_compute; reflexivity]). subst e.
  destruct (Runs_newest_first "redis" "" 1 both_stored _ d' out both_hold E) as (_ & all & _ & Hs & Ho). exists all.
  split; [exact Ho|exact Hs].
Defined.
