(* ===== verification/Cli.v ===== *)
(** * Cli: the commands of an engine (core/cli)

    [run] in one piece: the assets unpacked, the configuration resolved, a cluster
    provisioned, the recording and the fault schedule set up, the load driven, the
    artifacts written, the verification run and the report rendered, with every
    deferred clean-up on every way out; and the commands around it.  The load
    itself (Engine.drive) and the coordinator's service are the interface
    [Services]: what is shown holds whatever they answer. *)

From Stdlib Require Import Ascii String SpecFloat.
From S2P Require Import Schedule Rand Prelude Domain Strconv Ftoa Timefmt Checksum Workload Metrics Expect Driver Reconcile History.
From S2P Require Import Config Runner Nemesis Coordinator Worker Distributed Engine Targets Provision Emit Export Rundir Report Warehouse.

Local Open Scope Z_scope.

Abbreviation result := Prelude.result (only parsing).

(** ** Interfaces *)

(** Temporary files (created and closed: the name, and the error of the close) and
    the writers open on them (core/verify), and elle-cli: [None] when it is not
    installed. *)
Class TempFiles (X : Type) := {
  temp_Create : string -> X -> X * result error (string * option error);
  log_Open : string -> X -> X * option error;
  writer_Close : string -> X -> X * option error;
  temp_Read : string -> X -> X * result error text;
  temp_Write : string -> text -> X -> X * option error;
  temp_Remove : string -> X -> X;
  run_elle : string -> X -> X * option (string * option error)
}.

(** The load ([load] also tells whether the faults were begun), the end of the
    fault scheduler's goroutine, and the service of the coordinator (its address
    and its result). *)
Class Services (X H : Type) := {
  load : driveParams -> nemesisRun -> X -> X * (bool * result drive_error (RunReport * Recorder H * list LatencySnapshot * Z));
  faults_end : nemesisRun -> X -> X * list Nemesis.Event;
  serve : string -> RunSpec -> Z -> X -> X * (string * result error Coordinator.Result)
}.

(** hdrhistogram's log writer: the bytes of its lines. *)
Class HLogLines (H : Type) := {
  hl_version : bytes;
  hl_start : Z -> bytes;
  hl_legend : bytes;
  hl_interval : string -> Z -> H -> bytes
}.

(** The files the commands read, parsed, and the fault timeline written. *)
Class Formats := {
  parse_target : bytes -> result error targetFile;
  parse_workload : bytes -> result error workloadFile;
  parse_faults : bytes -> result error (list (string * string * string * string * string * params));
  c_timeline : codec (list Nemesis.Event);
  unmarshal_record : text -> option WriteRecord;
  unmarshal_event : text -> option History.Event;
  unwire : string -> option wireEnvelope;
  wire : wireEnvelope -> string;
  line_error : read_error -> error;
  rfc3339 : Z -> text
}.

(** An embedded asset, in the order of the walk. *)
Inductive asset :=
| ADir (path : string)
| AFile (path : string) (data : result error bytes)
| ABad (e : error).

(** [Engine], with the capabilities of its driver the commands look for. *)
Record Engine (X : Type) := {
  e_Name : string;
  e_Assets : list asset;
  e_Schema : Driver.Config -> Workload -> X -> X * option error;
  e_Verifier : option (VerifyModel * (string -> Driver.Config -> X -> X * (VerifyReport * option error)));
  e_Cluster : option (ClusterAware X)
}.
Arguments e_Name {X}.
Arguments e_Assets {X}.
Arguments e_Schema {X}.
Arguments e_Verifier {X}.
Arguments e_Cluster {X}.

(** ** A command's world *)

(** What a command has acquired and not yet given back. *)
Inductive held :=
| HAssets (dir : string)
| HSignals
| HCluster (b : Backend) (name : string)
| HTemp (path : string)
| HExporter
| HWarehouse.

#[export] Instance held_eq_dec : EqDecision held.
Proof. solve_decision. Defined.

Record cli (X : Type) := {
  cl_x : X;
  cl_files : world;
  cl_nem : nemesisRun;
  cl_timeline : list Nemesis.Event;
  cl_held : list held;
  cl_out : list text
}.
Arguments cl_x {X}.
Arguments cl_files {X}.
Arguments cl_nem {X}.
Arguments cl_timeline {X}.
Arguments cl_held {X}.
Arguments cl_out {X}.

Definition no_nemesis : nemesisRun :=
  {| n_sched := None; n_specs := []; n_started := false; n_stopped := false; n_cancelled := false |}.

Section world.
Context {X : Type}.
Implicit Types w : cli X.

Definition set_x (x : X) w := {| cl_x := x; cl_files := cl_files w; cl_nem := cl_nem w; cl_timeline := cl_timeline w; cl_held := cl_held w; cl_out := cl_out w |}.
Definition set_files (f : world) w := {| cl_x := cl_x w; cl_files := f; cl_nem := cl_nem w; cl_timeline := cl_timeline w; cl_held := cl_held w; cl_out := cl_out w |}.
Definition set_nem (n : nemesisRun) w := {| cl_x := cl_x w; cl_files := cl_files w; cl_nem := n; cl_timeline := cl_timeline w; cl_held := cl_held w; cl_out := cl_out w |}.
Definition set_timeline (l : list Nemesis.Event) w := {| cl_x := cl_x w; cl_files := cl_files w; cl_nem := cl_nem w; cl_timeline := l; cl_held := cl_held w; cl_out := cl_out w |}.
Definition set_held (h : list held) w := {| cl_x := cl_x w; cl_files := cl_files w; cl_nem := cl_nem w; cl_timeline := cl_timeline w; cl_held := h; cl_out := cl_out w |}.
Definition print (t : text) w := {| cl_x := cl_x w; cl_files := cl_files w; cl_nem := cl_nem w; cl_timeline := cl_timeline w; cl_held := cl_held w; cl_out := cl_out w ++ [t] |}.

(** Gives back the last such thing acquired. *)
Fixpoint give_back (h : held) (l : list held) : list held :=
  match l with
  | [] => []
  | x :: l => if decide (x = h) then l else x :: give_back h l
  end.

Definition acquire (h : held) w := set_held (h :: cl_held w) w.
Definition release (h : held) w := set_held (give_back h (cl_held w)) w.
End world.

(** ** Commands *)

(** Why a command failed. *)
Inductive failure :=
| Fail (e : error)
| FailDrive (e : drive_error).

(** A function that defers: it leaves its deferred calls, the last one first. *)
Definition M (X A : Type) : Type := cli X -> cli X * list (cli X -> cli X) * result failure A.

Section monad.
Context {X : Type}.

Definition ret {A} (a : A) : M X A := fun w => (w, [], Ok a).
Definition fail {A} (e : error) : M X A := fun w => (w, [], Err (Fail e)).

Definition bind {A B} (m : M X A) (f : A -> M X B) : M X B := fun w =>
  match m w with
  | (w, ds, Err e) => (w, ds, Err e)
  | (w, ds, Ok a) => let '(w, ds', r) := f a w in (w, ds' ++ ds, r)
  end.

Definition defer (d : cli X -> cli X) : M X unit := fun w => (w, [d], Ok tt).
Definition effect (d : cli X -> cli X) : M X unit := fun w => (d w, [], Ok tt).

(** A call on the outside world. *)
Definition call {A} (f : X -> X * A) : M X A := fun w => let '(x, a) := f (cl_x w) in (set_x x w, [], Ok a).

(** A call on the file system. *)
Definition file {A} (f : world -> world * A) : M X A := fun w => let '(fs, a) := f (cl_files w) in (set_files fs w, [], Ok a).

Definition get {A} (f : cli X -> A) : M X A := fun w => (w, [], Ok (f w)).

(** [if err != nil { return fmt.Errorf(prefix, err) }] *)
Definition check {A} (prefix : string) (r : result error A) : M X A :=
  match r with Ok a => ret a | Err e => fail (prefix +:+ e) end.

Definition check_err (prefix : string) (e : option error) : M X unit :=
  match e with None => ret tt | Some e => fail (prefix +:+ e) end.

(** A call whose error is wrapped: [fmt.Errorf(prefix, err)]. *)
Definition within {A} (prefix : string) (m : M X A) : M X A := fun w =>
  match m w with
  | (w, ds, Err (Fail e)) => (w, ds, Err (Fail (prefix +:+ e)))
  | done => done
  end.

(** A whole function: its deferred calls run when it returns, last first. *)
Definition scope {A} (m : M X A) (w : cli X) : cli X * result failure A :=
  let '(w, ds, r) := m w in (foldl (fun w d => d w) w ds, r).
End monad.

Declare Scope cli_scope.
Delimit Scope cli_scope with cli.
Notation "'let*' x := m 'in' k" := (bind m (fun x => k))
  (at level 100, x pattern, m at level 99, k at level 100, right associativity) : cli_scope.
Notation "'do*' m 'in' k" := (bind m (fun _ => k)) (at level 100, m at level 99, k at level 100, right associativity) : cli_scope.
Local Open Scope cli_scope.

Definition version : string := "0.1.0-dev".
Definition infraDirName : string := "infrastructure".

Section commands.
Context {X C R H K Tx : Type}.
Context {HH : Histogram H} {HL : HLogLines H} {Drv : Driver X C} {Clk : Clock X} {KK : Koanf K} {FM : FloatMath}.
Context {HT : Http X} {PC : PostCall X} {CJ : ClusterJson} {TF : TempFiles X} {Sv : Services X H} {DB : Sql X Tx} {Fm : Formats}.
Context (cs : codecs) (order : gmap Z acc -> list acc) (range : gmap Z WriteRecord -> list (Z * WriteRecord)).
Context (porcupine : list porcOp -> CheckResult).
Context (registry : gmap Backend (Provisioner X)).
Context (environ : list (string * string)) (client : ClientInfo) (assets_dir suffix : string).
Implicit Types w : cli X.

(** ** cli.go *)

(** [os.MkdirTemp]. *)
Definition MkdirTemp (fs : world) : world * result error string :=
  let '(f, fs) := next_fault fs in (fs, match f with Some _ => Err EIO | None => Ok assets_dir end).

(** [os.RemoveAll]. *)
Definition below (dir q : string) : bool := String.eqb q dir || String.prefix (dir +:+ "/") q.

Definition RemoveAll (dir : string) (fs : world) : world :=
  let '(f, fs) := next_fault fs in
  match f with
  | Some _ => fs
  | None => enter (set_names (w_fs fs) (filter (fun e => below dir e.1 = false) (fs_names (w_fs fs)))) fs
  end.

Definition copyFile (data : result error bytes) (dst : string) (fs : world) : world * option error :=
  match data with
  | Err e => (fs, Some e)
  | Ok data =>
      match MkdirAll (dir_of dst) fs with
      | (fs, Some e) => (fs, Some e)
      | (fs, None) =>
          match Create dst fs with
          | (fs, Err e) => (fs, Some e)
          | (fs, Ok i) => let '(fs, e) := f_Write i data fs in ((f_Close i fs).1, e)
          end
      end
  end.

(** The walk stops at the first error. *)
Fixpoint copy_assets (dir : string) (l : list asset) (fs : world) : world * option error :=
  match l with
  | [] => (fs, None)
  | a :: l =>
      let '(fs, e) := match a with
                      | ADir p => MkdirAll (Join [dir; p]) fs
                      | AFile p data => copyFile data (Join [dir; p]) fs
                      | ABad e => (fs, Some e)
                      end in
      match e with Some e => (fs, Some e) | None => copy_assets dir l fs end
  end.

Definition cleanup_assets (dir : string) w : cli X := release (HAssets dir) (set_files (RemoveAll dir (cl_files w)) w).

Definition materialize (assets : list asset) : M X (result error string) :=
  let* r := file MkdirTemp in
  match r with
  | Err e => ret (Err e)
  | Ok dir =>
      do* effect (acquire (HAssets dir)) in
      let* e := file (copy_assets dir assets) in
      match e with
      | Some e => do* effect (cleanup_assets dir) in ret (Err e)
      | None => ret (Ok dir)
      end
  end.

(** ** run.go *)

(** The flags set on the command line are among [changed]. *)
Definition overrides (changed : list string) (f : runFlags) : layer :=
  let on (name : string) (v : conf) (o : layer) : layer := if bool_decide (name ∈ changed) then <[name := v]> o else o in
  let o := on "connections"%string (CfInt (rf_connections f)) ∅ in
  let o := on "duration"%string (CfDuration (rf_duration f)) o in
  let o := on "warmup"%string (CfDuration (rf_warmup f)) o in
  let o := on "consistency"%string (CfString (rf_consistency f)) o in
  let o := on "endpoints"%string (CfStrings (rf_endpoints f)) o in
  if 0 <? rf_rate f then <["ops_per_sec"%string := CfInt (rf_rate f)]> o else o.

Definition fileExists (path : string) : M X bool := file (Stat path).

(** [config.Resolve] on the files as they are. *)
Definition resolve_on (fs : world) (o : ResolveOptions) : result error Resolved :=
  let read {A} (parse : bytes -> result error A) (path : string) : result error A :=
    match content (w_fs fs) path with Some b => parse b | None => Err "no such file"%string end in
  Config.Resolve (K := K) (fun _ => Err "no such file"%string) (read parse_target) (read parse_workload) environ o.

Definition resolve_files (o : ResolveOptions) : M X (result error Resolved) := get (fun w => resolve_on (cl_files w) o).

Definition set_topology (t : Topology) (r : Resolved) : Resolved :=
  {| rv_Workload := rv_Workload r; rv_Topology := t; rv_Driver := rv_Driver r; rv_Manifest := rv_Manifest r |}.
Definition set_driver (c : Driver.Config) (r : Resolved) : Resolved :=
  {| rv_Workload := rv_Workload r; rv_Topology := rv_Topology r; rv_Driver := c; rv_Manifest := rv_Manifest r |}.
Definition set_manifest (m : Manifest) (r : Resolved) : Resolved :=
  {| rv_Workload := rv_Workload r; rv_Topology := rv_Topology r; rv_Driver := rv_Driver r; rv_Manifest := m |}.

Definition set_bundle (t : Topology) (b : string) : Topology :=
  {| topo_Name := topo_Name t; topo_Backend := topo_Backend t; topo_Target := topo_Target t; topo_Image := topo_Image t;
     topo_Version := topo_Version t; topo_Nodes := topo_Nodes t; topo_ReplicationFactor := topo_ReplicationFactor t;
     topo_Resources := topo_Resources t; topo_Bundle := b; topo_Extra := topo_Extra t |}.

(** The client endpoints of a cluster; coordination-only nodes have none. *)
Definition client_endpoints (ns : list Node) : list string :=
  omap (fun n => if String.eqb (node_Client n) "" then None else Some (node_Client n)) ns.

Definition with_cluster (c : ClusterSpec) (cfg : Driver.Config) : Driver.Config :=
  {| cfg_Endpoints := client_endpoints (cs_Nodes c); cfg_Consistency := cfg_Consistency cfg; cfg_Cluster := c; cfg_Params := cfg_Params cfg |}.

Definition prov_cluster (f : runFlags) (t : Topology) : held := HCluster (rf_provision f) (topo_Name t).

Definition tear_down (f : runFlags) (p : Provisioner X) (t : Topology) w : cli X :=
  let w := print (txt "tearing down provisioned cluster...") w in
  release (prov_cluster f t) (set_x (prov_Down p t (cl_x w)).1 w).

(** The bundle of a target, if there is one and the backend is compose. *)
Definition use_bundle (f : runFlags) (target : string) (r : Resolved) : M X Resolved :=
  if String.eqb (rf_provision f) BackendCompose then
    let b := Join ["targets"; target; infraDirName]%string in
    let* there := fileExists (Join [b; "docker-compose.yml"]%string) in
    ret (if there then set_topology (set_bundle (rv_Topology r) b) r else r)
  else ret r.

(** With the teardown: [None] where it does nothing.  The first error is that of
    an endpoint-less configuration. *)
Definition ensureEndpoints (f : runFlags) (target : string) (r : Resolved) : M X (Resolved * option (cli X -> cli X)) :=
  let* (r, teardown) :=
    (if String.eqb (rf_provision f) "" then ret (r, None)
     else
       let* p := check "" (Provision.Get registry (rf_provision f)) in
       let* r := use_bundle f target r in
       do* effect (acquire (prov_cluster f (rv_Topology r))) in
       let* up := call (prov_Up p (rv_Topology r)) in
       let* cluster := check ("provision " +:+ rf_provision f +:+ ": ") up in
       let r := set_driver (with_cluster cluster (rv_Driver r)) r in
       do* effect (print (txt "provisioned " ++ FormatInt (Z.of_nat (length (cs_Nodes cluster))) ++ txt " node(s) via " ++ txt (rf_provision f) ++
                          txt " (" ++ FormatInt (Z.of_nat (length (cfg_Endpoints (rv_Driver r)))) ++ txt " load endpoints)")) in
       if rf_keep f then
         do* effect (print (txt "  (--keep: leaving the cluster running; tear down with docker compose down -v)")) in ret (r, None)
       else ret (r, Some (tear_down f p (rv_Topology r)))) in
  match cfg_Endpoints (rv_Driver r) with
  | [] => fail "no endpoints: pass --endpoints host:port or --provision compose"
  | _ => ret (r, teardown)
  end.

(** ** verify.go *)

Definition temp_pattern (model : VerifyModel) : option string :=
  if String.eqb model VerifyReconciliation then Some "proofload-expect-*.ndjson"%string
  else if String.eqb model VerifyRegister || String.eqb model VerifyListAppend then Some "proofload-history-*.ndjson"%string
  else None.

(** [newVerification] with its calls on the temporary files. *)
Definition new_verification (model : VerifyModel) (wl : Workload) : M X verification :=
  match temp_pattern model with
  | None => check "" (newVerification (fun _ => Err ""%string) (fun _ => None) model wl)
  | Some pattern =>
      let* t := call (temp_Create pattern) in
      let* (path, close) := check "" t in
      do* effect (acquire (HTemp path)) in
      do* check_err "" close in
      let* e := call (log_Open path) in
      check "" (newVerification (fun _ => Ok path) (fun _ => e) model wl)
  end.

Definition cleanup_x (v : verification) (x : X) : X :=
  let x := match vf_kind v with Some _ => (writer_Close (vf_path v) x).1 | None => x end in
  if String.eqb (vf_path v) "" then x else temp_Remove (vf_path v +:+ ".edn") (temp_Remove (vf_path v) x).

Definition cleanup (v : verification) w : cli X :=
  let w := set_x (cleanup_x v (cl_x w)) w in
  if String.eqb (vf_path v) "" then w else release (HTemp (vf_path v)) w.

Definition close_writer (v : verification) : M X unit :=
  let* e := call (writer_Close (vf_path v)) in check_err "" e.

Definition read_history (v : verification) : M X History :=
  do* close_writer v in
  let* t := call (temp_Read (vf_path v)) in
  let* t := check "" t in
  match readHistory unmarshal_event t with
  | Ok h => ret h
  | Err e => fail (line_error e)
  end.

Definition checkRegister (v : verification) : M X VerifyReport :=
  let* h := read_history v in ret (CheckRegister porcupine h).

Definition checkListAppend (v : verification) : M X VerifyReport :=
  let* h := read_history v in
  let edn := (vf_path v +:+ ".edn") in
  let* e := call (temp_Write edn (WriteElleEDN h)) in
  do* check_err "" e in
  let* out := call (run_elle edn) in
  ret (RunElle out).

Definition reconcile_options (v : verification) (wl : Workload) : ReconcileOptions :=
  {| ro_ReadOp := vf_readOp v; ro_Workload := wl; ro_ConvergenceSample := 200; ro_ConvergenceTimeout := 5 * second |}.

(** [range] is the order of the ranges over the log; the fuel is what the wait for
    convergence of one key needs. *)
Definition reconcile (v : verification) (e : Engine X) (r : Resolved) : M X VerifyReport :=
  do* close_writer v in
  let* t := call (temp_Read (vf_path v)) in
  let* t := check "" t in
  match readLog unmarshal_record t with
  | Err e => fail (line_error e)
  | Ok log =>
      let o := reconcile_options v (rv_Workload r) in
      let* (rep, err) := call (fun x =>
        default (x, (report_zero VerifyReconciliation, None))
          (Reconcile (converge_fuel (ro_ConvergenceTimeout o)) (e_Cluster e) (rv_Driver r) log (range log) (range log) o x)) in
      do* check_err "" err in
      ret rep
  end.

Definition unsupported (model : VerifyModel) (name : string) : VerifyReport :=
  {| vr_Model := model; vr_Verdict := VerdictUnknown;
     vr_Anomalies := [{| an_Kind := "unsupported";
                         an_Detail := "no checker available for model " +:+ model +:+ " on target " +:+ name; an_Witness := [] |}];
     vr_Checked := 0; vr_Lost := 0; vr_Duplicated := 0; vr_OrderingViol := 0; vr_ConvergedIn := 0; vr_MaxStaleness := 0; vr_Extra := ∅ |}.

Definition native_verifier (e : Engine X) (model : VerifyModel) :=
  match e_Verifier e with
  | Some (m, verify) => if String.eqb m model then Some verify else None
  | None => None
  end.

Definition ver_run (v : verification) (e : Engine X) (r : Resolved) (dir : string) : M X (option VerifyReport) :=
  if String.eqb (vf_model v) VerifyNone then ret None
  else
    match native_verifier e (vf_model v) with
    | Some verify =>
        let* (rep, err) := call (verify dir (rv_Driver r)) in
        do* check_err "" err in ret (Some rep)
    | None =>
        let* rep := (if String.eqb (vf_model v) VerifyReconciliation then reconcile v e r
                     else if String.eqb (vf_model v) VerifyRegister then checkRegister v
                     else if String.eqb (vf_model v) VerifyListAppend then checkListAppend v
                     else ret (unsupported (vf_model v) (e_Name e))) in
        ret (Some rep)
    end.

(** ** faults.go *)

Definition parseDurOrZero (s : string) : result error Z :=
  if String.eqb s "" then Ok 0
  else match ParseDuration s with Some d => Ok d | None => Err ("time: invalid duration " +:+ str (quoted (txt s))) end.

Definition fault_spec (i : nat) (d : string * string * string * string * string * params) : result error FaultSpec :=
  let '(ty, target, at_, dur, rep, ps) := d in
  let part name s := match parseDurOrZero s with
                     | Ok v => Ok v
                     | Err e => Err ("fault " +:+ str (FormatInt (Z.of_nat i)) +:+ " " +:+ name +:+ ": " +:+ e)
                     end in
  match part "at"%string at_ with
  | Err e => Err e
  | Ok at_ =>
      match part "duration"%string dur with
      | Err e => Err e
      | Ok dur =>
          match part "repeat"%string rep with
          | Err e => Err e
          | Ok rep => Ok {| fs_Fault := {| f_Type := ty; f_Target := target; f_Params := ps |}; fs_At := at_; fs_Duration := dur; fs_Repeat := rep |}
          end
      end
  end.

Fixpoint fault_specs (i : nat) (l : list (string * string * string * string * string * params)) : result error (list FaultSpec) :=
  match l with
  | [] => Ok []
  | d :: l =>
      match fault_spec i d with
      | Err e => Err e
      | Ok s => match fault_specs (S i) l with Err e => Err e | Ok ss => Ok (s :: ss) end
      end
  end.

Definition loadFaultSchedule (path : string) : M X (result error (list FaultSpec)) :=
  let* b := file (ReadFile path) in
  ret (match b with
       | Err e => Err e
       | Ok b => match parse_faults b with Err e => Err e | Ok l => fault_specs 0 l end
       end).

Definition newNemesis (f : runFlags) (e : Engine X) (r : Resolved) : M X nemesisRun :=
  if String.eqb (rf_fault f) "" then ret no_nemesis
  else
    let* specs := loadFaultSchedule (rf_fault f) in
    let* specs := check "load fault schedule: " specs in
    let nodes := cs_Nodes (cfg_Cluster (rv_Driver r)) in
    match nodes with
    | [] => fail "--fault needs cluster nodes with control endpoints; run with --provision"
    | _ =>
        let script := Join ["targets"; e_Name e; "faults"; "fault.sh"]%string in
        let* there := fileExists script in
        if there then
          ret {| n_sched := Some {| s_Nodes := nodes; s_Seed := rf_seed f |}; n_specs := specs; n_started := false;
                 n_stopped := false; n_cancelled := false |}
        else fail ("fault script " +:+ script +:+ ": no such file")
    end.

(** [stop]: the goroutine is cancelled and its timeline awaited. *)
Definition stop_faults w : cli X :=
  let n := cl_nem w in
  if negb (n_started n) || n_stopped n then w
  else
    let '(x, timeline) := faults_end (Nemesis.stop n) (cl_x w) in
    set_timeline timeline (set_nem (Nemesis.stop n) (set_x x w)).

Definition persist (dir : string) w : cli X :=
  match n_started (cl_nem w), cl_timeline w with
  | true, (_ :: _) as l =>
      match marshal c_timeline l with
      | Err _ => w
      | Ok b =>
          print (txt "  faults       " ++ FormatInt (Z.of_nat (length l)) ++ txt " events (targets/.../faults.json)")
            (set_files (WriteFile (Join [dir; "faults.json"]%string) b (cl_files w)).1 w)
      end
  | _, _ => w
  end.

(** ** core/metrics/hlog.go *)

(** What [WriteHLog] writes, with what it says of a write that fails. *)
Definition hlog_chunks (rec : Recorder H) (start : Z) : list (string * bytes) :=
  let m := collect rec in
  let ms := start / millisecond in
  let interval (tag : string) (h : H) := ("write interval " +:+ str (quoted (txt tag)) +:+ ": ", hl_interval tag ms h) in
  [("write version: ", hl_version); ("write start time: ", hl_start ms); ("write legend: ", hl_legend);
   interval "overall" (m_overall m)]%string ++
  omap (fun op => h ← m_byOp m !! op; Some (interval (tagFor op) h)) (sorted_ops (m_byOp m)).

Fixpoint write_chunks (i : Z) (l : list (string * bytes)) (fs : world) : world * option error :=
  match l with
  | [] => (fs, None)
  | (what, b) :: l =>
      match f_Write i b fs with
      | (fs, Some e) => (fs, Some (what +:+ e))
      | (fs, None) => write_chunks i l fs
      end
  end.

(** ** results.go *)

Definition writeHLog (p : Paths) (rec : Recorder H) (start : Z) (fs : world) : world * option error :=
  match Create (HLog p) fs with
  | (fs, Err e) => (fs, Some e)
  | (fs, Ok i) => let '(fs, e) := write_chunks i (hlog_chunks rec start) fs in ((f_Close i fs).1, e)
  end.

Definition run_id (name : string) (start : Z) : RunID :=
  name +:+ "-" +:+ str (format_stamp start) +:+ "-" +:+ str (padded 3 (start mod second / millisecond)).

Definition summary_of (rec : Recorder H) (rep : RunReport) (id : RunID) : RunResult :=
  let s := Snapshot rec PhaseMeasure (rep_Duration rep) in
  {| rr_RunID := id; rr_Phase := rr_Phase s; rr_Total := rr_Total s; rr_Errors := rr_Errors s; rr_Duration := rr_Duration s;
     rr_Throughput := if 0 <? rep_Duration rep then float_div (float_of_int (rr_Total s)) (seconds (rep_Duration rep)) else rr_Throughput s;
     rr_Overall := rr_Overall s; rr_ByOp := rr_ByOp s; rr_ClientBound := rep_ClientBound rep |}.

Definition final_manifest (m : Manifest) (id : RunID) (start : Z) : Manifest :=
  {| mf_RunID := id; mf_Target := mf_Target m; mf_TargetVersion := mf_TargetVersion m; mf_Workload := mf_Workload m;
     mf_TestType := mf_TestType m; mf_Mode := mf_Mode m; mf_Rate := mf_Rate m; mf_Duration := mf_Duration m;
     mf_Warmup := mf_Warmup m; mf_Connections := mf_Connections m; mf_Seed := mf_Seed m; mf_Trials := mf_Trials m;
     mf_Consistency := mf_Consistency m; mf_Cluster := mf_Cluster m; mf_Faults := mf_Faults m;
     mf_EngineVersion := version; mf_GitSHA := mf_GitSHA m; mf_Client := client; mf_Labels := mf_Labels m; mf_CreatedAt := start |}.

Definition writeArtifacts (e : Engine X) (r : Resolved) (rep : RunReport) (rec : Recorder H) (snaps : list LatencySnapshot)
    (start : Z) (base : string) : M X (Paths * RunResult) :=
  let id := run_id (e_Name e) start in
  let summary := summary_of rec rep id in
  let p := Layout base (e_Name e) id in
  let* err := file (EnsureDir p) in
  do* check_err "create results dir: " err in
  let* err := file (WriteManifest cs suffix p (final_manifest (rv_Manifest r) id start)) in
  do* check_err "write manifest: " err in
  let* err := file (WriteSummary cs suffix p summary) in
  do* check_err "write summary: " err in
  let* err := file (WriteTimeseriesNDJSON cs suffix p snaps) in
  do* check_err "write timeseries ndjson: " err in
  let* err := file (WriteTimeseriesParquet cs suffix p snaps) in
  do* check_err "write timeseries parquet: " err in
  let* err := file (writeHLog p rec start) in
  do* check_err "write hlog: " err in
  ret (p, summary).

Definition microsecond : Z := 1000.

(** [Duration.Round]. *)
Definition Round (d m : Z) : Z :=
  let r := Z.rem d m in
  if d <? 0 then
    let r := - r in
    if r + r <? m then d + r else let d1 := wrap64 (d - m + r) in if d1 <? d then d1 else - 2^63
  else if r + r <? m then d - r
  else let d1 := wrap64 (d + m - r) in if d <? d1 then d1 else 2^63 - 1.

Definition ms2 (v : float64) : text := FormatFloat_f 2 v ++ txt "ms".

Definition summary_lines (e : Engine X) (m : Manifest) (s : RunResult) (rep : RunReport) (dir : string) : list text :=
  [txt "proofload · " ++ txt (e_Name e) ++ txt " · " ++ txt (mf_Workload m)] ++
  (if String.eqb (mf_TestType m) "" then [] else [txt "  test         " ++ txt (mf_TestType m)]) ++
  [txt "  mode         " ++ txt (mf_Mode m);
   txt "  connections  " ++ FormatInt (mf_Connections m);
   txt "  duration     " ++ duration_text (Round (rep_Duration rep) millisecond);
   txt "  throughput   " ++ FormatFloat_f 0 (rr_Throughput s) ++ txt " req/s"] ++
  (if (rep_Total rep <? rep_Records rep) && (0 <? rep_Duration rep) then
     [txt "  records      " ++ FormatInt (rep_Records rep) ++ txt " (" ++
      FormatFloat_f 0 (float_div (float_of_int (rep_Records rep)) (seconds (rep_Duration rep))) ++ txt " rec/s — batched)"]
   else []) ++
  [txt "  ops / errors " ++ FormatInt (rr_Total s) ++ txt " / " ++ FormatInt (rr_Errors s);
   txt "  p50 " ++ ms2 (pct_P50 (rr_Overall s)) ++ txt "  p95 " ++ ms2 (pct_P95 (rr_Overall s)) ++
   txt "  p99 " ++ ms2 (pct_P99 (rr_Overall s)) ++ txt "  p99.9 " ++ ms2 (pct_P999 (rr_Overall s)) ++
   txt "  max " ++ ms2 (pct_Max (rr_Overall s))] ++
  (if rr_ClientBound s then
     [txt "  ⚠ CLIENT-BOUND: the load generator (not the target) was the limiter — mean lateness " ++
      duration_text (Round (rep_MeanLateness rep) microsecond) ++ txt " > mean service " ++
      duration_text (Round (rep_MeanService rep) microsecond) ++ txt ". Add --connections or scale out with --workers."]
   else []) ++
  [txt "  results      " ++ txt dir].

Definition printSummary (e : Engine X) (m : Manifest) (s : RunResult) (rep : RunReport) (dir : string) w : cli X :=
  foldl (fun w l => print l w) (print [] w) (summary_lines e m s rep dir).

(** At most three anomalies are named. *)
Definition verdict_lines (v : VerifyReport) : list text :=
  [txt "  " ++ txt (if String.eqb (vr_Verdict v) VerdictPass then "✓" else "✗") ++ txt " verify      " ++ txt (vr_Verdict v) ++
   txt " (" ++ txt (vr_Model v) ++ txt "): checked=" ++ FormatInt (vr_Checked v) ++ txt " lost=" ++ FormatInt (vr_Lost v) ++
   txt " dup=" ++ FormatInt (vr_Duplicated v) ++ txt " ordering=" ++ FormatInt (vr_OrderingViol v) ++
   txt " anomalies=" ++ FormatInt (Z.of_nat (length (vr_Anomalies v)))] ++
  ((fun a => txt "      - " ++ txt (an_Kind a) ++ txt ": " ++ txt (an_Detail a)) <$> take 3 (vr_Anomalies v)) ++
  (if (3 <? length (vr_Anomalies v))%nat then
     [txt "      … and " ++ FormatInt (Z.of_nat (length (vr_Anomalies v)) - 3) ++ txt " more anomalies"] else []).

Definition printVerdict (v : VerifyReport) w : cli X := foldl (fun w l => print l w) w (verdict_lines v).

(** A rendering that does not return is outside the model (Report says which are). *)
Definition write_report (dir : string) (fs : world) : world * result error string :=
  default (fs, Err "the report does not return"%string) (WriteReport cs order dir fs).

Definition finalize (e : Engine X) (m : Manifest) (s : RunResult) (rep : RunReport) (p : Paths) (vr : option VerifyReport) : M X unit :=
  let* path := file (write_report (Dir p)) in
  do* effect (printSummary e m s rep (Dir p)) in
  do* effect (fun w => match vr with Some v => printVerdict v w | None => w end) in
  effect (fun w => print [] (match path with
                             | Err e => print (txt "  (report generation skipped: " ++ txt e ++ txt ")") w
                             | Ok path => print (txt "  report       " ++ txt path) w
                             end)).

(** ** export.go *)

Definition exportMetrics_body (f : runFlags) (r : Resolved) (summary : RunResult) (snaps : list LatencySnapshot) : M X unit :=
  if String.eqb (rf_export f) "" then ret tt
  else
    match cut "="%char (txt (rf_export f)) with
    | None => effect (print (txt "  (export skipped: expected kind=url, got " ++ quoted (txt (rf_export f)) ++ txt ")"))
    | Some (kind, url) =>
        match Export.New (str kind) (str url) with
        | Err e => effect (print (txt "  (export skipped: " ++ txt e ++ txt ")"))
        | Ok exp =>
            do* effect (acquire HExporter) in
            do* defer (fun w => release HExporter (set_x (exporter_Close exp (cl_x w)).1 w)) in
            let labels : gmap string string :=
              <["target"%string := mf_Target (rv_Manifest r)]>
                (<["workload"%string := mf_Workload (rv_Manifest r)]> {[ "run_id"%string := rr_RunID summary ]}) in
            let* err := call (Export.Export exp snaps labels) in
            match err with
            | Some e => effect (print (txt "  (export failed: " ++ txt e ++ txt ")"))
            | None => effect (print (txt "  exported     " ++ FormatInt (Z.of_nat (length snaps)) ++ txt " snapshots to " ++ url ++
                                     txt " (" ++ kind ++ txt ")"))
            end
        end
    end.

(** A call of a function with its own deferred calls. *)
Definition call_scope {A} (m : M X A) : M X A := fun w => let '(w, r) := scope m w in (w, [], r).

Definition exportMetrics (f : runFlags) (r : Resolved) (summary : RunResult) (snaps : list LatencySnapshot) : M X unit :=
  call_scope (exportMetrics_body f r summary snaps).

(** ** run.go, the command *)

(** One tick of [collectIntervals]: the operations of the interval that ran. *)
Definition collect_tick (now : Z) (s : Recorder H * list LatencySnapshot) : Recorder H * list LatencySnapshot :=
  let '(rec, snaps) := s in
  let '(rec, out) := TakeInterval rec now second in
  (rec, snaps ++ List.filter (fun s => 0 <? pct_Count (ls_Pct s)) out).

(** The whole series: at each tick the recorder as the load has fed it since. *)
Definition collectIntervals (rec : Recorder H) (ticks : list ((Recorder H -> Recorder H) * Z)) : Recorder H * list LatencySnapshot :=
  foldl (fun '(rec, snaps) '(feed, now) => collect_tick now (feed rec, snaps)) (rec, []) ticks.

(** The load, with the faults begun in it. *)
Definition run_load (pp : driveParams) : M X (RunReport * Recorder H * list LatencySnapshot * Z) := fun w =>
  let '(x, (began, r)) := load pp (cl_nem w) (cl_x w) in
  let w := set_x x w in
  let w := if began then set_nem (begin_ (cl_nem w)).1 w else w in
  match r with
  | Err e => (w, [], Err (FailDrive e))
  | Ok a => (w, [], Ok a)
  end.

Definition assets_options (dir workload : string) (o : layer) : ResolveOptions :=
  {| ro_GlobalPath := ""; ro_TargetPath := Join [dir; "target.yaml"]%string;
     ro_WorkloadPath := Join [dir; "workloads"; workload +:+ ".yaml"]%string;
     ro_Endpoints := []; ro_Consistency := ""; ro_Overrides := o |}.

Definition run_manifest (seed : Z) (ty : TestType) (m : Manifest) : Manifest :=
  {| mf_RunID := mf_RunID m; mf_Target := mf_Target m; mf_TargetVersion := mf_TargetVersion m; mf_Workload := mf_Workload m;
     mf_TestType := ty; mf_Mode := mf_Mode m; mf_Rate := mf_Rate m; mf_Duration := mf_Duration m;
     mf_Warmup := mf_Warmup m; mf_Connections := mf_Connections m; mf_Seed := seed; mf_Trials := mf_Trials m;
     mf_Consistency := mf_Consistency m; mf_Cluster := mf_Cluster m; mf_Faults := mf_Faults m;
     mf_EngineVersion := mf_EngineVersion m; mf_GitSHA := mf_GitSHA m; mf_Client := mf_Client m; mf_Labels := mf_Labels m;
     mf_CreatedAt := mf_CreatedAt m |}.

(** ** distributed.go *)

Definition run_spec (e : Engine X) (f : runFlags) (r : Resolved) : RunSpec :=
  {| sp_Target := e_Name e; sp_Workload := rf_workload f; sp_Endpoints := cfg_Endpoints (rv_Driver r);
     sp_Consistency := cfg_Consistency (rv_Driver r); sp_Connections := mf_Connections (rv_Manifest r);
     sp_Warmup := mf_Warmup (rv_Manifest r); sp_Duration := mf_Duration (rv_Manifest r);
     sp_RateOpsPerSec := rate_OpsPerSec (mf_Rate (rv_Manifest r)); sp_Seed := rf_seed f; sp_WorkerCount := rf_workers f |}.

Definition set_duration (d : Z) (r : RunReport) : RunReport :=
  {| rep_Total := rep_Total r; rep_Errors := rep_Errors r; rep_Records := rep_Records r; rep_ClientBound := rep_ClientBound r;
     rep_MeanLateness := rep_MeanLateness r; rep_MeanService := rep_MeanService r; rep_Duration := d |}.

Definition coordinate (e : Engine X) (f : runFlags) (r : Resolved) : M X unit :=
  let* err := call (e_Schema e (rv_Driver r) (rv_Workload r)) in
  do* check_err "apply schema: " err in
  let spec := run_spec e f r in
  let* (addr, served) := call (serve (rf_coordAddr f) spec (rf_workers f)) in
  do* effect (print (txt "coordinator listening on " ++ txt addr ++ txt " — waiting for " ++ FormatInt (rf_workers f) ++ txt " workers")) in
  do* effect (print (txt "  launch each worker with:")) in
  do* effect (print (txt "    ./proofload.sh " ++ txt (e_Name e) ++ txt " worker --coordinator " ++ txt addr)) in
  let* res := check "coordinator: " served in
  let* (merged, report) := check "" (mergeResults unwire res) in
  let report := set_duration (sp_Duration spec) report in
  let* start := call now in
  let* (p, summary) := writeArtifacts e r report merged [] start (rf_results f) in
  finalize e (rv_Manifest r) summary report p None.

Definition single_params (f : runFlags) (r : Resolved) (v : verification) (ty : TestType) : driveParams :=
  {| dp_workload := rv_Workload r; dp_cfg := rv_Driver r; dp_rate := mf_Rate (rv_Manifest r);
     dp_connections := mf_Connections (rv_Manifest r); dp_warmup := mf_Warmup (rv_Manifest r);
     dp_duration := mf_Duration (rv_Manifest r); dp_seed := rf_seed f; dp_workerID := 0; dp_workerCount := 1;
     dp_startAt := zero_time; dp_observer := observer v; dp_testType := ty |}.

(** The run of one process, from the schema on. *)
Definition run_single (e : Engine X) (f : runFlags) (r : Resolved) (ty : TestType) : M X unit :=
  let* err := call (e_Schema e (rv_Driver r) (rv_Workload r)) in
  do* check_err "apply schema: " err in
  let* v := new_verification (resolveVerifyModel f (rv_Workload r)) (rv_Workload r) in
  do* defer (cleanup v) in
  let* nem := newNemesis f e r in
  do* effect (set_nem nem) in
  do* defer stop_faults in
  let* (report, rec, snaps, start) := run_load (single_params f r v ty) in
  do* effect stop_faults in
  let* (p, summary) := writeArtifacts e r report rec snaps start (rf_results f) in
  let* vr := within "verify: " (ver_run v e r (Dir p)) in
  do* (match vr with
       | None => ret tt
       | Some rep => let* err := file (WriteVerify cs suffix p rep) in check_err "write verify: " err
       end) in
  do* effect (persist (Dir p)) in
  do* exportMetrics f r summary snaps in
  finalize e (rv_Manifest r) summary report p vr.

Definition doRun_body (changed : list string) (e : Engine X) (f : runFlags) : M X unit :=
  let* dir := materialize (e_Assets e) in
  let* dir := check "load assets: " dir in
  do* defer (cleanup_assets dir) in
  let* r := resolve_files (assets_options dir (rf_workload f) (overrides changed f)) in
  let* r := check "resolve config: " r in
  do* effect (acquire HSignals) in
  do* defer (release HSignals) in
  let* (r, teardown) := ensureEndpoints f (e_Name e) r in
  do* defer (default id teardown) in
  let* ty := check "" (resolveTestType f) in
  let r := set_manifest (run_manifest (rf_seed f) ty (rv_Manifest r)) r in
  if 0 <? rf_workers f then coordinate e f r else run_single e f r ty.

Definition doRun (changed : list string) (e : Engine X) (f : runFlags) : cli X -> cli X * result failure unit :=
  scope (doRun_body changed e f).

Definition conf_of (o : override) : conf :=
  match o with OInt n => CfInt n | ODuration d => CfDuration d | OStrings l => CfStrings l | OString s => CfString s end.

Definition worker_params (spec : RunSpec) (r : Resolved) (id startAt : Z) : driveParams :=
  {| dp_workload := rv_Workload r; dp_cfg := rv_Driver r; dp_rate := workerRate spec; dp_connections := sp_Connections spec;
     dp_warmup := sp_Warmup spec; dp_duration := sp_Duration spec; dp_seed := sp_Seed spec; dp_workerID := id;
     dp_workerCount := sp_WorkerCount spec; dp_startAt := startAt; dp_observer := None; dp_testType := "" |}.

Definition doWorker_body (e : Engine X) (coordAddr : string) (id : Z) : M X unit :=
  do* effect (acquire HSignals) in
  do* defer (release HSignals) in
  let* (wk, joined) := call (fun x => let '(x, wk, r) := Worker.Join (NewWorker coordAddr id) x in (x, (wk, r))) in
  let* (spec, startAt) := check "join coordinator: " joined in
  let id := ID wk in
  do* effect (print (txt "worker " ++ FormatInt id ++ txt " joined; measure starts at " ++ rfc3339 startAt)) in
  let* dir := materialize (e_Assets e) in
  let* dir := check "" dir in
  do* defer (cleanup_assets dir) in
  let* r := resolve_files (assets_options dir (sp_Workload spec) (conf_of <$> workerOverrides spec)) in
  let* r := check "resolve config: " r in
  let* (report, rec, _, _) := run_load (worker_params spec r id startAt) in
  let* blob := check "encode histogram: " (Encode wire rec) in
  let* err := call (Submit wk {| wr_WorkerID := id; wr_Total := rep_Total report; wr_Errors := rep_Errors report;
                                        wr_ClientBound := rep_ClientBound report |} blob) in
  do* check_err "submit results: " err in
  effect (print (txt "worker " ++ FormatInt id ++ txt " done: " ++ FormatInt (rep_Total report) ++ txt " ops, " ++
                 FormatInt (rep_Errors report) ++ txt " errors")).

Definition doWorker (e : Engine X) (coordAddr : string) (id : Z) : cli X -> cli X * result failure unit :=
  scope (doWorker_body e coordAddr id).

(** ** commands.go *)

Definition schema_body (e : Engine X) (workloadName : string) (endpoints : list string) (consistency : string) : M X unit :=
  let* dir := materialize (e_Assets e) in
  let* dir := check "" dir in
  do* defer (cleanup_assets dir) in
  let* r := resolve_files {| ro_GlobalPath := ""; ro_TargetPath := Join [dir; "target.yaml"]%string;
                       ro_WorkloadPath := Join [dir; "workloads"; workloadName +:+ ".yaml"]%string;
                       ro_Endpoints := endpoints; ro_Consistency := consistency; ro_Overrides := ∅ |} in
  let* r := check "" r in
  match cfg_Endpoints (rv_Driver r) with
  | [] => fail "no endpoints: pass --endpoints host:port"
  | _ =>
      let* err := call (e_Schema e (rv_Driver r) (rv_Workload r)) in
      do* check_err "" err in
      effect (print (txt "schema applied"))
  end.

Definition schemaCmd (e : Engine X) (workloadName : string) (endpoints : list string) (consistency : string) :=
  scope (schema_body e workloadName endpoints consistency).

(** The names of a directory's entries with the suffix taken off. *)
Definition yaml_name (name : string) : option string :=
  match strip (rev (txt ".yaml")) (rev (txt name)) with Some t => Some (str (rev t)) | None => None end.

Definition listWorkloads (entries : result error (list string)) : M X unit :=
  let* entries := check "" entries in
  effect (fun w => foldl (fun w n => print (txt n) w) w (sort_by String.leb (omap yaml_name entries))).

(** ** report.go *)

Definition reportCmd (dir : string) : M X unit :=
  let* path := file (write_report dir) in
  let* path := check "" path in
  effect (print (txt path)).

Definition open_warehouse (path : string) : M X unit :=
  let* err := call (Warehouse.Open path) in
  do* check_err "" err in
  do* effect (acquire HWarehouse) in
  defer (fun w => release HWarehouse (set_x (Warehouse.Close true (cl_x w)).1 w)).

(** [Ingest] on the files and the database together. *)
Definition ingest_both (dir : string) : M X (option error) := fun w =>
  let '(fs, x, e) := Ingest cs dir (cl_files w) (cl_x w) in (set_files fs (set_x x w), [], Ok e).

Definition ingest_body (whPath dir : string) : M X unit :=
  let parent := dir_of whPath in
  let* err := (if String.eqb parent "" || String.eqb parent "." then ret None else file (MkdirAll parent)) in
  do* check_err "" err in
  do* open_warehouse whPath in
  let* err := ingest_both dir in
  do* check_err "" err in
  effect (print (txt "ingested " ++ txt dir ++ txt " into " ++ txt whPath)).

Definition ingestCmd (whPath dir : string) := scope (ingest_body whPath dir).

Definition verdictOr (v : string) : string := if String.eqb v "" then "-" else v.

(** The runes of valid UTF-8: the bytes that start one. *)
Definition rune_count (t : text) : nat :=
  length (filter (fun c => Is_true (negb (Nat.eqb (nat_of_ascii c / 64) 2))) t).

(** [%-40s] and [%8s]. *)
Definition pad_right (n : nat) (t : text) : text := t ++ replicate (n - rune_count t) " "%char.
Definition pad_left (n : nat) (t : text) : text := replicate (n - rune_count t) " "%char ++ t.

Definition run_line (r : RunRow) : text :=
  pad_right 40 (txt (rw_RunID r)) ++ txt " " ++ pad_right 12 (txt (rw_Target r)) ++ txt " " ++ pad_right 18 (txt (rw_Workload r)) ++ txt " " ++
  pad_left 10 (FormatFloat_f 0 (rw_Throughput r)) ++ txt " " ++ pad_left 8 (FormatFloat_f 2 (rw_P99 r)) ++ txt " " ++
  pad_left 8 (FormatInt (rw_Errors r)) ++ txt " " ++ pad_left 8 (txt (verdictOr (rw_VerifyVerdict r))).

Definition runs_header : text :=
  pad_right 40 (txt "RUN") ++ txt " " ++ pad_right 12 (txt "TARGET") ++ txt " " ++ pad_right 18 (txt "WORKLOAD") ++ txt " " ++
  pad_left 10 (txt "TPUT") ++ txt " " ++ pad_left 8 (txt "P99ms") ++ txt " " ++ pad_left 8 (txt "ERRORS") ++ txt " " ++
  pad_left 8 (txt "VERDICT").

Definition runs_body (whPath target workload : string) (limit : Z) : M X unit :=
  do* open_warehouse whPath in
  let* (rows, err) := call (Runs target workload limit) in
  do* check_err "" err in
  do* effect (print runs_header) in
  effect (fun w => foldl (fun w r => print (run_line r) w) w rows).

Definition runsCmd (whPath target workload : string) (limit : Z) := scope (runs_body whPath target workload limit).
End commands.
