(* ===== verification/Release.v ===== *)
(** * Release: what a run gives back (core/cli)

    A small logic of ownership over the commands of Cli: what a step acquires, what
    its deferred calls give back and what is left in hand, and the same for the
    fault scheduler; with it, that [run] leaves nothing over on any way out. *)

From Stdlib Require Import Ascii String SpecFloat.
From S2P Require Import Schedule Rand Prelude Domain Strconv Ftoa Timefmt Checksum Workload Metrics Expect Driver Reconcile History.
From S2P Require Import Config Runner Nemesis Coordinator Worker Distributed Engine Targets Provision Emit Export Rundir Report Warehouse Cli.

Local Open Scope Z_scope.
Local Open Scope cli_scope.

Abbreviation result := Prelude.result (only parsing).

(** ** What commands give back

    [{O} m {Q}]: started with [O] in its hands, [m] ends with what [Q] says of its
    result in its hands, apart from what its deferred calls give back. *)

Section ownership.
Context {X : Type}.
Implicit Types w : cli X.

Definition run_deferred (ds : list (cli X -> cli X)) w : cli X := foldl (fun w d => d w) w ds.

Definition releases (ds : list (cli X -> cli X)) (rel : list held) : Prop :=
  forall w rest, cl_held w ≡ₚ rel ++ rest -> cl_held (run_deferred ds w) ≡ₚ rest.

Definition triple {A} (O : list held) (m : M X A) (Q : result failure A -> list held -> Prop) : Prop :=
  forall w rest, cl_held w ≡ₚ O ++ rest ->
    let '(w', ds, r) := m w in
    exists rel O', cl_held w' ≡ₚ rel ++ O' ++ rest /\ releases ds rel /\ Q r O'.

(** A step that defers nothing and keeps what is held and the faults. *)
Definition plain {A} (m : M X A) : Prop :=
  forall w, let '(w', ds, r) := m w in ds = [] /\ cl_held w' = cl_held w /\ cl_nem w' = cl_nem w.

Lemma releases_nil : releases [] [].
Proof. intros w rest H. exact H. Qed.

Lemma releases_app ds1 ds2 r1 r2 : releases ds1 r1 -> releases ds2 r2 -> releases (ds2 ++ ds1) (r2 ++ r1).
Proof.
  intros H1 H2 w rest Hw. unfold run_deferred. rewrite foldl_app. apply H1, H2. by rewrite app_assoc.
Qed.

Lemma triple_bind {A B} O (m : M X A) (f : A -> M X B) Q1 Q :
  triple O m Q1 -> (forall a O1, Q1 (Ok a) O1 -> triple O1 (f a) Q) -> (forall e O1, Q1 (Err e) O1 -> Q (Err e) O1) ->
  triple O (bind m f) Q.
Proof.
  intros Hm Hf He w rest Hw. specialize (Hm w rest Hw). unfold bind. destruct (m w) as [[w1 ds1] [a|e]].
  - destruct Hm as (r1 & O1 & H1 & Hr1 & Hq). specialize (Hf a O1 Hq w1 (r1 ++ rest)).
    destruct (f a w1) as [[w2 ds2] r]. destruct Hf as (r2 & O2 & H2 & Hr2 & Hq2).
    { rewrite H1. by rewrite !app_assoc, (Permutation_app_comm r1). }
    exists (r2 ++ r1), O2. split; [|split; [by apply releases_app|done]].
    rewrite H2. rewrite <- !app_assoc. apply Permutation_app_head. rewrite !app_assoc. by rewrite (Permutation_app_comm O2 r1).
  - destruct Hm as (r1 & O1 & H1 & Hr1 & Hq). exists r1, O1. auto.
Qed.

Lemma triple_weaken {A} O (m : M X A) (Q Q' : _ -> _ -> Prop) : triple O m Q -> (forall r O', Q r O' -> Q' r O') -> triple O m Q'.
Proof.
  intros Hm HQ w rest Hw. specialize (Hm w rest Hw). destruct (m w) as [[w' ds] r].
  destruct Hm as (rel & O' & ? & ? & ?). exists rel, O'. auto.
Qed.

Lemma triple_plain {A} O (m : M X A) : plain m -> triple O m (fun _ O' => O' = O).
Proof.
  intros Hm w rest Hw. specialize (Hm w). destruct (m w) as [[w' ds] r]. destruct Hm as (-> & Hh & _).
  exists [], O. rewrite Hh. split; [done|]. split; [apply releases_nil|done].
Qed.

(** A step of which only the failure or success matters. *)
Lemma triple_seq {A B} O (m : M X A) (f : A -> M X B) (Q : result failure B -> list held -> Prop) :
  plain m -> (forall e, Q (Err e) O) -> (forall a, triple O (f a) Q) -> triple O (bind m f) Q.
Proof.
  intros Hm He Hf. eapply triple_bind; [by apply triple_plain| |].
  - intros a O1 ->. apply Hf.
  - intros e O1 ->. apply He.
Qed.

Lemma triple_ret {A} O (a : A) (Q : result failure A -> list held -> Prop) : Q (Ok a) O -> triple O (ret a) Q.
Proof. intros HQ w rest Hw. exists [], O. split; [done|]. split; [apply releases_nil|done]. Qed.

Lemma triple_fail {A} O e (Q : result failure A -> list held -> Prop) : Q (Err (Fail e)) O -> triple O (fail e) Q.
Proof. intros HQ w rest Hw. exists [], O. split; [done|]. split; [apply releases_nil|done]. Qed.

Lemma triple_acquire O h : triple O (effect (acquire h)) (fun r O' => r = Ok tt /\ O' = h :: O).
Proof.
  intros w rest Hw. exists [], (h :: O). split; [cbn; by rewrite Hw|]. split; [apply releases_nil|done].
Qed.

Lemma give_back_perm h l rest : l ≡ₚ h :: rest -> give_back h l ≡ₚ rest.
Proof.
  intros Hl. assert (Hin : h ∈ l) by (rewrite Hl; by apply list_elem_of_here).
  assert (Hg : l ≡ₚ h :: give_back h l).
  { clear Hl rest. induction l as [|x l IH]; [by apply elem_of_nil in Hin|]. cbn [give_back].
    destruct (decide (x = h)) as [->|Hne]; [done|]. apply elem_of_cons in Hin as [->|Hin]; [done|].
    etrans; [apply perm_skip, IH, Hin|]. apply perm_swap. }
  rewrite Hl in Hg at 1. by apply Permutation_cons_inv in Hg.
Qed.

(** A deferred call that gives back [h]. *)
Definition gives_back (d : cli X -> cli X) (h : held) : Prop := forall w, cl_held (d w) = give_back h (cl_held w).

Lemma triple_defer O d h : gives_back d h -> triple (h :: O) (defer d) (fun r O' => r = Ok tt /\ O' = O).
Proof.
  intros Hd w rest Hw. exists [h], O. split; [done|]. split; [|done].
  intros w2 rest2 H2. unfold run_deferred. cbn [foldl]. rewrite Hd. by apply give_back_perm.
Qed.

(** A deferred call that gives nothing back. *)
Lemma triple_defer_keep O (d : cli X -> cli X) : (forall w, cl_held (d w) = cl_held w) -> triple O (defer d) (fun r O' => r = Ok tt /\ O' = O).
Proof.
  intros Hd w rest Hw. exists [], O. split; [done|]. split; [|done].
  intros w2 rest2 H2. unfold run_deferred. cbn [foldl]. by rewrite Hd.
Qed.

Lemma triple_then {B} O O1 (m : M X unit) (f : unit -> M X B) Q :
  triple O m (fun r O' => r = Ok tt /\ O' = O1) -> triple O1 (f tt) Q -> triple O (bind m f) Q.
Proof.
  intros Hm Hf. eapply triple_bind; [exact Hm| |by intros e O' [? _]]. by intros [] O' [_ ->].
Qed.

(** What a whole function leaves in the hands of its caller. *)
Lemma scope_triple {A} (m : M X A) Q w w' r :
  triple [] m Q -> scope m w = (w', r) -> exists O', cl_held w' ≡ₚ O' ++ cl_held w /\ Q r O'.
Proof.
  intros Hm. specialize (Hm w (cl_held w) ltac:(done)). unfold scope. destruct (m w) as [[w1 ds] r1].
  destruct Hm as (rel & O' & Hw1 & Hrel & Hq). intros [= <- <-]. exists O'. split; [by apply Hrel|done].
Qed.

Lemma triple_call_scope {A} O (m : M X A) Q : triple O m Q -> triple O (call_scope m) Q.
Proof.
  intros Hm w rest Hw. specialize (Hm w rest Hw). unfold call_scope, scope. destruct (m w) as [[w1 ds] r1].
  destruct Hm as (rel & O' & Hw1 & Hrel & Hq). exists [], O'. split; [by apply Hrel|]. split; [apply releases_nil|done].
Qed.

(** *** Plain steps *)

Lemma plain_bind {A B} (m : M X A) (f : A -> M X B) : plain m -> (forall a, plain (f a)) -> plain (bind m f).
Proof.
  intros Hm Hf w. specialize (Hm w). unfold bind. destruct (m w) as [[w1 ds] [a|e]]; [|done].
  destruct Hm as (-> & H1 & H2). specialize (Hf a w1). destruct (f a w1) as [[w2 ds2] r]. destruct Hf as (-> & H3 & H4).
  split; [done|]. split; congruence.
Qed.

Lemma plain_ret {A} (a : A) : plain (ret a).
Proof. by intros w. Qed.
Lemma plain_fail {A} e : plain (@fail X A e).
Proof. by intros w. Qed.
Lemma plain_check {A} pre (r : result error A) : plain (check pre r).
Proof. destruct r; [apply plain_ret|apply plain_fail]. Qed.
Lemma plain_check_err pre e : plain (check_err pre e).
Proof. destruct e; [apply plain_fail|apply plain_ret]. Qed.
Lemma plain_call {A} (f : X -> X * A) : plain (call f).
Proof. intros w. unfold call. by destruct (f (cl_x w)). Qed.
Lemma plain_file {A} (f : world -> world * A) : plain (file f).
Proof. intros w. unfold file. by destruct (f (cl_files w)). Qed.
Lemma plain_get {A} (f : cli X -> A) : plain (get f).
Proof. by intros w. Qed.
Lemma plain_effect d : (forall w, cl_held (d w) = cl_held w /\ cl_nem (d w) = cl_nem w) -> plain (effect d).
Proof. intros Hd w. by destruct (Hd w). Qed.

Lemma plain_within {A} pre (m : M X A) : plain m -> plain (within pre m).
Proof. intros Hm w. specialize (Hm w). unfold within. by destruct (m w) as [[w1 ds] [a|[e|e]]]. Qed.

Lemma print_same t w : cl_held (print t w) = cl_held w /\ cl_nem (print t w) = cl_nem w.
Proof. done. Qed.

Lemma prints_same {A} (g : A -> text) (l : list A) w :
  cl_held (foldl (fun w a => print (g a) w) w l) = cl_held w /\ cl_nem (foldl (fun w a => print (g a) w) w l) = cl_nem w.
Proof. revert w. induction l as [|a l IH]; intros w; [done|]. cbn [foldl]. by destruct (IH (print (g a) w)) as [-> ->]. Qed.
(** A step that does not fail. *)
Definition sure {A} (m : M X A) : Prop := forall w, exists a, (m w).2 = Ok a.

Lemma triple_sure {A B} O (m : M X A) (f : A -> M X B) (Q : result failure B -> list held -> Prop) :
  plain m -> sure m -> (forall a, triple O (f a) Q) -> triple O (bind m f) Q.
Proof.
  intros Hm Hs Hf w rest Hw. specialize (Hm w). destruct (Hs w) as [a Ha]. unfold bind.
  destruct (m w) as [[w1 ds] r]. cbn in Ha. subst r. destruct Hm as (-> & Hh & _).
  specialize (Hf a w1 rest). rewrite Hh in Hf. specialize (Hf Hw). destruct (f a w1) as [[w2 ds2] r].
  destruct Hf as (rel & O' & H1 & H2 & H3). rewrite app_nil_r. by exists rel, O'.
Qed.

Lemma triple_call {A B} O (g : X -> X * A) (f : A -> M X B) (Q : result failure B -> list held -> Prop) :
  (forall x x' a, g x = (x', a) -> triple O (f a) Q) -> triple O (bind (call g) f) Q.
Proof.
  intros Hf w rest Hw. unfold bind, call. destruct (g (cl_x w)) as [x' a] eqn:E.
  specialize (Hf _ _ _ E (set_x x' w) rest Hw). destruct (f a (set_x x' w)) as [[w2 ds] r]. rewrite app_nil_r. exact Hf.
Qed.

Lemma sure_call {A} (f : X -> X * A) : sure (call f).
Proof. intros w. unfold call. destruct (f (cl_x w)) as [x a]. by exists a. Qed.
Lemma sure_file {A} (f : world -> world * A) : sure (file f).
Proof. intros w. unfold file. destruct (f (cl_files w)) as [x a]. by exists a. Qed.
Lemma sure_effect d : sure (effect (X := X) d).
Proof. intros w. by exists tt. Qed.
Lemma sure_get {A} (f : cli X -> A) : sure (get f).
Proof. intros w. by exists (f w). Qed.

Lemma triple_check {A B} O pre (r : result error A) (f : A -> M X B) (Q : result failure B -> list held -> Prop) :
  (forall e, r = Err e -> Q (Err (Fail (pre +:+ e))) O) -> (forall a, r = Ok a -> triple O (f a) Q) ->
  triple O (bind (check pre r) f) Q.
Proof.
  intros He Hf. destruct r as [a|e]; cbn [check].
  - eapply (triple_bind _ _ _ (fun r' O1 => r' = Ok a /\ O1 = O)); [by apply triple_ret| |by intros e O1 [? _]].
    intros b O1 [[= <-] ->]. by apply Hf.
  - intros w rest Hw. exists [], O. split; [done|]. split; [apply releases_nil|]. by apply He.
Qed.

Lemma triple_check_fail {B} O pre e (f : unit -> M X B) (Q : result failure B -> list held -> Prop) :
  Q (Err (Fail (pre +:+ e))) O -> triple O (bind (check_err pre (Some e)) f) Q.
Proof. intros HQ w rest Hw. exists [], O. split; [done|]. split; [apply releases_nil|done]. Qed.
End ownership.

Create HintDb command_db discriminated.
#[export] Hint Resolve plain_ret plain_fail plain_check plain_check_err plain_call plain_file plain_get : command_db.

(** Takes a command apart down to plain steps. *)
Ltac plains :=
  cbv zeta;
  lazymatch goal with
  | |- plain (bind _ _) => apply plain_bind; [plains|intros ?; plains]
  | |- plain (match ?x with _ => _ end) => destruct x; plains
  | |- plain (effect _) => first [apply plain_effect; intros ?; first [done | apply prints_same] | solve [auto with command_db]]
  | |- plain _ => solve [auto with command_db nocore]
  end.

Section commands_own.
Context {X C R H K Tx : Type}.
Context {HH : Histogram H} {HL : HLogLines H} {Drv : Driver X C} {Clk : Clock X} {KK : Koanf K} {FM : FloatMath}.
Context {HT : Http X} {TF : TempFiles X} {Sv : Services X H} {DB : Sql X Tx} {Fm : Formats}.
Context (cs : codecs) (order : gmap Z acc -> list acc) (range : gmap Z WriteRecord -> list (Z * WriteRecord)).
Context (porcupine : list porcOp -> CheckResult).
Context (registry : gmap Backend (Provisioner X)).
Context (environ : list (string * string)) (client : ClientInfo) (assets_dir suffix : string).
Implicit Types w : cli X.

Lemma writeArtifacts_plain e r rep rec snaps start base :
  plain (writeArtifacts (X := X) (H := H) cs client suffix e r rep rec snaps start base).
Proof. unfold writeArtifacts. plains. Qed.

Lemma printSummary_same e m (s : RunResult) rep dir w :
  cl_held (printSummary e m s rep dir w) = cl_held w /\ cl_nem (printSummary e m s rep dir w) = cl_nem w.
Proof. exact (prints_same id (summary_lines e m s rep dir) (print [] w)). Qed.

Lemma printVerdict_same v w : cl_held (printVerdict v w) = cl_held w /\ cl_nem (printVerdict v w) = cl_nem w.
Proof. exact (prints_same id (verdict_lines v) w). Qed.

Lemma finalize_plain e m s rep p vr : plain (finalize (X := X) cs order e m s rep p vr).
Proof.
  unfold finalize. apply plain_bind; [plains|]. intros path. apply plain_bind; [apply plain_effect; intros w; apply printSummary_same|].
  intros _. apply plain_bind; [apply plain_effect; intros w; destruct vr; [apply printVerdict_same|done]|].
  intros _. apply plain_effect. intros w. by destruct path.
Qed.

Lemma ver_run_plain v (e : Engine X) r dir : plain (ver_run (C := C) range porcupine v e r dir).
Proof.
  unfold ver_run, reconcile, checkRegister, checkListAppend, read_history, close_writer. plains.
Qed.

Lemma newNemesis_plain f (e : Engine X) r : plain (newNemesis f e r).
Proof. unfold newNemesis, loadFaultSchedule, fileExists. plains. Qed.

Lemma persist_same dir (w : cli X) : cl_held (persist dir w) = cl_held w /\ cl_nem (persist dir w) = cl_nem w.
Proof. unfold persist. by repeat case_match. Qed.

Lemma resolve_plain o : plain (resolve_files (X := X) (K := K) environ o).
Proof. unfold resolve_files. plains. Qed.

Definition failure_of {A} (r : result failure A) : option failure := match r with Ok _ => None | Err e => Some e end.

Definition no_endpoints : error := "no endpoints: pass --endpoints host:port or --provision compose".

(** The cluster a run may leave behind: one it was told to keep, one that did not
    come up, or one without a client endpoint. *)
Definition cluster_left (f : runFlags) (why : option failure) (cl : list held) : Prop :=
  cl = [] \/
  exists name, cl = [HCluster (rf_provision f) name] /\ rf_provision f <> ""%string /\
    (rf_keep f = true \/
     why = Some (Fail no_endpoints) \/
     exists e, why = Some (Fail (("provision " +:+ rf_provision f +:+ ": ") +:+ e))).

(** The error of opening the file [path] for recording: from closing it when it was
    created, or from opening it to write. *)
Definition open_error (path : string) (e : error) : Prop :=
  (exists pattern (x x' : X), temp_Create pattern x = (x', Ok (path, Some e))) \/
  (exists x x' : X, log_Open path x = (x', Some e)).

(** The temporary file a run may leave behind: its own error is that this file
    could not be opened for recording. *)
Definition temp_left (why : option failure) (tmp : list held) : Prop :=
  tmp = [] \/ exists path e, tmp = [HTemp path] /\ why = Some (Fail e) /\ open_error path e.

Lemma cleanup_assets_gives dir : gives_back (X := X) (cleanup_assets dir) (HAssets dir).
Proof. by intros w. Qed.

Lemma release_gives h : gives_back (X := X) (release h) h.
Proof. by intros w. Qed.

Lemma cleanup_gives v : vf_path v <> ""%string -> gives_back (cleanup (X := X) v) (HTemp (vf_path v)).
Proof. intros Hv w. unfold cleanup. by destruct (String.eqb_spec (vf_path v) ""). Qed.

Lemma tear_down_gives f (p : Provisioner X) t : gives_back (tear_down f p t) (prov_cluster f t).
Proof. by intros w. Qed.

Lemma materialize_triple O assets :
  triple O (materialize (X := X) assets_dir assets)
    (fun r O' => match r with Ok (Ok dir) => O' = HAssets dir :: O | Ok (Err _) => O' = O | Err _ => False end).
Proof.
  intros w rest Hw. unfold materialize, bind, file, effect, ret. destruct (MkdirTemp assets_dir (cl_files w)) as [fs [dir|e]].
  - cbn [app cl_files acquire set_held set_files]. destruct (copy_assets dir assets fs) as [fs2 [e|]].
    + exists [], O. split; [|split; [apply releases_nil|done]]. cbn. by rewrite decide_True by done.
    + exists [], (HAssets dir :: O). split; [|split; [apply releases_nil|done]]. cbn. by rewrite Hw.
  - exists [], O. split; [done|]. split; [apply releases_nil|done].
Qed.

Lemma ensureEndpoints_triple f target r :
  triple [] (ensureEndpoints (X := X) registry f target r)
    (fun res O' => match res with
                   | Ok (_, None) => cluster_left f None O'
                   | Ok (_, Some td) => exists h, O' = [h] /\ gives_back td h
                   | Err e => cluster_left f (Some e) O'
                   end).
Proof.
  unfold ensureEndpoints.
  eapply (triple_bind _ _ _ (fun res O' => match res with
    | Ok (_, None) => O' = [] \/ exists name, O' = [HCluster (rf_provision f) name] /\ rf_provision f <> ""%string /\ rf_keep f = true
    | Ok (_, Some td) => exists name, O' = [HCluster (rf_provision f) name] /\ rf_provision f <> ""%string /\ gives_back td (HCluster (rf_provision f) name)
    | Err e => cluster_left f (Some e) O'
    end)).
  - destruct (String.eqb_spec (rf_provision f) "") as [Hp|Hp]; [apply triple_ret; by left|].
    apply triple_check; [intros e _; by left|]. intros p _.
    apply triple_seq; [unfold use_bundle, fileExists; plains|by left|]. intros r1.
    eapply triple_then; [apply triple_acquire|].
    apply triple_sure; [apply plain_call|apply sure_call|]. intros up.
    apply triple_check; [intros e _; right; eexists; split; [done|]; split; [done|]; right; right; by exists e|]. intros c _. cbv zeta.
    apply triple_sure; [by apply plain_effect|apply sure_effect|]. intros _.
    destruct (rf_keep f) eqn:Hk.
    + apply triple_sure; [by apply plain_effect|apply sure_effect|]. intros _. apply triple_ret. right. by eexists.
    + apply triple_ret. eexists. split; [done|]. split; [done|]. apply tear_down_gives.
  - intros [r1 td] O1 H1. destruct (cfg_Endpoints (rv_Driver r1)) as [|ep eps].
    + apply triple_fail. destruct td as [td|].
      * destruct H1 as (name & -> & Hp & _). right. exists name. auto.
      * destruct H1 as [->|(name & -> & Hp & Hk)]; [by left|]. right. exists name. auto.
    + apply triple_ret. destruct td as [td|].
      * destruct H1 as (name & -> & Hp & Hg). by eexists.
      * destruct H1 as [->|(name & -> & Hp & Hk)]; [by left|]. right. exists name. auto.
  - done.
Qed.

(** [os.CreateTemp] gives a name. *)
Definition temp_named : Prop := forall pattern x x' name e, temp_Create pattern x = (x', Ok (name, e)) -> name <> ""%string.

Lemma newVerification_none t o model wl : temp_pattern model = None -> exists v, newVerification t o model wl = Ok v /\ vf_path v = ""%string.
Proof. unfold temp_pattern, newVerification. intros Hp. repeat case_match; try done. by eexists. Qed.

Lemma newVerification_some path e model wl pattern : temp_pattern model = Some pattern ->
  match newVerification (fun _ => Ok path) (fun _ => e) model wl with Ok v => vf_path v = path | Err err => e = Some err end.
Proof. unfold temp_pattern, newVerification. intros Hp. destruct e; repeat case_match; simplify_eq/=; done. Qed.

(** What setting up the recording leaves: the file it records into, if any. *)
Definition recording_left (O : list held) (res : result failure verification) (O' : list held) : Prop :=
  match res with
  | Ok v => O' = (if String.eqb (vf_path v) "" then O else HTemp (vf_path v) :: O)
  | Err e => exists tmp, O' = tmp ++ O /\ temp_left (Some e) tmp
  end.

Lemma new_verification_triple O model wl : temp_named -> triple O (new_verification (X := X) model wl) (recording_left O).
Proof.
  intros Hname. unfold new_verification.
  assert (Hnil : forall e, recording_left O (Err e) O) by (intros e; exists []; split; [done|by left]).
  destruct (temp_pattern model) as [pattern|] eqn:Ep.
  - apply triple_call. intros x x' t Ht. apply triple_check; [intros e _; apply Hnil|]. intros [path close] ->. pose proof (Hname _ _ _ _ _ Ht) as Hne.
    eapply triple_then; [apply triple_acquire|].
    assert (Hone : forall e, open_error path e -> recording_left O (Err (Fail e)) (HTemp path :: O)).
    { intros e He. exists [HTemp path]. split; [done|]. right. by exists path, e. }
    destruct close as [e|]; [apply triple_check_fail, Hone; left; by exists pattern, x, x'|].
    apply triple_sure; [apply plain_check_err|intros w; by exists tt|]. intros _.
    apply triple_call. intros x1 x2 e Hopen.
    pose proof (newVerification_some path e model wl pattern Ep) as Hv.
    destruct (newVerification _ _ model wl) as [v|err]; [|apply triple_fail, Hone; right; exists x1, x2; by rewrite Hopen, Hv].
    apply triple_ret. unfold recording_left. rewrite Hv. by destruct (String.eqb_spec path "").
  - destruct (newVerification_none (fun _ => Err ""%string) (fun _ => None) model wl Ep) as (v & -> & Hv).
    apply triple_ret. unfold recording_left. by rewrite Hv.
Qed.

(** A step that keeps what is held. *)
Lemma triple_keeps {A B} O (m : M X A) (f : A -> M X B) (Q : result failure B -> list held -> Prop) :
  (forall w, let '(w', ds, r) := m w in ds = [] /\ cl_held w' = cl_held w) ->
  (forall e, Q (Err e) O) -> (forall a, triple O (f a) Q) -> triple O (bind m f) Q.
Proof.
  intros Hm He Hf. eapply (triple_bind _ _ _ (fun _ O' => O' = O)); [|by intros a O1 ->|by intros e O1 ->].
  intros w rest Hw. specialize (Hm w). destruct (m w) as [[w1 ds] r]. destruct Hm as (-> & Hh).
  exists [], O. rewrite Hh. split; [done|]. split; [apply releases_nil|done].
Qed.

Lemma run_load_keeps pp w : let '(w', ds, r) := run_load (X := X) (H := H) pp w in ds = [] /\ cl_held w' = cl_held w.
Proof. unfold run_load. destruct (load _ _ _) as [x [began r]]. by destruct began, r. Qed.

Lemma stop_faults_held w : cl_held (stop_faults (H := H) w) = cl_held w.
Proof. unfold stop_faults. destruct (_ || _); [done|]. by destruct (faults_end _ _). Qed.

Lemma exportMetrics_triple O f r summary snaps : triple O (exportMetrics (X := X) f r summary snaps) (fun res O' => O' = O).
Proof.
  unfold exportMetrics. apply triple_call_scope. unfold exportMetrics_body.
  destruct (String.eqb _ _); [by apply triple_ret|].
  destruct (cut _ _) as [[kind url]|]; [|apply triple_plain; plains].
  destruct (New _ _) as [exp|e]; [|apply triple_plain; plains].
  eapply triple_then; [apply triple_acquire|]. eapply triple_then; [by apply triple_defer|].
  apply triple_plain. plains.
Qed.

Lemma run_single_triple O e f r ty : temp_named ->
  triple O (run_single (X := X) (C := C) (H := H) cs order range porcupine client suffix e f r ty)
    (fun res O' => exists tmp, O' = tmp ++ O /\ temp_left (failure_of res) tmp).
Proof.
  intros Hname. unfold run_single.
  set (Q := fun (res : result failure unit) O' => exists tmp, O' = tmp ++ O /\ temp_left (failure_of res) tmp).
  assert (Hnil : forall res, Q res O) by (intros res; exists []; split; [done|by left]).
  apply triple_seq; [apply plain_call|done|]. intros err. apply triple_seq; [apply plain_check_err|done|]. intros _.
  eapply triple_bind; [by apply new_verification_triple| |done].
  intros v O1 Hv. cbn [recording_left] in Hv.
  eapply (triple_then _ O).
  { destruct (String.eqb_spec (vf_path v) "") as [Hp|Hp]; rewrite Hv.
    - apply triple_defer_keep. intros w. unfold cleanup. by rewrite Hp.
    - by apply triple_defer, cleanup_gives. }
  apply triple_seq; [apply newNemesis_plain|done|]. intros nem.
  apply triple_keeps; [by intros w|done|]. intros _.
  eapply triple_then; [apply triple_defer_keep, stop_faults_held|].
  apply triple_keeps; [apply run_load_keeps|done|]. intros [[[report rec] snaps] start].
  apply triple_keeps; [intros w; split; [done|apply stop_faults_held]|done|]. intros _.
  apply triple_seq; [apply writeArtifacts_plain|done|]. intros [p summary].
  apply triple_seq; [apply plain_within, ver_run_plain|done|]. intros vr.
  apply triple_seq; [destruct vr; plains|done|]. intros _.
  apply triple_seq; [apply plain_effect; intros w; apply persist_same|done|]. intros _.
  eapply triple_bind; [apply exportMetrics_triple|intros [] O' ->|by intros e' O' ->].
  eapply triple_weaken; [apply triple_plain, finalize_plain|]. by intros res O' ->.
Qed.

#[local] Hint Resolve writeArtifacts_plain finalize_plain : command_db.

Lemma coordinate_plain e f r : plain (coordinate (X := X) (H := H) cs order client suffix e f r).
Proof.
  unfold coordinate. plains.
Qed.

(** What a run leaves behind. *)
Definition left_behind (f : runFlags) (why : option failure) (O : list held) : Prop :=
  exists tmp cl, O = tmp ++ cl /\ temp_left why tmp /\ cluster_left f why cl.

Lemma doRun_triple changed e f : temp_named ->
  triple [] (doRun_body (X := X) (C := C) (H := H) (K := K) cs order range porcupine registry environ client assets_dir suffix changed e f)
    (fun res => left_behind f (failure_of res)).
Proof.
  intros Hname. unfold doRun_body.
  set (Q := fun (res : result failure unit) => left_behind f (failure_of res)).
  assert (Hcl : forall res cl, cluster_left f (failure_of res) cl -> Q res cl).
  { intros res cl Hc. exists [], cl. split; [done|]. split; [by left|done]. }
  assert (Hnil : forall res, Q res []) by (intros res; apply Hcl; by left).
  assert (Hkept : forall why cl, cluster_left f None cl -> cluster_left f why cl).
  { intros why cl [->|(name & -> & Hp & [Hk|[?|(? & ?)]])]; [by left| |done|done]. right. exists name. auto. }
  eapply triple_bind; [apply materialize_triple| |done]. intros [dir|e1] O1 ->; [|by apply triple_check].
  apply triple_check; [done|]. intros d [= <-].
  eapply triple_then; [apply triple_defer, cleanup_assets_gives|].
  apply triple_seq; [apply resolve_plain|done|]. intros r. apply triple_check; [done|]. intros r1 _.
  eapply triple_then; [apply triple_acquire|]. eapply triple_then; [apply triple_defer, release_gives|].
  eapply triple_bind; [apply ensureEndpoints_triple| |by intros e1 O1 H1; apply Hcl].
  intros [r2 td] O1 H1.
  assert (Hrun : exists cl, triple O1 (defer (default id td)) (fun res O' => res = Ok tt /\ O' = cl) /\ cluster_left f None cl).
  { destruct td as [td|].
    - destruct H1 as (h & -> & Hg). exists []. split; [by apply triple_defer|by left].
    - exists O1. split; [by apply triple_defer_keep|done]. }
  destruct Hrun as (cl & Hdefer & Hleft). eapply triple_then; [exact Hdefer|].
  apply triple_check; [intros e1 _; by apply Hcl, Hkept|]. intros ty _. cbv zeta.
  destruct (0 <? rf_workers f).
  - eapply triple_weaken; [apply triple_plain, coordinate_plain|]. intros res O' ->. by apply Hcl, Hkept.
  - eapply triple_weaken; [by apply run_single_triple|]. intros res O' (tmp & -> & Ht). exists tmp, cl.
    split; [done|]. split; [done|]. by apply Hkept.
Qed.

(** *** Faults *)

Definition running (w : cli X) : bool := n_started (cl_nem w) && negb (n_stopped (cl_nem w)).

Definition calm_call (d : cli X -> cli X) : Prop := forall w, running (d w) = true -> running w = true.
Definition stopper (d : cli X -> cli X) : Prop := forall w, running (d w) = false.

(** [m] starts no fault scheduler, unless [g], without deferring a call that stops
    it. *)
Definition nem_ok {A} (g : bool) (m : M X A) : Prop :=
  forall w, let '(w', ds, r) := m w in
    Forall calm_call ds /\ (running w' = true -> running w = true \/ g = true \/ Exists stopper ds).

Lemma nem_plain {A} g (m : M X A) : plain m -> nem_ok g m.
Proof.
  intros Hm w. specialize (Hm w). destruct (m w) as [[w1 ds] r]. destruct Hm as (-> & _ & Hn).
  split; [constructor|]. unfold running. rewrite Hn. by left.
Qed.

Lemma nem_bind {A B} g (m : M X A) (f : A -> M X B) : nem_ok g m -> (forall a, nem_ok g (f a)) -> nem_ok g (bind m f).
Proof.
  intros Hm Hf w. specialize (Hm w). unfold bind. destruct (m w) as [[w1 ds1] [a|e]]; [|done].
  destruct Hm as (Hc1 & H1). specialize (Hf a w1). destruct (f a w1) as [[w2 ds2] r]. destruct Hf as (Hc2 & H2).
  split; [by apply Forall_app|]. intros Hr. destruct (H2 Hr) as [Hw1|[Hg|He]]; [|auto|right; right; apply Exists_app; by left].
  destruct (H1 Hw1) as [Hw|[Hg|He]]; [by left|auto|]. right; right. apply Exists_app. by right.
Qed.

Lemma nem_guarded {B} d (f : unit -> M X B) : stopper d -> nem_ok true (f tt) -> nem_ok false (bind (defer d) f).
Proof.
  intros Hd Hf w. unfold bind, defer. specialize (Hf w). destruct (f tt w) as [[w2 ds2] r]. destruct Hf as (Hc & _).
  split; [apply Forall_app; split; [done|]; constructor; [|constructor]; intros w0; by rewrite Hd|].
  intros _. right; right. apply Exists_app. right. by constructor.
Qed.

Lemma nem_defer g d : calm_call d -> nem_ok g (defer d).
Proof. intros Hd w. split; [by constructor|]. by left. Qed.

Lemma nem_effect g d : calm_call d -> nem_ok g (effect d).
Proof. intros Hd w. cbn. split; [constructor|]. intros Hr. left. by apply Hd. Qed.

Lemma calm_deferred ds w : Forall calm_call ds -> running w = false -> running (run_deferred ds w) = false.
Proof.
  intros Hds. revert w. induction Hds as [|d ds Hd _ IH]; intros w Hw; [done|]. apply IH.
  destruct (running (d w)) eqn:E; [|done]. by rewrite (Hd w E) in Hw.
Qed.

Lemma stopped_deferred ds w : Forall calm_call ds -> Exists stopper ds -> running (run_deferred ds w) = false.
Proof.
  intros Hds He. revert w. induction He as [d ds Hd|d ds _ IH]; intros w; apply Forall_cons in Hds as [_ Hds].
  - change (running (run_deferred ds (d w)) = false). apply calm_deferred; [done|apply Hd].
  - by apply (IH Hds (d w)).
Qed.

Lemma scope_nem {A} (m : M X A) w w' r : nem_ok false m -> running w = false -> scope m w = (w', r) -> running w' = false.
Proof.
  intros Hm Hw. specialize (Hm w). unfold scope. destruct (m w) as [[w1 ds] r1]. destruct Hm as (Hc & Hr). intros [= <- <-].
  destruct (running w1) eqn:E; [|by apply calm_deferred].
  destruct (Hr eq_refl) as [?|[?|?]]; [congruence|done|]. by apply stopped_deferred.
Qed.

Lemma nem_call_scope {A} g (m : M X A) : nem_ok false m -> nem_ok g (call_scope m).
Proof.
  intros Hm w. unfold call_scope. destruct (scope m w) as [w' r] eqn:E. split; [constructor|]. intros Hr.
  destruct (running w) eqn:Ew; [by left|]. by rewrite (scope_nem m w w' r Hm Ew E) in Hr.
Qed.

Lemma stop_faults_stops : stopper (stop_faults (H := H)).
Proof.
  intros w. unfold stop_faults, running. destruct (n_started (cl_nem w)) eqn:Es; cbn [negb orb]; [|by rewrite Es].
  destruct (n_stopped (cl_nem w)) eqn:Et; [by rewrite Es, Et|]. destruct (faults_end _ _) as [x l]. cbn.
  unfold Nemesis.stop. by rewrite Es, Et.
Qed.

(** Calls that leave the fault runner alone. *)
Lemma calm_same d : (forall w, cl_nem (d w) = cl_nem w) -> calm_call d.
Proof. intros Hd w. unfold running. by rewrite Hd. Qed.

Ltac nems :=
  cbv zeta;
  lazymatch goal with
  | |- nem_ok _ (bind _ _) => apply nem_bind; [nems|intros ?; nems]
  | |- nem_ok _ (match ?x with _ => _ end) => destruct x; nems
  | |- nem_ok _ (effect _) => first [apply nem_effect, calm_same; done | apply nem_plain; plains]
  | |- nem_ok _ (defer _) => first [apply nem_defer, calm_same; intros ?; done | idtac]
  | |- nem_ok _ _ => first [solve [auto with command_db nocore] | apply nem_plain; plains]
  end.

Lemma cleanup_nem v w : cl_nem (cleanup v w) = cl_nem w.
Proof. unfold cleanup. by destruct (String.eqb _ _). Qed.

Lemma materialize_nem g assets : nem_ok g (materialize (X := X) assets_dir assets).
Proof. unfold materialize. nems. Qed.

Lemma ensureEndpoints_nem g f target r : nem_ok g (ensureEndpoints (X := X) registry f target r).
Proof. unfold ensureEndpoints, use_bundle, fileExists. nems. Qed.

Lemma new_verification_nem g model wl : nem_ok g (new_verification (X := X) model wl).
Proof. unfold new_verification. nems. Qed.

Lemma exportMetrics_nem g f r summary snaps : nem_ok g (exportMetrics (X := X) f r summary snaps).
Proof. apply nem_call_scope. unfold exportMetrics_body. nems. Qed.

Lemma run_load_nem pp : nem_ok true (run_load (X := X) (H := H) pp).
Proof. intros w. unfold run_load. destruct (load _ _ _) as [x [began [r|e]]]; (split; [constructor|auto]). Qed.

(** What a step returns when it succeeds. *)
Definition yields {A} (m : M X A) (P : A -> Prop) : Prop := forall w a, (m w).2 = Ok a -> P a.

Lemma yields_bind {A B} (m : M X A) (f : A -> M X B) Q P : yields m Q -> (forall a, Q a -> yields (f a) P) -> yields (bind m f) P.
Proof.
  intros Hm Hf w b. unfold bind. specialize (Hm w). destruct (m w) as [[w1 ds] [a|e]]; [|done].
  specialize (Hf a (Hm a eq_refl) w1 b). by destruct (f a w1) as [[w2 ds2] r].
Qed.

Lemma yields_any {A} (m : M X A) : yields m (fun _ => True).
Proof. done. Qed.

Lemma yields_ret {A} (a : A) (P : A -> Prop) : P a -> yields (ret a) P.
Proof. by intros HP w b [= <-]. Qed.

Lemma yields_then {A B} (m : M X A) (f : A -> M X B) P : (forall a, yields (f a) P) -> yields (bind m f) P.
Proof. intros Hf. apply (yields_bind _ _ (fun _ => True)); [apply yields_any|]. intros a _. apply Hf. Qed.

Lemma nem_bind_yields {A B} g (m : M X A) (f : A -> M X B) P :
  nem_ok g m -> yields m P -> (forall a, P a -> nem_ok g (f a)) -> nem_ok g (bind m f).
Proof.
  intros Hm Hy Hf w. specialize (Hm w). specialize (Hy w). unfold bind. destruct (m w) as [[w1 ds1] [a|e]]; [|done].
  destruct Hm as (Hc1 & H1). specialize (Hf a (Hy a eq_refl) w1). destruct (f a w1) as [[w2 ds2] r]. destruct Hf as (Hc2 & H2).
  split; [by apply Forall_app|]. intros Hr. destruct (H2 Hr) as [Hw1|[Hg|He]]; [|auto|right; right; apply Exists_app; by left].
  destruct (H1 Hw1) as [Hw|[Hg|He]]; [by left|auto|]. right; right. apply Exists_app. by right.
Qed.

Lemma ensureEndpoints_teardown f target r :
  yields (ensureEndpoints (X := X) registry f target r) (fun a => calm_call (default id a.2)).
Proof.
  unfold ensureEndpoints. apply (yields_bind _ _ (fun a => calm_call (default id a.2))).
  - destruct (String.eqb _ _); [apply yields_ret; by intros w|].
    do 5 (apply yields_then; intros ?). cbv zeta. apply yields_then. intros _.
    destruct (rf_keep f); [apply yields_then; intros _|]; apply yields_ret; [by intros w|]. by apply calm_same.
  - intros [r1 td] Htd. destruct (cfg_Endpoints (rv_Driver r1)); [done|by apply yields_ret].
Qed.

Lemma run_single_nem e f r ty :
  nem_ok false (run_single (X := X) (C := C) (H := H) cs order range porcupine client suffix e f r ty).
Proof.
  unfold run_single. apply nem_bind; [apply nem_plain; plains|]. intros err. apply nem_bind; [apply nem_plain; plains|]. intros _.
  apply nem_bind; [apply new_verification_nem|]. intros v.
  apply nem_bind; [apply nem_defer, calm_same, cleanup_nem|]. intros _.
  apply nem_bind_yields with (fun n => n_started n = false); [apply nem_plain, newNemesis_plain| |].
  { unfold newNemesis. destruct (String.eqb _ _); [by apply yields_ret|]. do 2 (apply yields_then; intros ?). cbv zeta.
    destruct (cs_Nodes _); [done|]. apply yields_then. intros []; [by apply yields_ret|done]. }
  intros nem Hnem. apply nem_bind.
  { apply nem_effect. intros w. unfold running. cbn. by rewrite Hnem. }
  intros _. apply nem_guarded; [apply stop_faults_stops|].
  apply nem_bind; [apply run_load_nem|]. intros [[[report rec] snaps] start].
  apply nem_bind; [apply nem_effect; intros w; by rewrite stop_faults_stops|]. intros _.
  apply nem_bind; [apply nem_plain, writeArtifacts_plain|]. intros [p summary].
  apply nem_bind; [apply nem_plain, plain_within, ver_run_plain|]. intros vr.
  apply nem_bind; [apply nem_plain; destruct vr; plains|]. intros _.
  apply nem_bind; [apply nem_plain, plain_effect; intros w; apply persist_same|]. intros _.
  apply nem_bind; [apply exportMetrics_nem|]. intros _. apply nem_plain, finalize_plain.
Qed.

Lemma doRun_nem changed e f :
  nem_ok false (doRun_body (X := X) (C := C) (H := H) (K := K) cs order range porcupine registry environ client assets_dir suffix changed e f).
Proof.
  unfold doRun_body. apply nem_bind; [apply materialize_nem|]. intros dir.
  apply nem_bind; [apply nem_plain; plains|]. intros d. apply nem_bind; [nems|]. intros _.
  apply nem_bind; [apply nem_plain, resolve_plain|]. intros r. apply nem_bind; [apply nem_plain; plains|]. intros r1.
  apply nem_bind; [nems|]. intros _. apply nem_bind; [nems|]. intros _.
  apply nem_bind_yields with (fun a => calm_call (default id a.2)); [apply ensureEndpoints_nem|apply ensureEndpoints_teardown|].
  intros [r2 td] Htd. apply nem_bind; [by apply nem_defer|]. intros _.
  apply nem_bind; [apply nem_plain; plains|]. intros ty. cbv zeta.
  destruct (0 <? rf_workers f); [apply nem_plain, coordinate_plain|apply run_single_nem].
Qed.
End commands_own.

(** C18: whatever every call of a run answers (the shell, the target, the files, the
    load, the coordinator), when [run] returns nothing of its own is left over: the
    unpacked assets, the signal handler, the exporter and the recording's file are
    given back (the call that removes them was made; its own error is ignored, as the
    code does) and the fault scheduler was stopped.  The exceptions are the ones named: a
    cluster it was told to keep, one that did not come up or came up without a client
    endpoint, and a recording's file when the run failed with the very error of opening
    that file; a run that fails in any other way has removed it. *)
Theorem doRun_releases {X C H K} {HH : Histogram H} {HL : HLogLines H} {Drv : Driver X C} {Clk : Clock X} {KK : Koanf K}
    {FM : FloatMath} {HT : Http X} {TF : TempFiles X} {Sv : Services X H} {Fm : Formats}
    cs order range porcupine registry environ client assets_dir suffix changed e f (w w' : cli X) r :
  temp_named (X := X) -> running w = false ->
  doRun (C := C) (H := H) (K := K) cs order range porcupine registry environ client assets_dir suffix changed e f w = (w', r) ->
  running w' = false /\
  exists left, cl_held w' ≡ₚ left ++ cl_held w /\ left_behind (X := X) f (failure_of r) left.
Proof.
  intros Hname Hw Hr. split.
  - eapply scope_nem; [|exact Hw|exact Hr]. apply doRun_nem.
  - eapply (scope_triple (A := unit)) with (Q := fun res => left_behind (X := X) f (failure_of res)); [|exact Hr]. by apply doRun_triple.
Qed.

(** ** A process with a log of its calls *)

Definition call_log : Type := list string.

Definition logged {A} (what : string) (a : A) (x : call_log) : call_log * A := (x ++ [what], a).

#[export] Instance log_temp : TempFiles call_log := {|
  temp_Create _ := logged "temp" (Ok ("/tmp/expect"%string, None));
  log_Open _ := logged "open" None;
  writer_Close _ x := (x, None);
  temp_Read _ := logged "read" (Ok []);
  temp_Write _ _ := logged "write" None;
  temp_Remove p x := x ++ ["remove " +:+ p];
  run_elle _ x := (x, None)
|}.

(** One recorder without a call; a load of seed 0 is cancelled. *)
#[export] Instance log_services : Services call_log HSnapshot := {|
  load pp _ :=
    logged "load" (true,
      if dp_seed pp =? 0 then Err DriveCancelled
      else Ok (RunReport_zero, NewRecorder (H := HSnapshot) 3 10, [], 1700000000 * second));
  faults_end _ := logged "heal" [];
  serve _ _ _ x := (x, (""%string, Err "no listener"%string))
|}.

#[export] Instance log_clock : Clock call_log := {| now x := (x, 0); wait _ x := (x, None); ctx_Err _ := None |}.
#[export] Instance log_http : Http call_log := {| new_request _ := None; do_post _ _ _ x := (x, Err "refused"%string); close_idle x := x |}.
#[export] Instance log_driver : Driver call_log unit := {|
  drv_Connect _ := logged "connect" (Ok tt);
  conn_Prepare _ _ x := (x, None);
  conn_Execute _ op x := (x, {| or_Type := op_Type op; or_Rows := 0; or_Observed := ANil; or_Err := None |});
  conn_Close _ := logged "disconnect" None
|}.

#[export] Instance log_lines : HLogLines HSnapshot := {|
  hl_version := [Byte.x56]; hl_start _ := [Byte.x53]; hl_legend := [Byte.x4c]; hl_interval _ _ _ := [Byte.x49]
|}.

Definition sample_targetFile : targetFile :=
  {| tf_Target := "redis"; tf_Image := "redis:7"; tf_Version := "7"; tf_Connections := 16; tf_Warmup := "0s"; tf_Duration := "30s";
     tf_Cluster := tg_Cluster sample_target; tf_Capabilities := tg_Capabilities sample_target |}.

Definition sample_workloadFile : workloadFile :=
  {| wf_Name := "mixed"; wf_Mode := ModeCorrectness; wf_KeySpace := 10; wf_KeyDist := DistUniform; wf_ValueSize := 8;
     wf_VerifyModel := VerifyReconciliation; wf_Operations := [("read"%string, 1)]; wf_Params := ∅ |}.

#[export] Instance sample_formats : Formats := {|
  parse_target _ := Ok sample_targetFile;
  parse_workload _ := Ok sample_workloadFile;
  parse_faults _ := Ok [("kill-node", "", "5s", "8s", "", ∅)]%string;
  c_timeline := {| marshal _ := Ok []; unmarshal _ := Err ""%string |};
  unmarshal_record _ := None;
  unmarshal_event _ := None;
  unwire _ := None;
  wire _ := ""%string;
  line_error _ := "bad line"%string;
  rfc3339 _ := []
|}.

Definition sample_node : Node := {| node_ID := "redis-0"; node_Role := ""; node_Client := "127.0.0.1:6379"; node_Control := {| ce_Method := ""; ce_Ref := "redis-0"; ce_Namespace := ""; ce_Extra := ∅ |} |}.

Definition sample_provisioner : Provisioner call_log := {|
  prov_Backend := BackendCompose;
  prov_Up _ := logged "up" (Ok {| cs_Nodes := [sample_node]; cs_ReplicationFactor := 1; cs_Consistency := [] |});
  prov_Down _ := logged "down" None;
  prov_Nodes _ := logged "nodes" (Ok [])
|}.

Definition sample_engine : Engine call_log := {|
  e_Name := "redis";
  e_Assets := [ADir "."; AFile "target.yaml" (Ok []); ADir "workloads"; AFile "workloads/mixed.yaml" (Ok [])];
  e_Schema _ _ := logged "schema" None;
  e_Verifier := None;
  e_Cluster := None
|}.

(** A run against a provisioned cluster, with faults. *)
Definition sample_flags (seed : Z) : runFlags :=
  {| rf_workload := "mixed"; rf_endpoints := []; rf_consistency := ""; rf_connections := 0; rf_duration := 0; rf_warmup := 0;
     rf_rate := 0; rf_seed := seed; rf_results := "."; rf_provision := BackendCompose; rf_verify := ""; rf_export := "";
     rf_fault := "faults.yaml"; rf_workers := 0; rf_coordAddr := ""; rf_keep := false; rf_test := "acid" |}.

Definition sample_files : world :=
  {| w_fs := {| fs_names := {[ "faults.yaml"%string := 0; "targets/redis/faults/fault.sh"%string := 1 ]};
                fs_inodes := {[ 0 := {| i_data := []; i_synced := true |}; 1 := {| i_data := []; i_synced := true |} ]};
                fs_next := 2; fs_past := [] |};
     w_faults := []; w_trace := [] |}.

Definition sample_process : cli call_log :=
  {| cl_x := []; cl_files := sample_files; cl_nem := no_nemesis; cl_timeline := []; cl_held := []; cl_out := [] |}.

Definition sample_run (cs : codecs) (seed : Z) : cli call_log * result failure unit :=
  doRun (X := call_log) (C := unit) (H := HSnapshot) (K := layer) (HH := exact_histogram) (KK := layer_koanf) (FM := coarse_math)
    cs in_key_order map_to_list (fun _ => PorcUnknown) {[ BackendCompose := sample_provisioner ]} [] ClientInfo_zero
    "/tmp/assets" "7" [] sample_engine (sample_flags seed) sample_process.

(** A run cancelled with its faults begun: they are healed, the recording removed
    and the cluster taken down. *)
Lemma doRun_releases_witness :
  (sample_run some_codecs 0).2 = Err (FailDrive DriveCancelled) /\ running (sample_run some_codecs 0).1 = false /\ cl_held (sample_run some_codecs 0).1 = [] /\
  cl_x (sample_run some_codecs 0).1 = ["up"; "schema"; "temp"; "open"; "load"; "heal"; "remove /tmp/expect"; "remove /tmp/expect.edn"; "down"]%string.
Proof.
  split; [vm_compute; reflexivity|]. destruct (sample_run some_codecs 0) as [w r] eqn:E.
  assert (Hn : temp_named (X := call_log)) by (intros ? ? ? ? ? [= _ <- _]; done).
  destruct (doRun_releases _ _ _ _ _ _ _ _ _ _ _ _ sample_process w r Hn eq_refl E) as (H & _).
  split; [exact H|]. assert (Ew : w = (sample_run some_codecs 0).1) by (by rewrite E). rewrite Ew. clear.
  split; vm_compute; reflexivity.
Defined.
