(* ===== verification/Results.v ===== *)
(** * Results: what a run leaves in its directory (core/cli, core/emit)

    Frames of the file operations of Emit (which paths an operation may change), the
    same for the commands of Cli, and with them that the directory of a successful
    run holds the run: its manifest, summary, series and verification report. *)

From Stdlib Require Import Ascii String SpecFloat.
From S2P Require Import Schedule Rand Prelude Domain Strconv Ftoa Timefmt Checksum Workload Metrics Expect Driver Reconcile History.
From S2P Require Import Config Runner Nemesis Coordinator Worker Distributed Engine Targets Provision Emit Export Rundir Report Warehouse Cli Release.

Local Open Scope Z_scope.
Local Open Scope cli_scope.

Abbreviation result := Prelude.result (only parsing).

(** ** Frames *)

(** No two paths share a file, and new files get new numbers. *)
Definition sound (s : fs) : Prop :=
  (forall p q i, fs_names s !! p = Some i -> fs_names s !! q = Some i -> p = q) /\
  (forall p i, fs_names s !! p = Some i -> i < fs_next s).

(** From [w] to [w'] only the paths in [S] may have changed. *)
Definition frame (S : string -> Prop) (w w' : world) : Prop :=
  sound (w_fs w) -> sound (w_fs w') /\ forall q, ~ S q -> content (w_fs w') q = content (w_fs w) q.

Lemma frame_refl S w : frame S w w.
Proof. by intros Hs. Qed.

Lemma frame_same S w w' : w_fs w' = w_fs w -> frame S w w'.
Proof. intros E Hs. by rewrite E. Qed.

Lemma frame_trans S w1 w2 w3 : frame S w1 w2 -> frame S w2 w3 -> frame S w1 w3.
Proof.
  intros H1 H2 Hs. destruct (H1 Hs) as [Hs2 C1]. destruct (H2 Hs2) as [Hs3 C2]. split; [done|].
  intros q Hq. by rewrite C2, C1.
Qed.

Lemma frame_weaken (S S' : string -> Prop) w w' : (forall q, S q -> S' q) -> frame S w w' -> frame S' w w'.
Proof. intros HS Hf Hs. destruct (Hf Hs) as [Hs' C]. split; [done|]. intros q Hq. apply C. auto. Qed.

Lemma next_fault_fs w : w_fs (next_fault w).2 = w_fs w.
Proof. apply next_fault_same. Qed.

Ltac call_fault w :=
  let E := fresh "E" in
  pose proof (next_fault_fs w) as E; destruct (next_fault w) as [? ?]; cbn [fst snd] in E |- *.

Lemma MkdirAll_frame S dir w : frame S w (MkdirAll dir w).1.
Proof. apply frame_same. unfold MkdirAll. by call_fault w. Qed.

Lemma f_Close_frame S i w : frame S w (f_Close i w).1.
Proof. apply frame_same. unfold f_Close. by call_fault w. Qed.

Lemma ReadFile_frame S path w : frame S w (ReadFile path w).1.
Proof. apply frame_same. unfold ReadFile. call_fault w. by repeat case_match. Qed.

Lemma Stat_frame S path w : frame S w (Stat path w).1.
Proof. apply frame_same. unfold Stat. by call_fault w. Qed.

(** A new file under a new name. *)
Lemma new_file_frame name s w (w' : world) n :
  fs_names s !! name = None -> w_fs w = s ->
  w_fs w' = {| fs_names := <[name := fs_next s]> (fs_names s); fs_inodes := <[fs_next s := n]> (fs_inodes s);
               fs_next := fs_next s + 1; fs_past := fs_names s :: fs_past s |} ->
  frame (eq name) w w'.
Proof.
  intros Hn <- E [Hinj Hlt]. rewrite E. split; [split|]; cbn.
  - intros p q i. rewrite !lookup_insert_Some. intros [[<- <-]|[_ Hp]] [[<- Hi]|[_ Hq]]; [done| | |by eapply Hinj].
    + apply Hlt in Hq. lia.
    + subst. apply Hlt in Hp. lia.
  - intros p i. rewrite lookup_insert_Some. intros [[_ <-]|[_ Hp]]; [lia|]. apply Hlt in Hp. lia.
  - intros q Hq. unfold content. cbn. rewrite lookup_insert_ne by done. destruct (fs_names (w_fs w) !! q) as [i|] eqn:Ei; [|done].
    cbn. rewrite lookup_insert_ne; [done|]. apply Hlt in Ei. lia.
Qed.

(** Writing to the file of a path. *)
Lemma set_inode_frame path i n w w' :
  (sound (w_fs w) -> fs_names (w_fs w) !! path = Some i) -> w_fs w' = set_inode (w_fs w) i n -> frame (eq path) w w'.
Proof.
  intros Hp E Hs. specialize (Hp Hs). destruct Hs as [Hinj Hlt]. rewrite E. split; [done|].
  intros q Hq. unfold content. cbn. destruct (fs_names (w_fs w) !! q) as [j|] eqn:Ej; [|done]. cbn.
  rewrite lookup_insert_ne; [done|]. intros <-. by apply Hq, (Hinj path q i).
Qed.

Lemma Create_frame path w w' r :
  Create path w = (w', r) ->
  frame (eq path) w w' /\ forall i, r = Ok i -> fs_names (w_fs w') !! path = Some i /\ content (w_fs w') path = Some [].
Proof.
  unfold Create. call_fault w. destruct o as [n|]; [intros [= <- <-]; split; [by apply frame_same|done]|].
  destruct (fs_names (w_fs w0) !! path) as [i|] eqn:Ep; intros [= <- <-].
  - split; [eapply set_inode_frame; [by rewrite <- E|cbn; by rewrite E]|]. intros j [= <-]. cbn. split; [done|].
    unfold content. cbn. rewrite Ep. cbn. by rewrite lookup_insert_eq.
  - split; [eapply (new_file_frame path); [by rewrite Ep|by rewrite E|done]|]. intros j [= <-]. cbn.
    unfold content. cbn. rewrite lookup_insert_eq. cbn. by rewrite lookup_insert_eq.
Qed.

Lemma f_Write_frame path i data w w' e :
  f_Write i data w = (w', e) -> fs_names (w_fs w) !! path = Some i ->
  frame (eq path) w w' /\ fs_names (w_fs w') !! path = Some i /\
  (e = None -> content (w_fs w') path = Some (default [] (content (w_fs w) path) ++ data)).
Proof.
  unfold f_Write. call_fault w. intros Hw Hp.
  assert (Hw' : exists d, w_fs w' = set_inode (w_fs w) i {| i_data := default [] (i_data <$> fs_inodes (w_fs w) !! i) ++ d; i_synced := false |} /\
    (e = None -> d = data)).
  { rewrite <- E. destruct o as [n|]; injection Hw as <- <-; eexists; (split; [reflexivity|done]). }
  destruct Hw' as (d & Ew & Hd). split; [by eapply set_inode_frame|]. rewrite Ew. split; [done|]. intros He. rewrite (Hd He).
  unfold content. cbn. rewrite Hp. cbn. by rewrite lookup_insert_eq.
Qed.

Lemma WriteFile_frame path data w : frame (eq path) w (WriteFile path data w).1.
Proof.
  unfold WriteFile. destruct (Create path w) as [w1 [i|e]] eqn:Ec; apply Create_frame in Ec as [H1 Hi]; [|done].
  destruct (Hi i eq_refl) as [Hp _]. destruct (f_Write i data w1) as [w2 e] eqn:Ew.
  apply (f_Write_frame path) in Ew as (H2 & _ & _); [|done].
  destruct e; (eapply frame_trans; [exact H1|]; eapply frame_trans; [exact H2|]; apply f_Close_frame).
Qed.

Lemma CreateTemp_frame name w w' r :
  CreateTemp name w = (w', r) ->
  frame (eq name) w w' /\ forall n i, r = Ok (n, i) -> n = name /\ fs_names (w_fs w') !! name = Some i /\ content (w_fs w') name = Some [].
Proof.
  unfold CreateTemp. call_fault w. destruct o as [n|]; [intros [= <- <-]; split; [by apply frame_same|done]|].
  destruct (fs_names (w_fs w0) !! name) as [i|] eqn:Ep; intros [= <- <-]; [split; [by apply frame_same|done]|].
  split; [eapply (new_file_frame name); [by rewrite Ep|by rewrite E|done]|]. intros n j [= <- <-]. cbn.
  unfold content. cbn. rewrite lookup_insert_eq. cbn. by rewrite lookup_insert_eq.
Qed.

Lemma f_Sync_frame S i w w' e :
  f_Sync i w = (w', e) -> frame S w w' /\ fs_names (w_fs w') = fs_names (w_fs w) /\ forall q, content (w_fs w') q = content (w_fs w) q.
Proof.
  unfold f_Sync. call_fault w. intros Hw.
  assert (Hw' : fs_names (w_fs w') = fs_names (w_fs w) /\ fs_next (w_fs w') = fs_next (w_fs w) /\
    forall q, content (w_fs w') q = content (w_fs w) q).
  { rewrite <- E. destruct o as [n|]; [by injection Hw as <- <-|]. destruct (fs_inodes (w_fs w0) !! i) as [n|] eqn:En; injection Hw as <- <-; [|done].
    split_and!; [done..|]. intros q. unfold content. cbn. destruct (fs_names (w_fs w0) !! q) as [j|]; [|done]. cbn.
    destruct (decide (i = j)) as [->|]; [by rewrite lookup_insert_eq, En|by rewrite lookup_insert_ne]. }
  destruct Hw' as (En & Ex & Ec). split; [|done]. intros [Hinj Hlt]. split; [|by intros q _].
  split; rewrite En; [exact Hinj|rewrite Ex; exact Hlt].
Qed.

(** Fewer names. *)
Lemma fewer_names_frame (S : string -> Prop) w w' names :
  w_fs w' = set_names (w_fs w) names -> names ⊆ fs_names (w_fs w) ->
  (forall q, ~ S q -> names !! q = fs_names (w_fs w) !! q) -> frame S w w'.
Proof.
  intros E Hsub Hq [Hinj Hlt]. rewrite E. split; [split|]; cbn.
  - intros p q i Hp Hpq. eapply Hinj; eapply lookup_weaken; eauto.
  - intros p i Hp. eapply Hlt, lookup_weaken; eauto.
  - intros q Hn. unfold content. cbn. by rewrite Hq.
Qed.

Lemma Remove_frame name w : frame (eq name) w (Remove name w).
Proof.
  unfold Remove. call_fault w. destruct o; [by apply frame_same|].
  eapply (fewer_names_frame _ _ _ (delete name (fs_names (w_fs w)))); [cbn; by rewrite E|apply delete_subseteq|].
  intros q Hq. by apply lookup_delete_ne.
Qed.

Lemma Rename_frame from to w w' e :
  Rename from to w = (w', e) ->
  frame (fun q => q = from \/ q = to) w w' /\ (e = None -> content (w_fs w') to = content (w_fs w) from).
Proof.
  unfold Rename. call_fault w. destruct o as [n|]; [intros [= <- <-]; split; [by apply frame_same|done]|].
  destruct (fs_names (w_fs w0) !! from) as [i|] eqn:Ef; intros [= <- <-]; [|split; [by apply frame_same|done]].
  rewrite E in Ef |- *. split.
  - intros [Hinj Hlt]. split; [split|]; cbn.
    + assert (Hone : forall q j, delete from (fs_names (w_fs w)) !! q = Some j -> j <> i).
      { intros q j [Hne Hj]%lookup_delete_Some ->. by apply Hne, (Hinj from q i). }
      intros p q j. rewrite !lookup_insert_Some. intros [[<- <-]|[_ Hp]] [[<- Hi]|[_ Hq]]; [done| | |].
      * by apply Hone in Hq.
      * subst. by apply Hone in Hp.
      * apply lookup_delete_Some in Hp as [_ Hp], Hq as [_ Hq]. by eapply Hinj.
    + intros p j. rewrite lookup_insert_Some. intros [[_ <-]|[_ [_ Hp]%lookup_delete_Some]]; [by eapply Hlt|by eapply Hlt].
    + intros q Hq. unfold content. cbn. rewrite lookup_insert_ne by (intros <-; apply Hq; by right).
      by rewrite lookup_delete_ne by (intros <-; apply Hq; by left).
  - intros _. unfold content. cbn. by rewrite lookup_insert_eq, Ef.
Qed.

Lemma writeAtomic_frame suffix path data w w' e :
  temp_name path suffix <> path -> sound (w_fs w) -> writeAtomic suffix path data w = (w', e) ->
  frame (fun q => q = temp_name path suffix \/ q = path) w w' /\ (e = None -> content (w_fs w') path = Some data).
Proof.
  intros Hne Hs. set (t := temp_name path suffix) in *. set (S := fun q => q = t \/ q = path).
  assert (Ht : forall w1 w2, frame (eq t) w1 w2 -> frame S w1 w2) by (intros w1 w2; apply frame_weaken; intros q <-; by left).
  unfold writeAtomic. fold t. pose proof (MkdirAll_frame S (dir_of path) w) as H0.
  destruct (MkdirAll (dir_of path) w) as [w0 [x|]]; cbn [fst] in H0; [by intros [= <- <-]|].
  destruct (CreateTemp t w0) as [w1 [[n i]|x]] eqn:Ec; apply CreateTemp_frame in Ec as [H1 Hi].
  2: { intros [= <- <-]. split; [eapply frame_trans; eauto|done]. }
  destruct (Hi n i eq_refl) as (-> & Hn & Hc). unfold writeAndSync.
  destruct (f_Write i data w1) as [w2 e2] eqn:Ew. apply (f_Write_frame t) in Ew as (H2 & Hn2 & Hc2); [|done].
  assert (H02 : frame S w w2) by (eapply frame_trans; [exact H0|]; eapply frame_trans; eauto).
  destruct e2 as [x|].
  { destruct (f_Close i w2) as [w3 e3] eqn:E3. pose proof (f_Close_frame S i w2) as H3. rewrite E3 in H3. cbn [fst] in H3 |- *.
    intros [= <- <-]. split; [|done]. eapply frame_trans; [exact H02|]. eapply frame_trans; [exact H3|]. apply Ht, Remove_frame. }
  destruct (f_Sync i w2) as [w3 e3] eqn:Ey. apply (f_Sync_frame S) in Ey as (H3 & Hn3 & Hc3).
  assert (H03 : frame S w w3) by (eapply frame_trans; eauto).
  pose proof (f_Close_frame S i w3) as H4. pose proof (next_fault_fs w3) as H4fs.
  assert (Hcl : w_fs (f_Close i w3).1 = w_fs w3) by (unfold f_Close; by call_fault w3).
  destruct (f_Close i w3) as [w4 e4]. cbn [fst] in H4, Hcl.
  assert (H04 : frame S w w4) by (eapply frame_trans; eauto).
  destruct e3 as [x|].
  { intros [= <- <-]. split; [|done]. eapply frame_trans; [exact H04|]. apply Ht, Remove_frame. }
  destruct e4 as [x|].
  { intros [= <- <-]. split; [|done]. eapply frame_trans; [exact H04|]. apply Ht, Remove_frame. }
  destruct (Rename t path w4) as [w5 e5] eqn:Er. apply Rename_frame in Er as [H5 Hr].
  assert (H05 : frame S w w5) by (eapply frame_trans; [exact H04|exact H5]).
  destruct e5 as [x|]; intros [= <- <-].
  - split; [|done]. eapply frame_trans; [exact H05|]. apply Ht, Remove_frame.
  - split; [exact H05|]. intros _. rewrite (Hr eq_refl), Hcl, Hc3, (Hc2 eq_refl), Hc. done.
Qed.

Lemma write_chunks_frame path i l w w' e :
  fs_names (w_fs w) !! path = Some i -> write_chunks i l w = (w', e) -> frame (eq path) w w'.
Proof.
  revert w. induction l as [|[what b] l IH]; intros w Hp; cbn [write_chunks]; [by intros [= <- <-]|].
  destruct (f_Write i b w) as [w1 e1] eqn:Ew. apply (f_Write_frame path) in Ew as (H1 & Hp1 & _); [|done].
  destruct e1; [by intros [= <- <-]|]. intros E. eapply frame_trans; [exact H1|]. by eapply IH.
Qed.

Lemma writeHLog_frame {H} {HH : Histogram H} {HL : HLogLines H} p (rec : Recorder H) start w :
  frame (eq (HLog p)) w (writeHLog p rec start w).1.
Proof.
  unfold writeHLog. destruct (Create (HLog p) w) as [w1 [i|e]] eqn:Ec; apply Create_frame in Ec as [H1 Hi]; [|done].
  destruct (write_chunks i _ w1) as [w2 e] eqn:Ew. apply (write_chunks_frame (HLog p)) in Ew; [|by apply Hi].
  eapply frame_trans; [exact H1|]. eapply frame_trans; [exact Ew|]. apply f_Close_frame.
Qed.

Lemma RemoveAll_frame dir w : frame (fun q => below dir q = true) w (RemoveAll dir w).
Proof.
  unfold RemoveAll. call_fault w. destruct o; [by apply frame_same|].
  eapply (fewer_names_frame _ _ _ (filter (fun e : string * Z => below dir e.1 = false) (fs_names (w_fs w)))); [cbn; by rewrite E|apply map_filter_subseteq|].
  intros q Hq. apply not_true_is_false in Hq. destruct (fs_names (w_fs w) !! q) as [i|] eqn:Ei.
  - by apply map_lookup_filter_Some.
  - apply map_lookup_filter_None. by left.
Qed.

Lemma copyFile_frame data dst w w' e :
  copyFile data dst w = (w', e) -> sound (w_fs w) ->
  frame (eq dst) w w' /\ (e = None -> exists b, data = Ok b /\ content (w_fs w') dst = Some b).
Proof.
  unfold copyFile. intros E Hs. destruct data as [data|x]; [|by injection E as <- <-].
  pose proof (MkdirAll_frame (eq dst) (dir_of dst) w) as H0. destruct (MkdirAll _ w) as [w0 [x|]]; cbn [fst] in H0; [by injection E as <- <-|].
  destruct (Create dst w0) as [w1 [i|x]] eqn:Ec; apply Create_frame in Ec as [H1 Hi].
  2: { injection E as <- <-. split; [by eapply frame_trans|done]. }
  destruct (Hi i eq_refl) as [Hp Hc]. destruct (f_Write i data w1) as [w2 e2] eqn:Ew.
  apply (f_Write_frame dst) in Ew as (H2 & _ & Hc2); [|done]. injection E as <- <-.
  split; [eapply frame_trans; [exact H0|]; eapply frame_trans; [exact H1|]; eapply frame_trans; [exact H2|apply f_Close_frame]|].
  intros ->. exists data. split; [done|]. assert (Hcl : w_fs (f_Close i w2).1 = w_fs w2) by (unfold f_Close; by call_fault w2).
  rewrite Hcl, (Hc2 eq_refl), Hc. done.
Qed.

(** Where an asset is unpacked. *)
Definition asset_file (dir : string) (a : asset) : option (string * result error bytes) :=
  match a with AFile p data => Some (Join [dir; p]%string, data) | _ => None end.

Lemma copy_assets_frame dir l w w' e :
  copy_assets dir l w = (w', e) -> sound (w_fs w) ->
  frame (fun q => q ∈ (omap (asset_file dir) l).*1) w w' /\
  (e = None -> NoDup (omap (asset_file dir) l).*1 ->
   forall dst data, (dst, data) ∈ omap (asset_file dir) l -> exists b, data = Ok b /\ content (w_fs w') dst = Some b).
Proof.
  revert w. induction l as [|a l IH]; intros w; cbn [copy_assets].
  { intros [= <- <-] _. split; [apply frame_refl|]. intros _ _ dst data Hin. by apply elem_of_nil in Hin. }
  set (S := fun q => q ∈ (omap (asset_file dir) (a :: l)).*1). intros E Hs.
  destruct (match a with ADir p => _ | AFile p data => _ | ABad e => _ end) as [w1 e1] eqn:Ea.
  assert (H1 : frame (fun q => q ∈ (omap (asset_file dir) [a]).*1) w w1 /\
    (e1 = None -> forall dst data, (dst, data) ∈ omap (asset_file dir) [a] -> exists b, data = Ok b /\ content (w_fs w1) dst = Some b)).
  { destruct a as [p|p data|x]; cbn [omap asset_file fmap list_fmap fst].
    - pose proof (MkdirAll_frame (fun q => q ∈ @nil string) (Join [dir; p]%string) w) as H. rewrite Ea in H. split; [exact H|].
      intros _ dst data Hin. by apply elem_of_nil in Hin.
    - apply copyFile_frame in Ea as [H1 Hc]; [|done]. split; [eapply frame_weaken; [|exact H1]; intros q <-; by left|].
      intros He dst d [= -> ->]%list_elem_of_singleton. by apply Hc.
    - injection Ea as <- <-. split; [apply frame_refl|done]. }
  destruct H1 as [H1 Hc1]. assert (Happ : omap (asset_file dir) (a :: l) = omap (asset_file dir) [a] ++ omap (asset_file dir) l).
  { cbn. by destruct (asset_file dir a). }
  assert (Hw1 : frame S w w1).
  { eapply frame_weaken; [|exact H1]. intros q Hq. unfold S. rewrite Happ, fmap_app, elem_of_app. by left. }
  destruct e1 as [x|]; [injection E as <- <-; split; [done|done]|].
  destruct (IH w1 E (proj1 (H1 Hs))) as [H2 Hc2]. split.
  - eapply frame_trans; [exact Hw1|]. eapply frame_weaken; [|exact H2]. intros q Hq. unfold S. rewrite Happ, fmap_app, elem_of_app. by right.
  - intros He Hnd dst data. rewrite Happ, fmap_app in *. apply NoDup_app in Hnd as (_ & Hdis & Hnd).
    intros [Hin|Hin]%elem_of_app; [|by apply Hc2].
    destruct (Hc1 eq_refl _ _ Hin) as (b & -> & Hb). exists b. split; [done|]. rewrite <- Hb. apply H2; [by apply H1|].
    apply Hdis. exact (list_elem_of_fmap_2 fst _ _ Hin).
Qed.

(** ** The files of a run directory *)

Section directory.
Variables (base target : string) (id : RunID) (suffix : string).
Hypothesis suffix_ok : slash ∉ txt suffix.
Let p := Layout base target id.

Lemma artifact_atomic path b w w' :
  path ∈ artifact_paths p -> sound (w_fs w) -> writeAtomic suffix path b w = (w', None) ->
  sound (w_fs w') /\ content (w_fs w') path = Some b /\ forall q, q ∈ artifact_paths p -> q <> path -> content (w_fs w') q = content (w_fs w) q.
Proof.
  intros Hp Hs E.
  assert (Ht : forall q, q ∈ artifact_paths p -> q <> temp_name path suffix) by (intros q Hq; by eapply artifact_not_temp).
  apply writeAtomic_frame in E as [Hf Hc]; [|by apply not_eq_sym, Ht|done]. destruct (Hf Hs) as [Hs' Hq].
  split_and!; [done|by apply Hc|]. intros q Hin Hne. apply Hq. intros [->| ->]; [by apply (Ht _ Hin)|done].
Qed.

Lemma artifact_write {T} (c : codec T) path x w w' :
  path ∈ artifact_paths p -> sound (w_fs w) -> writeJSON c suffix path x w = (w', None) ->
  sound (w_fs w') /\ holds c path x w' /\ forall q, q ∈ artifact_paths p -> q <> path -> content (w_fs w') q = content (w_fs w) q.
Proof.
  intros Hp Hs. unfold writeJSON. destruct (marshal c x) as [b|e] eqn:Em; [|done]. intros E.
  destruct (artifact_atomic path b w w' Hp Hs E) as (H1 & H2 & H3). split; [done|]. split; [exists b; auto|done].
Qed.

Lemma other_file q name :
  q ∈ artifact_paths p -> file_name (txt name) -> name ∉ artifact_names -> q <> Join [Dir p; name]%string.
Proof.
  intros Hq Hn Hname ->. apply (list_elem_of_fmap_2 last_component) in Hq. unfold p in Hq. rewrite Layout_names in Hq.
  rewrite Join_last in Hq by (done || apply Layout_dir). apply list_elem_of_fmap in Hq as (n & E & Hin).
  apply (f_equal str) in E. rewrite !str_txt in E. by subst.
Qed.
End directory.

(** Two artifacts with different names. *)
Lemma artifact_ne q q' : last_component q <> last_component q' -> q <> q'.
Proof. congruence. Qed.

Ltac artifacts_differ base target id :=
  let Nm := fresh in let Ns := fresh in let Nn := fresh in let Np := fresh in let Nh := fresh in let Nv := fresh in
  destruct (Layout_components base target id) as (Nm & Ns & Nn & Np & Nh & Nv & _);
  apply artifact_ne; rewrite ?Nm, ?Ns, ?Nn, ?Np, ?Nh, ?Nv; discriminate.

(** ** Commands and files *)

Section commands_files.
Context {X : Type}.
Context (assets_dir : string).
Implicit Types w : cli X.

(** A deferred call that keeps every file outside the unpacked assets. *)
Definition tame (d : cli X -> cli X) : Prop := forall w, frame (fun q => below assets_dir q = true) (cl_files w) (cl_files (d w)).

(** [m] ends in what [Post] says when it succeeds, with tame deferred calls. *)
Definition spec {A} (Pre : cli X -> Prop) (m : M X A) (Post : A -> cli X -> Prop) : Prop :=
  forall w, Pre w -> let '(w', ds, r) := m w in Forall tame ds /\ match r with Ok a => Post a w' | Err _ => True end.

(** [m] changes only the paths in [S]. *)
Definition touches {A} (S : string -> Prop) (m : M X A) : Prop :=
  forall w, let '(w', ds, r) := m w in Forall tame ds /\ frame S (cl_files w) (cl_files w').

Lemma spec_bind {A B} Pre (m : M X A) (f : A -> M X B) Mid Post :
  spec Pre m Mid -> (forall a, spec (Mid a) (f a) Post) -> spec Pre (bind m f) Post.
Proof.
  intros Hm Hf w Hw. specialize (Hm w Hw). unfold bind. destruct (m w) as [[w1 ds1] [a|e]]; [|exact Hm].
  destruct Hm as [H1 Ha]. specialize (Hf a w1 Ha). destruct (f a w1) as [[w2 ds2] r]. destruct Hf as [H2 Hr].
  split; [by apply Forall_app|done].
Qed.

Lemma spec_weaken {A} (Pre Pre' : cli X -> Prop) (m : M X A) (Post Post' : A -> cli X -> Prop) :
  spec Pre m Post -> (forall w, Pre' w -> Pre w) -> (forall a w, Post a w -> Post' a w) -> spec Pre' m Post'.
Proof.
  intros Hm H1 H2 w Hw. specialize (Hm w (H1 w Hw)). destruct (m w) as [[w' ds] [a|e]]; destruct Hm; auto.
Qed.

Lemma spec_ret {A} (Pre : cli X -> Prop) (a : A) (Post : A -> cli X -> Prop) : (forall w, Pre w -> Post a w) -> spec Pre (ret a) Post.
Proof. intros H w Hw. split; [constructor|by apply H]. Qed.

Lemma spec_check {A B} pre (r : result error A) (f : A -> M X B) Pre Post :
  (forall a, r = Ok a -> spec Pre (f a) Post) -> spec Pre (bind (check pre r) f) Post.
Proof.
  intros Hf w Hw. unfold bind, check. destruct r as [a|e]; [|by split; [constructor|]].
  specialize (Hf a eq_refl w Hw). cbn. destruct (f a w) as [[w2 ds] r2]. by rewrite app_nil_r.
Qed.

Lemma spec_check_err {B} pre e (f : unit -> M X B) Pre Post :
  (e = None -> spec Pre (f tt) Post) -> spec Pre (bind (check_err pre e) f) Post.
Proof.
  intros Hf w Hw. unfold bind, check_err. destruct e as [e|]; [by split; [constructor|]|].
  specialize (Hf eq_refl w Hw). cbn. destruct (f tt w) as [[w2 ds] r2]. by rewrite app_nil_r.
Qed.

(** An operation on the files. *)
Lemma spec_file {A B} (g : world -> world * A) (f : A -> M X B) (P : world -> Prop) (Q : A -> world -> Prop) Post :
  (forall fs fs' a, P fs -> g fs = (fs', a) -> Q a fs') ->
  (forall a, spec (fun w => Q a (cl_files w)) (f a) Post) -> spec (fun w => P (cl_files w)) (bind (file g) f) Post.
Proof.
  intros Hg Hf. apply (spec_bind _ _ _ (fun a w => Q a (cl_files w))); [|exact Hf].
  intros w Hw. unfold file. destruct (g (cl_files w)) as [fs a] eqn:E. split; [constructor|]. exact (Hg _ _ _ Hw E).
Qed.

Lemma spec_defer {B} (d : cli X -> cli X) (f : unit -> M X B) Pre Post : tame d -> spec Pre (f tt) Post -> spec Pre (bind (defer d) f) Post.
Proof.
  intros Hd Hf w Hw. specialize (Hf w Hw). unfold bind, defer. destruct (f tt w) as [[w2 ds] r].
  destruct Hf as [H1 H2]. split; [apply Forall_app; by split; [|constructor]|done].
Qed.

(** A write whose error ends the command. *)
Lemma spec_write {B} (g : world -> world * option error) pre (f : unit -> M X B) (P P' : world -> Prop) Post :
  (forall fs fs', P fs -> g fs = (fs', None) -> P' fs') -> spec (fun w => P' (cl_files w)) (f tt) Post ->
  spec (fun w => P (cl_files w)) (bind (file g) (fun err => bind (check_err pre err) f)) Post.
Proof.
  intros Hg Hf. apply (spec_file g _ P (fun err fs => err = None -> P' fs)).
  - intros fs fs' err HP E ->. by eapply Hg.
  - intros err. apply spec_check_err. intros ->. eapply spec_weaken; [exact Hf|cbn; auto|done].
Qed.

(** A step that leaves the files that matter alone. *)
Lemma spec_keeps {A B} (S : string -> Prop) (m : M X A) (f : A -> M X B) (P : world -> Prop) Post :
  touches S m -> (forall fs fs', P fs -> frame S fs fs' -> P fs') ->
  (forall a, spec (fun w => P (cl_files w)) (f a) Post) -> spec (fun w => P (cl_files w)) (bind m f) Post.
Proof.
  intros Hm HP Hf. apply (spec_bind _ _ _ (fun _ w => P (cl_files w))); [|exact Hf].
  intros w Hw. specialize (Hm w). destruct (m w) as [[w' ds] r]. destruct Hm as [H1 H2]. split; [done|].
  destruct r; [|done]. by eapply HP.
Qed.

Lemma spec_touches {A} (S : string -> Prop) (m : M X A) (P : world -> Prop) :
  touches S m -> (forall fs fs', P fs -> frame S fs fs' -> P fs') -> spec (fun w => P (cl_files w)) m (fun _ w => P (cl_files w)).
Proof.
  intros Hm HP w Hw. specialize (Hm w). destruct (m w) as [[w' ds] r]. destruct Hm as [H1 H2]. split; [done|].
  destruct r; [|done]. by eapply HP.
Qed.

Lemma spec_pure {A} (Q : Prop) (Pre : cli X -> Prop) (m : M X A) Post : (Q -> spec Pre m Post) -> spec (fun w => Q /\ Pre w) m Post.
Proof. intros Hm w [HQ Hw]. exact (Hm HQ w Hw). Qed.

Lemma spec_ex {A T} (Pre : T -> cli X -> Prop) (m : M X A) Post : (forall t, spec (Pre t) m Post) -> spec (fun w => exists t, Pre t w) m Post.
Proof. intros Hm w [t Hw]. exact (Hm t w Hw). Qed.

(** [m] leaves the target, the services and the temporary files alone. *)
Definition still {A} (m : M X A) : Prop := forall w, cl_x (m w).1.1 = cl_x w.

Lemma still_bind {A B} (m : M X A) (f : A -> M X B) : still m -> (forall a, still (f a)) -> still (bind m f).
Proof.
  intros Hm Hf w. specialize (Hm w). unfold bind. destruct (m w) as [[w1 ds1] [a|e]]; [|done].
  specialize (Hf a w1). destruct (f a w1) as [[w2 ds2] r]. cbn in *. congruence.
Qed.

Lemma still_file {A} (g : world -> world * A) : still (file g).
Proof. intros w. unfold file. by destruct (g (cl_files w)). Qed.

Lemma still_check_err pre e : still (check_err pre e).
Proof. by destruct e. Qed.

Lemma spec_still {A} (Pre : cli X -> Prop) (m : M X A) Post x :
  still m -> spec Pre m Post -> spec (fun w => cl_x w = x /\ Pre w) m (fun a w => cl_x w = x /\ Post a w).
Proof.
  intros Hm Hs w [<- Hw]. specialize (Hm w). specialize (Hs w Hw). destruct (m w) as [[w1 ds] [a|e]]; [|done].
  cbn in Hm. by destruct Hs.
Qed.

Lemma spec_keeps_yields {A B} (S : string -> Prop) (m : M X A) (f : A -> M X B) (P : world -> Prop) (R : A -> Prop) Post :
  touches S m -> yields m R -> (forall fs fs', P fs -> frame S fs fs' -> P fs') ->
  (forall a, R a -> spec (fun w => P (cl_files w)) (f a) Post) -> spec (fun w => P (cl_files w)) (bind m f) Post.
Proof.
  intros Hm Hy HP Hf. apply (spec_bind _ _ _ (fun a w => R a /\ P (cl_files w))).
  - intros w Hw. specialize (Hm w). specialize (Hy w). destruct (m w) as [[w' ds] r]. destruct Hm as [H1 H2]. split; [done|].
    destruct r; [|done]. split; [by apply Hy|by eapply HP].
  - intros a w [Ha Hw]. exact (Hf a Ha w Hw).
Qed.

Lemma touches_bind {A B} S (m : M X A) (f : A -> M X B) : touches S m -> (forall a, touches S (f a)) -> touches S (bind m f).
Proof.
  intros Hm Hf w. specialize (Hm w). unfold bind. destruct (m w) as [[w1 ds1] [a|e]]; [|exact Hm].
  destruct Hm as [H1 F1]. specialize (Hf a w1). destruct (f a w1) as [[w2 ds2] r]. destruct Hf as [H2 F2].
  split; [by apply Forall_app|by eapply frame_trans].
Qed.

Lemma touches_none {A} S (m : M X A) :
  (forall w, let '(w', ds, r) := m w in Forall tame ds /\ cl_files w' = cl_files w) -> touches S m.
Proof. intros Hm w. specialize (Hm w). destruct (m w) as [[w' ds] r]. destruct Hm as [H1 ->]. by split. Qed.

Lemma run_deferred_frame ds w : Forall tame ds -> frame (fun q => below assets_dir q = true) (cl_files w) (cl_files (run_deferred ds w)).
Proof.
  intros Hd. revert w. induction Hd as [|d ds Hd _ IH]; intros w; [done|]. eapply frame_trans; [apply Hd|apply IH].
Qed.

Lemma touches_ret {A} S (a : A) : touches S (ret a).
Proof. intros w. by split; [constructor|]. Qed.
Lemma touches_fail {A} S e : touches S (@fail X A e).
Proof. intros w. by split; [constructor|]. Qed.
Lemma touches_check {A} S pre (r : result error A) : touches S (check pre r).
Proof. destruct r; [apply touches_ret|apply touches_fail]. Qed.
Lemma touches_check_err S pre e : touches S (check_err pre e).
Proof. destruct e; [apply touches_fail|apply touches_ret]. Qed.
Lemma touches_call {A} S (f : X -> X * A) : touches S (call f).
Proof. apply touches_none. intros w. unfold call. by destruct (f (cl_x w)). Qed.
Lemma touches_get {A} S (f : cli X -> A) : touches S (get f).
Proof. intros w. by split; [constructor|]. Qed.
Lemma touches_file {A} S (g : world -> world * A) : (forall fs, frame S fs (g fs).1) -> touches S (file g).
Proof. intros Hg w. unfold file. specialize (Hg (cl_files w)). destruct (g (cl_files w)). by split; [constructor|]. Qed.
Lemma touches_effect S d : (forall w, frame S (cl_files w) (cl_files (d w))) -> touches S (effect d).
Proof. intros Hd w. by split; [constructor|]. Qed.
Lemma touches_defer S d : tame d -> touches S (defer d).
Proof. intros Hd w. split; [by constructor|done]. Qed.
Lemma touches_call_scope {A} (m : M X A) :
  touches (fun q => below assets_dir q = true) m -> touches (fun q => below assets_dir q = true) (call_scope m).
Proof.
  intros Hm w. specialize (Hm w). unfold call_scope, scope. destruct (m w) as [[w1 ds] r]. destruct Hm as [H1 H2].
  split; [constructor|]. eapply frame_trans; [exact H2|]. by apply (run_deferred_frame ds).
Qed.
Lemma touches_within {A} S pre (m : M X A) : touches S m -> touches S (within pre m).
Proof. intros Hm w. specialize (Hm w). unfold within. by destruct (m w) as [[w' ds] [a|[e|e]]]. Qed.

Lemma tame_files d : (forall w, cl_files (d w) = cl_files w) -> tame d.
Proof. intros Hd w. rewrite Hd. apply frame_refl. Qed.

Lemma prints_files {A} (g : A -> text) (l : list A) w : cl_files (foldl (fun w a => print (g a) w) w l) = cl_files w.
Proof. revert w. induction l as [|a l IH]; intros w; [done|]. cbn [foldl]. by rewrite IH. Qed.
End commands_files.

(** Takes a command apart down to steps that touch no file. *)
Ltac untouched :=
  cbv zeta;
  lazymatch goal with
  | |- touches _ _ (bind _ _) => apply touches_bind; [untouched|intros ?; untouched]
  | |- touches _ _ (match ?x with _ => _ end) => destruct x; untouched
  | |- touches _ _ (ret _) => apply touches_ret
  | |- touches _ _ (fail _) => apply touches_fail
  | |- touches _ _ (check _ _) => apply touches_check
  | |- touches _ _ (check_err _ _) => apply touches_check_err
  | |- touches _ _ (call _) => apply touches_call
  | |- touches _ _ (get _) => apply touches_get
  | |- touches _ _ (within _ _) => apply touches_within; untouched
  | |- touches _ _ (effect _) => apply touches_effect; intros ?; apply frame_same; first [done | f_equal; apply prints_files]
  | |- touches _ _ (defer _) => apply touches_defer, tame_files; done
  | |- touches _ _ (file (Stat _)) => apply touches_file; intros ?; apply Stat_frame
  | |- touches _ _ (file (ReadFile _)) => apply touches_file; intros ?; apply ReadFile_frame
  | |- _ => idtac
  end.

Section run_files.
Context {X C R H K Tx : Type}.
Context {HH : Histogram H} {HL : HLogLines H} {Drv : Driver X C} {Clk : Clock X} {KK : Koanf K} {FM : FloatMath}.
Context {HT : Http X} {TF : TempFiles X} {Sv : Services X H} {DB : Sql X Tx} {Fm : Formats}.
Context (cs : codecs) (order : gmap Z acc -> list acc) (range : gmap Z WriteRecord -> list (Z * WriteRecord)).
Context (porcupine : list porcOp -> CheckResult).
Context (registry : gmap Backend (Provisioner X)).
Context (environ : list (string * string)) (client : ClientInfo) (assets_dir suffix : string).
Hypothesis suffix_ok : slash ∉ txt suffix.
Context (e : Engine X) (f : runFlags).
Implicit Types w : cli X.

Definition run_layout (start : Z) : Paths := Layout (rf_results f) (e_Name e) (run_id (e_Name e) start).

(** The artifacts of a run in its directory. *)
Definition recorded (m : Manifest) (rep : RunReport) (rec : Recorder H) (snaps : list LatencySnapshot) (start : Z)
    (vr : option VerifyReport) (fs : world) : Prop :=
  let id := run_id (e_Name e) start in
  let p := run_layout start in
  holds (c_manifest cs) (Manifest_json p) (final_manifest client m id start) fs /\
  holds (c_summary cs) (Summary p) (summary_of rec rep id) fs /\
  holds (c_rows cs) (TimeseriesParquet p) (toRow <$> snaps) fs /\
  match vr with Some v => holds (c_verify cs) (VerifyJSON p) v fs | None => True end.

(** What keeps the artifacts keeps the record. *)
Lemma recorded_frame (S : string -> Prop) m rep rec snaps start vr fs fs' :
  (forall q, q ∈ artifact_paths (run_layout start) -> ~ S q) ->
  sound (w_fs fs) /\ recorded m rep rec snaps start vr fs -> frame S fs fs' ->
  sound (w_fs fs') /\ recorded m rep rec snaps start vr fs'.
Proof.
  intros HS [Hs (H1 & H2 & H3 & H4)] Hf. destruct (Hf Hs) as [Hs' C']. split; [done|].
  assert (Hk : forall q, q ∈ artifact_paths (run_layout start) -> content (w_fs fs') q = content (w_fs fs) q) by auto.
  assert (Hh : forall T (c : codec T) q x, q ∈ artifact_paths (run_layout start) -> holds c q x fs -> holds c q x fs').
  { intros T c q x Hq. apply holds_kept. auto. }
  split_and!; [apply Hh; [in_artifacts|done]..|]. destruct vr; [apply Hh; [in_artifacts|done]|done].
Qed.

Lemma writeArtifacts_spec r rep rec snaps start :
  spec (X := X) assets_dir (fun w => sound (w_fs (cl_files w))) (writeArtifacts (H := H) cs client suffix e r rep rec snaps start (rf_results f))
    (fun ps w => ps = (run_layout start, summary_of rec rep (run_id (e_Name e) start)) /\
                 sound (w_fs (cl_files w)) /\ recorded (rv_Manifest r) rep rec snaps start None (cl_files w)).
Proof.
  set (id := run_id (e_Name e) start). set (p := run_layout start).
  set (Hm := fun fs => holds (c_manifest cs) (Manifest_json p) (final_manifest client (rv_Manifest r) id start) fs).
  set (Hsu := fun fs => holds (c_summary cs) (Summary p) (summary_of rec rep id) fs).
  set (Hr := fun fs => holds (c_rows cs) (TimeseriesParquet p) (toRow <$> snaps) fs).
  unfold writeArtifacts. cbv zeta. fold id. change (Layout (rf_results f) (e_Name e) id) with p.
  apply (spec_write _ _ _ _ (fun fs => sound (w_fs fs)) (fun fs => sound (w_fs fs))).
  { intros fs fs' Hs E. pose proof (MkdirAll_frame (fun _ => False) (Dir p) fs Hs) as [Hf _]. unfold EnsureDir in E. by rewrite E in Hf. }
  apply (spec_write _ _ _ _ (fun fs => sound (w_fs fs)) (fun fs => sound (w_fs fs) /\ Hm fs)).
  { intros fs fs' Hs E. apply (artifact_write (rf_results f) (e_Name e) id suffix suffix_ok) in E as (S' & M & _); [done|in_artifacts|done]. }
  apply (spec_write _ _ _ _ (fun fs => sound (w_fs fs) /\ Hm fs) (fun fs => sound (w_fs fs) /\ Hm fs /\ Hsu fs)).
  { intros fs fs' [Hs M] E. apply (artifact_write (rf_results f) (e_Name e) id suffix suffix_ok) in E as (S' & M' & Kp); [|in_artifacts|done].
    split; [done|]. split; [|done]. eapply holds_kept; [|exact M]. apply Kp; [in_artifacts|]. unfold p, run_layout; artifacts_differ (rf_results f) (e_Name e) (run_id (e_Name e) start). }
  apply (spec_write _ _ _ _ (fun fs => sound (w_fs fs) /\ Hm fs /\ Hsu fs) (fun fs => sound (w_fs fs) /\ Hm fs /\ Hsu fs)).
  { intros fs fs' (Hs & M & U) E. unfold WriteTimeseriesNDJSON in E. destruct (encode_lines cs snaps []) as [nd|x]; [|done].
    apply (artifact_atomic (rf_results f) (e_Name e) id suffix suffix_ok) in E as (S' & _ & Kp); [|in_artifacts|done].
    split; [done|]. split; [eapply holds_kept; [|exact M]|eapply holds_kept; [|exact U]];
      (apply Kp; [in_artifacts|]; unfold p, run_layout; artifacts_differ (rf_results f) (e_Name e) (run_id (e_Name e) start)). }
  apply (spec_write _ _ _ _ (fun fs => sound (w_fs fs) /\ Hm fs /\ Hsu fs) (fun fs => sound (w_fs fs) /\ recorded (rv_Manifest r) rep rec snaps start None fs)).
  { intros fs fs' (Hs & M & U) E. apply (artifact_write (rf_results f) (e_Name e) id suffix suffix_ok) in E as (S' & M' & Kp); [|in_artifacts|done].
    split; [done|]. split_and!; [eapply holds_kept; [|exact M]|eapply holds_kept; [|exact U]|exact M'|done];
      (apply Kp; [in_artifacts|]; unfold p, run_layout; artifacts_differ (rf_results f) (e_Name e) (run_id (e_Name e) start)). }
  set (P := fun fs => sound (w_fs fs) /\ recorded (rv_Manifest r) rep rec snaps start None fs).
  apply (spec_write _ _ _ _ P P).
  { intros fs fs' HP E. pose proof (writeHLog_frame p rec start fs) as Hf. rewrite E in Hf. cbn [fst] in Hf.
    destruct HP as [Hs (M & U & W & _)]. destruct (Hf Hs) as [Hs' Kp]. split; [done|].
    split_and!; [eapply holds_kept; [|exact M]|eapply holds_kept; [|exact U]|eapply holds_kept; [|exact W]|done];
      (apply Kp; unfold p, run_layout; artifacts_differ (rf_results f) (e_Name e) (run_id (e_Name e) start)). }
  apply spec_ret. intros w HP. split; [done|exact HP].
Qed.

(** *** After the load *)

Hypothesis apart_assets : forall start q, q ∈ artifact_paths (run_layout start) -> below assets_dir q = false.

Lemma apart_below start q : q ∈ artifact_paths (run_layout start) -> ~ below assets_dir q = true.
Proof. intros Hq. by rewrite (apart_assets start q Hq). Qed.

Lemma stop_faults_files w : cl_files (stop_faults (H := H) w) = cl_files w.
Proof. unfold stop_faults. destruct (_ || _); [done|]. by destruct (faults_end _ _). Qed.

Lemma cleanup_files v w : cl_files (cleanup v w) = cl_files w.
Proof. unfold cleanup. by destruct (String.eqb _ _). Qed.

Lemma ver_run_touches S v r dir : touches assets_dir S (ver_run (C := C) range porcupine v e r dir).
Proof. unfold ver_run, reconcile, checkRegister, checkListAppend, read_history, close_writer. untouched. Qed.

Lemma newNemesis_touches S r : touches assets_dir S (newNemesis f e r).
Proof. unfold newNemesis, loadFaultSchedule, fileExists. untouched. Qed.

Lemma new_verification_touches S model wl : touches (X := X) assets_dir S (new_verification model wl).
Proof. unfold new_verification. untouched. Qed.

Lemma persist_touches start : touches (X := X) assets_dir (eq (Join [Dir (run_layout start); "faults.json"]%string)) (effect (persist (Dir (run_layout start)))).
Proof.
  apply touches_effect. intros w. unfold persist. destruct (n_started _); [|apply frame_refl]. destruct (cl_timeline w); [apply frame_refl|].
  destruct (marshal _ _); [|apply frame_refl]. cbn [print set_files cl_files]. apply WriteFile_frame.
Qed.

Lemma Render_frame S dir fs : match Render cs order dir fs with Some (fs', _) => frame S fs fs' | None => True end.
Proof.
  assert (Hj : forall T (c : codec T) q (fs0 : world), frame S fs0 (readJSON c q fs0).1).
  { intros T c q fs0. unfold readJSON. pose proof (ReadFile_frame S q fs0). by destruct (ReadFile q fs0) as [w1 [b|x]]. }
  unfold Render. pose proof (Hj _ (c_manifest cs) (Manifest_json (pathsFor dir)) fs) as H1. unfold ReadManifest.
  destruct (readJSON (c_manifest cs) _ fs) as [w1 [m|x]]; cbn [fst] in H1; [|done].
  pose proof (Hj _ (c_summary cs) (Summary (pathsFor dir)) w1) as H2. unfold ReadSummary.
  destruct (readJSON (c_summary cs) _ w1) as [w2 [s|x]]; cbn [fst] in H2; [|by eapply frame_trans].
  unfold ReadTimeseriesParquet. pose proof (Hj _ (c_rows cs) (TimeseriesParquet (pathsFor dir)) w2) as H3.
  assert (Hfin : forall (w3 : world) (v : world * result error (option VerifyReport)), frame S w2 w3 -> frame S w3 v.1 -> frame S fs v.1).
  { intros w3 v F1 F2. eapply frame_trans; [exact H1|]. eapply frame_trans; [exact H2|]. by eapply frame_trans. }
  assert (Hv : forall w3 : world, frame S w3 (readVerifyIfPresent cs (pathsFor dir) w3).1).
  { intros w3. unfold readVerifyIfPresent. pose proof (Stat_frame S (VerifyJSON (pathsFor dir)) w3) as F1.
    destruct (Stat _ w3) as [w4 []]; cbn [fst] in F1; [|done]. unfold ReadVerify.
    pose proof (Hj _ (c_verify cs) (VerifyJSON (pathsFor dir)) w4) as F2. destruct (readJSON _ _ w4) as [w5 [b|x]]; by eapply frame_trans. }
  destruct (readJSON (c_rows cs) _ w2) as [w3 [rows|x]]; cbn [fst] in H3; specialize (Hv w3); specialize (Hfin w3 _ H3 Hv);
    destruct (readVerifyIfPresent _ _ w3) as [w4 v]; cbn [fst] in Hfin; by destruct (body _ _ _ _ _).
Qed.

Lemma write_report_frame dir fs : frame (eq (Join [dir; "report.html"]%string)) fs (write_report cs order dir fs).1.
Proof.
  unfold write_report, WriteReport. pose proof (Render_frame (eq (Join [dir; "report.html"]%string)) dir fs) as H1.
  destruct (Render _ _ _ _) as [[fs1 [doc|x]]|]; cbn [default fst from_option]; [|done|apply frame_refl].
  pose proof (WriteFile_frame (Join [dir; "report.html"]%string) (bytes_of_text doc) fs1) as H2.
  destruct (WriteFile _ _ fs1) as [fs2 [x|]]; by eapply frame_trans.
Qed.

Lemma finalize_touches m s rep p vr : touches (X := X) assets_dir (eq (Join [Dir p; "report.html"]%string)) (finalize cs order e m s rep p vr).
Proof.
  unfold finalize. apply touches_bind; [apply touches_file; intros fs; apply write_report_frame|]. intros path.
  apply touches_bind; [apply touches_effect; intros w; apply frame_same; exact (f_equal w_fs (prints_files id (summary_lines e m s rep (Dir p)) (print [] w)))|]. intros _.
  apply touches_bind; [apply touches_effect; intros w; apply frame_same; destruct vr as [v|]; [exact (f_equal w_fs (prints_files id (verdict_lines v) w))|done]|]. intros _.
  apply touches_effect. intros w. apply frame_same. by destruct path.
Qed.

Lemma exportMetrics_touches r summary snaps : touches (X := X) assets_dir (fun q => below assets_dir q = true) (exportMetrics f r summary snaps).
Proof. apply touches_call_scope. unfold exportMetrics_body. untouched. Qed.

(** *** The whole run *)

(** The load was driven with what the manifest records. *)
Definition ran_as (m : Manifest) (wl : Workload) (pp : driveParams) : Prop :=
  dp_workload pp = wl /\ dp_rate pp = mf_Rate m /\ dp_connections pp = mf_Connections m /\ dp_warmup pp = mf_Warmup m /\
  dp_duration pp = mf_Duration m /\ dp_seed pp = mf_Seed m /\ dp_testType pp = mf_TestType m /\ dp_workerID pp = 0 /\ dp_workerCount pp = 1.

(** The record of a load of this run, and of the verification [vr] of what it recorded:
    the load ran under the observer of [v], and [v] was run where the load and the
    end of the faults had left the target and the recording. *)
Definition run_recorded (m : Manifest) (wl : Workload) (fs : world) : Prop :=
  exists r v w1 w2 w3 w4 ds rep rec snaps start vr,
    rv_Manifest r = m /\ rv_Workload r = wl /\ vf_model v = resolveVerifyModel f wl /\
    let pp := single_params f r v (mf_TestType m) in
    ran_as m wl pp /\ dp_observer pp = observer v /\
    (exists began, load pp (cl_nem w1) (cl_x w1) = (cl_x w2, (began, Ok (rep, rec, snaps, start)))) /\
    cl_x w3 = cl_x (stop_faults (H := H) w2) /\
    ver_run (C := C) range porcupine v e r (Dir (run_layout start)) w3 = (w4, ds, Ok vr) /\
    recorded m rep rec snaps start vr fs /\ (resolveVerifyModel f wl <> VerifyNone -> is_Some vr).

Lemma run_load_spec (pp : driveParams) (P : world -> Prop) :
  spec (X := X) assets_dir (fun w => P (cl_files w)) (run_load (H := H) pp)
    (fun res w => (exists x0 n0 began, load pp n0 x0 = (cl_x w, (began, Ok res))) /\ P (cl_files w)).
Proof.
  intros w Hw. unfold run_load. destruct (load pp (cl_nem w) (cl_x w)) as [x' [began [res|err]]] eqn:El;
    (split; [constructor|]); [|done]. split; [|by destruct began]. exists (cl_x w), (cl_nem w), began. by destruct began.
Qed.

Lemma yields_within {A} pre (m : M X A) Q : yields m Q -> yields (within pre m) Q.
Proof. intros Hm w a. specialize (Hm w a). unfold within. destruct (m w) as [[w' ds] [b|[x|x]]]; cbn in *; done || auto. Qed.

Lemma ver_run_yields v r dir :
  yields (ver_run (C := C) range porcupine v e r dir) (fun vr => vf_model v <> VerifyNone -> is_Some vr).
Proof.
  unfold ver_run. destruct (String.eqb_spec (vf_model v) VerifyNone) as [Hn|Hn]; [by apply yields_ret|].
  destruct (native_verifier e (vf_model v)) as [verify|].
  - apply yields_then. intros [rep err]. apply yields_then. intros _. by apply yields_ret.
  - apply yields_then. intros rep. by apply yields_ret.
Qed.

Lemma newVerification_model t o model wl v : newVerification t o model wl = Ok v -> vf_model v = model.
Proof. unfold newVerification. intros Hv. repeat case_match; by simplify_eq/=. Qed.

Lemma new_verification_yields model wl : yields (X := X) (new_verification model wl) (fun v => vf_model v = model).
Proof.
  assert (Hc : forall t o, yields (X := X) (check "" (newVerification t o model wl)) (fun v => vf_model v = model)).
  { intros t o. destruct (newVerification t o model wl) as [v|x] eqn:Ev; [|done]. apply yields_ret. by eapply newVerification_model. }
  unfold new_verification. destruct (temp_pattern model); [|apply Hc]. apply yields_then. intros t. apply yields_then. intros [path close].
  do 2 (apply yields_then; intros ?). apply yields_then. intros err. apply Hc.
Qed.

Lemma write_verify_spec m rep rec snaps start v (fs fs' : world) :
  sound (w_fs fs) /\ recorded m rep rec snaps start None fs -> WriteVerify cs suffix (run_layout start) v fs = (fs', None) ->
  sound (w_fs fs') /\ recorded m rep rec snaps start (Some v) fs'.
Proof.
  intros [Hs (M & U & W & _)] E.
  apply (artifact_write (rf_results f) (e_Name e) (run_id (e_Name e) start) suffix suffix_ok) in E as (S' & V & Kp); [|in_artifacts|done].
  split; [done|]. split_and!; [eapply holds_kept; [|exact M]|eapply holds_kept; [|exact U]|eapply holds_kept; [|exact W]|exact V];
    (apply Kp; [in_artifacts|]; unfold run_layout; artifacts_differ (rf_results f) (e_Name e) (run_id (e_Name e) start)).
Qed.

Lemma named_file_apart start name q : file_name (txt name) -> name ∉ artifact_names -> q ∈ artifact_paths (run_layout start) ->
  Join [Dir (run_layout start); name]%string <> q.
Proof. intros Hn Ha Hq. apply not_eq_sym. exact (other_file (rf_results f) (e_Name e) (run_id (e_Name e) start) q name Hq Hn Ha). Qed.

Ltac plain_name := split; [apply (bool_decide_unpack _); vm_compute; exact I|done].

Lemma writeArtifacts_still r rep rec snaps start base :
  still (X := X) (writeArtifacts (H := H) cs client suffix e r rep rec snaps start base).
Proof.
  unfold writeArtifacts. cbv zeta.
  repeat (apply still_bind; [first [apply still_file|apply still_check_err]|intros ?]). by intros w.
Qed.

(** What comes after the artifacts. *)
Lemma run_rest_spec r (v : verification) rep rec snaps start summary x3 :
  spec (X := X) assets_dir (fun w => cl_x w = x3 /\ sound (w_fs (cl_files w)) /\ recorded (rv_Manifest r) rep rec snaps start None (cl_files w))
    (let* vr := within "verify: " (ver_run (C := C) range porcupine v e r (Dir (run_layout start))) in
     do* (match vr with
          | None => ret tt
          | Some rep => let* err := file (WriteVerify cs suffix (run_layout start) rep) in check_err "write verify: " err
          end) in
     do* effect (persist (Dir (run_layout start))) in
     do* exportMetrics f r summary snaps in
     finalize cs order e (rv_Manifest r) summary rep (run_layout start) vr)
    (fun _ w => exists vr, sound (w_fs (cl_files w)) /\ recorded (rv_Manifest r) rep rec snaps start vr (cl_files w) /\
                           (vf_model v <> VerifyNone -> is_Some vr) /\
                           exists w3 w4 ds, cl_x w3 = x3 /\ ver_run (C := C) range porcupine v e r (Dir (run_layout start)) w3 = (w4, ds, Ok vr)).
Proof.
  set (P := fun vr fs => sound (w_fs fs) /\ recorded (rv_Manifest r) rep rec snaps start vr fs).
  assert (HP : forall (S : string -> Prop) vr, (forall q, q ∈ artifact_paths (run_layout start) -> ~ S q) ->
    forall fs fs', P vr fs -> frame S fs fs' -> P vr fs') by (intros S vr HS fs fs'; by apply recorded_frame).
  apply (spec_bind _ _ _ _ (fun vr w => ((vf_model v <> VerifyNone -> is_Some vr) /\
    exists w3 w4 ds, cl_x w3 = x3 /\ ver_run (C := C) range porcupine v e r (Dir (run_layout start)) w3 = (w4, ds, Ok vr)) /\ P None (cl_files w))).
  { intros w [Hx Hw]. pose proof (ver_run_touches (fun _ => False) v r (Dir (run_layout start)) w) as Ht.
    pose proof (ver_run_yields v r (Dir (run_layout start)) w) as Hy. unfold within.
    destruct (ver_run _ _ v e r _ w) as [[w' ds] [vr|[err|err]]] eqn:Ev; destruct Ht as [Ht1 Ht2]; (split; [done|]); try done.
    split; [split; [by apply Hy|by exists w, w', ds]|]. apply (HP _ None) in Ht2; [done|by intros q _ []|done]. }
  intros vr. apply spec_pure. intros [Hvr Hran].
  apply (spec_bind _ _ _ _ (fun _ w => P vr (cl_files w))).
  { destruct vr as [vrep|]; [|by apply spec_ret]. intros w Hw. unfold bind, file, check_err.
    destruct (WriteVerify cs suffix (run_layout start) vrep (cl_files w)) as [fs' [x|]] eqn:Ev; (split; [constructor|]); [done|].
    by eapply write_verify_spec. }
  intros _. apply (spec_keeps assets_dir (eq (Join [Dir (run_layout start); "faults.json"]%string))); [apply persist_touches| |].
  { apply HP. intros q Hq. apply named_file_apart; [plain_name|apply (bool_decide_unpack _); vm_compute; exact I|done]. }
  intros _. apply (spec_keeps assets_dir (fun q => below assets_dir q = true)); [apply exportMetrics_touches|apply HP, apart_below|].
  intros _. eapply spec_weaken; [apply (spec_touches assets_dir (eq (Join [Dir (run_layout start); "report.html"]%string)) _ (P vr))|done|].
  { apply finalize_touches. }
  { apply HP. intros q Hq. apply named_file_apart; [plain_name|apply (bool_decide_unpack _); vm_compute; exact I|done]. }
  intros _ w [Hs Hr]. exists vr. by split_and!.
Qed.

Lemma run_single_spec r ty : mf_Seed (rv_Manifest r) = rf_seed f -> mf_TestType (rv_Manifest r) = ty ->
  spec (X := X) assets_dir (fun w => sound (w_fs (cl_files w)))
    (run_single (C := C) (H := H) cs order range porcupine client suffix e f r ty)
    (fun _ w => sound (w_fs (cl_files w)) /\ run_recorded (rv_Manifest r) (rv_Workload r) (cl_files w)).
Proof.
  intros Hseed Hty. unfold run_single. set (P := fun fs : world => sound (w_fs fs)).
  assert (HP : forall (S : string -> Prop) fs fs', P fs -> frame S fs fs' -> P fs') by (intros S fs fs' HP Hf; by apply Hf).
  apply (spec_keeps assets_dir (fun _ => False) _ _ P); [apply touches_call|apply HP|]. intros err. apply spec_check_err. intros _.
  apply (spec_keeps_yields assets_dir (fun _ => False) _ _ P (fun v => vf_model v = resolveVerifyModel f (rv_Workload r)));
    [apply new_verification_touches|apply new_verification_yields|apply HP|]. intros v Hv.
  apply spec_defer; [apply tame_files, cleanup_files|].
  apply (spec_keeps assets_dir (fun _ => False) _ _ P); [apply newNemesis_touches|apply HP|]. intros nem.
  apply (spec_keeps assets_dir (fun _ => False) _ _ P); [by apply touches_effect|apply HP|]. intros _.
  apply spec_defer; [apply tame_files, stop_faults_files|].
  eapply spec_bind; [apply (run_load_spec _ P)|]. intros [[[rep rec] snaps] start].
  apply (spec_bind _ _ _ _ (fun _ w => exists x3, (exists w1 w2 began,
    load (single_params f r v ty) (cl_nem w1) (cl_x w1) = (cl_x w2, (began, Ok (rep, rec, snaps, start))) /\
    x3 = cl_x (stop_faults (H := H) w2)) /\ cl_x w = x3 /\ P (cl_files w))).
  { intros w [(x0 & n0 & began & Hl) Hw]. split; [constructor|]. eexists. split; [|split; [reflexivity|]].
    - by exists (set_x x0 (set_nem n0 w)), w, began.
    - by rewrite stop_faults_files. }
  intros []. apply spec_ex. intros x3. apply spec_pure. intros (w1 & w2 & began & Hload & Hx3).
  eapply spec_bind; [eapply spec_still with (x := x3); [apply writeArtifacts_still|apply writeArtifacts_spec]|]. intros [p summary].
  eapply spec_weaken with (Post := fun _ w => sound (w_fs (cl_files w)) /\ run_recorded (rv_Manifest r) (rv_Workload r) (cl_files w));
    [|intros w (Hx & Hps & Hw); exact (conj Hps (conj Hx Hw))|intros a w Hw; exact Hw].
  apply spec_pure. intros [= -> ->].
  eapply spec_weaken; [apply (run_rest_spec r v rep rec snaps start _ x3)|intros w Hw; exact Hw|].
  intros [] w (vr & Hs & Hr & Hvr & w3 & w4 & ds & Hw3 & Hran). split; [done|]. rewrite Hv in Hvr.
  exists r, v, w1, w2, w3, w4, ds, rep, rec, snaps, start, vr. rewrite Hty. cbv zeta.
  assert (Hran' : ran_as (rv_Manifest r) (rv_Workload r) (single_params f r v ty)).
  { unfold ran_as, single_params. cbn. by rewrite Hseed, Hty. }
  do 3 (split; [done|]). split; [exact Hran'|]. split; [done|]. split; [by exists began|]. split; [congruence|]. by split_and!.
Qed.

(** The embedded assets as they are unpacked. *)
Definition unpacked_assets (fs : world) : Prop :=
  forall dst data, (dst, data) ∈ omap (asset_file assets_dir) (e_Assets e) -> exists b, data = Ok b /\ content (w_fs fs) dst = Some b.

Lemma MkdirTemp_spec fs fs' dir : MkdirTemp assets_dir fs = (fs', Ok dir) -> dir = assets_dir /\ w_fs fs' = w_fs fs.
Proof. unfold MkdirTemp. pose proof (next_fault_fs fs) as E. destruct (next_fault fs) as [[n|] fs1]; [done|]. by intros [= <- <-]. Qed.

Lemma materialize_spec : NoDup (omap (asset_file assets_dir) (e_Assets e)).*1 ->
  spec (X := X) assets_dir (fun w => sound (w_fs (cl_files w))) (materialize assets_dir (e_Assets e))
    (fun res w => forall dir, res = Ok dir -> dir = assets_dir /\ sound (w_fs (cl_files w)) /\ unpacked_assets (cl_files w)).
Proof.
  intros Hnd w Hs. unfold materialize, bind, file, effect, ret.
  destruct (MkdirTemp assets_dir (cl_files w)) as [fs [dir|x]] eqn:Em; [|by split; [constructor|]].
  apply MkdirTemp_spec in Em as [-> Efs]. cbn [app cl_files acquire set_held set_files].
  destruct (copy_assets assets_dir (e_Assets e) fs) as [fs2 [x|]] eqn:Ec; (split; [constructor|]); [done|].
  apply copy_assets_frame in Ec as [Hf Hc]; [|by rewrite Efs]. intros dir [= <-]. split; [done|]. split; [|exact (Hc eq_refl Hnd)].
  apply Hf. by rewrite Efs.
Qed.

Lemma ensureEndpoints_touches S target r : touches (X := X) assets_dir S (ensureEndpoints registry f target r).
Proof. unfold ensureEndpoints, use_bundle, fileExists. untouched. Qed.

(** Provisioning changes neither manifest nor workload, and tearing down no file. *)
Lemma ensureEndpoints_keeps target r :
  yields (ensureEndpoints (X := X) registry f target r)
    (fun a => rv_Manifest a.1 = rv_Manifest r /\ rv_Workload a.1 = rv_Workload r /\ tame assets_dir (default id a.2)).
Proof.
  set (Q := fun a : Resolved * option (cli X -> cli X) => rv_Manifest a.1 = rv_Manifest r /\ rv_Workload a.1 = rv_Workload r /\ tame assets_dir (default id a.2)).
  assert (Hid : tame assets_dir (@id (cli X))) by (intros w; apply frame_refl).
  unfold ensureEndpoints. apply (yields_bind _ _ Q).
  - destruct (String.eqb _ _); [by apply yields_ret|]. apply yields_then. intros p.
    apply (yields_bind _ _ (fun r1 => rv_Manifest r1 = rv_Manifest r /\ rv_Workload r1 = rv_Workload r)).
    { unfold use_bundle. destruct (String.eqb _ _); [|by apply yields_ret]. apply yields_then. intros there. by apply yields_ret; destruct there. }
    intros r1 [Hm Hw]. do 3 (apply yields_then; intros ?). cbv zeta. apply yields_then. intros _.
    destruct (rf_keep f); [apply yields_then; intros _|]; apply yields_ret; (split; [done|]; split; [done|]); [done|].
    by apply tame_files.
  - intros [r1 td] Htd. destruct (cfg_Endpoints (rv_Driver r1)); [done|by apply yields_ret].
Qed.

Lemma doRun_body_spec changed : rf_workers f <= 0 -> NoDup (omap (asset_file assets_dir) (e_Assets e)).*1 ->
  spec (X := X) assets_dir (fun w => sound (w_fs (cl_files w)))
    (doRun_body (C := C) (H := H) (K := K) cs order range porcupine registry environ client assets_dir suffix changed e f)
    (fun _ w => sound (w_fs (cl_files w)) /\ exists fs1 r ty,
       unpacked_assets fs1 /\
       resolve_on (K := K) environ fs1 (assets_options assets_dir (rf_workload f) (overrides changed f)) = Ok r /\
       resolveTestType f = Ok ty /\
       run_recorded (run_manifest (rf_seed f) ty (rv_Manifest r)) (rv_Workload r) (cl_files w)).
Proof.
  intros Hsolo Hnd. set (P := fun fs : world => sound (w_fs fs)).
  assert (HP : forall (S : string -> Prop) fs fs', P fs -> frame S fs fs' -> P fs') by (intros S fs fs' HP Hf; by apply Hf).
  unfold doRun_body. eapply spec_bind; [by apply materialize_spec|]. intros dir. apply spec_check. intros d ->.
  eapply (spec_weaken assets_dir (fun w => d = assets_dir /\ sound (w_fs (cl_files w)) /\ unpacked_assets (cl_files w)));
    [|intros w Hw; by apply Hw|intros a w Hw; exact Hw].
  apply spec_pure. intros ->. apply spec_defer.
  { intros w. apply RemoveAll_frame. }
  set (o := assets_options assets_dir (rf_workload f) (overrides changed f)).
  apply (spec_bind _ _ _ _ (fun res w => (exists fs1, unpacked_assets fs1 /\ resolve_on environ fs1 o = res) /\ P (cl_files w))).
  { intros w [Hs Hu]. split; [constructor|]. split; [by exists (cl_files w)|done]. }
  intros res. apply spec_pure. intros (fs1 & Hu & Hres). apply spec_check. intros r ->.
  apply (spec_keeps assets_dir (fun _ => False) _ _ P); [by apply touches_effect|apply HP|]. intros _.
  apply spec_defer; [by apply tame_files|].
  apply (spec_keeps_yields assets_dir (fun _ => False) _ _ P (fun a => rv_Manifest a.1 = rv_Manifest r /\ rv_Workload a.1 = rv_Workload r /\ tame assets_dir (default id a.2)));
    [apply ensureEndpoints_touches|apply ensureEndpoints_keeps|apply HP|].
  intros [r2 td] (Hm & Hw & Htd). cbn [fst snd] in Hm, Hw, Htd. apply spec_defer; [exact Htd|].
  apply spec_check. intros ty Hty. cbv zeta. destruct (Z.ltb_spec 0 (rf_workers f)); [lia|].
  eapply spec_weaken; [apply run_single_spec; cbn; done|done|].
  intros [] w [Hs Hr]. split; [done|]. exists fs1, r, ty. cbn [set_manifest rv_Manifest rv_Workload] in Hr. by rewrite Hm, Hw in Hr.
Qed.
End run_files.

(** C17: what a successful run of one process ([--workers] not given; a coordinating run
    does not verify) leaves in its directory.  The configuration was resolved on
    the embedded assets as they were unpacked; the load ran on the resolved workload
    with the rate, connections, warm-up, duration, seed and test type of the manifest;
    and when [run] has returned, after the verification, the exports, the report and
    every clean-up, the directory of the run still holds, whole, that manifest (with
    the run's identity, the engine's version, the client and the start), the summary of
    the recorder, the series of its snapshots and, when a verification model is
    selected, the report of the verification: the one that the model's check gave on
    the recording of that load, in the state the load and the healed faults had left. *)
Theorem doRun_directory {X C H K} {HH : Histogram H} {HL : HLogLines H} {Drv : Driver X C} {Clk : Clock X} {KK : Koanf K}
    {FM : FloatMath} {HT : Http X} {TF : TempFiles X} {Sv : Services X H} {Fm : Formats}
    cs order range porcupine registry environ client assets_dir suffix changed (e : Engine X) f (w w' : cli X) :
  slash ∉ txt suffix -> rf_workers f <= 0 ->
  (forall start q, q ∈ artifact_paths (run_layout e f start) -> below assets_dir q = false) ->
  NoDup (omap (asset_file assets_dir) (e_Assets e)).*1 -> sound (w_fs (cl_files w)) ->
  doRun (C := C) (H := H) (K := K) cs order range porcupine registry environ client assets_dir suffix changed e f w = (w', Ok tt) ->
  exists fs1 r ty, unpacked_assets assets_dir e fs1 /\
    resolve_on (K := K) environ fs1 (assets_options assets_dir (rf_workload f) (overrides changed f)) = Ok r /\
    resolveTestType f = Ok ty /\
    run_recorded (C := C) (H := H) cs range porcupine client e f (run_manifest (rf_seed f) ty (rv_Manifest r)) (rv_Workload r) (cl_files w').
Proof.
  intros Hsuf Hsolo Hapart Hnd Hs. unfold doRun, scope.
  pose proof (doRun_body_spec (C := C) (H := H) (K := K) cs order range porcupine registry environ client assets_dir suffix Hsuf e f Hapart changed Hsolo Hnd w Hs) as Hspec.
  destruct (doRun_body _ _ _ _ _ _ _ _ _ _ _ _ w) as [[w1 ds] r]. destruct Hspec as [Hds Hpost]. intros [= <- ->].
  destruct Hpost as (Hs1 & fs1 & r & ty & Hu & Hr & Hty & r2 & v & u1 & u2 & u3 & u4 & us & rep & rec & snaps & start & vr & H1 & H2 & H3 & H4 & H5 & H6 & H7 & H8 & Hrec & Hvr).
  exists fs1, r, ty. split_and!; [done..|]. exists r2, v, u1, u2, u3, u4, us, rep, rec, snaps, start, vr.
  do 8 (split; [assumption|]). split; [|exact Hvr].
  eapply (recorded_frame cs client e f (fun q => below assets_dir q = true)); [by eapply apart_below|by split|].
  by apply run_deferred_frame.
Qed.

(** ** A run on a relative directory *)

Lemma Clean_rooted p : is_rooted (txt (Clean p)) = is_rooted (txt p).
Proof.
  rewrite Clean_eq. unfold nf. rewrite txt_str. rewrite <- (app_nil_r (nf_text _ _)). apply rooted_nf.
  apply clean_pieces_stacked; [|apply stacked_nil]. apply split_on_free. by apply not_elem_of_nil.
Qed.

(** Results under a relative base are not among assets unpacked under an absolute
    directory. *)
Lemma relative_results base target id dir q :
  is_rooted (txt base) = false -> base <> ""%string -> is_rooted (txt dir) = true ->
  q ∈ artifact_paths (Layout base target id) -> below dir q = false.
Proof.
  intros Hb Hne Hd Hq.
  assert (Hr : is_rooted (txt q) = false).
  { assert (Hj : forall d name, d <> ""%string -> is_rooted (txt (Join [d; name]%string)) = is_rooted (txt d)).
    { intros d name Hd'. cbn [Join]. destruct (String.eqb_spec d ""); [done|]. rewrite Clean_rooted. by destruct d. }
    assert (HD : is_rooted (txt (Dir (Layout base target id))) = false).
    { cbn [Dir Layout Join]. destruct (String.eqb_spec base ""); [done|]. rewrite Clean_rooted. rewrite <- Hb. by destruct base. }
    pose proof (Layout_dir base target id) as Hdir. unfold artifact_paths in Hq.
    repeat (apply elem_of_cons in Hq as [->|Hq]; [rewrite <- HD; by apply Hj|]). by apply elem_of_nil in Hq. }
  unfold below. destruct (String.eqb_spec q dir) as [->|_]; [congruence|]. cbn [orb].
  destruct dir as [|c dir]; [done|]. cbn in Hd. destruct q as [|c' q]; [done|]. cbn in Hr.
  change (String c dir +:+ "/") with (String c (dir +:+ "/")). cbn. destruct (ascii_dec c c') as [->|]; [congruence|done].
Qed.

Lemma sample_files_sound : sound (w_fs sample_files).
Proof.
  assert (Hn : forall p i, fs_names (w_fs sample_files) !! p = Some i ->
    p = "faults.yaml"%string /\ i = 0 \/ p = "targets/redis/faults/fault.sh"%string /\ i = 1).
  { intros p i. cbn. intros [[<- <-]|[_ [<- <-]%lookup_singleton_Some]]%lookup_insert_Some; auto. }
  split.
  - intros p q i [[-> ->]|[-> ->]]%Hn [[-> ?]|[-> ?]]%Hn; done.
  - intros p i [[-> ->]|[-> ->]]%Hn; done.
Qed.

(** Encoders that keep a name of the value. *)
Definition named_codec {T} (name : T -> string) : codec T :=
  {| marshal x := Ok (bytes_of_text (txt (name x))); unmarshal _ := Err "unexpected end"%string |}.

Definition naming_codecs : codecs := {|
  c_manifest := named_codec mf_RunID;
  c_summary := named_codec rr_RunID;
  c_verify := named_codec vr_Verdict;
  c_snapshot := named_codec (fun _ => ""%string);
  c_rows := named_codec (fun _ => ""%string)
|}.

(** The run of Release with its load done. *)
Lemma doRun_directory_witness :
  content (w_fs (cl_files (sample_run naming_codecs 1).1)) "results/redis/redis-20231114-221320-000/manifest.json"
    = Some (bytes_of_text (txt "redis-20231114-221320-000")) /\
  exists fs1 r ty, unpacked_assets "/tmp/assets" sample_engine fs1 /\
    resolveTestType (sample_flags 1) = Ok ty /\
    run_recorded (C := unit) (H := HSnapshot) (HH := exact_histogram) naming_codecs map_to_list (fun _ => PorcUnknown) ClientInfo_zero sample_engine (sample_flags 1)
      (run_manifest 1 ty (rv_Manifest r)) (rv_Workload r) (cl_files (sample_run naming_codecs 1).1).
Proof.
  split; [vm_compute; reflexivity|].
  assert (Hres : (sample_run naming_codecs 1).2 = Ok tt) by (vm_compute; reflexivity).
  destruct (sample_run naming_codecs 1) as [w' res] eqn:E. cbn [fst snd] in Hres |- *. subst res.
  edestruct (doRun_directory (X := call_log) (C := unit) (H := HSnapshot) (K := layer) (HH := exact_histogram) (KK := layer_koanf) (FM := coarse_math)
    naming_codecs in_key_order map_to_list (fun _ => PorcUnknown) {[ BackendCompose := sample_provisioner ]} [] ClientInfo_zero
    "/tmp/assets"%string "7"%string [] sample_engine (sample_flags 1) sample_process w') as (fs1 & r & ty & H1 & _ & H3 & H4).
  - apply (bool_decide_unpack _). vm_compute. exact I.
  - cbn. lia.
  - intros start q. apply relative_results; done.
  - apply (bool_decide_unpack _). vm_compute. exact I.
  - exact sample_files_sound.
  - exact E.
  - exists fs1, r, ty. split_and!; [exact H1|exact H3|exact H4].
Defined.
