(* ===== verification/Fleet.v ===== *)
(** * Fleet: the worker processes of a distributed run (core/cli/distributed.go)

    [doWorker] against a coordinator: what it has handed in when it succeeds; and, when
    the coordinator returns what such workers handed in, what the merged result says of
    the load of all of them. *)

From Stdlib Require Import Ascii String SpecFloat.
From S2P Require Import Schedule Rand Prelude Domain Strconv Ftoa Timefmt Checksum Workload Metrics Expect Driver Reconcile History.
From S2P Require Import Config Runner Nemesis Coordinator Worker Distributed Engine Targets Provision Emit Export Rundir Report Warehouse Cli Release Results.

Local Open Scope Z_scope.
Local Open Scope cli_scope.

Abbreviation result := Prelude.result (only parsing).

(** ** Commands taken apart *)

Section inversion.
Context {X : Type}.
Implicit Types w : cli X.

Lemma bind_ok {A B} (m : M X A) (f : A -> M X B) w w' ds b :
  bind m f w = (w', ds, Ok b) ->
  exists w1 ds1 a ds2, m w = (w1, ds1, Ok a) /\ f a w1 = (w', ds2, Ok b) /\ ds = ds2 ++ ds1.
Proof.
  unfold bind. destruct (m w) as [[w1 ds1] [a|e]]; [|done]. destruct (f a w1) as [[w2 ds2] r] eqn:E.
  intros [= <- <- ->]. by exists w1, ds1, a, ds2.
Qed.

(** A deferred call that leaves the outside world alone. *)
Definition local_call (d : cli X -> cli X) : Prop := forall w, cl_x (d w) = cl_x w.

(** A step that does, its deferred calls included. *)
Definition local_step {A} (m : M X A) : Prop :=
  forall w, let '(w', ds, r) := m w in cl_x w' = cl_x w /\ Forall local_call ds.

Lemma local_run ds w : Forall local_call ds -> cl_x (run_deferred ds w) = cl_x w.
Proof.
  intros Hd. revert w. induction Hd as [|d ds Hd _ IH]; intros w; [done|].
  change (cl_x (run_deferred ds (d w)) = cl_x w). by rewrite IH.
Qed.

Lemma local_ok {A} (m : M X A) w w' ds a : local_step m -> m w = (w', ds, Ok a) -> cl_x w' = cl_x w /\ Forall local_call ds.
Proof. intros Hm E. specialize (Hm w). by rewrite E in Hm. Qed.

Lemma local_bind {A B} (m : M X A) (f : A -> M X B) : local_step m -> (forall a, local_step (f a)) -> local_step (bind m f).
Proof.
  intros Hm Hf w. specialize (Hm w). unfold bind. destruct (m w) as [[w1 ds1] [a|e]]; [|done]. destruct Hm as [H1 H2].
  specialize (Hf a w1). destruct (f a w1) as [[w2 ds2] r]. destruct Hf as [H3 H4]. split; [congruence|by apply Forall_app].
Qed.

Lemma local_ret {A} (a : A) : local_step (ret a).
Proof. by intros w. Qed.
Lemma local_check {A} pre (r : result error A) : local_step (check pre r).
Proof. by destruct r; intros w. Qed.
Lemma local_check_err pre e : local_step (check_err pre e).
Proof. by destruct e; intros w. Qed.
Lemma local_file {A} (g : world -> world * A) : local_step (file g).
Proof. intros w. unfold file. by destruct (g (cl_files w)). Qed.
Lemma local_get {A} (g : cli X -> A) : local_step (get g).
Proof. by intros w. Qed.
Lemma local_effect d : local_call d -> local_step (effect d).
Proof. intros Hd w. by split; [apply Hd|]. Qed.
Lemma local_defer d : local_call d -> local_step (defer d).
Proof. intros Hd w. split; [done|by constructor]. Qed.

Lemma call_ok {A} (g : X -> X * A) w w' ds a : call g w = (w', ds, Ok a) -> g (cl_x w) = (cl_x w', a) /\ ds = [].
Proof. unfold call. destruct (g (cl_x w)) as [x b]. by intros [= <- <- <-]. Qed.

Lemma check_ok {A} pre (r : result error A) w w' ds a : check pre r w = (w', ds, Ok a) -> r = Ok a /\ w' = w /\ ds = [].
Proof. destruct r as [b|e]; cbn; [by intros [= <- <- <-]|done]. Qed.

Lemma check_err_ok pre e w w' ds a : check_err pre e w = (w', ds, Ok a) -> e = None /\ w' = w /\ ds = [].
Proof. destruct e as [e|]; cbn; [done|by intros [= <- <- _]]. Qed.

Lemma get_ok {A} (g : cli X -> A) w w' ds a : get g w = (w', ds, Ok a) -> a = g w /\ w' = w /\ ds = [].
Proof. cbn. by intros [= <- <- <-]. Qed.
End inversion.

Create HintDb local_db discriminated.
#[export] Hint Resolve local_ret local_check local_check_err local_file local_get : local_db.

(** Takes a command apart down to local steps. *)
Ltac locals :=
  cbv zeta;
  lazymatch goal with
  | |- local_step (bind _ _) => apply local_bind; [locals|intros ?; locals]
  | |- local_step (match ?x with _ => _ end) => destruct x; locals
  | |- local_step (effect _) => apply local_effect; intros ?; done
  | |- local_step (defer _) => apply local_defer; intros ?; done
  | |- local_step _ => solve [auto with local_db nocore]
  end.

Section worker_run.
Context {X H K : Type}.
Context {HH : Histogram H} {KK : Koanf K}.
Context {PC : PostCall X} {CJ : ClusterJson} {Sv : Services X H} {Fm : Formats}.
Context (environ : list (string * string)) (assets_dir : string).
Implicit Types w : cli X.

Lemma materialize_local assets : local_step (materialize (X := X) assets_dir assets).
Proof. unfold materialize. locals. Qed.

Lemma run_load_ok pp w w' ds rep rec snaps start :
  run_load (X := X) (H := H) pp w = (w', ds, Ok (rep, rec, snaps, start)) ->
  ds = [] /\ exists began, load pp (cl_nem w) (cl_x w) = (cl_x w', (began, Ok (rep, rec, snaps, start))).
Proof.
  unfold run_load. destruct (load pp (cl_nem w) (cl_x w)) as [x [began [a|e]]]; [|done].
  intros [= <- <- ->]. split; [done|]. exists began. by destruct began.
Qed.

(** What a worker's success means to the coordinator [coord]: it held the slot of an
    answer [a], it drove the specification's load for that slot from the barrier's start
    on, and the submission [req], its report and encoded recorder, is recorded. *)
Definition handed_in (coord : X -> cluster) (spec : RunSpec) (n : Z) (x : X) (req : submitRequest) : Prop :=
  exists a r fs1 nem x1 x2 began rep (rec : Recorder H) snaps start blob,
    a ∈ k_replies (coord x) /\ 0 <= jr_WorkerID a < n /\
    resolve_on (K := K) environ fs1 (assets_options assets_dir (sp_Workload spec) (conf_of <$> workerOverrides spec)) = Ok r /\
    load (worker_params spec r (jr_WorkerID a) (jr_StartAt a)) nem x1 = (x2, (began, Ok (rep, rec, snaps, start))) /\
    c_joinedAll (k_coord (coord x1)) = true /\ jr_StartAt a = c_startAt (k_coord (coord x1)) /\ rtc cluster_step (coord x1) (coord x) /\
    Encode wire rec = Ok blob /\
    req = {| sr_Report := {| wr_WorkerID := jr_WorkerID a; wr_Total := rep_Total rep; wr_Errors := rep_Errors rep;
                             wr_ClientBound := rep_ClientBound rep |};
             sr_Histogram := blob |} /\
    req ∈ k_submitted (coord x).

(** What [materialize] hands out is the directory it made. *)
Lemma materialize_dir assets w w' ds dir :
  materialize (X := X) assets_dir assets w = (w', ds, Ok (Ok dir)) -> dir = assets_dir.
Proof.
  unfold materialize. intros E. apply bind_ok in E as (w1 & d1 & r & d2 & E1 & E & ->).
  assert (Hr : forall d, r = Ok d -> d = assets_dir).
  { unfold file in E1. destruct (MkdirTemp assets_dir (cl_files w)) as [fs a] eqn:Em. injection E1 as _ _ <-.
    intros d ->. by apply MkdirTemp_spec in Em as [-> _]. }
  destruct r as [d|]; [|done]. specialize (Hr d eq_refl). apply bind_ok in E as (? & ? & [] & ? & _ & E & _).
  apply bind_ok in E as (? & ? & [err|] & ? & _ & E & _); [|by injection E as _ _ <-].
  by apply bind_ok in E as (? & ? & ? & ? & _ & E & _).
Qed.

Section against.
Context (coord : X -> cluster) (spec : RunSpec) (n : Z) (coordAddr : string).
Hypothesis net : network (normalizeURL coordAddr) coord.
Hypothesis json : json_faithful spec.
Hypothesis load_steps : forall pp nem x x' r, load (H := H) pp nem x = (x', r) -> rtc cluster_step (coord x) (coord x').

Lemma doWorker_body_hands_in (e : Engine X) id w w' ds :
  rtc cluster_step (cluster_init spec n) (coord (cl_x w)) ->
  doWorker_body (H := H) (K := K) environ assets_dir e coordAddr id w = (w', ds, Ok tt) ->
  (exists req, handed_in coord spec n (cl_x w') req) /\ rtc cluster_step (coord (cl_x w)) (coord (cl_x w')) /\ Forall local_call ds.
Proof.
  intros Hk E. unfold doWorker_body in E.
  apply bind_ok in E as (w1 & d1 & [] & d1' & E1 & E & ->). apply local_ok in E1 as [X1 D1]; [|apply local_effect; by intros ?].
  apply bind_ok in E as (w2 & d2 & [] & d2' & E2 & E & ->). apply local_ok in E2 as [X2 D2]; [|apply local_defer; by intros ?].
  apply bind_ok in E as (w3 & d3 & [wk joined] & d3' & E3 & E & ->). apply call_ok in E3 as [E3 ->].
  rewrite X2, X1 in E3. destruct (Worker.Join (NewWorker coordAddr id) (cl_x w)) as [[x3 wk'] res] eqn:Ej. injection E3 as -> <- <-.
  apply bind_ok in E as (w4 & d4 & [spec' t0] & d4' & E4 & E & ->). apply check_ok in E4 as (-> & -> & ->).
  destruct (Join_known coord spec n json _ (NewWorker coordAddr id) _ _ _ _ _ net eq_refl Hk Ej)
    as (Hs & Hu & -> & Ho & -> & Hid & Hjoined & r & Hin & Hr & _). cbv zeta in E.
  apply bind_ok in E as (w5 & d5 & [] & d5' & E5 & E & ->). apply local_ok in E5 as [X5 D5]; [|apply local_effect; by intros ?].
  apply bind_ok in E as (w6 & d6 & dir & d6' & E6 & E & ->). pose proof E6 as Hdir. apply local_ok in E6 as [X6 D6]; [|apply materialize_local].
  apply bind_ok in E as (w7 & d7 & dir' & d7' & E7 & E & ->). apply check_ok in E7 as (-> & -> & ->). apply materialize_dir in Hdir as ->.
  apply bind_ok in E as (w8 & d8 & [] & d8' & E8 & E & ->). apply local_ok in E8 as [X8 D8]; [|apply local_defer; by intros ?].
  apply bind_ok in E as (w9 & d9 & res & d9' & E9 & E & ->). apply get_ok in E9 as (-> & -> & ->).
  apply bind_ok in E as (w10 & d10 & rv & d10' & E10 & E & ->). apply check_ok in E10 as (Hrv & -> & ->).
  apply bind_ok in E as (w11 & d11 & [[[rep rec] snaps] start] & d11' & E11 & E & ->). apply run_load_ok in E11 as [-> [began Hl]].
  apply bind_ok in E as (w12 & d12 & blob & d12' & E12 & E & ->). apply check_ok in E12 as (Hb & -> & ->).
  apply bind_ok in E as (w13 & d13 & err & d13' & E13 & E & ->). apply call_ok in E13 as [E13 ->].
  apply bind_ok in E as (w14 & d14 & [] & d14' & E14 & E & ->). apply check_err_ok in E14 as (-> & -> & ->).
  apply local_ok in E as [X15 D15]; [|apply local_effect; by intros ?].
  rewrite X8, X6, X5 in Hl. rewrite X15. pose proof (load_steps _ _ _ _ _ Hl) as Hsteps.
  assert (Hreach : rtc cluster_step (cluster_init spec n) (coord (cl_x w11))) by (by transitivity (coord (cl_x w)); [|transitivity (coord (cl_x w3))]).
  apply (Submit_known coord spec n json _ wk' r _ _ _ _ _ net Hu Hreach) in E13 as (Hsub & Hrec & _);
    [|by apply (cluster_mono _ _ Hsteps)|by rewrite Hr].
  assert (Hall : rtc cluster_step (coord (cl_x w3)) (coord (cl_x w13))) by (by transitivity (coord (cl_x w11))).
  split; [|split; [|rewrite ?Forall_app; by split_and!]].
  2: { transitivity (coord (cl_x w3)); [done|]. by transitivity (coord (cl_x w13)). }
  assert (Hw3 : rtc cluster_step (cluster_init spec n) (coord (cl_x w3))) by (by transitivity (coord (cl_x w))).
  destruct (reply_known spec n _ _ Hw3 Hin) as (_ & Hstart & _ & _ & _).
  eexists. exists r, rv, (cl_files w8), (cl_nem w8), (cl_x w3), (cl_x w11), began, rep, rec, snaps, start, blob.
  rewrite Hr, Hstart. split_and!; [by apply (cluster_mono _ _ Hall)|lia|lia| |done|done|done|done|done|reflexivity|exact (Hrec eq_refl)].
  done.
Qed.
End against.
End worker_run.

(** ** The workers together *)

Lemma add_reports_range l rep :
  is_i64 (rep_Total rep) -> is_i64 (rep_Errors rep) ->
  is_i64 (rep_Total (foldl add_report rep l)) /\ is_i64 (rep_Errors (foldl add_report rep l)).
Proof. revert rep. induction l as [|w l IH]; intros rep H1 H2; [done|]. apply IH; apply wrap64_range. Qed.

(** The counts of the reports add up to those of the joined lists. *)
Lemma counts_join {A} (f : list A -> Z) (ls : list (list A)) ns acc :
  f [] = 0 -> (forall a b, f (a ++ b) = f a + f b) -> Forall2 (fun l n => n = wrap64 (f l)) ls ns ->
  wrap64 (acc + zsum ns) = wrap64 (acc + f (mjoin ls)).
Proof.
  intros H0 Happ Hall. revert acc. induction Hall as [|l n ls ns -> _ IH]; intros acc; [cbn; by rewrite H0|].
  change (mjoin (l :: ls)) with (l ++ mjoin ls). rewrite Happ. cbn [zsum].
  transitivity (wrap64 (wrap64 (f l) + (acc + zsum ns))); [f_equal; lia|]. rewrite wrap64_add_l.
  transitivity (wrap64 ((acc + f l) + zsum ns)); [f_equal; lia|]. rewrite IH. f_equal. lia.
Qed.

Section fleet.
Context {X W C R H K : Type} {HR : Rng R} {HH : Histogram H} {HL : HistogramLaws H} {Drv : Driver W C} {KK : Koanf K}.
Context {Sv : Services X H} {Fm : Formats}.
Context (environ : list (string * string)) (assets_dir : string).

Local Abbreviation outcome := (gstate W C (generator R) scheduler (Local H) recording).

(** [g] is how the run of a worker ended that drove the slot [id] and began its load
    no earlier than [startAt]. *)
Definition slot_run (spec : RunSpec) (startAt id : Z) (g : outcome) : Prop :=
  exists fs r t wake start base steps w w' rep (rec : Recorder H),
    resolve_on (K := K) environ fs (assets_options assets_dir (sp_Workload spec) (conf_of <$> workerOverrides spec)) = Ok r /\
    drive (worker_params spec r id startAt) t wake start base steps w w' (Ok (rep, rec, g)) /\
    (startAt <> zero_time -> startAt <= start).

(** [req] is what that worker submits. *)
Definition slot_submission (id : Z) (g : outcome) (req : submitRequest) : Prop :=
  wr_WorkerID (sr_Report req) = id /\
  encodes wire (r_high (NewRecorder (H := H) 0 0)) (r_sig (NewRecorder (H := H) 0 0)) (sr_Histogram req) (event_of <$> all_ops g) /\
  wr_Total (sr_Report req) = wrap64 (Z.of_nat (length (event_of <$> all_ops g))) /\
  wr_Errors (sr_Report req) = wrap64 (fails (event_of <$> all_ops g)).

(** The load of a command is a run of the engine. *)
Definition load_drives : Prop :=
  forall pp nem x x' began rep rec snaps start, load (H := H) pp nem x = (x', (began, Ok (rep, rec, snaps, start))) ->
    exists t wake from base steps w w' (g : outcome), drive (H := H) pp t wake from base steps w w' (Ok (rep, rec, g)).

Lemma handed_in_run coord spec n x k req :
  load_drives -> rtc cluster_step (cluster_init spec n) (coord x) -> rtc cluster_step (coord x) k ->
  handed_in (H := H) (K := K) environ assets_dir coord spec n x req ->
  exists g, slot_run spec (c_startAt (k_coord k)) (wr_WorkerID (sr_Report req)) g /\
    slot_submission (wr_WorkerID (sr_Report req)) g req.
Proof.
  intros Hl Hx Hk (a & r & fs1 & nem & x1 & x2 & began & rep & rec & snaps & start & blob & Ha & _ & Hr & Hload & _ & _ & _ & Hb & -> & _).
  assert (Hk' : rtc cluster_step (cluster_init spec n) k) by (by transitivity (coord x)).
  apply (cluster_mono _ _ Hk) in Ha. destruct (reply_known _ _ _ _ Hk' Ha) as (_ & Hst & _).
  apply Hl in Hload as (t & wake & from & base & steps & w & w' & g & Hd). cbn [sr_Report wr_WorkerID].
  exists g. split.
  { exists fs1, r, t, wake, from, base, steps, w, w', rep, rec. rewrite <- Hst. split; [done|]. split; [done|].
    inversion Hd; subst. by eapply (begins_after (worker_params _ _ _ _)). }
  apply drive_session in Hd as (Hs & Ht & He). unfold slot_submission. cbn [sr_Report sr_Histogram wr_WorkerID wr_Total wr_Errors].
  rewrite length_fmap. split_and!; [done|by exists rec|done|done].
Qed.

(** What the coordinator returns belongs to the workers, slot by slot. *)
Lemma complete_runs (coord : X -> cluster) spec n k res :
  load_drives -> rtc cluster_step (cluster_init spec n) k -> k_serve k = Returned res None ->
  (forall req, req ∈ k_submitted k ->
     exists x, rtc cluster_step (cluster_init spec n) (coord x) /\ rtc cluster_step (coord x) k /\
       handed_in (H := H) (K := K) environ assets_dir coord spec n x req) ->
  exists gs : list outcome, Forall2 (fun id g => slot_run spec (c_startAt (k_coord k)) id g) (seqZ 0 n) gs /\
    Forall2 (encodes wire (r_high (NewRecorder (H := H) 0 0)) (r_sig (NewRecorder (H := H) 0 0)))
      (res_Histograms res) ((fun g => event_of <$> all_ops g) <$> gs) /\
    Forall2 (fun evs rep => wr_Total rep = wrap64 (Z.of_nat (length evs)) /\ wr_Errors rep = wrap64 (fails evs))
      ((fun g => event_of <$> all_ops g) <$> gs) (res_Reports res).
Proof.
  intros Hl Hk Hret Hsub. destruct (cinv_reach _ _ _ Hk) as [_ _ _ _ _ _ _ _ Hserve]. rewrite Hret in Hserve.
  destruct Hserve as (L1 & L2 & Hi).
  assert (Hall : Forall (fun id => exists g : outcome, slot_run spec (c_startAt (k_coord k)) id g /\ exists req,
    res_Reports res !! Z.to_nat id = Some (sr_Report req) /\ res_Histograms res !! Z.to_nat id = Some (sr_Histogram req) /\
    slot_submission id g req) (seqZ 0 n)).
  { apply Forall_forall. intros id Hid%elem_of_seqZ. destruct (Hi (Z.to_nat id) ltac:(lia)) as (req & Hin & Eid & H1 & H2).
    rewrite Z2Nat.id in Eid by lia. destruct (Hsub req Hin) as (x & Hx & Hxk & Hh).
    apply (handed_in_run coord spec n x k req Hl Hx Hxk) in Hh as (g & Hg & Hreq). rewrite Eid in Hg, Hreq. exists g. eauto. }
  apply Forall_exists_Forall2_l in Hall as [gs Hgs]. exists gs. pose proof (Forall2_length _ _ _ Hgs) as Hlen. rewrite length_seqZ in Hlen.
  assert (Hat : forall i g, gs !! i = Some g -> exists req, res_Reports res !! i = Some (sr_Report req) /\
    res_Histograms res !! i = Some (sr_Histogram req) /\ slot_submission (Z.of_nat i) g req).
  { intros i g Hg. assert (Hlt : (i < Z.to_nat n)%nat) by (rewrite Hlen; by eapply lookup_lt_Some).
    destruct (Forall2_lookup_r _ _ _ _ _ Hgs Hg) as (id & Hid & _ & Hreq). apply lookup_seqZ in Hid as [-> _].
    rewrite Z.add_0_l, Nat2Z.id in Hreq. exact Hreq. }
  split_and!; [by apply (Forall2_impl _ _ _ _ Hgs); intros ? ? []|..]; apply Forall2_same_length_lookup; (split; [rewrite length_fmap; lia|]).
  - intros i b evs Hb He. rewrite list_lookup_fmap in He. destruct (gs !! i) as [g|] eqn:Eg; [|done]. injection He as <-.
    destruct (Hat i g Eg) as (req & _ & Hh & _ & Henc & _). rewrite Hb in Hh. injection Hh as ->. exact Henc.
  - intros i evs rep He Hb. rewrite list_lookup_fmap in He. destruct (gs !! i) as [g|] eqn:Eg; [|done]. injection He as <-.
    destruct (Hat i g Eg) as (req & Hh & _ & _ & _ & Ht). rewrite Hb in Hh. injection Hh as ->. exact Ht.
Qed.
End fleet.

(** C19: a distributed run from its workers' load to the merged result.  When the
    coordinator returns, and what it accepted was handed in by worker processes that
    succeeded, there was one run of the engine per slot, each of the specification's
    load for that slot, none begun before the one start of the barrier; merging succeeds; the
    merged recorder is, in every snapshot, the single recorder fed the measured calls of
    all those runs; and the merged report counts these calls and their errors. *)
Theorem fleet_exact {X W C R H K : Type} {HR : Rng R} {HH : Histogram H} {HL : HistogramLaws H} {Drv : Driver W C} {KK : Koanf K}
    {Sv : Services X H} {Fm : Formats} (environ : list (string * string)) (assets_dir : string) (coord : X -> cluster) spec n k res :
  load_drives (X := X) (W := W) (C := C) (R := R) (H := H) -> (forall env, unwire (wire env) = Some env) -> 0 < n ->
  rtc cluster_step (cluster_init spec n) k -> k_serve k = Returned res None ->
  (forall req, req ∈ k_submitted k ->
     exists x, rtc cluster_step (cluster_init spec n) (coord x) /\ rtc cluster_step (coord x) k /\
       handed_in (H := H) (K := K) environ assets_dir coord spec n x req) ->
  exists (gs : list (gstate W C (generator R) scheduler (Local H) recording)) merged report,
    Forall2 (fun id g => slot_run (K := K) environ assets_dir spec (c_startAt (k_coord k)) id g) (seqZ 0 n) gs /\
    mergeResults unwire res = Ok (merged, report) /\
    let calls := event_of <$> mjoin (all_ops <$> gs) in
    (forall phase dur, Snapshot merged phase dur = Snapshot (run_actions (NewRecorder 0 0) (NewL :: map (Rec 0) calls)) phase dur) /\
    rep_Total report = wrap64 (Z.of_nat (length calls)) /\ rep_Errors report = wrap64 (fails calls).
Proof.
  intros Hl Hw Hn Hk Hret Hsub.
  destruct (complete_runs environ assets_dir coord spec n k res Hl Hk Hret Hsub) as (gs & Hgs & Henc & Hrep).
  assert (Hj : event_of <$> mjoin (all_ops <$> gs) = mjoin ((fun g => event_of <$> all_ops g) <$> gs)).
  { clear. induction gs as [|g gs IH]; [done|]. by rewrite !fmap_cons, !join_cons, fmap_app, IH. }
  assert (Hne : res_Histograms res <> []).
  { intros E. rewrite E in Henc. apply Forall2_length in Henc, Hgs. rewrite length_fmap in Henc. rewrite length_seqZ in Hgs. cbn in Henc. lia. }
  assert (Hsig : 1 <= r_sig (NewRecorder (H := H) 0 0) <= 5) by (by vm_compute).
  destruct (mergeResults_ok wire unwire Hw _ _ Hsig res _ Hne Henc) as (m & E & Hm).
  exists gs, m, (foldl add_report RunReport_zero (res_Reports res)). split; [exact Hgs|]. split; [exact E|]. cbv zeta. rewrite Hj.
  destruct (add_reports_spec (res_Reports res) RunReport_zero) as (Et & Ee & _).
  destruct (add_reports_range (res_Reports res) RunReport_zero) as [Rt Re]; [by split..|].
  split_and!.
  - intros phase dur. by destruct (session_snapshot _ _ (NewRecorder_high (H := H) 0 0) _ _ _ phase dur Hm (recorded_session 0 0 _)).
  - rewrite <- (wrap64_id _ Rt), Et. refine (counts_join (fun l => Z.of_nat (length l)) _ _ 0 _ _ _); [done|intros; rewrite length_app; lia|].
    apply Forall2_fmap_r. by apply (Forall2_impl _ _ _ _ Hrep); intros ? ? [].
  - rewrite <- (wrap64_id _ Re), Ee. refine (counts_join fails _ _ 0 _ _ _); [done|apply fails_app|].
    apply Forall2_fmap_r. by apply (Forall2_impl _ _ _ _ Hrep); intros ? ? [].
Qed.

(** C20: a worker process that succeeds against a coordinator, others and the
    coordinator's service running in between.  It held a slot of its own in range; it
    drove the load of the coordinator's specification, its endpoints, durations and
    share of the rate included, for that slot and that many workers, from the barrier's
    start on; and the coordinator, still in a state its steps lead to, has recorded under
    that slot the totals of that very load and its encoded recorder. *)
Theorem doWorker_hands_in {X H K : Type} {HH : Histogram H} {KK : Koanf K}
    {PC : PostCall X} {CJ : ClusterJson} {Sv : Services X H} {Fm : Formats}
    (environ : list (string * string)) (assets_dir : string) (coord : X -> cluster) spec n coordAddr (e : Engine X) id w w' :
  network (normalizeURL coordAddr) coord -> json_faithful spec ->
  (forall pp nem x x' r, load (H := H) pp nem x = (x', r) -> rtc cluster_step (coord x) (coord x')) ->
  rtc cluster_step (cluster_init spec n) (coord (cl_x w)) ->
  doWorker (H := H) (K := K) environ assets_dir e coordAddr id w = (w', Ok tt) ->
  rtc cluster_step (cluster_init spec n) (coord (cl_x w')) /\
  exists req, handed_in (H := H) (K := K) environ assets_dir coord spec n (cl_x w') req.
Proof.
  intros Hn Hj Hl Hk. unfold doWorker, scope.
  destruct (doWorker_body environ assets_dir e coordAddr id w) as [[w1 ds] res] eqn:E. intros [= <- ->].
  apply (doWorker_body_hands_in environ assets_dir coord spec n coordAddr Hn Hj Hl e id) in E as (Hh & Hs & Hd); [|done].
  assert (Ex : cl_x (foldl (fun w d => d w) w1 ds) = cl_x w1) by by apply (local_run ds).
  rewrite Ex. split; [by transitivity (coord (cl_x w))|exact Hh].
Qed.

(** ** A cluster of one worker, from its load to the result *)

#[local] Existing Instance map_driver.
#[local] Existing Instance coarse_histogram.
#[local] Existing Instance coarse_histogram_laws.
#[local] Existing Instance layer_koanf.

#[local] Instance wireEnvelope_eq_dec : EqDecision wireEnvelope.
Proof. solve_decision. Defined.

(** The envelope of eight reads, which has a short name on the wire. *)
Definition eight_reads : wireEnvelope :=
  let h := match h_Encode {| hs_Lowest := 1; hs_Highest := defaultMaxLatency; hs_SigFigs := 3; hs_Counts := [8] |} with Ok b => b | Err e => e end in
  {| env_High := defaultMaxLatency; env_Sig := 3; env_Overall := h; env_ByOp := {[ "read"%string := h ]};
     env_ErrByOp := Some ∅; env_ErrTotal := 0 |}.

Definition short_wire (env : wireEnvelope) : string := if decide (env = eight_reads) then "8" else String "-" (sample_wire env).

Definition short_unwire (b : string) : option wireEnvelope :=
  match b with String "-" b => sample_unwire b | _ => Some eight_reads end.

Lemma short_unwire_wire env : short_unwire (short_wire env) = Some env.
Proof. unfold short_wire. case_decide as E; [by rewrite E|]. apply sample_unwire_wire. Qed.

#[local] Instance fleet_formats : Formats := {|
  parse_target := parse_target (Formats := sample_formats);
  parse_workload := parse_workload (Formats := sample_formats);
  parse_faults := parse_faults (Formats := sample_formats);
  c_timeline := c_timeline (Formats := sample_formats);
  unmarshal_record := unmarshal_record (Formats := sample_formats);
  unmarshal_event := unmarshal_event (Formats := sample_formats);
  unwire := short_unwire;
  wire := short_wire;
  line_error := line_error (Formats := sample_formats);
  rfc3339 := rfc3339 (Formats := sample_formats)
|}.

Local Abbreviation map_state := (gstate map_world unit (generator PCG) scheduler (Local HSnapshot) recording).

(** Four connections, a second late on their first calls; each completes two. *)
Definition slot_moves : list move :=
  let all n := mjoin ((fun _ => [MRun 0 false; MRun 1 false; MRun 2 false; MRun 3 false]) <$> seq 0 n) in
  MTick second :: all 20%nat ++ [MExpire] ++ all 1%nat.

Definition slot_recorder (g : map_state) : Recorder HSnapshot :=
  {| r_high := r_high (NewRecorder (H := HSnapshot) 0 0); r_sig := r_sig (NewRecorder (H := HSnapshot) 0 0);
     r_locals := omap ws_sink (g_workers g); r_prevSnap := ∅; r_prevErr := ∅ |}.

Definition run_slot (pp : driveParams) : option (RunReport * Recorder HSnapshot * map_state) :=
  match Workload.New (dp_workload pp) (dp_seed pp) (dp_workerID pp) (drive_count pp) with
  | Err _ => None
  | Ok fa =>
      match validate (drive_deps (H := HSnapshot) (R := PCG) (W := map_world) (C := unit) pp fa (dp_startAt pp)) (drive_options pp),
            connectAll (W := map_world) (dp_cfg pp) (dp_workload pp) (dp_connections pp) (0, ∅) with
      | None, (w1, Ok conns) =>
          g ← Runner.exec (dp_startAt pp + dp_warmup pp) (drive_starts pp fa (dp_startAt pp) (dp_startAt pp) w1 conns) slot_moves;
          if forallb has_exited (g_workers g)
          then Some (report (g_acc g) (g_now g) (dp_startAt pp + dp_warmup pp) (drive_options pp), slot_recorder g, g) else None
      | _, _ => None
      end
  end.

Lemma run_slot_drives pp rep rec g :
  run_slot pp = Some (rep, rec, g) ->
  exists w', drive (R := PCG) (H := HSnapshot) pp (dp_startAt pp) Cancelled (dp_startAt pp) (dp_startAt pp) (length slot_moves) (0, ∅) w' (Ok (rep, rec, g)).
Proof.
  unfold run_slot. destruct (Workload.New _ _ _ _) as [fa|e] eqn:Ef; [|done].
  destruct (validate _ _) eqn:Ev; [done|]. destruct (connectAll _ _ _ _) as [w1 [conns|e]] eqn:Ec; [|done].
  intros (g' & Eg & H)%bind_Some. destruct (forallb _ _) eqn:Ex; [|done]. injection H as <- <- <-. eexists.
  apply (drive_done pp _ _ _ _ _ _ fa w1 conns g'); try done.
  - unfold begins, waited, WaitUntil. rewrite Z.leb_refl, time_sub_id, Z.sub_diag by (unfold is_i64; lia). case_match; [done|]. split; [by eexists|done].
  - by apply exec_steps.
  - apply Forall_forall. intros ws Hws%list_elem_of_In. rewrite forallb_forall in Ex. specialize (Ex ws Hws). unfold has_exited in Ex.
    by destruct (ws_pc ws).
Qed.

#[local] Instance slot_services : Services cluster HSnapshot := {|
  load pp _ k :=
    (k, (true, match run_slot pp with
               | Some (rep, rec, _) => Ok (rep, rec, [], dp_startAt pp)
               | None => Err DriveCancelled
               end));
  faults_end _ k := (k, []);
  serve _ _ _ k := (k, (""%string, Err "no listener"%string))
|}.

Lemma slot_services_drive : load_drives (X := cluster) (W := map_world) (C := unit) (R := PCG) (H := HSnapshot).
Proof.
  intros pp nem x x' began rep rec snaps start E. injection E as <- _ E. destruct (run_slot pp) as [[[rep' rec'] g]|] eqn:Er; [|done].
  injection E as <- <- _ _. apply run_slot_drives in Er as [w' Hd]. by eexists _, _, _, _, _, _, _, g.
Qed.

Definition worker_engine : Engine cluster := {|
  e_Name := "redis";
  e_Assets := [ADir "."; AFile "target.yaml" (Ok []); ADir "workloads"; AFile "workloads/kv.yaml" (Ok [])];
  e_Schema _ _ k := (k, None);
  e_Verifier := None;
  e_Cluster := None
|}.

(** The worker is alone in its cluster. *)
Definition worker_process : cli cluster :=
  {| cl_x := cluster_init sample_run_spec 1; cl_files := sample_files; cl_nem := no_nemesis; cl_timeline := []; cl_held := []; cl_out := [] |}.

Definition worker_sample : cli cluster * result failure unit :=
  doWorker (H := HSnapshot) (K := layer) [] "/tmp/assets" worker_engine "10.0.0.1:8677/" (-1) worker_process.

Lemma worker_sample_result : worker_sample.2 = Ok tt.
Proof. vm_compute. reflexivity. Qed.

Lemma doWorker_hands_in_witness :
  worker_sample.2 = Ok tt /\
  (exists req, handed_in (H := HSnapshot) (K := layer) [] "/tmp/assets" id sample_run_spec 1 (cl_x worker_sample.1) req) /\
  (fun r => (wr_WorkerID (sr_Report r), wr_Total (sr_Report r), wr_Errors (sr_Report r))) <$> k_submitted (cl_x worker_sample.1) = [(0, 8, 0)].
Proof.
  pose proof worker_sample_result as Hres. split; [exact Hres|]. split; [|vm_compute; reflexivity].
  destruct worker_sample as [w' res] eqn:E. cbn [fst snd] in Hres |- *. subst res.
  apply (doWorker_hands_in [] "/tmp/assets" id sample_run_spec 1 "10.0.0.1:8677/" worker_engine (-1) worker_process w').
  - exact sample_network.
  - exact sample_json_faithful.
  - intros pp nem x x' r [= <- _]. apply rtc_refl.
  - apply rtc_refl.
  - exact E.
Defined.

(** The coordinator once it has served. *)
Definition served (k : cluster) : cluster :=
  {| k_coord := close_stop (k_coord k); k_waiting := k_waiting k; k_assigned := k_assigned k;
     k_replies := k_replies k; k_submitted := k_submitted k;
     k_serve := Returned (Coordinator.result (close_stop (k_coord k))) None |}.

Lemma served_reach k : k_serve k = Serving -> c_submittedAll (k_coord k) = true -> rtc cluster_step k (served k).
Proof.
  intros Hs Ha. eapply rtc_l; [by apply (k_serve_select k None)|].
  apply rtc_once. refine (k_serve_return _ None _). reflexivity.
Qed.

Definition fleet_cluster : cluster := cl_x worker_sample.1.

Lemma fleet_handed :
  rtc cluster_step (cluster_init sample_run_spec 1) fleet_cluster /\
  exists req, handed_in (H := HSnapshot) (K := layer) [] "/tmp/assets" id sample_run_spec 1 fleet_cluster req.
Proof.
  pose proof worker_sample_result as Hres. unfold fleet_cluster, worker_sample, doWorker, scope in *.
  destruct (doWorker_body [] "/tmp/assets" worker_engine "10.0.0.1:8677/" (-1) worker_process) as [[w1 ds] res] eqn:E.
  cbn [fst snd] in *. subst res.
  apply (doWorker_body_hands_in [] "/tmp/assets" id sample_run_spec 1 "10.0.0.1:8677/" sample_network sample_json_faithful) in E as (Hh & Hs & Hd);
    [|by intros pp nem x x' r [= <- _]|apply rtc_refl].
  assert (Ex : cl_x (foldl (fun w d => d w) w1 ds) = cl_x w1) by by apply (local_run ds).
  rewrite Ex. split; [exact Hs|exact Hh].
Qed.

Lemma fleet_submitted req : req ∈ k_submitted fleet_cluster ->
  handed_in (H := HSnapshot) (K := layer) [] "/tmp/assets" id sample_run_spec 1 fleet_cluster req.
Proof.
  destruct fleet_handed as [_ [req' Hh]]. pose proof Hh as (? & ? & ? & ? & ? & ? & ? & ? & ? & ? & ? & ? & _ & _ & _ & _ & _ & _ & _ & _ & _ & Hin).
  assert (Hlen : length (k_submitted fleet_cluster) = 1%nat) by (vm_compute; reflexivity). unfold id in Hin.
  destruct (k_submitted fleet_cluster) as [|q [|? ?]]; try done. apply list_elem_of_singleton in Hin as <-.
  by intros ->%list_elem_of_singleton.
Qed.

(** Eight calls. *)
Lemma fleet_exact_witness :
  exists (gs : list map_state) merged report, length gs = 1%nat /\
    mergeResults short_unwire (Coordinator.result (close_stop (k_coord fleet_cluster))) = Ok (merged, report) /\
    let calls := event_of <$> mjoin (all_ops <$> gs) in
    Snapshot merged PhaseMeasure second = Snapshot (run_actions (NewRecorder 0 0) (NewL :: map (Rec 0) calls)) PhaseMeasure second /\
    rep_Total report = wrap64 (Z.of_nat (length calls)) /\ rep_Total report = 8.
Proof.
  pose proof (proj1 fleet_handed) as Hreach. pose proof fleet_submitted as Hsub.
  assert (Hserve : k_serve fleet_cluster = Serving) by (vm_compute; reflexivity).
  assert (Hdone : c_submittedAll (k_coord fleet_cluster) = true) by (vm_compute; reflexivity).
  assert (Hr : match mergeResults short_unwire (Coordinator.result (close_stop (k_coord fleet_cluster))) with Ok mr => rep_Total mr.2 | Err _ => 0 end = 8)
    by (vm_compute; reflexivity).
  revert Hreach Hsub Hserve Hdone Hr. generalize fleet_cluster. intros k Hreach Hsub Hserve Hdone Hr.
  pose proof (served_reach k Hserve Hdone) as Hs.
  destruct (fleet_exact (X := cluster) (W := map_world) (C := unit) (R := PCG) (H := HSnapshot) (K := layer) (Sv := slot_services) (Fm := fleet_formats)
    [] "/tmp/assets" id sample_run_spec 1 (served k) (Coordinator.result (close_stop (k_coord k)))
    slot_services_drive short_unwire_wire eq_refl ltac:(exact (transitivity Hreach Hs)) eq_refl) as (gs & merged & report & Hgs & Em & Hsnap & Ht & _).
  { intros req Hin. exists k. split_and!; [exact Hreach|exact Hs|exact (Hsub req Hin)]. }
  exists gs, merged, report. split; [by apply Forall2_length in Hgs|]. split; [exact Em|]. split; [apply Hsnap|]. split; [exact Ht|].
  change (mergeResults short_unwire (Coordinator.result (close_stop (k_coord k))) = Ok (merged, report)) in Em. by rewrite Em in Hr.
Defined.
